(** * SimpleVox: VAD state machine, MFCC container and DTW distance

    A shallow embedding of the numeric core of the SimpleVox library
    (simplevox_vad.cpp, simplevox_mfcc.cpp, detail/simplevox_dtw.h,
    simplevox_dtw.cpp) together with the properties its specification
    states about it.

    Conventions.
    - A C++ [int] is a [Z].  An [int] operation whose mathematical result
      leaves the 32-bit range has no defined behaviour in C++; it yields
      [None] here, and so does every other undefined operation (division
      by zero, an out-of-bounds access, a float-to-integer conversion whose
      truncated value the destination type cannot hold).
    - [uint32_t] arithmetic wraps modulo 2^32; a store of an [int] into an
      [int16_t] keeps the value modulo 2^16, read as signed.
    - [float] is IEEE binary32, computed with the Standard Library's
      executable specification of floating point ([SpecFloat]) at
      precision 24 and exponent bound 128, rounding to nearest even;
      [double] is IEEE binary64, at precision 53 and exponent bound 1024. *)

From Stdlib Require Import ZArith List Bool Lia SpecFloat Reals Lra.
From stdpp Require Import base option list gmap strings.
From coqutil Require Import Byte Word.LittleEndianList.
Import ListNotations.
Local Open Scope Z_scope.

(** ** Machine integers *)

Module CInt.

Definition INT32_MIN : Z := -2147483648.
Definition INT32_MAX : Z := 2147483647.
Definition UINT32_MAX : Z := 4294967295.
Definition INT16_MIN : Z := -32768.
Definition INT16_MAX : Z := 32767.

Definition in_int (z : Z) : bool := (INT32_MIN <=? z) && (z <=? INT32_MAX).

(** The value of a signed expression, when it is representable. *)
Definition int_of (z : Z) : option Z := if in_int z then Some z else None.

Definition add (a b : Z) : option Z := int_of (a + b).
Definition sub (a b : Z) : option Z := int_of (a - b).
Definition mul (a b : Z) : option Z := int_of (a * b).

(** C++ division truncates towards zero; dividing by zero is undefined. *)
Definition div (a b : Z) : option Z :=
  if b =? 0 then None else int_of (Z.quot a b).

(** Unsigned 32-bit wrap-around. *)
Definition u32 (z : Z) : Z := z mod 2 ^ 32.

(** Conversion to [int16_t]: the value modulo 2^16, read as signed. *)
Definition i16 (z : Z) : Z := (z + 2 ^ 15) mod 2 ^ 16 - 2 ^ 15.

(** Conversion to [int32_t] of a 32-bit pattern. *)
Definition i32 (z : Z) : Z := (z + 2 ^ 31) mod 2 ^ 32 - 2 ^ 31.

Definition in_i16 (z : Z) : bool := (INT16_MIN <=? z) && (z <=? INT16_MAX).

End CInt.

(** ** Loops and arrays *)

Module Loop.

(** A loop body run over a list of indices; an undefined step makes the
    whole loop undefined. *)
Fixpoint foldM {A S : Type} (body : A -> S -> option S) (l : list A) (s : S)
    : option S :=
  match l with
  | [] => Some s
  | a :: l' => s' ← body a s; foldM body l' s'
  end.

(** [for (i = lo; i < hi; i++) body] *)
Definition for_range {S : Type} (lo hi : Z) (body : Z -> S -> option S) (s : S)
    : option S :=
  foldM body (seqZ lo (hi - lo)) s.

(** [a[i]] and [a[i] = x]; an index outside the array is undefined. *)
Definition get {A : Type} (a : list A) (i : Z) : option A :=
  if i <? 0 then None else a !! Z.to_nat i.

Definition set {A : Type} (a : list A) (i : Z) (x : A) : option (list A) :=
  if (0 <=? i) && (i <? Z.of_nat (length a))
  then Some (<[Z.to_nat i := x]> a) else None.

End Loop.

(** ** IEEE binary32 *)

Module F32.

Definition prec : Z := 24.
Definition emax : Z := 128.

Definition float : Type := spec_float.

Definition of_int (z : Z) : float := binary_normalize prec emax z 0 false.

Definition add : float -> float -> float := SFadd prec emax.
Definition sub : float -> float -> float := SFsub prec emax.
Definition mul : float -> float -> float := SFmul prec emax.
Definition div : float -> float -> float := SFdiv prec emax.
Definition sqrt : float -> float := SFsqrt prec emax.
Definition abs : float -> float := SFabs.

(** [__FLT_EPSILON__] = 2^-23 *)
Definition FLT_EPSILON : float := S754_finite false 8388608 (-46).

Definition is_nan (x : float) : bool :=
  match x with S754_nan => true | _ => false end.

Definition is_finite (x : float) : bool :=
  match x with S754_zero _ | S754_finite _ _ _ => true | _ => false end.

(** Comparison of two finite non-zero numbers by value: both mantissas are
    brought to the smaller exponent. *)
Definition compare_finite (s1 : bool) (m1 : positive) (e1 : Z)
    (s2 : bool) (m2 : positive) (e2 : Z) : comparison :=
  let e := Z.min e1 e2 in
  Z.compare (cond_Zopp s1 (Zpos m1) * 2 ^ (e1 - e))
            (cond_Zopp s2 (Zpos m2) * 2 ^ (e2 - e)).

(** IEEE comparison: by value, unordered ([None]) when an operand is NaN. *)
Definition compare (x y : float) : option comparison :=
  match x, y with
  | S754_nan, _ | _, S754_nan => None
  | S754_infinity s1, S754_infinity s2 =>
      Some (if s1 then (if s2 then Eq else Lt) else (if s2 then Gt else Eq))
  | S754_infinity s, _ => Some (if s then Lt else Gt)
  | _, S754_infinity s => Some (if s then Gt else Lt)
  | S754_zero _, S754_zero _ => Some Eq
  | S754_finite s _ _, S754_zero _ => Some (if s then Lt else Gt)
  | S754_zero _, S754_finite s _ _ => Some (if s then Gt else Lt)
  | S754_finite s1 m1 e1, S754_finite s2 m2 e2 =>
      Some (compare_finite s1 m1 e1 s2 m2 e2)
  end.

(** [x < y] *)
Definition ltb (x y : float) : bool :=
  match compare x y with Some Lt => true | _ => false end.

(** The integer obtained by discarding the fractional part; none for an
    infinity or a NaN. *)
Definition trunc (x : float) : option Z :=
  match x with
  | S754_zero _ => Some 0
  | S754_finite s m e =>
      Some (cond_Zopp s (if 0 <=? e then Zpos m * 2 ^ e else Zpos m / 2 ^ (- e)))
  | _ => None
  end.

(** Conversion of a [float] to [int16_t] and to [uint32_t]: truncation,
    undefined when the truncated value is not representable. *)
Definition to_int16 (x : float) : option Z :=
  t ← trunc x; if CInt.in_i16 t then Some t else None.

Definition to_uint32 (x : float) : option Z :=
  t ← trunc x; if (0 <=? t) && (t <=? CInt.UINT32_MAX) then Some t else None.

(** [roundf]: the nearest integer, halfway cases away from zero. *)
Definition roundf (x : float) : float :=
  match x with
  | S754_finite s m e =>
      if 0 <=? e then x
      else
        let q := (2 * Zpos m + 2 ^ (- e)) / 2 ^ (- e + 1) in
        if q =? 0 then S754_zero s else of_int (cond_Zopp s q)
  | _ => x
  end.

(** [mrs] is [N] shifted right by [k] bits: its mantissa is the quotient,
    and its two flags say how the remainder [R] compares with half a unit
    of the last place kept. *)
Definition shr_inv (N k : Z) (mrs : shr_record) : Prop :=
  0 <= shr_m mrs /\
  exists R, N = shr_m mrs * 2 ^ k + R /\ 0 <= R < 2 ^ k /\
            (shr_r mrs = true <-> 2 ^ k <= 2 * R) /\
            (shr_s mrs = true <-> R <> 0 /\ 2 * R <> 2 ^ k).

(** A positive normal number: a mantissa of 24 bits, the exponent between
    [lo] and [hi]. *)
Definition normal24 (x : float) (lo hi : Z) : Prop :=
  exists M E, x = S754_finite false M E /\ 2 ^ 23 <= Z.pos M < 2 ^ 24 /\ lo <= E <= hi.

(** [x] is a normal number of sign [s] whose exponent lies between [lo]
    and [hi] and whose magnitude is [v] up to a relative error of 2^-24. *)
Definition rounds_to (x : float) (s : bool) (v : R) (lo hi : Z) : Prop :=
  exists M E, x = S754_finite s M E /\ 2 ^ 23 <= Z.pos M < 2 ^ 24 /\ lo <= E <= hi /\
    (Rabs (IZR (Z.pos M) * powerRZ 2 E - v) <= v / 16777216)%R.

End F32.

(** ** Arithmetic on [double] (IEEE 754 binary64) *)

Module F64.

Definition prec : Z := 53.
Definition emax : Z := 1024.

Definition float : Type := spec_float.

Definition of_int (z : Z) : float := binary_normalize prec emax z 0 false.

Definition mul : float -> float -> float := SFmul prec emax.
Definition div : float -> float -> float := SFdiv prec emax.

(** [M_PI] = 3.14159265358979323846, as a [double] *)
Definition M_PI : float := S754_finite false 7074237752028440 (-51).

(** Conversion of a [float] to [double], which is exact, and of a
    [double] to [float], which rounds. *)
Definition of_f32 (x : F32.float) : float :=
  match x with
  | S754_finite s m e => binary_normalize prec emax (cond_Zopp s (Zpos m)) e s
  | _ => x
  end.

Definition to_f32 (x : float) : F32.float :=
  match x with
  | S754_finite s m e =>
      binary_normalize F32.prec F32.emax (cond_Zopp s (Zpos m)) e s
  | _ => x
  end.

End F64.

(** ** Voice activity detection (simplevox_vad.h, simplevox_vad.cpp) *)

Module Vad.

Module VadState.

Inductive t :=
  None | Warmup | Setup | Silence | PreDetection | Speech | PostDetection | Detected.

(** The enumerators' values; clients compare states with [>=]. *)
Definition to_Z (s : t) : Z :=
  match s with
  | None => 0 | Warmup => 1 | Setup => 2 | Silence => 3
  | PreDetection => 4 | Speech => 5 | PostDetection => 6 | Detected => 7
  end.

Definition eqb (a b : t) : bool := to_Z a =? to_Z b.

End VadState.

Inductive VadMode :=
  Aggression_LV0 | Aggression_LV1 | Aggression_LV2 | Aggression_LV3 | Aggression_LV4.

Record VadConfig := mkVadConfig {
  warmup_time_ms : Z;
  hangbefore_ms : Z;
  decision_time_ms : Z;
  hangover_ms : Z;
  sample_rate : Z;
  vad_mode : VadMode }.

Definition frame_time_ms : Z := 10.

Definition default_config : VadConfig :=
  mkVadConfig 0 100 200 200 16000 Aggression_LV0.

(** [x_ms * sample_rate / 1000] in [int] arithmetic. *)
Definition ms_length (ms : Z) (c : VadConfig) : option Z :=
  p ← CInt.mul ms (sample_rate c); CInt.div p 1000.

Definition frame_length (c : VadConfig) : option Z := ms_length frame_time_ms c.
Definition warmup_length (c : VadConfig) : option Z := ms_length (warmup_time_ms c) c.
Definition before_length (c : VadConfig) : option Z := ms_length (hangbefore_ms c) c.
Definition decision_length (c : VadConfig) : option Z := ms_length (decision_time_ms c) c.
Definition over_length (c : VadConfig) : option Z := ms_length (hangover_ms c) c.

Definition DivCeil (dividend divisor : Z) : option Z :=
  s ← CInt.add dividend divisor; t ← CInt.sub s 1; CInt.div t divisor.

(** One frame of PCM samples. *)
Definition frame : Type := list Z.

(** The per-frame classifier is an external component with internal
    state.  Its instance is represented by the frames it has been asked
    to classify so far (most recent first); its verdict may depend on
    that history and on the call's arguments in any way. *)
Definition VadInst : Type := list frame.

Record VadEngine := mkVadEngine {
  vad_inst_ : VadInst;
  vad_config_ : VadConfig;
  vad_state_ : VadState.t;
  state_count_ : Z;
  frame_count_ : Z;
  has_satisfied_hangbefore_ : bool }.

Definition set_inst (i : VadInst) (e : VadEngine) : VadEngine :=
  mkVadEngine i (vad_config_ e) (vad_state_ e) (state_count_ e) (frame_count_ e)
    (has_satisfied_hangbefore_ e).

Definition set_state (s : VadState.t) (e : VadEngine) : VadEngine :=
  mkVadEngine (vad_inst_ e) (vad_config_ e) s (state_count_ e) (frame_count_ e)
    (has_satisfied_hangbefore_ e).

Definition set_state_count (n : Z) (e : VadEngine) : VadEngine :=
  mkVadEngine (vad_inst_ e) (vad_config_ e) (vad_state_ e) n (frame_count_ e)
    (has_satisfied_hangbefore_ e).

Definition set_frame_count (n : Z) (e : VadEngine) : VadEngine :=
  mkVadEngine (vad_inst_ e) (vad_config_ e) (vad_state_ e) (state_count_ e) n
    (has_satisfied_hangbefore_ e).

Definition set_hangbefore (b : bool) (e : VadEngine) : VadEngine :=
  mkVadEngine (vad_inst_ e) (vad_config_ e) (vad_state_ e) (state_count_ e)
    (frame_count_ e) b.

Definition reset (e : VadEngine) : VadEngine :=
  set_state VadState.Warmup
    (set_hangbefore false (set_state_count 0 (set_frame_count 0 e))).

Section Process.

(** [classifier history data sample_rate frame_time_ms] is [true] when the
    external classifier answers VAD_SPEECH. *)
Variable classifier : list frame -> frame -> Z -> Z -> bool.

Definition vad_process (inst : VadInst) (data : frame) (rate ms : Z)
    : bool * VadInst :=
  (classifier inst data rate ms, data :: inst).

(** The verdict [IsSpeech] of a [process] call and the classifier instance
    after it. *)
Definition classify (e : VadEngine) (data : frame) : bool * VadInst :=
  if has_satisfied_hangbefore_ e
  then vad_process (vad_inst_ e) data (sample_rate (vad_config_ e)) frame_time_ms
  else (false, vad_inst_ e).

(** The [switch] of [process]; [e] has [state_count_] already incremented. *)
Definition transition (frame_length state_length : Z) (IsSpeech : bool)
    (e : VadEngine) : option VadEngine :=
  let config := vad_config_ e in
  match vad_state_ e with
  | VadState.Warmup =>
      wl ← warmup_length config;
      Some (if wl <=? state_length
            then set_state VadState.Setup (set_state_count 0 e)
            else e)
  | VadState.Setup =>
      Some (set_state VadState.Silence (set_state_count 0 e))
  | VadState.Silence =>
      if negb (has_satisfied_hangbefore_ e) then
        fc ← CInt.add (frame_count_ e) 1;
        bl ← before_length config;
        let e1 := set_frame_count fc e in
        Some (if bl <=? state_length then set_hangbefore true e1 else e1)
      else if IsSpeech then
        fc ← CInt.add (frame_count_ e) 1;
        Some (set_state VadState.PreDetection
                (set_frame_count fc (set_state_count 0 e)))
      else Some e
  | VadState.PreDetection =>
      if IsSpeech then
        dl ← decision_length config;
        pass_count ← DivCeil dl frame_length;
        fc ← CInt.add (frame_count_ e) 1;
        let e1 := set_frame_count fc e in
        Some (if pass_count <=? state_count_ e1
              then set_state VadState.Speech (set_state_count 0 e1)
              else e1)
      else
        fc ← CInt.sub (frame_count_ e) (state_count_ e);
        Some (set_state VadState.Silence
                (set_state_count 0 (set_frame_count fc e)))
  | VadState.Speech =>
      fc ← CInt.add (frame_count_ e) 1;
      let e1 := set_frame_count fc e in
      Some (if negb IsSpeech
            then set_state VadState.PostDetection (set_state_count 0 e1)
            else e1)
  | VadState.PostDetection =>
      fc ← CInt.add (frame_count_ e) 1;
      let e1 := set_frame_count fc e in
      if IsSpeech then
        Some (set_state VadState.Speech (set_state_count 0 e1))
      else
        ol ← over_length config;
        over_count ← DivCeil ol frame_length;
        Some (if over_count <=? state_count_ e1
              then set_state VadState.Detected (set_state_count 0 e1)
              else e1)
  | VadState.Detected => Some e
  | VadState.None =>
      Some (set_state VadState.Warmup (set_frame_count 0 (set_state_count 0 e)))
  end.

Definition process (e : VadEngine) (data : frame)
    : option (VadState.t * VadEngine) :=
  frame_length ← frame_length (vad_config_ e);
  state_count ← CInt.add (state_count_ e) 1;
  state_length ← CInt.mul frame_length state_count;
  let '(IsSpeech, inst) := classify e data in
  e' ← transition frame_length state_length IsSpeech
         (set_inst inst (set_state_count state_count e));
  Some (vad_state_ e', e').

(** The engine after a sequence of [process] calls. *)
Fixpoint run (e : VadEngine) (frames : list frame) : option VadEngine :=
  match frames with
  | [] => Some e
  | data :: rest => r ← process e data; run r.2 rest
  end.

(** As [run], also carrying the value [frame_count_] had immediately
    before the most recent transition from Silence into PreDetection. *)
Fixpoint run_entry (e : VadEngine) (entry : option Z) (frames : list frame)
    : option (VadEngine * option Z) :=
  match frames with
  | [] => Some (e, entry)
  | data :: rest =>
      r ← process e data;
      let entered :=
        VadState.eqb (vad_state_ e) VadState.Silence
        && VadState.eqb (vad_state_ r.2) VadState.PreDetection in
      run_entry r.2 (if entered then Some (frame_count_ e) else entry) rest
  end.

(** States reachable from [reset()] by [process] calls. *)
Inductive reachable : VadEngine -> Prop :=
| reachable_reset e : reachable (reset e)
| reachable_process e data st e' :
    reachable e -> process e data = Some (st, e') -> reachable e'.

End Process.

(** What holds of every state reached from [reset()]: the counters are
    non-negative, and in PreDetection [frame_count_] exceeds
    [state_count_]. *)
Definition vad_inv (e : VadEngine) : Prop :=
  0 <= frame_count_ e <= CInt.INT32_MAX /\ 0 <= state_count_ e /\
  vad_state_ e <> VadState.None /\
  (vad_state_ e = VadState.PreDetection -> state_count_ e + 1 <= frame_count_ e).

(** The value recorded by [run_entry] is what a retraction restores. *)
Definition entry_inv (e : VadEngine) (entry : option Z) : Prop :=
  vad_inv e /\
  (vad_state_ e = VadState.PreDetection ->
   entry = Some (frame_count_ e - (state_count_ e + 1))).

(** While the engine waits in PreDetection, the multiplication
    [frame_length * state_count_] of the next call does not overflow. *)
Definition pre_room (e : VadEngine) : Prop :=
  vad_state_ e = VadState.PreDetection ->
  forall fl, frame_length (vad_config_ e) = Some fl -> 0 < fl ->
  fl * (state_count_ e + 1) <= CInt.INT32_MAX.

(** A default-constructed engine, a classifier that hears speech in every
    non-empty frame, and an engine waiting in PreDetection after twelve
    silent and three loud frames. *)
Definition fresh_engine : VadEngine :=
  mkVadEngine [] default_config VadState.None 0 0 false.

Definition loud (history : list frame) (data : frame) (rate ms : Z) : bool :=
  match data with [] => false | _ => true end.

Definition onset_frames : list frame := replicate 12 [] ++ replicate 3 [1].

Definition onset_engine : VadEngine :=
  mkVadEngine [[1]; [1]; [1]] default_config VadState.PreDetection 2 13 true.

Definition retracted_engine : VadEngine :=
  mkVadEngine [[]; [1]; [1]; [1]] default_config VadState.Silence 0 10 true.

End Vad.

(** ** Heap (operator new (std::nothrow), heap_caps_malloc)

    The allocator is an external component.  It is represented by the
    number of bytes it can still hand out; a request succeeds when it fits. *)

Module Heap.

Record t := mk {
  free : Z;
  (** whether a request for zero bytes yields a non-null pointer *)
  malloc_zero : bool }.

(** [new (std::nothrow) T[count]] with [sizeof(T) = elem_size]: the heap
    after the allocation, or none when it returns null. *)
Definition new_array (h : t) (elem_size count : Z) : option t :=
  if (0 <=? count) && (elem_size * count <=? free h)
  then Some (mk (free h - elem_size * count) (malloc_zero h))
  else None.

(** [delete[]], [heap_caps_free]: [bytes] bytes go back to the heap. *)
Definition give (h : t) (bytes : Z) : t := mk (free h + bytes) (malloc_zero h).

(** [heap_caps_malloc(bytes, MALLOC_CAP_8BIT) != NULL] *)
Definition malloc (h : t) (bytes : Z) : bool :=
  if bytes =? 0 then malloc_zero h else (0 <? bytes) && (bytes <=? free h).

End Heap.

(** ** Sound features (simplevox_feature.h) *)

Module Feature.

(** A [const int16_t*]: an array and the element offset pointed to. *)
Definition ptr : Type := (list Z * Z)%type.

Definition deref (p : ptr) (i : Z) : option Z := Loop.get p.1 (p.2 + i).

(** The interface [ISoundFeature<T>]. *)
Class ISoundFeature (T : Type) := {
  size : T -> Z;
  dimension : T -> Z;
  feature : T -> Z -> option ptr }.

End Feature.

(** ** DTW distance (simplevox_dtw.cpp, detail/simplevox_dtw.h) *)

Module Dtw.

Import Feature.

Definition kDistanceCoef : Z := 1000.

Definition InnerProduct (vec1 : ptr) (n : Z) (vec2 : ptr) : option Z :=
  Loop.for_range 0 n
    (fun i val =>
       a ← deref vec1 i; b ← deref vec2 i; p ← CInt.mul a b; CInt.add val p)
    0.

Definition InnerProduct1 (vec : ptr) (n : Z) : option Z := InnerProduct vec n vec.

(** The inner product as a sum: the first [k] products of two vectors. *)
Fixpoint dotn (vec1 vec2 : ptr) (k : nat) : Z :=
  match k with
  | O => 0
  | S k' =>
      dotn vec1 vec2 k'
      + default 0 (deref vec1 (Z.of_nat k')) * default 0 (deref vec2 (Z.of_nat k'))
  end.

Definition CosineDistancef (inner12 inner1 inner2 : Z) : F32.float :=
  F32.sub (F32.of_int 1)
    (if (inner1 =? 0) || (inner2 =? 0) then F32.of_int 0
     else F32.div (F32.of_int inner12)
            (F32.sqrt (F32.mul (F32.of_int inner1) (F32.of_int inner2)))).

Definition CosineDistance (inner12 inner1 inner2 : Z) : option Z :=
  F32.to_uint32 (F32.mul (F32.of_int kDistanceCoef)
                   (CosineDistancef inner12 inner1 inner2)).

(** The predecessor chosen at an inner cell (lines 84-98): [up] is
    [(step_distances[j], step_counts[j])], [left] is
    [(prev_step_dist, prev_step_count)] and [diag] is
    [(step_distances[j-1], step_counts[j-1])]. *)
Definition select_step (up left diag : Z * Z) : Z * Z :=
  let step := if up.1 <? left.1 then up else left in
  if diag.1 <? step.1 then diag else step.

Section CalcDTW.

Context {T1 T2 : Type} {F1 : ISoundFeature T1} {F2 : ISoundFeature T2}.
Variables (feature1 : T1) (feature2 : T2).

(** The pre-checks of lines 37-49: [Some true] when the pair is refused. *)
Definition rejects : option bool :=
  if negb (dimension feature1 =? dimension feature2) then Some true
  else if (size feature1 <=? 0) || (size feature2 <=? 0) then Some true
  else
    t2 ← CInt.mul 3 (size feature2);
    if t2 <? size feature1 then Some true
    else t1 ← CInt.mul 3 (size feature1); Some (t1 <? size feature2).

(** Lines 65-71: the row of [feature1.feature(0)]. *)
Definition first_row (dimension inner1_0 : Z) (rows : list Z * list Z)
    : option (list Z * list Z) :=
  Loop.for_range 1 (size feature2)
    (fun j '(step_distances, step_counts) =>
       f1_0 ← feature feature1 0;
       f2_j ← feature feature2 j;
       inner12_j ← InnerProduct f1_0 dimension f2_j;
       inner2_j ← InnerProduct1 f2_j dimension;
       d ← Loop.get step_distances (j - 1);
       c ← CosineDistance inner12_j inner1_0 inner2_j;
       step_distances ← Loop.set step_distances j (CInt.u32 (d + c));
       step_counts ← Loop.set step_counts j (CInt.i16 j);
       Some (step_distances, step_counts))
    rows.

(** Lines 80-108: the cells [1 <= j] of the row of [feature1.feature(i)];
    the state is the two arrays, [prev_step_dist] and [prev_step_count]. *)
Definition inner_loop (dimension i inner1_i : Z)
    (st : list Z * list Z * Z * Z) : option (list Z * list Z * Z * Z) :=
  Loop.for_range 1 (size feature2)
    (fun j '(step_distances, step_counts, prev_step_dist, prev_step_count) =>
       up_d ← Loop.get step_distances j;
       up_c ← Loop.get step_counts j;
       diag_d ← Loop.get step_distances (j - 1);
       diag_c ← Loop.get step_counts (j - 1);
       let '(step_dist, step_count) :=
         select_step (up_d, up_c) (prev_step_dist, prev_step_count) (diag_d, diag_c) in
       f1_i ← feature feature1 i;
       f2_j ← feature feature2 j;
       inner12_ij ← InnerProduct f1_i dimension f2_j;
       inner2_j ← InnerProduct1 f2_j dimension;
       c ← CosineDistance inner12_ij inner1_i inner2_j;
       let step_dist := CInt.u32 (step_dist + c) in
       step_count ← CInt.add step_count 1;
       step_distances ← Loop.set step_distances (j - 1) prev_step_dist;
       step_counts ← Loop.set step_counts (j - 1) (CInt.i16 prev_step_count);
       Some (step_distances, step_counts, step_dist, step_count))
    st.

(** Lines 74-111: the rows [1 <= i < hi]; the code runs them up to
    [hi = feature1.size()]. *)
Definition outer_loop (dimension inner2_0 last hi : Z) (rows : list Z * list Z)
    : option (list Z * list Z) :=
  Loop.for_range 1 hi
    (fun i '(step_distances, step_counts) =>
       f1_i ← feature feature1 i;
       f2_0 ← feature feature2 0;
       inner1_i ← InnerProduct1 f1_i dimension;
       inner12_i0 ← InnerProduct f1_i dimension f2_0;
       d0 ← Loop.get step_distances 0;
       c ← CosineDistance inner12_i0 inner1_i inner2_0;
       let prev_step_dist := CInt.u32 (d0 + c) in
       c0 ← Loop.get step_counts 0;
       prev_step_count ← CInt.add c0 1;
       '(step_distances, step_counts, prev_step_dist, prev_step_count) ←
         inner_loop dimension i inner1_i
           (step_distances, step_counts, prev_step_dist, prev_step_count);
       step_distances ← Loop.set step_distances last prev_step_dist;
       step_counts ← Loop.set step_counts last (CInt.i16 prev_step_count);
       Some (step_distances, step_counts))
    rows.

(** Lines 58-111: [step_distances] and [step_counts] when the rows below
    [hi] are done.  The arrays come uninitialised from [new]; every element
    is written before it is read, so their initial content is immaterial. *)
Definition rows_upto (hi : Z) : option (list Z * list Z) :=
  let dimension := dimension feature1 in
  let n := Z.to_nat (size feature2) in
  f1_0 ← feature feature1 0;
  f2_0 ← feature feature2 0;
  inner1_0 ← InnerProduct1 f1_0 dimension;
  inner2_0 ← InnerProduct1 f2_0 dimension;
  inner12_0 ← InnerProduct f1_0 dimension f2_0;
  c ← CosineDistance inner12_0 inner1_0 inner2_0;
  step_distances ← Loop.set (replicate n 0) 0 (CInt.u32 (2 * c));
  step_counts ← Loop.set (replicate n 0) 0 0;
  rows ← first_row dimension inner1_0 (step_distances, step_counts);
  last ← CInt.sub (size feature2) 1;
  outer_loop dimension inner2_0 last hi rows.

Definition final_rows : option (list Z * list Z) := rows_upto (size feature1).

Definition calcDTW (heap : Heap.t) : option Z :=
  refused ← rejects;
  if refused : bool then Some CInt.UINT32_MAX
  else
    match
      h ← Heap.new_array heap 2 (size feature2);
      Heap.new_array h 4 (size feature2)
    with
    | None => Some CInt.UINT32_MAX
    | Some _ =>
        '(step_distances, step_counts) ← final_rows;
        last ← CInt.sub (size feature2) 1;
        d ← Loop.get step_distances last;
        c ← Loop.get step_counts last;
        (* uint32_t / int16_t: the count is converted to unsigned *)
        if CInt.u32 c =? 0 then None else Some (d / CInt.u32 c)
    end.

(** The cost of cell [(i, j)] as the loops compute it. *)
Definition cell_cost (i j : Z) : option Z :=
  let dimension := dimension feature1 in
  f1_i ← feature feature1 i;
  f2_j ← feature feature2 j;
  inner1_i ← InnerProduct1 f1_i dimension;
  inner2_j ← InnerProduct1 f2_j dimension;
  inner12_ij ← InnerProduct f1_i dimension f2_j;
  CosineDistance inner12_ij inner1_i inner2_j.

(** What the pre-checks are meant to refuse. *)
Definition invalid : Prop :=
  dimension feature1 <> dimension feature2 \/
  size feature1 <= 0 \/ size feature2 <= 0 \/
  size feature1 > 3 * size feature2 \/ size feature2 > 3 * size feature1.

(** The two arrays hold the cells [cells] of one row, the counts as
    [int16_t]. *)
Definition row_is (cells : nat -> Z * Z) (rows : list Z * list Z) : Prop :=
  Z.of_nat (length rows.1) = size feature2 /\
  Z.of_nat (length rows.2) = size feature2 /\
  forall k : nat, Z.of_nat k < size feature2 ->
    rows.1 !! k = Some (cells k).1 /\ rows.2 !! k = Some (CInt.i16 (cells k).2).

End CalcDTW.

(** *** The lattice the rolling rows run over

    For a cost function [cost], [lattice cost i j] is the pair
    (accumulated distance, step count) of cell [(i, j)] as the cell is
    computed, the count being an [int]; [stored] is the pair as it is read
    back from the two arrays. *)

Definition stored (p : Z * Z) : Z * Z := (p.1, CInt.i16 p.2).

Section Lattice.

Variable cost : Z -> Z -> Z.

Fixpoint first_cells (j : nat) : Z * Z :=
  match j with
  | O => (CInt.u32 (2 * cost 0 0), 0)
  | S j' => (CInt.u32 ((first_cells j').1 + cost 0 (Z.of_nat j)), Z.of_nat j)
  end.

Fixpoint next_cells (above : nat -> Z * Z) (i : Z) (j : nat) : Z * Z :=
  match j with
  | O => let s := stored (above O) in (CInt.u32 (s.1 + cost i 0), s.2 + 1)
  | S j' =>
      let s := select_step (stored (above j)) (next_cells above i j')
                 (stored (above j')) in
      (CInt.u32 (s.1 + cost i (Z.of_nat j)), s.2 + 1)
  end.

Fixpoint lattice (i : nat) : nat -> Z * Z :=
  match i with
  | O => first_cells
  | S i' => next_cells (lattice i') (Z.of_nat i)
  end.

End Lattice.

(** Modelled from the spec: the selection the specification describes, the
    smallest distance, the diagonal first on equality, then the up move,
    then the left one. *)
Definition select_step_spec (up left diag : Z * Z) : Z * Z :=
  if (diag.1 <=? up.1) && (diag.1 <=? left.1) then diag
  else if up.1 <=? left.1 then up else left.

End Dtw.

(** ** Files (fopen, fwrite, fclose, fread)

    A volume holds named byte sequences and a number of bytes still free.
    A stream opened for writing is buffered, as the streams of [fopen]
    are: [fwrite] puts its bytes into the buffer of the stream one after
    the other, as if by [fputc]; the buffer is transmitted to the volume
    when it is filled and when the stream is closed, and the volume takes
    as many of the transmitted bytes as it has room for. *)

Module FS.

Record t := mk {
  files : gmap string (list byte);
  free : Z;
  read_only : bool;
  (* the size of the buffer of a stream; a stream is unbuffered when it is
     not above one *)
  bufsiz : Z }.

(** A stream open for writing ([FILE*]): the file it writes and the bytes
    still in its buffer. *)
Record FILE := mkFILE {
  name : string;
  pending : list byte }.

(** [fopen(path, "wb")]: the file is created or truncated; null on a
    volume that cannot be written. *)
Definition fopen_wb (fs : t) (path : string) : option (t * FILE) :=
  if read_only fs then None
  else
    let old := default [] (files fs !! path) in
    Some (mk (<[path := []]> (files fs)) (free fs + Z.of_nat (length old)) false
            (bufsiz fs),
          mkFILE path []).

(** The buffer is transmitted: the volume appends the bytes it has room
    for, the others stay behind; [true] when none stays. *)
Definition fflush (s : t * FILE) : bool * (t * FILE) :=
  let '(fs, file) := s in
  let k := Z.to_nat (Z.min (Z.of_nat (length (pending file))) (free fs)) in
  (Nat.eqb k (length (pending file)),
   (mk (alter (fun c => c ++ take k (pending file)) (name file) (files fs))
       (free fs - Z.of_nat k) (read_only fs) (bufsiz fs),
    mkFILE (name file) (drop k (pending file)))).

(** [fputc(b, file)]: [false] is [EOF]. *)
Definition fputc (b : byte) (s : t * FILE) : bool * (t * FILE) :=
  let '(fs, file) := s in
  let file := mkFILE (name file) (pending file ++ [b]) in
  if bufsiz fs <=? Z.of_nat (length (pending file)) then fflush (fs, file)
  else (true, (fs, file)).

(** The bytes of one item, up to the first that cannot be put. *)
Fixpoint put_bytes (bytes : list byte) (s : t * FILE) : bool * (t * FILE) :=
  match bytes with
  | [] => (true, s)
  | b :: rest =>
      let '(ok, s) := fputc b s in
      if ok : bool then put_bytes rest s else (false, s)
  end.

(** [fwrite(ptr, size, count, file)] for the [count] items [items] of
    [size] bytes each: the number of items put whole, and the volume and
    the stream. *)
Fixpoint fwrite (items : list (list byte)) (s : t * FILE) : Z * (t * FILE) :=
  match items with
  | [] => (0, s)
  | item :: rest =>
      let '(ok, s) := put_bytes item s in
      if ok : bool then let '(k, s) := fwrite rest s in (1 + k, s)
      else (0, s)
  end.

(** [fclose(file)]: what is still in the buffer is transmitted; [false] is
    [EOF]. *)
Definition fclose (s : t * FILE) : bool * t :=
  let '(ok, (fs, _)) := fflush s in (ok, fs).

(** What has come of the bytes [put] into the stream of [path] since it
    was opened, [fs0] being the volume as [fopen] left it: the file holds
    the first of them, as many as the volume had room for at most, and the
    buffer holds the others. *)
Definition holds (fs0 : t) (path : string) (put : list byte) (s : t * FILE)
    : Prop :=
  name s.2 = path /\ read_only s.1 = read_only fs0 /\ bufsiz s.1 = bufsiz fs0 /\
  exists taken,
    files s.1 = <[path := taken]> (files fs0) /\
    taken ++ pending s.2 = put /\
    free s.1 = free fs0 - Z.of_nat (length taken) /\
    Z.of_nat (length taken) <= Z.max 0 (free fs0).

(** [fopen(path, "rb")]: the bytes still to be read. *)
Definition fopen_rb (fs : t) (path : string) : option (list byte) :=
  files fs !! path.

(** [fread(ptr, size, count, file)]: the bytes read, the number of whole
    items they make, and the bytes still to be read. *)
Definition fread (stream : list byte) (size count : Z)
    : list byte * Z * list byte :=
  let k := Z.min count (Z.of_nat (length stream) / size) in
  let n := Z.to_nat (k * size) in
  (take n stream, k, drop n stream).

End FS.

(** ** MFCC engine and feature container (simplevox_mfcc.h, simplevox_mfcc.cpp) *)

Module Mfcc.

Definition kPreEmphaCoef : Z := 100.
Definition kWindowCoef : Z := 10000.
Definition kDctCoef : Z := 10000.
Definition kNormalizeCoef : Z := 1000.

Record MfccConfig := mkMfccConfig {
  fft_num : Z;
  mel_channel : Z;
  coef_num : Z;
  pre_emphasis : Z;
  sample_rate : Z;
  frame_time_ms : Z }.

Definition default_config : MfccConfig := mkMfccConfig 512 24 12 97 16000 32.

Definition frame_length (c : MfccConfig) : option Z :=
  p ← CInt.mul (frame_time_ms c) (sample_rate c); CInt.div p 1000.

Definition hop_length (c : MfccConfig) : option Z :=
  l ← frame_length c; CInt.div l 2.

(** Modelled from the spec: [dsp_is_power_of_two] belongs to the ESP-DSP
    library, whose source is not part of the repository; the spec asks for
    [fft_num] to be a power of two. *)
Definition dsp_is_power_of_two (x : Z) : bool :=
  negb (x =? 0) && (Z.land x (x - 1) =? 0).

Definition VerifyMfccConfig (config : MfccConfig) : option bool :=
  if (fft_num config <? 0) || negb (dsp_is_power_of_two (fft_num config))
  then Some false
  else if (mel_channel config <? 0) || (coef_num config <? 0)
          || (pre_emphasis config <? 0) || (frame_time_ms config <? 0)
  then Some false
  else if negb (sample_rate config =? 8000) && negb (sample_rate config =? 16000)
  then Some false
  else
    l ← frame_length config;
    Some (negb (fft_num config <? l)).

(** The engine's tables and scratch buffers.  An allocated buffer is
    represented by its number of elements: what [init] and [deinit] do
    depends on the buffers being there, not on what they hold. *)
Record MfccEngine := mkMfccEngine {
  mfcc_config_ : MfccConfig;
  window_ : option Z;
  mel_position_ : option Z;
  dctII_table_ : option Z;
  mel_data_ : option Z;
  fft_data_ : option Z }.

Definition release (e : MfccEngine) : MfccEngine :=
  mkMfccEngine (mfcc_config_ e) None None None None None.

(** The bytes held by the five buffers of an engine. *)
Definition held (e : MfccEngine) : Z :=
  2 * default 0 (window_ e) + 2 * default 0 (mel_position_ e)
  + 2 * default 0 (dctII_table_ e)
  + 4 * default 0 (mel_data_ e) + 4 * default 0 (fft_data_ e).

(** The functions of the C library that the set-up routines call. *)
Record Libm := mkLibm {
  cosf : F32.float -> F32.float;
  logf : F32.float -> F32.float;
  expf : F32.float -> F32.float }.

(** What [init] meets outside the engine: the heap, the FFT driver of the
    ESP-DSP library ([dsps_fft4r_initialized], and whether
    [dsps_fft4r_init_fc32] answers ESP_OK for a table size) and the C
    library. *)
Record Env := mkEnv {
  heap : Heap.t;
  dsps_fft4r_initialized : bool;
  dsps_fft4r_init_fc32 : Z -> bool;
  libm : Libm }.

(** The surroundings once [bytes] bytes have gone back to the heap. *)
Definition credit (env : Env) (bytes : Z) : Env :=
  mkEnv (Heap.give (heap env) bytes) (dsps_fft4r_initialized env)
    (dsps_fft4r_init_fc32 env) (libm env).

(** The literals [0.54f], [0.46f] and [0.5f]. *)
Definition f0_54 : F32.float := S754_finite false 9059697 (-24).
Definition f0_46 : F32.float := S754_finite false 15435039 (-25).
Definition f0_5 : F32.float := S754_finite false 8388608 (-24).

(** [SetupHammingWindow(window, length)] for a buffer that is not null:
    the buffer as the loop leaves it.  The argument of [cosf] is computed
    in [double], [M_PI] being one, and converted to [float]. *)
Definition SetupHammingWindow (m : Libm) (window : list Z) (length : Z)
    : option (list Z) :=
  Loop.for_range 0 length
    (fun i window =>
       l1 ← CInt.sub length 1;
       let x := F64.div (F64.mul (F64.mul (F64.of_int 2) F64.M_PI) (F64.of_int i))
                  (F64.of_int l1) in
       v ← F32.to_int16
             (F32.roundf
                (F32.mul (F32.of_int kWindowCoef)
                   (F32.sub f0_54 (F32.mul f0_46 (cosf m (F64.to_f32 x))))));
       Loop.set window i v)
    window.

Definition HzToMel (m : Libm) (freq : F32.float) : F32.float :=
  F32.mul (F32.of_int 2595)
    (logf m (F32.add (F32.div freq (F32.of_int 700)) (F32.of_int 1))).

Definition MelToHz (m : Libm) (mel_freq : F32.float) : F32.float :=
  F32.mul (F32.of_int 700)
    (F32.sub (expf m (F32.div mel_freq (F32.of_int 2595))) (F32.of_int 1)).

(** [SetupMelFilter(position, sample_rate, fft_num, channel_num)] for a
    buffer that is not null. *)
Definition SetupMelFilter (m : Libm) (position : list Z)
    (sample_rate fft_num channel_num : Z) : option (list Z) :=
  fn ← CInt.div sample_rate 2;
  let mel_fn := HzToMel m (F32.of_int fn) in
  channels ← CInt.add channel_num 1;
  let delta_mel := F32.div mel_fn (F32.of_int channels) in
  let delta_freq := F32.div (F32.of_int sample_rate) (F32.of_int fft_num) in
  end_ ← CInt.div fft_num 2;
  position ←
    Loop.for_range 1 channels
      (fun i position =>
         let center_mel := F32.mul (F32.of_int i) delta_mel in
         let center_freq := MelToHz m center_mel in
         v ← F32.to_int16 (F32.roundf (F32.div center_freq delta_freq));
         Loop.set position i v)
      position;
  position ← Loop.set position 0 0;
  Loop.set position channels (CInt.i16 end_).

(** [SetupDctTable(dct_table, coef_num, mel_channel)] for a buffer that is
    not null. *)
Definition SetupDctTable (m : Libm) (dct_table : list Z) (coef_num mel_channel : Z)
    : option (list Z) :=
  Loop.for_range 0 coef_num
    (fun i dct_table =>
       Loop.for_range 0 mel_channel
         (fun j dct_table =>
            p ← CInt.mul i mel_channel;
            k ← CInt.add p j;
            i1 ← CInt.add i 1;
            let x := F64.mul
                       (F64.mul (F64.div F64.M_PI (F64.of_int mel_channel))
                          (F64.of_f32 (F32.add (F32.of_int j) f0_5)))
                       (F64.of_int i1) in
            v ← F32.to_int16
                  (F32.roundf
                     (F32.mul (F32.of_int kDctCoef) (cosf m (F64.to_f32 x))));
            Loop.set dct_table k v)
         dct_table)
    dct_table.

(** Memory as [new] hands it out.  The set-up routines write every
    element and read none, so the initial content is immaterial. *)
Definition raw (cells : Z) : list Z := replicate (Z.to_nat cells) 0.

(** [init].  Each [reset] gives the buffer the engine held back to the
    heap once the new one is allocated; a set-up routine handed a null
    buffer returns false, and [release] then frees what the engine holds,
    old and new. *)
Definition init (env : Env) (config : MfccConfig) (e : MfccEngine)
    : option (bool * MfccEngine * Env) :=
  ok ← VerifyMfccConfig config;
  if negb ok then Some (false, e, env)
  else
    let failed := Some (false, release e, credit env (held e)) in
    l ← frame_length config;
    match Heap.new_array (heap env) 2 l with
    | None => failed
    | Some h1 =>
    let h1 := Heap.give h1 (2 * default 0 (window_ e)) in
    _ ← SetupHammingWindow (libm env) (raw l) l;
    positions ← CInt.add (mel_channel config) 2;
    match Heap.new_array h1 2 positions with
    | None => failed
    | Some h2 =>
    let h2 := Heap.give h2 (2 * default 0 (mel_position_ e)) in
    _ ← SetupMelFilter (libm env) (raw positions) (sample_rate config)
          (fft_num config) (mel_channel config);
    cells ← CInt.mul (coef_num config) (mel_channel config);
    match Heap.new_array h2 2 cells with
    | None => failed
    | Some h3 =>
    let h3 := Heap.give h3 (2 * default 0 (dctII_table_ e)) in
    _ ← SetupDctTable (libm env) (raw cells) (coef_num config) (mel_channel config);
    match Heap.new_array h3 4 (mel_channel config) with
    | None => failed
    | Some h4 =>
    let h4 := Heap.give h4 (4 * default 0 (mel_data_ e)) in
    match Heap.new_array h4 4 (fft_num config) with
    | None => failed
    | Some h5 =>
    let h5 := Heap.give h5 (4 * default 0 (fft_data_ e)) in
        if dsps_fft4r_initialized env then failed
        else
          half ← CInt.div (fft_num config) 2;
          if negb (dsps_fft4r_init_fc32 env half) then failed
          else
            Some (true,
                  mkMfccEngine config (Some l) (Some positions) (Some cells)
                    (Some (mel_channel config)) (Some (fft_num config)),
                  mkEnv h5 true (dsps_fft4r_init_fc32 env) (libm env))
    end end end end end.

(** [src[i * coef_num + j]] *)
Definition cell (i coef_num j : Z) : option Z :=
  p ← CInt.mul i coef_num; CInt.add p j.

(** The two accumulation loops of [normalize]: [sum_val = f(sum_val, x)]
    over the cells in row-major order. *)
Definition accumulate (src : list F32.float) (frame_num coef_num : Z)
    (f : F32.float -> F32.float -> F32.float) : option F32.float :=
  Loop.for_range 0 frame_num
    (fun i sum_val =>
       Loop.for_range 0 coef_num
         (fun j sum_val => k ← cell i coef_num j; x ← Loop.get src k; Some (f sum_val x))
         sum_val)
    (F32.of_int 0).

Definition mean_of (src : list F32.float) (frame_num coef_num : Z)
    : option F32.float :=
  sum_val ← accumulate src frame_num coef_num F32.add;
  n ← CInt.mul frame_num coef_num;
  Some (F32.div sum_val (F32.of_int n)).

Definition stddev_of (src : list F32.float) (frame_num coef_num : Z)
    (mean_val : F32.float) : option F32.float :=
  sum_val ← accumulate src frame_num coef_num
              (fun sum_val x =>
                 let value := F32.sub x mean_val in
                 F32.add sum_val (F32.mul value value));
  if F32.ltb (F32.abs sum_val) F32.FLT_EPSILON then Some (F32.of_int 1)
  else n ← CInt.mul frame_num coef_num;
       Some (F32.sqrt (F32.div sum_val (F32.of_int n))).

Definition normalized_val (x mean_val stddev : F32.float) : F32.float :=
  F32.div (F32.mul (F32.of_int kNormalizeCoef) (F32.sub x mean_val)) stddev.

(** Lines 344-355: the value stored for a normalised value. *)
Definition saturate (v : F32.float) : option Z :=
  if F32.ltb v (F32.of_int CInt.INT16_MIN) then Some CInt.INT16_MIN
  else if F32.ltb (F32.of_int CInt.INT16_MAX) v then Some CInt.INT16_MAX
  else F32.to_int16 v.

(** The third loop of [normalize]: [dest[i * coef_num + j] = g(src[i *
    coef_num + j])] over the cells in row-major order. *)
Definition fill (src : list F32.float) (frame_num coef_num : Z)
    (g : F32.float -> option Z) (dest : list Z) : option (list Z) :=
  Loop.for_range 0 frame_num
    (fun i dest =>
       Loop.for_range 0 coef_num
         (fun j dest =>
            k ← cell i coef_num j; x ← Loop.get src k; v ← g x; Loop.set dest k v)
         dest)
    dest.

Definition normalize (src : list F32.float) (frame_num coef_num : Z)
    (dest : list Z) : option (list Z) :=
  mean_val ← mean_of src frame_num coef_num;
  stddev ← stddev_of src frame_num coef_num mean_val;
  fill src frame_num coef_num
    (fun x => saturate (normalized_val x mean_val stddev)) dest.

(** Cell [(i, j)] of [dest] holds what [g] makes of the source cell. *)
Definition filled (src : list F32.float) (coef_num : Z)
    (g : F32.float -> option Z) (dest : list Z) (i j : Z) : Prop :=
  exists x t, Loop.get src (i * coef_num + j) = Some x /\ g x = Some t /\
              Loop.get dest (i * coef_num + j) = Some t.

(** [src] and [dest] hold [frame_num * coef_num] cells each, a number that
    fits an [int]. *)
Definition normalize_shape (src : list F32.float) (frame_num coef_num : Z)
    (dest : list Z) : Prop :=
  0 < frame_num /\ 0 < coef_num /\ frame_num * coef_num <= CInt.INT32_MAX /\
  Z.of_nat (length src) = frame_num * coef_num /\
  Z.of_nat (length dest) = frame_num * coef_num.

(** A feature whose matrix has been allocated. *)
Record MfccFeature := mkMfccFeature {
  frame_num_ : Z;
  coef_num_ : Z;
  feature_ : list Z }.

#[global] Instance MfccFeature_sound : Feature.ISoundFeature MfccFeature := {
  Feature.size f := frame_num_ f;
  Feature.dimension f := coef_num_ f;
  Feature.feature f number :=
    off ← CInt.mul number (coef_num_ f); Some (feature_ f, off) }.

(** [enum class MfccTag : uint8_t { VERSION1 = 1 }] *)
Definition VERSION1 : byte := Byte.x01.

(** The bytes of an [int32_t] and of an [int16_t] array in memory
    (little-endian), and back. *)
Definition int32_bytes (v : Z) : list byte := le_split 4 v.
Definition int16_bytes (v : Z) : list byte := le_split 2 v.

Fixpoint int16s_of_bytes (data : list byte) : list Z :=
  match data with
  | b0 :: b1 :: rest => CInt.i16 (le_combine [b0; b1]) :: int16s_of_bytes rest
  | _ => []
  end.

(** [saveFile]: every path closes the stream and looks at no result of
    [fclose]. *)
Definition saveFile (fs : FS.t) (path : string) (mfcc : MfccFeature)
    : option (bool * FS.t) :=
  match FS.fopen_wb fs path with
  | None => Some (false, fs)
  | Some file =>
      let '(k, file) := FS.fwrite [[VERSION1]] file in
      if negb (k =? 1) then Some (false, (FS.fclose file).2)
      else
        let size := Feature.size mfcc in
        let '(k, file) := FS.fwrite [int32_bytes size] file in
        if negb (k =? 1) then Some (false, (FS.fclose file).2)
        else
          let coef_num := Feature.dimension mfcc in
          let '(k, file) := FS.fwrite [int32_bytes coef_num] file in
          if negb (k =? 1) then Some (false, (FS.fclose file).2)
          else
            data_num ← CInt.mul size coef_num;
            (* the items are read from [feature_]: it must hold them *)
            if (data_num <? 0) || (Z.of_nat (length (feature_ mfcc)) <? data_num)
            then None
            else
              let items := take (Z.to_nat data_num) (feature_ mfcc) in
              let '(k, file) := FS.fwrite (int16_bytes <$> items) file in
              Some (k =? data_num, (FS.fclose file).2)
  end.

(** [loadFile]: the outer [None] is undefined behaviour, [Some None] is the
    null pointer. *)
Definition loadFile (h : Heap.t) (fs : FS.t) (path : string)
    : option (option MfccFeature) :=
  match FS.fopen_rb fs path with
  | None => Some None
  | Some file =>
      let '(tag, k, file) := FS.fread file 1 1 in
      if negb (k =? 1) then Some None
      else
        let '(bytes, k, file) := FS.fread file 4 1 in
        if negb (k =? 1) then Some None
        else
          let size := CInt.i32 (le_combine bytes) in
          let '(bytes, k, file) := FS.fread file 4 1 in
          if negb (k =? 1) then Some None
          else
            let coef_num := CInt.i32 (le_combine bytes) in
            (* new MfccFeature(size, coef_num): the byte count of the
               matrix is computed in size_t, which is 32 bits wide *)
            let room := CInt.u32 (2 * size * coef_num) in
            if negb (Heap.malloc h room) then Some None
            else
              data_num ← CInt.mul size coef_num;
              let '(data, k, file) := FS.fread file 2 (CInt.u32 data_num) in
              if room <? 2 * k then None
              else if negb (k =? CInt.u32 data_num) then Some None
              else Some (Some (mkMfccFeature size coef_num (int16s_of_bytes data)))
  end.

(** A feature as the engine builds it: a positive number of frames and of
    coefficients, and a matrix of that many [int16_t] cells.  The matrix is
    allocated with a 32-bit byte count, so the cell count fits an [int]. *)
Definition wf_feature (f : MfccFeature) : Prop :=
  0 < frame_num_ f /\ 0 < coef_num_ f /\
  frame_num_ f * coef_num_ f <= CInt.INT32_MAX /\
  Z.of_nat (length (feature_ f)) = frame_num_ f * coef_num_ f /\
  Forall (fun v => CInt.INT16_MIN <= v <= CInt.INT16_MAX) (feature_ f).

(** The sum of the squares of the coefficients of frame [i]. *)
Definition norm (f : MfccFeature) (i : Z) : Z :=
  let vec := (feature_ f, i * coef_num_ f) in
  Dtw.dotn vec vec (Z.to_nat (coef_num_ f)).

(** The sums of squares of all frames fit an [int], so that no inner
    product of two frames overflows. *)
Definition norms_fit (f : MfccFeature) : Prop :=
  forall i, 0 <= i < frame_num_ f -> norm f i <= CInt.INT32_MAX.

(** The file format: the tag, [frame_num] and [coef_num] as 32-bit
    little-endian integers, then the matrix row by row, two bytes a cell. *)
Definition file_image (f : MfccFeature) : list byte :=
  VERSION1 :: int32_bytes (frame_num_ f) ++ int32_bytes (coef_num_ f)
    ++ concat (int16_bytes <$> feature_ f).

(** An engine before [init], resources that suffice for the default
    configuration, and a stored feature of one frame whose version byte
    has been overwritten with 2. *)
Definition blank_engine : MfccEngine :=
  mkMfccEngine default_config None None None None None.

(** A C library whose [cosf], [logf] and [expf] are constant (1, 0 and
    1): every conversion of the set-up routines is then defined. *)
Definition flat_libm : Libm :=
  mkLibm (fun _ => F32.of_int 1) (fun _ => F32.of_int 0) (fun _ => F32.of_int 1).

Definition roomy_env : Env :=
  mkEnv (Heap.mk 100000 false) false (fun _ => true) flat_libm.

Definition set_coef_num (n : Z) (c : MfccConfig) : MfccConfig :=
  mkMfccConfig (fft_num c) (mel_channel c) n (pre_emphasis c) (sample_rate c)
    (frame_time_ms c).

Definition foreign_file : list byte :=
  [Byte.x02; Byte.x01; Byte.x00; Byte.x00; Byte.x00;
   Byte.x01; Byte.x00; Byte.x00; Byte.x00; Byte.x05; Byte.x00].

Definition foreign_volume : FS.t :=
  FS.mk {[ "wakeword.bin"%string := foreign_file ]} 0 false 128.

(** A finite matrix whose sum overflows: two cells of 2^127. *)
Definition huge : F32.float := S754_finite false 8388608 104.

Definition small_matrix : list F32.float :=
  [F32.of_int 1; F32.of_int 2; F32.of_int 3; F32.of_int 100].

(** Small features for the DTW examples: [ones n] has [n] frames [(1)],
    [zeros2] two frames [(0)], [turn] the frames (1,0), (0,1), [flat] the
    frames (0,1), (0,1), and [tail3] the frames (-1), (-1), (1). *)
Definition ones (n : nat) : MfccFeature := mkMfccFeature (Z.of_nat n) 1 (replicate n 1).
Definition zeros2 : MfccFeature := mkMfccFeature 2 1 [0; 0].
Definition turn : MfccFeature := mkMfccFeature 2 2 [1; 0; 0; 1].
Definition flat : MfccFeature := mkMfccFeature 2 2 [0; 1; 0; 1].
Definition tail3 : MfccFeature := mkMfccFeature 3 1 [-1; -1; 1].

Definition roomy_heap : Heap.t := Heap.mk 100000 false.
Definition full_heap : Heap.t := Heap.mk 0 false.

(** The feature of scenario E3 and an empty volume of 1000 bytes, with
    streams buffered by 128 bytes. *)
Definition sample_feature : MfccFeature :=
  mkMfccFeature 3 4 [0; 1; 2; 3; 4; 5; 6; 7; 8; 9; 10; 11].

Definition empty_volume : FS.t := FS.mk ∅ 1000 false 128.

Definition sample_volume : FS.t :=
  FS.mk {[ "wakeword.bin"%string := file_image sample_feature ]} 967 false 128.

(** A volume with no byte free. *)
Definition full_volume : FS.t := FS.mk ∅ 0 false 128.

End Mfcc.

(** ** The start of a VAD engine (VadEngine::init) *)

Module VadLife.

Import Vad.

(** A [VadEngine] object.  The handle [vad_inst_] is null before [init];
    while it is, the classifier instance kept in [fields] stands for
    nothing. *)
Record VadObject := mkVadObject {
  is_null : bool;
  fields : VadEngine }.

Definition set_config (c : VadConfig) (e : VadEngine) : VadEngine :=
  mkVadEngine (vad_inst_ e) c (vad_state_ e) (state_count_ e) (frame_count_ e)
    (has_satisfied_hangbefore_ e).

(** [vad_create mode] says whether the external [vad_create] hands out an
    instance for the mode; a new instance has classified nothing yet. *)
Definition init (vad_create : VadMode -> bool) (config : VadConfig)
    (o : VadObject) : bool * VadObject :=
  if negb (is_null o) then (false, o)
  else if negb (frame_time_ms =? 10) then (false, o)
  else if negb (sample_rate config =? 8000) && negb (sample_rate config =? 16000)
  then (false, o)
  else if (hangbefore_ms config <? 0) || (decision_time_ms config <? 0)
          || (hangover_ms config <? 0)
  then (false, o)
  else if negb (vad_create (vad_mode config)) then (false, o)
  else (true, mkVadObject false (set_config config (reset (set_inst [] (fields o))))).

(** A default-constructed object. *)
Definition blank : VadObject := mkVadObject true fresh_engine.

(** The four lengths of a configuration can be computed: no product
    [x_ms * sample_rate] leaves the [int] range. *)
Definition lengths_fit (c : VadConfig) : Prop :=
  is_Some (warmup_length c) /\ is_Some (before_length c) /\
  is_Some (decision_length c) /\ is_Some (over_length c).

(** The number of calls it takes for [frame_length * state_count_] to
    reach [length]: at least one, whatever the length. *)
Definition calls (length frame_length : Z) : Z :=
  Z.max 1 ((length + frame_length - 1) / frame_length).

(** A classifier that never hears speech. *)
Definition never (history : list frame) (data : frame) (rate ms : Z) : bool := false.

(** A frame the classifier takes for speech ([b = true]) or for silence
    ([b = false]) whatever it has been given before. *)
Definition hears (classifier : list frame -> frame -> Z -> Z -> bool)
    (c : VadConfig) (b : bool) (data : frame) : Prop :=
  forall history, classifier history data (sample_rate c) frame_time_ms = b.

End VadLife.

(** ** Detection into a buffer (VadEngine::detect) *)

Module Detect.

Import Vad.

(** [std::copy_n(&src[0], count, &dest[result])] from another array, and
    [std::copy_n(&dest[first], count, &dest[result])] within one array:
    element by element, front to back; nothing is copied for a count that
    is not positive. *)
Definition copy_from (src : list Z) (count : Z) (dest : list Z) (result : Z)
    : option (list Z) :=
  Loop.for_range 0 count
    (fun k dest => x ← Loop.get src k; Loop.set dest (result + k) x)
    dest.

Definition copy_within (dest : list Z) (first count result : Z)
    : option (list Z) :=
  Loop.for_range 0 count
    (fun k dest => x ← Loop.get dest (first + k); Loop.set dest (result + k) x)
    dest.

Section DetectCalls.

Variable classifier : list frame -> frame -> Z -> Z -> bool.

(** [detect(dest, length, data)]: the value returned, the engine and the
    buffer after the call. *)
Definition detect (e : VadEngine) (dest : list Z) (length : Z) (data : frame)
    : option (Z * VadEngine * list Z) :=
  frame_length ← frame_length (vad_config_ e);
  sound_length ← CInt.mul frame_length (frame_count_ e);
  if VadState.eqb (vad_state_ e) VadState.Detected
  then Some (sound_length, e, dest)
  else
    room ← CInt.add sound_length frame_length;
    if length <? room then
      Some (if VadState.to_Z VadState.Speech <=? VadState.to_Z (vad_state_ e)
            then sound_length else -1,
            e, dest)
    else
      let prev_frame_count := frame_count_ e in
      '(state, e') ← process classifier e data;
      next ← CInt.add prev_frame_count 1;
      dest' ←
        (if next =? frame_count_ e'
         then copy_from data frame_length dest sound_length
         else if VadState.eqb state VadState.Silence
                 && (frame_count_ e' <=? prev_frame_count)
         then
           d ← CInt.sub prev_frame_count (frame_count_ e');
           shift_count ← CInt.add d 1;
           shift_length ← CInt.mul frame_length shift_count;
           if shift_length <? sound_length then
             kept ← CInt.sub sound_length shift_length;
             dest1 ← copy_within dest shift_length kept 0;
             copy_from data frame_length dest1 kept
           else Some dest
         else Some dest);
      if VadState.eqb state VadState.Detected
      then r ← CInt.mul frame_length (frame_count_ e'); Some (r, e', dest')
      else Some (-1, e', dest').

(** A sequence of [detect] calls on one buffer: the engine and the buffer
    after the last call, and the values returned, in order. *)
Fixpoint feed (e : VadEngine) (dest : list Z) (length : Z) (frames : list frame)
    : option (VadEngine * list Z * list Z) :=
  match frames with
  | [] => Some (e, dest, [])
  | data :: rest =>
      '(r, e', dest') ← detect e dest length data;
      '(e'', dest'', rs) ← feed e' dest' length rest;
      Some (e'', dest'', r :: rs)
  end.

End DetectCalls.

(** What [frame_count_] falls back to when a run of speech frames is
    retracted: its value before the run started. *)
Definition entry_count (e : VadEngine) : Z :=
  if VadState.eqb (vad_state_ e) VadState.PreDetection
  then frame_count_ e - (state_count_ e + 1)
  else frame_count_ e.

(** What [process] keeps when the look-back window is longer than one
    frame: before the window is full the engine counts every frame it was
    given in Silence, and once it is full the window holds at least two
    frames. *)
Definition steady (e : VadEngine) : Prop :=
  vad_inv e /\
  (has_satisfied_hangbefore_ e = true ->
   vad_state_ e <> VadState.Warmup /\ vad_state_ e <> VadState.Setup
   /\ 2 <= entry_count e) /\
  (has_satisfied_hangbefore_ e = false ->
   (vad_state_ e = VadState.Warmup \/ vad_state_ e = VadState.Setup)
   /\ frame_count_ e = 0
   \/ vad_state_ e = VadState.Silence /\ state_count_ e = frame_count_ e).

(** The last [k] frames of a recording, sample after sample, [fl] samples
    a frame. *)
Definition recent (fl k : Z) (frames : list frame) : list Z :=
  concat (take (Z.to_nat fl) <$> drop (length frames - Z.to_nat k) frames).

End Detect.

(** ** Releasing the MFCC engine (MfccEngine::deinit) *)

Module MfccLife.

Import Mfcc.

(** [deinit]: nothing happens while [dctII_table_] is null; otherwise the
    FFT driver is shut down ([dsps_fft4r_deinit_fc32] clears
    [dsps_fft4r_initialized]) and the buffers go back to the heap. *)
Definition deinit (env : Env) (e : MfccEngine) : MfccEngine * Env :=
  match dctII_table_ e with
  | None => (e, env)
  | Some _ =>
      (release e,
       mkEnv (Heap.mk (Heap.free (heap env) + held e) (Heap.malloc_zero (heap env)))
         false (dsps_fft4r_init_fc32 env) (libm env))
  end.

End MfccLife.

(** ** Building features (MfccEngine::calculate, MfccEngine::create) *)

Module Create.

Import Mfcc.

(** Memory as an allocation hands it out: cell [k] holds [junk k]. *)
Definition fresh {A : Type} (junk : Z -> A) (cells : Z) : list A :=
  junk <$> seqZ 0 cells.

(** [create(const float* mfccs, int frame_num, int coef_num)].  The
    constructor of [MfccFeature] asks [heap_caps_malloc] for
    [sizeof(int16_t) * frame_num * coef_num] bytes, a product computed in
    [size_t] (32 bits).  The outer [None] is undefined behaviour,
    [Some None] the null pointer. *)
Definition create_mfccs (h : Heap.t) (junk : Z -> Z) (mfccs : list F32.float)
    (frame_num coef_num : Z) : option (option MfccFeature) :=
  let room := CInt.u32 (2 * frame_num * coef_num) in
  if negb (Heap.malloc h room) then Some None
  else
    feature ← normalize mfccs frame_num coef_num (fresh junk (room / 2));
    Some (Some (mkMfccFeature frame_num coef_num feature)).


(** The tables [init] has set up, the two scratch buffers, and the
    function-local [static int frame_count] of [calculate]. *)
Record Tables := mkTables {
  config : MfccConfig;
  window : list Z;
  mel_position : list Z;
  dctII_table : list Z }.

Record Scratch := mkScratch {
  mel_data : list F32.float;
  fft_data : list F32.float;
  frame_count : Z }.

(** [dest[k] += x] *)
Definition add_at (dest : list F32.float) (k : Z) (x : F32.float)
    : option (list F32.float) :=
  old ← Loop.get dest k; Loop.set dest k (F32.add old x).

(** One slope of a triangle of the mel filter bank:
    [for (j = lo; j < hi; j++) { coef = step(coef); dest[k] += coef * src[j]; }] *)
Definition slope (src : list F32.float) (lo hi : Z)
    (step : F32.float -> F32.float) (k : Z)
    (st : F32.float * list F32.float) : option (F32.float * list F32.float) :=
  Loop.for_range lo hi
    (fun j '(coef, dest) =>
       let coef := step coef in
       x ← Loop.get src j;
       dest ← add_at dest k (F32.mul coef x);
       Some (coef, dest))
    st.

Definition ApplyMelFilter (src : list F32.float) (mel_position : list Z)
    (channel_num : Z) (dest : list F32.float) : option (list F32.float) :=
  Loop.for_range 1 (channel_num + 1)
    (fun i dest =>
       p_i ← Loop.get mel_position i;
       p_prev ← Loop.get mel_position (i - 1);
       rise ← CInt.sub p_i p_prev;
       let increment := F32.div (F32.of_int 1) (F32.of_int rise) in
       dest ← Loop.set dest (i - 1) (F32.of_int 0);
       '(coef, dest) ←
         slope src p_prev p_i (fun coef => F32.add coef increment) (i - 1)
           (F32.of_int 0, dest);
       p_next ← Loop.get mel_position (i + 1);
       fall ← CInt.sub p_next p_i;
       let decrement := F32.div (F32.of_int 1) (F32.of_int fall) in
       '(_, dest) ←
         slope src p_i p_next (fun coef => F32.sub coef decrement) (i - 1)
           (coef, dest);
       Some dest)
    dest.

Section Calculate.

(** The FFT of the ESP-DSP library (three in-place passes over [fft_data_])
    and the decimal logarithm of libm. *)
Variables dsps_fft4r_fc32 dsps_bit_rev4r_fc32 dsps_cplx2real_fc32
  : list F32.float -> Z -> list F32.float.
Variable log10f : F32.float -> F32.float.

(** Lines 262-275: pre-emphasis and window, then zero padding. *)
Definition emphasise (t : Tables) (frame : Feature.ptr) (frame_length : Z)
    (fft_data : list F32.float) : option (list F32.float) :=
  r ← Loop.for_range 0 frame_length
        (fun i '(prev_val, fft_data) =>
           curt_val ← Feature.deref frame i;
           p ← CInt.mul (pre_emphasis (config t)) prev_val;
           q ← CInt.div p kPreEmphaCoef;
           d ← CInt.sub curt_val q;
           let pre_emphasised := F32.of_int d in
           w ← Loop.get (window t) i;
           fft_data ←
             Loop.set fft_data i
               (F32.div (F32.mul pre_emphasised (F32.of_int w))
                  (F32.of_int kWindowCoef));
           Some (curt_val, fft_data))
        (0, fft_data);
  Loop.for_range frame_length (fft_num (config t))
    (fun i fft_data => Loop.set fft_data i (F32.of_int 0))
    r.2.

(** Lines 283-288: the power spectrum, written over the spectrum. *)
Definition power (half : Z) (fft_data : list F32.float)
    : option (list F32.float) :=
  Loop.for_range 0 half
    (fun i fft_data =>
       k ← CInt.mul 2 i;
       re ← Loop.get fft_data k;
       k1 ← CInt.add k 1;
       im ← Loop.get fft_data k1;
       Loop.set fft_data i (F32.add (F32.mul re re) (F32.mul im im)))
    fft_data.

(** Lines 295-298 *)
Definition logmel (mel_channel : Z) (mel : list F32.float)
    : option (list F32.float) :=
  Loop.for_range 0 mel_channel
    (fun i mel =>
       x ← Loop.get mel i;
       Loop.set mel i (F32.mul (F32.of_int 10) (log10f x)))
    mel.

(** Lines 301-311: the DCT, written to [mfcc[0 .. coef_num)]; [mfcc] is
    the caller's array and the element offset pointed to. *)
Definition dct (t : Tables) (logmel_spectrum : list F32.float)
    (mfcc : list F32.float) (off : Z) : option (list F32.float) :=
  let mel_channel := mel_channel (config t) in
  Loop.for_range 0 (coef_num (config t))
    (fun i mfcc =>
       row ← CInt.mul i mel_channel;
       mfcc_val ←
         Loop.for_range 0 mel_channel
           (fun j mfcc_val =>
              x ← Loop.get logmel_spectrum j;
              c ← Loop.get (dctII_table t) (row + j);
              Some (F32.add mfcc_val
                      (F32.div (F32.mul x (F32.of_int c)) (F32.of_int kDctCoef))))
           (F32.of_int 0);
       Loop.set mfcc (off + i) mfcc_val)
    mfcc.

Definition calculate (t : Tables) (s : Scratch) (frame : Feature.ptr)
    (mfcc : list F32.float) (off : Z) : option (Scratch * list F32.float) :=
  frame_length ← frame_length (config t);
  let fft_num := fft_num (config t) in
  fft_data ← emphasise t frame frame_length (fft_data s);
  half ← CInt.div fft_num 2;
  let fft_data := dsps_fft4r_fc32 fft_data half in
  let fft_data := dsps_bit_rev4r_fc32 fft_data half in
  let fft_data := dsps_cplx2real_fc32 fft_data half in
  power_spectrum ← power half fft_data;
  let mel_channel := mel_channel (config t) in
  mel_spectrum ←
    ApplyMelFilter power_spectrum (mel_position t) mel_channel (mel_data s);
  logmel_spectrum ← logmel mel_channel mel_spectrum;
  frame_count ← CInt.add (frame_count s) 1;
  mfcc ← dct t logmel_spectrum mfcc off;
  Some (mkScratch logmel_spectrum power_spectrum frame_count, mfcc).

(** What [create(const int16_t* raw_audio, int length)] comes to: a
    feature, the null pointer, or the exception of a failed [new]. *)
Inductive created := Built (f : MfccFeature) | Null | BadAlloc.

Definition create_raw_audio (h : Heap.t) (junk : Z -> Z)
    (junkf : Z -> F32.float) (t : Tables) (s : Scratch)
    (raw_audio : list Z) (length : Z) : option (created * Scratch) :=
  frame_length ← frame_length (config t);
  hop_length ← hop_length (config t);
  overlap ← CInt.sub frame_length hop_length;
  span ← CInt.sub length overlap;
  frame_num ← CInt.div span hop_length;
  let coef_num := coef_num (config t) in
  if frame_num <=? 0 then Some (Null, s)
  else
    (* new MfccFeature(frame_num, coef_num), then new float[frame_num * coef_num] *)
    let room := CInt.u32 (2 * frame_num * coef_num) in
    let allocated := Heap.malloc h room in
    let h1 := if allocated
              then Heap.mk (Heap.free h - room) (Heap.malloc_zero h) else h in
    cells ← CInt.mul frame_num coef_num;
    match Heap.new_array h1 4 cells with
    | None => Some (BadAlloc, s)
    | Some _ =>
        if negb allocated then Some (Null, s)
        else
          '(s, temp_feature) ←
            Loop.for_range 0 frame_num
              (fun fnum '(s, temp_feature) =>
                 first ← CInt.mul fnum hop_length;
                 out ← CInt.mul fnum coef_num;
                 calculate t s (raw_audio, first) temp_feature out)
              (s, fresh junkf cells);
          feature ← normalize temp_feature frame_num coef_num (fresh junk (room / 2));
          Some (Built (mkMfccFeature frame_num coef_num feature), s)
    end.

End Calculate.

(** What [init] leaves behind, as far as [calculate] depends on it: the
    buffers have the sizes [init] allocates, the frame fits the FFT, and
    the positions of the mel filter lie within the spectrum. *)
Definition fits (t : Tables) (s : Scratch) (fl : Z) : Prop :=
  let c := config t in
  frame_length c = Some fl /\ 0 <= fl <= fft_num c /\
  fft_num c <= CInt.INT32_MAX /\
  0 <= mel_channel c /\ 0 <= coef_num c /\
  coef_num c * mel_channel c <= CInt.INT32_MAX /\
  Z.of_nat (length (window t)) = fl /\
  Z.of_nat (length (mel_position t)) = mel_channel c + 2 /\
  Forall (fun p => 0 <= p <= fft_num c) (mel_position t) /\
  Z.of_nat (length (dctII_table t)) = coef_num c * mel_channel c /\
  Z.of_nat (length (mel_data s)) = mel_channel c /\
  Z.of_nat (length (fft_data s)) = fft_num c.

(** [frame[0 .. n)] can be read and holds [int16_t] values. *)
Definition readable (frame : Feature.ptr) (n : Z) : Prop :=
  forall i, 0 <= i < n ->
    exists v, Feature.deref frame i = Some v /\
              CInt.INT16_MIN <= v <= CInt.INT16_MAX.

(** A small engine: frames of eight samples at 8 kHz, one mel channel and
    one coefficient; and a pass that leaves the buffer as it is. *)
Definition tiny_config : MfccConfig := mkMfccConfig 8 1 1 97 8000 1.

Definition tiny_tables : Tables :=
  mkTables tiny_config (replicate 8 10000) [0; 2; 4] [10000].

Definition tiny_scratch : Scratch :=
  mkScratch [F32.of_int 0] (replicate 8 (F32.of_int 0)) 0.

Definition idle_pass (data : list F32.float) (n : Z) : list F32.float := data.

(** A feature that passes these checks is well formed, and the sums of
    squares of its frames fit an [int]. *)
Definition feature_checks (f : MfccFeature) : bool :=
  (0 <? frame_num_ f) && (0 <? coef_num_ f)
  && (frame_num_ f * coef_num_ f <=? CInt.INT32_MAX)
  && (Z.of_nat (length (feature_ f)) =? frame_num_ f * coef_num_ f)
  && forallb (fun v => (CInt.INT16_MIN <=? v) && (v <=? CInt.INT16_MAX)) (feature_ f)
  && forallb (fun i => norm f i <=? CInt.INT32_MAX) (seqZ 0 (frame_num_ f)).

End Create.

(** ** DTW: the pace of a path *)

Module DtwPath.

(** What a cell of the lattice may hold when no step costs more than [K]:
    a distance of at most [K] a step, with two steps' worth to spare for
    the doubled first cell, after at least [lo] steps. *)
Definition paced (K lo : Z) (p : Z * Z) : Prop :=
  p.1 <= K * (p.2 + 2) /\ lo <= p.2.

End DtwPath.


(** * Properties *)

(** ** Machine integers *)

Lemma int_of_Some z r :
  CInt.int_of z = Some r -> r = z /\ CInt.INT32_MIN <= z <= CInt.INT32_MAX.
Proof.
  unfold CInt.int_of, CInt.in_int. destruct (_ && _) eqn:E; [|discriminate].
  intros [= <-]. apply andb_true_iff in E. lia.
Qed.

Lemma int_of_in z :
  CInt.INT32_MIN <= z <= CInt.INT32_MAX -> CInt.int_of z = Some z.
Proof.
  intros H. unfold CInt.int_of, CInt.in_int.
  replace (_ && _) with true; [done|].
  symmetry. apply andb_true_iff. lia.
Qed.

Lemma add_Some a b r : CInt.add a b = Some r -> r = a + b /\ r <= CInt.INT32_MAX.
Proof. intros H. apply int_of_Some in H. lia. Qed.

Lemma sub_Some a b r : CInt.sub a b = Some r -> r = a - b /\ r <= CInt.INT32_MAX.
Proof. intros H. apply int_of_Some in H. lia. Qed.

Lemma mul_Some a b r : CInt.mul a b = Some r -> r = a * b.
Proof. intros H. apply int_of_Some in H. lia. Qed.

Lemma i16_small z : CInt.INT16_MIN <= z <= CInt.INT16_MAX -> CInt.i16 z = z.
Proof.
  unfold CInt.i16, CInt.INT16_MIN, CInt.INT16_MAX. intros H.
  rewrite Z.mod_small by lia. lia.
Qed.

Lemma i16_range z : CInt.INT16_MIN <= CInt.i16 z <= CInt.INT16_MAX.
Proof.
  unfold CInt.i16, CInt.INT16_MIN, CInt.INT16_MAX.
  pose proof (Z.mod_pos_bound (z + 2 ^ 15) (2 ^ 16)). lia.
Qed.

Lemma u32_small z : 0 <= z < 2 ^ 32 -> CInt.u32 z = z.
Proof. intros H. unfold CInt.u32. now rewrite Z.mod_small. Qed.

Lemma u32_range z : 0 <= CInt.u32 z < 2 ^ 32.
Proof. unfold CInt.u32. apply Z.mod_pos_bound. lia. Qed.


(** ** Loops *)

Lemma foldM_app {A S : Type} (body : A -> S -> option S) l1 l2 s :
  Loop.foldM body (l1 ++ l2) s = s' ← Loop.foldM body l1 s; Loop.foldM body l2 s'.
Proof.
  revert s. induction l1 as [|a l1 IH]; intros s; simpl; [done|].
  destruct (body a s); simpl; [apply IH|done].
Qed.

Lemma for_range_empty {S : Type} lo hi (body : Z -> S -> option S) s :
  hi <= lo -> Loop.for_range lo hi body s = Some s.
Proof. intros H. unfold Loop.for_range. rewrite seqZ_nil by lia. done. Qed.

Lemma for_range_first {S : Type} lo hi (body : Z -> S -> option S) s :
  lo < hi ->
  Loop.for_range lo hi body s = s' ← body lo s; Loop.for_range (lo + 1) hi body s'.
Proof.
  intros H. unfold Loop.for_range. rewrite seqZ_cons by lia. simpl.
  replace (Z.succ lo) with (lo + 1) by lia.
  replace (Z.pred (hi - lo)) with (hi - (lo + 1)) by lia. done.
Qed.

Lemma for_range_last {S : Type} lo hi (body : Z -> S -> option S) s :
  lo <= hi ->
  Loop.for_range lo (hi + 1) body s = s' ← Loop.for_range lo hi body s; body hi s'.
Proof.
  intros H. unfold Loop.for_range.
  replace (hi + 1 - lo) with ((hi - lo) + 1) by lia.
  rewrite seqZ_app by lia. rewrite foldM_app.
  destruct (Loop.foldM body (seqZ lo (hi - lo)) s); simpl; [|done].
  replace (lo + (hi - lo)) with hi by lia.
  change (seqZ hi 1) with [hi]. simpl.
  change (Z.of_nat 0 + hi) with hi. destruct (body hi s0); done.
Qed.

(** A loop that ends has kept its invariant. *)
Lemma for_range_ind {S : Type} (P : Z -> S -> Prop) lo hi body s s' :
  lo <= hi ->
  Loop.for_range lo hi body s = Some s' ->
  P lo s ->
  (forall j s1 s2, lo <= j < hi -> P j s1 -> body j s1 = Some s2 -> P (j + 1) s2) ->
  P hi s'.
Proof.
  intros Hle Hrun H0 Hstep.
  remember (Z.to_nat (hi - lo)) as k eqn:Ek.
  revert lo s Hle Hrun H0 Hstep Ek.
  induction k as [|k IH]; intros lo s Hle Hrun H0 Hstep Ek.
  - assert (hi = lo) as -> by lia.
    rewrite for_range_empty in Hrun by lia. now injection Hrun as <-.
  - rewrite for_range_first in Hrun by lia.
    apply bind_Some in Hrun as (s1 & Hb & Hrun).
    apply (IH (lo + 1) s1); try lia; try done.
    + apply (Hstep lo s); try done. lia.
    + intros j s2 s3 Hj. apply Hstep. lia.
Qed.

(** A loop whose steps are defined under an invariant is defined. *)
Lemma for_range_total {S : Type} (P : Z -> S -> Prop) lo hi body s :
  lo <= hi ->
  P lo s ->
  (forall j s1, lo <= j < hi -> P j s1 ->
     exists s2, body j s1 = Some s2 /\ P (j + 1) s2) ->
  exists s', Loop.for_range lo hi body s = Some s' /\ P hi s'.
Proof.
  intros Hle H0 Hstep.
  remember (Z.to_nat (hi - lo)) as k eqn:Ek.
  revert lo s Hle H0 Hstep Ek.
  induction k as [|k IH]; intros lo s Hle H0 Hstep Ek.
  - assert (hi = lo) as -> by lia.
    rewrite for_range_empty by lia. eauto.
  - rewrite for_range_first by lia.
    destruct (Hstep lo s) as (s1 & Hb & H1); [lia|done|].
    rewrite Hb. simpl.
    apply (IH (lo + 1) s1); try lia; try done.
    intros j s2 Hj. apply Hstep. lia.
Qed.

Lemma get_Some {A : Type} (a : list A) i x :
  Loop.get a i = Some x <-> 0 <= i /\ a !! Z.to_nat i = Some x.
Proof.
  unfold Loop.get. destruct (i <? 0) eqn:E.
  - apply Z.ltb_lt in E. split; [done|lia].
  - apply Z.ltb_ge in E. split; [done|]. now intros [_ ?].
Qed.

Lemma set_Some {A : Type} (a : list A) i x a' :
  Loop.set a i x = Some a' <->
  0 <= i < Z.of_nat (length a) /\ a' = <[Z.to_nat i := x]> a.
Proof.
  unfold Loop.set. destruct (_ && _) eqn:E.
  - apply andb_true_iff in E as [E1 E2].
    apply Z.leb_le in E1. apply Z.ltb_lt in E2.
    split; [intros [= <-]; done|]. intros [_ ->]. done.
  - split; [done|]. intros [[H1 H2] _].
    apply Z.leb_le in H1. apply Z.ltb_lt in H2. rewrite H1, H2 in E. done.
Qed.

(** ** Voice activity detection *)

Ltac vad_cases :=
  repeat match goal with
  | H : context [if ?b then _ else _] |- _ => destruct b eqn:?
  | H : Some _ = Some _ |- _ => injection H as H; subst
  | H : CInt.add _ _ = Some _ |- _ => apply add_Some in H; destruct H
  | H : CInt.sub _ _ = Some _ |- _ => apply sub_Some in H; destruct H
  | H : _ ≫= _ = Some _ |- _ =>
      apply bind_Some in H; destruct H as (? & ? & H)
  end.

Section VadProperties.

Import Vad.

Variable classifier : list frame -> frame -> Z -> Z -> bool.

Lemma VadState_eqb_eq a b : VadState.eqb a b = true <-> a = b.
Proof. unfold VadState.eqb. destruct a, b; simpl; split; (done || lia). Qed.

(** What holds of every state reached from [reset()]. *)
Lemma vad_inv_reset e : vad_inv (reset e).
Proof. unfold vad_inv; simpl. repeat split; (done || lia). Qed.

Lemma transition_inv fl sl b e e' :
  0 <= frame_count_ e <= CInt.INT32_MAX -> 1 <= state_count_ e ->
  vad_state_ e <> VadState.None ->
  (vad_state_ e = VadState.PreDetection -> state_count_ e <= frame_count_ e) ->
  transition fl sl b e = Some e' -> vad_inv e'.
Proof.
  intros Hf Hs Hn Hp H. unfold transition in H. unfold vad_inv.
  destruct (vad_state_ e) eqn:Est; try done; vad_cases; simpl in *;
    rewrite ?Est; repeat split; try lia; try done;
    try (intros _; specialize (Hp eq_refl); lia);
    try (specialize (Hp eq_refl); lia).
Qed.

Lemma process_inv e data st e' :
  vad_inv e -> process classifier e data = Some (st, e') -> vad_inv e'.
Proof.
  intros (Hf & Hs & Hn & Hp) H. unfold process in H.
  apply bind_Some in H as (fl & _ & H).
  apply bind_Some in H as (sc & Hsc & H).
  apply bind_Some in H as (sl & _ & H).
  destruct (classify classifier e data) as [b inst].
  apply bind_Some in H as (e1 & Ht & H). injection H as _ <-.
  apply add_Some in Hsc as [-> _].
  eapply transition_inv; [..|exact Ht]; simpl; try lia; try done.
Qed.

Lemma reachable_inv e : reachable classifier e -> vad_inv e.
Proof.
  induction 1 as [e|e data st e' _ IH H].
  - apply vad_inv_reset.
  - eapply process_inv; eauto.
Qed.

Lemma run_reachable e frames e' :
  reachable classifier e -> run classifier e frames = Some e' ->
  reachable classifier e'.
Proof.
  revert e. induction frames as [|d rest IH]; simpl; intros e Hr H.
  - now injection H as <-.
  - apply bind_Some in H as ([st e1] & Hp & H). simpl in H.
    eapply IH; [|exact H]. eapply reachable_process; eauto.
Qed.


Lemma transition_inst fl sl b e e' :
  transition fl sl b e = Some e' ->
  vad_inst_ e' = vad_inst_ e /\ vad_config_ e' = vad_config_ e.
Proof.
  unfold transition. intros H.
  destruct (vad_state_ e); vad_cases; simpl; done.
Qed.

(** [process] as its three phases: the increment of [state_count_], the
    verdict, and the [switch] on the incremented engine. *)
Lemma process_Some e data st e' :
  process classifier e data = Some (st, e') ->
  exists fl sl,
    frame_length (vad_config_ e) = Some fl /\
    CInt.mul fl (state_count_ e + 1) = Some sl /\
    state_count_ e + 1 <= CInt.INT32_MAX /\
    st = vad_state_ e' /\
    transition fl sl (classify classifier e data).1
      (set_inst (classify classifier e data).2
         (set_state_count (state_count_ e + 1) e)) = Some e'.
Proof.
  unfold process. intros H.
  apply bind_Some in H as (fl & Hfl & H).
  apply bind_Some in H as (sc & Hsc & H).
  apply bind_Some in H as (sl & Hsl & H).
  destruct (classify classifier e data) as [b inst].
  apply bind_Some in H as (e1 & Ht & H). injection H as <- <-.
  apply add_Some in Hsc as [-> ?].
  exists fl, sl. simpl. done.
Qed.

(** [has_satisfied_hangbefore_] is only ever set, and only by a call made
    in Silence that stays in Silence. *)
Lemma transition_hangbefore fl sl b e e' :
  transition fl sl b e = Some e' ->
  (has_satisfied_hangbefore_ e = true -> has_satisfied_hangbefore_ e' = true) /\
  (has_satisfied_hangbefore_ e = false -> has_satisfied_hangbefore_ e' = true ->
   vad_state_ e = VadState.Silence /\ vad_state_ e' = VadState.Silence).
Proof.
  unfold transition. intros H.
  destruct (vad_state_ e) eqn:Est; vad_cases; simpl in *;
    rewrite ?Est; split; intros; try done; congruence.
Qed.

(** While [has_satisfied_hangbefore_] is false no call reaches the
    classifier: its instance is as it was at the start of the run. *)
Lemma run_idle frames : forall e e',
  run classifier e frames = Some e' ->
  has_satisfied_hangbefore_ e' = false ->
  has_satisfied_hangbefore_ e = false /\ vad_inst_ e' = vad_inst_ e.
Proof.
  induction frames as [|d rest IH]; simpl; intros e e' H Hoff.
  - injection H as <-. done.
  - apply bind_Some in H as ([st e1] & Hp & H). simpl in H.
    destruct (IH _ _ H Hoff) as [Hoff1 Hinst].
    apply process_Some in Hp as (fl & sl & _ & _ & _ & _ & Ht).
    pose proof (transition_hangbefore _ _ _ _ _ Ht) as [Hmono _].
    pose proof (transition_inst _ _ _ _ _ Ht) as [Hi _].
    simpl in Hmono, Hi.
    destruct (has_satisfied_hangbefore_ e) eqn:Eh.
    + rewrite Hmono in Hoff1 by done. discriminate.
    + split; [done|]. rewrite Hinst, Hi. unfold classify. now rewrite Eh.
Qed.

(** C8.  Every [process] call first increments [state_count_]: the switch
    runs on the engine whose count is [state_count_ + 1], with
    [state_length = frame_length * (state_count_ + 1)].  The classifier is
    invoked (its instance records the frame) exactly when
    [has_satisfied_hangbefore_] holds at the start of the call; when it
    does not, the verdict is non-speech, the classifier instance is left as
    it was, and the outcome does not depend on the classifier.  The flag,
    false after [reset()], is only ever set, and only by a call made in
    Silence; so as long as it is false in a run from [reset()], the
    classifier has not been invoked at all. *)
Theorem C8_process_increments_then_classifies e data st e' :
  process classifier e data = Some (st, e') ->
  (exists fl sl,
     frame_length (vad_config_ e) = Some fl /\
     CInt.mul fl (state_count_ e + 1) = Some sl /\
     transition fl sl
       (has_satisfied_hangbefore_ e
        && classifier (vad_inst_ e) data (sample_rate (vad_config_ e)) frame_time_ms)
       (set_inst (vad_inst_ e') (set_state_count (state_count_ e + 1) e))
     = Some e') /\
  (vad_inst_ e' = data :: vad_inst_ e <-> has_satisfied_hangbefore_ e = true) /\
  (has_satisfied_hangbefore_ e = false ->
     vad_inst_ e' = vad_inst_ e /\
     forall other, process other e data = Some (st, e')) /\
  (has_satisfied_hangbefore_ e = true -> has_satisfied_hangbefore_ e' = true) /\
  (has_satisfied_hangbefore_ e = false -> has_satisfied_hangbefore_ e' = true ->
     vad_state_ e = VadState.Silence /\ st = VadState.Silence) /\
  (forall e0 frames,
     run classifier (reset e0) frames = Some e ->
     has_satisfied_hangbefore_ e = false -> vad_inst_ e = vad_inst_ e0).
Proof.
  intros H. pose proof H as H0.
  apply process_Some in H as (fl & sl & Hfl & Hsl & _ & -> & Ht).
  pose proof (transition_inst _ _ _ _ _ Ht) as [Hi _]. simpl in Hi.
  pose proof (transition_hangbefore _ _ _ _ _ Ht) as [Hmono Hset].
  simpl in Hmono, Hset.
  assert (Hrun : forall e0 frames,
            run classifier (reset e0) frames = Some e ->
            has_satisfied_hangbefore_ e = false -> vad_inst_ e = vad_inst_ e0).
  { intros e0 frames Hr Hoff. now destruct (run_idle _ _ _ Hr Hoff) as [_ ->]. }
  unfold classify, vad_process in *.
  destruct (has_satisfied_hangbefore_ e) eqn:Eh; simpl in *.
  - split; [exists fl, sl; rewrite Hi; done|].
    split; [rewrite Hi; done|].
    split; [done|]. split; [exact Hmono|]. split; [done|exact Hrun].
  - split; [exists fl, sl; rewrite Hi; done|].
    split.
    { rewrite Hi. split; [|done]. intros E.
      apply (f_equal length) in E. simpl in E. lia. }
    split.
    { intros _. split; [done|]. intros other.
      rewrite <- H0. unfold process, classify. rewrite Eh. done. }
    split; [done|]. split; [|exact Hrun].
    intros _. apply Hset. done.
Qed.

(** C10.  In every state reachable from [reset()], whatever the classifier
    answers, [frame_count_] is non-negative.  In PreDetection it exceeds
    [state_count_], so the subtraction made on a non-speech frame (of the
    incremented count) leaves a non-negative [frame_count_]. *)
Theorem C10_frame_count_nonnegative e :
  reachable classifier e ->
  0 <= frame_count_ e /\
  (vad_state_ e = VadState.PreDetection ->
   state_count_ e <= frame_count_ e /\
   forall data st e',
     (classify classifier e data).1 = false ->
     process classifier e data = Some (st, e') ->
     frame_count_ e' = frame_count_ e - (state_count_ e + 1) /\
     0 <= frame_count_ e').
Proof.
  intros Hr. pose proof (reachable_inv _ Hr) as (Hf & Hs & Hn & Hp).
  split; [lia|]. intros Est. specialize (Hp Est). split; [lia|].
  intros data st e' Hb H.
  apply process_Some in H as (fl & sl & _ & _ & _ & _ & Ht).
  rewrite Hb in Ht. unfold transition in Ht. simpl in Ht. rewrite Est in Ht.
  vad_cases. simpl. lia.
Qed.

Lemma process_entry_inv e entry data st e' :
  entry_inv e entry ->
  process classifier e data = Some (st, e') ->
  entry_inv e'
    (if VadState.eqb (vad_state_ e) VadState.Silence
        && VadState.eqb (vad_state_ e') VadState.PreDetection
     then Some (frame_count_ e) else entry).
Proof.
  intros [Hinv Hent] H. split; [eapply process_inv; eauto|].
  apply process_Some in H as (fl & sl & _ & _ & _ & _ & Ht).
  unfold transition in Ht. simpl in Ht.
  destruct (vad_state_ e) eqn:Est; vad_cases; simpl in *;
    rewrite ?Est; simpl; try done; intros _;
    try (rewrite Hent by done); f_equal; lia.
Qed.

Lemma run_entry_inv frames : forall e entry e' entry',
  entry_inv e entry ->
  run_entry classifier e entry frames = Some (e', entry') ->
  entry_inv e' entry'.
Proof.
  induction frames as [|d rest IH]; simpl; intros e entry e' entry' Hi H.
  - now injection H as <- <-.
  - apply bind_Some in H as ([st e1] & Hp & H). simpl in H.
    eapply IH; [|exact H]. eapply process_entry_inv; eauto.
Qed.

Lemma DivCeil_room dl fl pc k :
  DivCeil dl fl = Some pc -> 0 < fl -> 1 <= k < pc ->
  fl * (k + 1) <= CInt.INT32_MAX.
Proof.
  unfold DivCeil, CInt.div. intros H Hfl Hk. vad_cases; [discriminate|].
  subst. apply int_of_Some in H as [-> _].
  assert (0 <= dl + fl - 1).
  { destruct (Z.neg_nonneg_cases (dl + fl - 1)) as [Hn|]; [|done].
    pose proof (Z.quot_le_upper_bound (dl + fl - 1) fl 0 Hfl). lia. }
  rewrite Z.quot_div_nonneg in Hk by lia.
  pose proof (Z.mul_div_le (dl + fl - 1) fl Hfl). nia.
Qed.

Lemma frame_length_int c fl : frame_length c = Some fl -> fl <= CInt.INT32_MAX.
Proof.
  unfold frame_length, ms_length, CInt.div. intros H.
  vad_cases; try discriminate. apply int_of_Some in H. lia.
Qed.

Lemma process_pre_room e data st e' :
  vad_inv e -> process classifier e data = Some (st, e') -> pre_room e'.
Proof.
  intros (Hf & Hs & Hn & Hp) H.
  apply process_Some in H as (fl & sl & Hfl & _ & _ & _ & Ht).
  pose proof (transition_inst _ _ _ _ _ Ht) as [_ Hc]. simpl in Hc.
  unfold pre_room. rewrite Hc. intros Est fl' Hfl' Hpos.
  assert (fl' = fl) as -> by congruence.
  unfold transition in Ht. simpl in Ht.
  destruct (vad_state_ e) eqn:Es; vad_cases; simpl in *;
    rewrite ?Es in Est; try done.
  - apply frame_length_int in Hfl. lia.
  - eapply DivCeil_room; eauto. lia.
Qed.

Lemma reachable_pre_room e : reachable classifier e -> pre_room e.
Proof.
  induction 1 as [e|e data st e' Hr _ H].
  - unfold pre_room. simpl. done.
  - eapply process_pre_room; eauto. now apply reachable_inv.
Qed.

Lemma frame_length_rate c :
  sample_rate c = 8000 \/ sample_rate c = 16000 ->
  exists fl, frame_length c = Some fl /\ 0 < fl.
Proof.
  unfold frame_length, ms_length, frame_time_ms.
  intros [-> | ->]; vm_compute; eauto.
Qed.

(** On a non-speech frame an engine waiting in PreDetection always gets
    back to Silence: no step of the call is undefined. *)
Lemma process_retract_defined e data :
  reachable classifier e ->
  vad_state_ e = VadState.PreDetection ->
  (sample_rate (vad_config_ e) = 8000 \/ sample_rate (vad_config_ e) = 16000) ->
  (classify classifier e data).1 = false ->
  exists e', process classifier e data = Some (VadState.Silence, e').
Proof.
  intros Hr Est Hrate Hb.
  pose proof (reachable_inv _ Hr) as (Hf & Hs & Hn & Hp).
  pose proof (reachable_pre_room _ Hr Est) as Hroom.
  destruct (frame_length_rate _ Hrate) as (fl & Hfl & Hpos).
  specialize (Hroom fl Hfl Hpos). specialize (Hp Est).
  unfold process. rewrite Hfl. simpl.
  unfold CInt.add. rewrite int_of_in by (unfold CInt.INT32_MIN; lia). simpl.
  unfold CInt.mul. rewrite int_of_in by (unfold CInt.INT32_MIN; nia). simpl.
  destruct (classify classifier e data) as [b inst]. simpl in Hb. subst b.
  unfold transition. simpl. rewrite Est.
  unfold CInt.sub. rewrite int_of_in by (unfold CInt.INT32_MIN; lia). simpl.
  eauto.
Qed.


Lemma run_entry_reachable frames : forall e entry e' entry',
  reachable classifier e ->
  run_entry classifier e entry frames = Some (e', entry') ->
  reachable classifier e'.
Proof.
  induction frames as [|d rest IH]; simpl; intros e entry e' entry' Hr H.
  - now injection H as <- <-.
  - apply bind_Some in H as ([st e1] & Hp & H). simpl in H.
    eapply IH; [|exact H]. eapply reachable_process; eauto.
Qed.

(** C5.  Let a run from [reset()] end in PreDetection, [entry] being the
    value [frame_count_] had immediately before the transition from Silence
    that entered it.  If the next frame is classified non-speech, the state
    after that [process] call is Silence and [frame_count_] is [entry]
    again; and with a sample rate [init] accepts, the call is defined. *)
Theorem C5_predetection_retract e0 frames e entry data :
  run_entry classifier (reset e0) None frames = Some (e, entry) ->
  vad_state_ e = VadState.PreDetection ->
  (classify classifier e data).1 = false ->
  (forall st e', process classifier e data = Some (st, e') ->
     st = VadState.Silence /\ vad_state_ e' = VadState.Silence /\
     entry = Some (frame_count_ e')) /\
  (sample_rate (vad_config_ e) = 8000 \/ sample_rate (vad_config_ e) = 16000 ->
   exists e', process classifier e data = Some (VadState.Silence, e')).
Proof.
  intros Hrun Est Hb. split.
  - intros st e' H.
    assert (Hi : entry_inv (reset e0) None).
    { split; [apply vad_inv_reset|]. simpl. done. }
    pose proof (run_entry_inv _ _ _ _ _ Hi Hrun) as [_ Hent].
    specialize (Hent Est).
    apply process_Some in H as (fl & sl & _ & _ & _ & -> & Ht).
    rewrite Hb in Ht. unfold transition in Ht. simpl in Ht. rewrite Est in Ht.
    vad_cases. simpl. repeat split; try done. f_equal. lia.
  - intros Hrate. apply process_retract_defined; try done.
    eapply run_entry_reachable; [apply reachable_reset|exact Hrun].
Qed.

End VadProperties.

Lemma C5_witness :
  (forall st e', Vad.process Vad.loud Vad.onset_engine [] = Some (st, e') ->
     st = Vad.VadState.Silence /\ Vad.vad_state_ e' = Vad.VadState.Silence /\
     Some 10 = Some (Vad.frame_count_ e')) /\
  (Vad.sample_rate (Vad.vad_config_ Vad.onset_engine) = 8000 \/
   Vad.sample_rate (Vad.vad_config_ Vad.onset_engine) = 16000 ->
   exists e', Vad.process Vad.loud Vad.onset_engine [] = Some (Vad.VadState.Silence, e')).
Proof.
  apply (C5_predetection_retract Vad.loud Vad.fresh_engine Vad.onset_frames
           Vad.onset_engine (Some 10) []); vm_compute; reflexivity.
Defined.

Lemma C8_witness :
  (exists fl sl,
     Vad.frame_length (Vad.vad_config_ Vad.onset_engine) = Some fl /\
     CInt.mul fl (Vad.state_count_ Vad.onset_engine + 1) = Some sl /\
     Vad.transition fl sl
       (Vad.has_satisfied_hangbefore_ Vad.onset_engine
        && Vad.loud (Vad.vad_inst_ Vad.onset_engine) []
             (Vad.sample_rate (Vad.vad_config_ Vad.onset_engine)) Vad.frame_time_ms)
       (Vad.set_inst (Vad.vad_inst_ Vad.retracted_engine)
          (Vad.set_state_count (Vad.state_count_ Vad.onset_engine + 1) Vad.onset_engine))
     = Some Vad.retracted_engine) /\
  (Vad.vad_inst_ Vad.retracted_engine = [] :: Vad.vad_inst_ Vad.onset_engine <->
   Vad.has_satisfied_hangbefore_ Vad.onset_engine = true) /\
  (Vad.has_satisfied_hangbefore_ Vad.onset_engine = false ->
     Vad.vad_inst_ Vad.retracted_engine = Vad.vad_inst_ Vad.onset_engine /\
     forall other,
       Vad.process other Vad.onset_engine [] =
       Some (Vad.VadState.Silence, Vad.retracted_engine)) /\
  (Vad.has_satisfied_hangbefore_ Vad.onset_engine = true ->
     Vad.has_satisfied_hangbefore_ Vad.retracted_engine = true) /\
  (Vad.has_satisfied_hangbefore_ Vad.onset_engine = false ->
     Vad.has_satisfied_hangbefore_ Vad.retracted_engine = true ->
     Vad.vad_state_ Vad.onset_engine = Vad.VadState.Silence /\
     Vad.VadState.Silence = Vad.VadState.Silence) /\
  (forall e0 frames,
     Vad.run Vad.loud (Vad.reset e0) frames = Some Vad.onset_engine ->
     Vad.has_satisfied_hangbefore_ Vad.onset_engine = false ->
     Vad.vad_inst_ Vad.onset_engine = Vad.vad_inst_ e0).
Proof.
  apply (C8_process_increments_then_classifies Vad.loud Vad.onset_engine []
           Vad.VadState.Silence Vad.retracted_engine).
  vm_compute. reflexivity.
Defined.

Lemma C10_witness :
  0 <= Vad.frame_count_ Vad.onset_engine /\
  (Vad.vad_state_ Vad.onset_engine = Vad.VadState.PreDetection ->
   Vad.state_count_ Vad.onset_engine <= Vad.frame_count_ Vad.onset_engine /\
   forall data st e',
     (Vad.classify Vad.loud Vad.onset_engine data).1 = false ->
     Vad.process Vad.loud Vad.onset_engine data = Some (st, e') ->
     Vad.frame_count_ e' =
       Vad.frame_count_ Vad.onset_engine - (Vad.state_count_ Vad.onset_engine + 1) /\
     0 <= Vad.frame_count_ e').
Proof.
  apply (C10_frame_count_nonnegative Vad.loud Vad.onset_engine).
  apply (run_reachable Vad.loud (Vad.reset Vad.fresh_engine) Vad.onset_frames).
  - apply Vad.reachable_reset.
  - vm_compute. reflexivity.
Defined.

(** ** MFCC engine: configuration check *)

Section MfccInit.

Import Mfcc.

(** C4 as stated fails: with the default configuration's other values,
    [coef_num = 0] and [coef_num = 25 > mel_channel = 24] are both accepted
    when the buffers can be allocated and the FFT driver initialises. *)
Lemma C4_counterexample :
  (exists e env, init roomy_env (set_coef_num 0 default_config) blank_engine
                 = Some (true, e, env)) /\
  (exists e env, init roomy_env (set_coef_num 25 default_config) blank_engine
                 = Some (true, e, env)).
Proof. split; vm_compute; eauto. Qed.

Lemma VerifyMfccConfig_coef_num config n :
  0 <= coef_num config -> 0 <= n ->
  VerifyMfccConfig (set_coef_num n config) = VerifyMfccConfig config.
Proof.
  intros H Hn. unfold VerifyMfccConfig, frame_length. simpl.
  replace (coef_num config <? 0) with false by (symmetry; apply Z.ltb_ge; lia).
  replace (n <? 0) with false by (symmetry; apply Z.ltb_ge; lia).
  done.
Qed.

(** C4, amended.  [init] rejects every configuration whose [coef_num] is
    negative, leaving the engine and its surroundings as they were; of a
    non-negative [coef_num] the configuration check reads nothing but the
    sign, so neither 0 nor a value above [mel_channel] is refused by it. *)
Theorem C4_init_rejects_negative_coef_num env config e :
  coef_num config < 0 ->
  init env config e = Some (false, e, env) /\
  VerifyMfccConfig config = Some false /\
  forall n, 0 <= n ->
    VerifyMfccConfig (set_coef_num n config)
    = VerifyMfccConfig (set_coef_num 0 config).
Proof.
  intros H.
  assert (Hv : VerifyMfccConfig config = Some false).
  { unfold VerifyMfccConfig.
    destruct (_ || _) eqn:E1; [done|].
    replace (coef_num config <? 0) with true by (symmetry; apply Z.ltb_lt; lia).
    rewrite orb_true_r. done. }
  split; [|split; [done|]].
  - unfold init. rewrite Hv. done.
  - intros n Hn.
    rewrite <- (VerifyMfccConfig_coef_num (set_coef_num 0 config) n); simpl; try lia.
    done.
Qed.

Lemma C4_witness :
  init roomy_env (set_coef_num (-1) default_config) blank_engine
    = Some (false, blank_engine, roomy_env) /\
  VerifyMfccConfig (set_coef_num (-1) default_config) = Some false /\
  forall n, 0 <= n ->
    VerifyMfccConfig (set_coef_num n (set_coef_num (-1) default_config))
    = VerifyMfccConfig (set_coef_num 0 (set_coef_num (-1) default_config)).
Proof.
  apply (C4_init_rejects_negative_coef_num roomy_env
           (set_coef_num (-1) default_config) blank_engine).
  vm_compute. reflexivity.
Defined.

End MfccInit.

(** ** Feature files *)

Section FeatureFiles.

Import Mfcc.

Lemma fread_exact (bytes rest : list byte) size count :
  0 < size -> 0 <= count -> Z.of_nat (length bytes) = count * size ->
  FS.fread (bytes ++ rest) size count = (bytes, count, rest).
Proof.
  intros Hs Hc Hlen. unfold FS.fread.
  assert (Hk : Z.min count (Z.of_nat (length (bytes ++ rest)) / size) = count).
  { apply Z.min_l. apply Z.div_le_lower_bound; [lia|].
    rewrite length_app. lia. }
  rewrite Hk.
  replace (Z.to_nat (count * size)) with (length bytes) by lia.
  rewrite take_app_length, drop_app_length. done.
Qed.

Lemma i32_le_bytes v :
  CInt.INT32_MIN <= v <= CInt.INT32_MAX ->
  CInt.i32 (le_combine (int32_bytes v)) = v.
Proof.
  unfold int32_bytes, CInt.i32, CInt.INT32_MIN, CInt.INT32_MAX. intros H.
  rewrite le_combine_split. change (2 ^ (Z.of_nat 4 * 8)) with (2 ^ 32).
  rewrite Zplus_mod_idemp_l. rewrite Z.mod_small by lia. lia.
Qed.

Lemma int16s_of_le_bytes (l : list Z) :
  Forall (fun v => CInt.INT16_MIN <= v <= CInt.INT16_MAX) l ->
  int16s_of_bytes (concat (int16_bytes <$> l)) = l.
Proof.
  induction 1 as [|v l Hv _ IH]; [done|].
  rewrite fmap_cons. cbn [concat]. unfold int16_bytes at 1.
  destruct (le_split 2 v) as [|b0 [|b1 [|b2 t]]] eqn:E;
    try (apply (f_equal length) in E; rewrite length_le_split in E; simpl in E; lia).
  change ([b0; b1] ++ ?r) with (b0 :: b1 :: r). cbn [int16s_of_bytes].
  rewrite IH. f_equal.
  rewrite <- E, le_combine_split. change (2 ^ (Z.of_nat 2 * 8)) with (2 ^ 16).
  unfold CInt.i16, CInt.INT16_MIN, CInt.INT16_MAX in *.
  rewrite Zplus_mod_idemp_l. rewrite Z.mod_small by lia. lia.
Qed.

Lemma length_int16_image (l : list Z) :
  Z.of_nat (length (concat (int16_bytes <$> l))) = Z.of_nat (length l) * 2.
Proof.
  induction l as [|v l IH]; [done|].
  rewrite fmap_cons. cbn [concat]. rewrite length_app. unfold int16_bytes at 1.
  rewrite length_le_split. simpl length. lia.
Qed.

(** Loading an image of a well-formed feature gives the feature back. *)
Lemma loadFile_image h fs path f :
  wf_feature f ->
  FS.files fs !! path = Some (file_image f) ->
  Heap.malloc h (2 * frame_num_ f * coef_num_ f) = true ->
  loadFile h fs path = Some (Some f).
Proof.
  intros (Hn & Hc & Hmax & Hlen & Hrange) Hfile Hroom.
  destruct f as [fn cn data]. simpl in *.
  unfold CInt.INT32_MAX in Hmax.
  assert (Hfn : fn <= 2147483647) by nia.
  assert (Hcn : cn <= 2147483647) by nia.
  unfold loadFile, FS.fopen_rb. rewrite Hfile. unfold file_image.
  cbn [frame_num_ coef_num_ feature_].
  change (VERSION1 :: ?r) with ([VERSION1] ++ r).
  rewrite (fread_exact [VERSION1] _ 1 1) by (cbn [length]; lia).
  cbv beta iota. change (negb (1 =? 1)) with false. cbv iota.
  rewrite (fread_exact (int32_bytes fn) _ 4 1)
    by (unfold int32_bytes; rewrite ?length_le_split; lia).
  cbv beta iota. change (negb (1 =? 1)) with false. cbv iota.
  rewrite (fread_exact (int32_bytes cn) _ 4 1)
    by (unfold int32_bytes; rewrite ?length_le_split; lia).
  cbv beta iota. change (negb (1 =? 1)) with false. cbv iota.
  rewrite !i32_le_bytes by (unfold CInt.INT32_MIN, CInt.INT32_MAX; lia).
  rewrite (u32_small (2 * fn * cn)) by lia. rewrite Hroom. cbn [negb].
  unfold CInt.mul. rewrite int_of_in by (unfold CInt.INT32_MIN, CInt.INT32_MAX; lia).
  cbn [mbind option_bind]. rewrite (u32_small (fn * cn)) by lia.
  rewrite <- (app_nil_r (concat _)).
  rewrite (fread_exact _ [] 2 (fn * cn)) by (rewrite ?length_int16_image; lia).
  replace (2 * fn * cn <? 2 * (fn * cn)) with false by (symmetry; apply Z.ltb_ge; lia).
  rewrite Z.eqb_refl. cbn [negb]. rewrite int16s_of_le_bytes by done. done.
Qed.

(** ** Buffered streams *)

Lemma fflush_holds fs0 path put s :
  FS.holds fs0 path put s ->
  FS.holds fs0 path put (FS.fflush s).2 /\
  (length (FS.pending (FS.fflush s).2.2) <= length (FS.pending s.2))%nat /\
  (Z.of_nat (length put) <= FS.free fs0 -> (FS.fflush s).1 = true).
Proof.
  destruct s as [fs file]. intros (Hn & Hro & Hb & taken & Hf & Hp & Hfree & Hroom).
  cbn [fst snd] in *. unfold FS.fflush, FS.holds.
  set (k := Z.to_nat (Z.min (Z.of_nat (length (FS.pending file))) (FS.free fs))).
  cbn [fst snd FS.name FS.pending FS.files FS.free FS.read_only FS.bufsiz].
  assert (Hk : (k <= length (FS.pending file))%nat) by lia.
  assert (Hk' : Z.of_nat k <= Z.max 0 (FS.free fs)) by lia.
  assert (Hk'' : Z.of_nat (length (FS.pending file)) <= FS.free fs ->
                 k = length (FS.pending file)) by lia.
  clearbody k.
  split; [|split].
  - split; [done|]. split; [done|]. split; [done|].
    exists (taken ++ take k (FS.pending file)).
    rewrite Hn, Hf, alter_insert_eq, length_app, length_take.
    split; [done|]. split; [now rewrite <- app_assoc, take_drop|]. lia.
  - rewrite length_drop. lia.
  - intros Hfit. apply Nat.eqb_eq. subst put. rewrite length_app in Hfit.
    apply Hk''. lia.
Qed.

Lemma fputc_holds fs0 path put b s :
  FS.holds fs0 path put s ->
  FS.holds fs0 path (put ++ [b]) (FS.fputc b s).2 /\
  (length (FS.pending (FS.fputc b s).2.2) <= length (FS.pending s.2) + 1)%nat /\
  (Z.of_nat (length put) + 1 <= FS.free fs0 -> (FS.fputc b s).1 = true) /\
  (Z.of_nat (length (FS.pending s.2)) + 1 < FS.bufsiz s.1 ->
   FS.fputc b s = (true, (s.1, FS.mkFILE (FS.name s.2) (FS.pending s.2 ++ [b])))).
Proof.
  destruct s as [fs file]. intros H.
  assert (H' : FS.holds fs0 path (put ++ [b])
                 (fs, FS.mkFILE (FS.name file) (FS.pending file ++ [b]))).
  { destruct H as (Hn & Hro & Hb & taken & Hf & Hp & Hfree & Hroom).
    cbn [fst snd] in *. split; [done|]. split; [done|]. split; [done|].
    exists taken. cbn [fst snd FS.pending]. rewrite app_assoc, Hp. done. }
  unfold FS.fputc. cbn [fst snd FS.pending].
  destruct (FS.bufsiz fs <=? _) eqn:E.
  - destruct (fflush_holds _ _ _ _ H') as (F1 & F2 & F3).
    cbn [fst snd FS.pending] in F2. rewrite length_app in F2. cbn [length] in F2.
    split; [done|]. split; [lia|]. split.
    + intros Hfit. apply F3. rewrite length_app. cbn [length]. lia.
    + intros Hsmall. apply Z.leb_le in E. rewrite length_app in E. cbn [length] in E. lia.
  - cbn [fst snd FS.pending]. split; [done|]. rewrite length_app. cbn [length].
    split; [lia|]. done.
Qed.

Lemma put_bytes_holds fs0 path bytes : forall put s,
  FS.holds fs0 path put s ->
  (exists n, FS.holds fs0 path (put ++ take n bytes) (FS.put_bytes bytes s).2 /\
             ((FS.put_bytes bytes s).1 = true -> take n bytes = bytes)) /\
  (length (FS.pending (FS.put_bytes bytes s).2.2)
   <= length (FS.pending s.2) + length bytes)%nat /\
  (Z.of_nat (length put) + Z.of_nat (length bytes) <= FS.free fs0 ->
   (FS.put_bytes bytes s).1 = true) /\
  (Z.of_nat (length (FS.pending s.2)) + Z.of_nat (length bytes) < FS.bufsiz s.1 ->
   (FS.put_bytes bytes s).1 = true).
Proof.
  induction bytes as [|b rest IH]; intros put s H.
  - cbn [FS.put_bytes fst snd length]. split; [|split; [lia|done]].
    exists 0%nat. cbn [take]. now rewrite app_nil_r.
  - cbn [FS.put_bytes].
    destruct (fputc_holds _ _ _ b _ H) as (C1 & C2 & C3 & C4).
    destruct (FS.fputc b s) as [ok s'] eqn:E. cbn [fst snd] in *.
    destruct ok.
    + destruct (IH _ _ C1) as ((n & I1 & I1') & I2 & I3 & I4).
      split; [|split; [|split]].
      * exists (S n). cbn [take]. rewrite (cons_middle b), app_assoc.
        split; [done|]. intros Hok. cbn [app]. f_equal. auto.
      * cbn [length]. lia.
      * intros Hfit. apply I3. rewrite length_app. cbn [length] in *. lia.
      * intros Hsmall. cbn [length] in Hsmall.
        injection (C4 ltac:(lia)) as ->. cbn [fst snd FS.pending] in *.
        apply I4. rewrite length_app. cbn [length]. lia.
    + cbn [fst snd]. split; [|split; [|split]].
      * exists 1%nat. cbn [take]. split; [done|]. discriminate.
      * cbn [length]. lia.
      * intros Hfit. cbn [length] in Hfit. apply C3. lia.
      * intros Hsmall. cbn [length] in Hsmall. discriminate (C4 ltac:(lia)).
Qed.

Lemma fwrite_holds fs0 path items : forall put s,
  FS.holds fs0 path put s ->
  (exists more, FS.holds fs0 path (put ++ more) (FS.fwrite items s).2 /\
                more `prefix_of` concat items /\
                ((FS.fwrite items s).1 = Z.of_nat (length items) ->
                 more = concat items)) /\
  0 <= (FS.fwrite items s).1 <= Z.of_nat (length items) /\
  (length (FS.pending (FS.fwrite items s).2.2)
   <= length (FS.pending s.2) + length (concat items))%nat /\
  (Z.of_nat (length put) + Z.of_nat (length (concat items)) <= FS.free fs0 ->
   (FS.fwrite items s).1 = Z.of_nat (length items)) /\
  (Z.of_nat (length (FS.pending s.2)) + Z.of_nat (length (concat items))
   < FS.bufsiz s.1 ->
   (FS.fwrite items s).1 = Z.of_nat (length items)).
Proof.
  induction items as [|item rest IH]; intros put s H.
  - cbn [FS.fwrite fst snd length concat].
    split; [|split; [lia|split; [lia|done]]].
    exists []. rewrite app_nil_r. done.
  - cbn [FS.fwrite concat].
    destruct (put_bytes_holds fs0 path item _ _ H) as ((n & P1 & P1') & P2 & P3 & P4).
    destruct (FS.put_bytes item s) as [ok s'] eqn:E. cbn [fst snd] in *.
    rewrite length_app.
    destruct ok.
    + rewrite P1' in P1 by done.
      destruct (IH _ _ P1) as ((more & I1 & I1' & I1'') & I2 & I3 & I4 & I5).
      destruct (FS.fwrite rest s') as [k s''] eqn:E'. cbn [fst snd length] in *.
      split; [|split; [lia|split; [lia|split]]].
      * exists (item ++ more). rewrite app_assoc. split; [done|].
        split; [now apply prefix_app|].
        intros Hk. rewrite I1'' by lia. done.
      * intros Hfit. rewrite I4; [lia|]. rewrite length_app. lia.
      * intros Hsmall. rewrite I5; [lia|].
        destruct P1 as (_ & _ & B1 & _). destruct H as (_ & _ & B0 & _).
        rewrite B1, <- B0. lia.
    + cbn [fst snd length].
      split; [|split; [lia|split; [lia|split]]].
      * exists (take n item). split; [done|].
        split; [|lia].
        apply prefix_app_r, prefix_take.
      * intros Hfit. discriminate P3. lia.
      * intros Hsmall. discriminate P4. lia.
Qed.

Lemma fclose_holds fs0 path put s :
  FS.holds fs0 path put s ->
  FS.files (FS.fclose s).2
  = <[path := take (Z.to_nat (FS.free fs0)) put]> (FS.files fs0) /\
  FS.read_only (FS.fclose s).2 = FS.read_only fs0 /\
  FS.bufsiz (FS.fclose s).2 = FS.bufsiz fs0.
Proof.
  intros H.
  destruct s as [fs file]. destruct H as (Hn & Hro & Hb & taken & Hf & Hp & Hfree & Hroom).
  cbn [fst snd] in *. unfold FS.fclose, FS.fflush.
  cbn [fst snd FS.files FS.read_only FS.bufsiz]. split; [|done].
  rewrite Hn, Hf, alter_insert_eq. f_equal. subst put.
  rewrite Hfree.
  destruct (Z.le_gt_cases 0 (FS.free fs0)) as [Hpos|Hneg].
  - rewrite take_app_ge by lia. f_equal.
    destruct (Z.le_gt_cases (Z.of_nat (length (FS.pending file)))
                (FS.free fs0 - Z.of_nat (length taken))).
    + rewrite !take_ge by lia. done.
    + f_equal. lia.
  - assert (taken = []) as -> by (apply length_zero_iff_nil; lia).
    cbn [app length]. replace (Z.to_nat (FS.free fs0)) with 0%nat by lia.
    replace (Z.to_nat _) with 0%nat by lia. done.
Qed.

(** One [fwrite] of [saveFile]: either it reports all its items, or the
    volume had no room for the image and the buffer was too small for it. *)
Lemma fwrite_step fs0 path put s items k s' (image rest : list byte) :
  FS.holds fs0 path put s ->
  FS.fwrite items s = (k, s') ->
  image = put ++ concat items ++ rest ->
  (k = Z.of_nat (length items) /\ FS.holds fs0 path (put ++ concat items) s')
  \/ (k <> Z.of_nat (length items) /\
      exists put', FS.holds fs0 path put' s' /\ put' `prefix_of` image /\
                   FS.free fs0 < Z.of_nat (length image) /\
                   FS.bufsiz fs0 <= Z.of_nat (length image)).
Proof.
  intros H E ->.
  destruct (fwrite_holds fs0 path items _ _ H)
    as ((more & W1 & W2 & W3) & W4 & W5 & W6 & W7).
  rewrite E in *. cbn [fst snd] in *.
  destruct (Z.eq_dec k (Z.of_nat (length items))) as [Hk|Hk].
  - left. split; [done|]. now rewrite <- W3.
  - right. split; [done|]. exists (put ++ more). split; [done|].
    split; [apply prefix_app, prefix_app_r, W2|].
    rewrite !length_app.
    destruct H as (_ & _ & B & taken & _ & P & _).
    apply (f_equal length) in P. rewrite length_app in P. split; lia.
Qed.

(** [saveFile] on a writable volume, [room] being the bytes free once the
    file is truncated: the bytes [put] into the stream are a prefix of the
    image, the file holds as many of them as there was room for, and the
    result is true when, and only when, every [fwrite] has put its items;
    which is so whenever the volume has room for the image and whenever the
    image is smaller than the buffer. *)
Lemma saveFile_writable fs path f :
  wf_feature f -> FS.read_only fs = false ->
  let room := FS.free fs + Z.of_nat (length (default [] (FS.files fs !! path))) in
  exists b fs' put,
    saveFile fs path f = Some (b, fs') /\
    put `prefix_of` file_image f /\
    FS.files fs' = <[path := take (Z.to_nat room) put]> (FS.files fs) /\
    FS.read_only fs' = false /\ FS.bufsiz fs' = FS.bufsiz fs /\
    (b = true -> put = file_image f) /\
    (Z.of_nat (length (file_image f)) <= room -> b = true) /\
    (Z.of_nat (length (file_image f)) < FS.bufsiz fs -> b = true).
Proof.
  intros (Hn & Hc & Hmax & Hlen & Hrange) Hrw room.
  unfold saveFile, FS.fopen_wb. rewrite Hrw.
  set (fs0 := FS.mk _ _ _ _).
  assert (H0 : FS.holds fs0 path [] (fs0, FS.mkFILE path [])).
  { split; [done|]. split; [done|]. split; [done|]. exists [].
    unfold fs0. cbn [fst snd FS.files FS.pending FS.free length app].
    rewrite insert_insert_eq. repeat split; lia. }
  assert (Hfail : forall s put',
            FS.holds fs0 path put' s -> put' `prefix_of` file_image f ->
            FS.free fs0 < Z.of_nat (length (file_image f)) ->
            FS.bufsiz fs0 <= Z.of_nat (length (file_image f)) ->
            exists b fs' put,
              Some (false, (FS.fclose s).2) = Some (b, fs') /\
              put `prefix_of` file_image f /\
              FS.files fs' = <[path := take (Z.to_nat room) put]> (FS.files fs) /\
              FS.read_only fs' = false /\ FS.bufsiz fs' = FS.bufsiz fs /\
              (b = true -> put = file_image f) /\
              (Z.of_nat (length (file_image f)) <= room -> b = true) /\
              (Z.of_nat (length (file_image f)) < FS.bufsiz fs -> b = true)).
  { intros s put' Hs Hpre Hfree Hbuf.
    destruct (fclose_holds _ _ _ _ Hs) as (C1 & C2 & C3).
    exists false, (FS.fclose s).2, put'. split; [done|]. split; [done|].
    rewrite C1, C2, C3. cbn [FS.files FS.free FS.read_only FS.bufsiz fs0] in *.
    rewrite insert_insert_eq. fold room in Hfree.
    split; [done|]. split; [done|]. split; [done|].
    split; [discriminate|]. split; intros; lia. }
  change (Feature.size f) with (frame_num_ f).
  change (Feature.dimension f) with (coef_num_ f).
  assert (Himg : file_image f
                 = [] ++ concat [[VERSION1]]
                   ++ (int32_bytes (frame_num_ f) ++ int32_bytes (coef_num_ f)
                       ++ concat (int16_bytes <$> feature_ f))) by done.
  (* the tag *)
  destruct (FS.fwrite [[VERSION1]] _) as [k1 s1] eqn:E1.
  destruct (fwrite_step _ _ _ _ _ _ _ _ _ H0 E1 Himg)
    as [[-> H1]|[Hk1 (put' & P1 & P2 & P3 & P4)]].
  2: { replace (k1 =? 1) with false by (symmetry; apply Z.eqb_neq; cbn in Hk1; lia).
       now apply (Hfail s1 put'). }
  change (Z.of_nat (length [[VERSION1]]) =? 1) with true. cbn [negb].
  clear E1 H0 Himg.
  (* the number of frames *)
  assert (Himg : file_image f
                 = ([] ++ concat [[VERSION1]]) ++ concat [int32_bytes (frame_num_ f)]
                   ++ (int32_bytes (coef_num_ f)
                       ++ concat (int16_bytes <$> feature_ f))).
  { unfold file_image. cbn [concat app]. now rewrite app_nil_r. }
  destruct (FS.fwrite [int32_bytes (frame_num_ f)] _) as [k2 s2] eqn:E2.
  destruct (fwrite_step _ _ _ _ _ _ _ _ _ H1 E2 Himg)
    as [[-> H2]|[Hk2 (put' & P1 & P2 & P3 & P4)]].
  2: { replace (k2 =? 1) with false by (symmetry; apply Z.eqb_neq; cbn in Hk2; lia).
       now apply (Hfail s2 put'). }
  change (Z.of_nat (length [int32_bytes (frame_num_ f)]) =? 1) with true. cbn [negb].
  clear E2 H1 Himg.
  (* the number of coefficients *)
  assert (Himg : file_image f
                 = (([] ++ concat [[VERSION1]]) ++ concat [int32_bytes (frame_num_ f)])
                   ++ concat [int32_bytes (coef_num_ f)]
                   ++ (concat (int16_bytes <$> feature_ f) ++ [])).
  { unfold file_image. cbn [concat app].
    repeat rewrite app_nil_r. repeat rewrite <- app_assoc. done. }
  destruct (FS.fwrite [int32_bytes (coef_num_ f)] _) as [k3 s3] eqn:E3.
  destruct (fwrite_step _ _ _ _ _ _ _ _ _ H2 E3 Himg)
    as [[-> H3]|[Hk3 (put' & P1 & P2 & P3 & P4)]].
  2: { replace (k3 =? 1) with false by (symmetry; apply Z.eqb_neq; cbn in Hk3; lia).
       now apply (Hfail s3 put'). }
  change (Z.of_nat (length [int32_bytes (coef_num_ f)]) =? 1) with true. cbn [negb].
  clear E3 H2 Himg.
  (* the matrix *)
  unfold CInt.mul.
  rewrite int_of_in by (unfold CInt.INT32_MIN, CInt.INT32_MAX in *; lia).
  cbn [mbind option_bind].
  replace (_ || _) with false by (symmetry; apply orb_false_iff; split;
    [apply Z.ltb_ge|apply Z.ltb_ge]; lia).
  assert (Htake : take (Z.to_nat (frame_num_ f * coef_num_ f)) (feature_ f) = feature_ f).
  { apply firstn_all2. lia. }
  rewrite Htake.
  assert (Himg : file_image f
                 = ((([] ++ concat [[VERSION1]]) ++ concat [int32_bytes (frame_num_ f)])
                    ++ concat [int32_bytes (coef_num_ f)])
                   ++ concat (int16_bytes <$> feature_ f) ++ []).
  { unfold file_image. cbn [concat app].
    repeat rewrite app_nil_r. repeat rewrite <- app_assoc. done. }
  destruct (FS.fwrite (int16_bytes <$> feature_ f) _) as [k4 s4] eqn:E4.
  destruct (fwrite_step _ _ _ _ _ _ _ _ _ H3 E4 Himg)
    as [[-> H4]|[Hk4 (put' & P1 & P2 & P3 & P4)]].
  2: { rewrite length_fmap in Hk4.
       replace (k4 =? _) with false by (symmetry; apply Z.eqb_neq; lia).
       now apply (Hfail s4 put'). }
  rewrite length_fmap.
  replace (_ =? _) with true by (symmetry; apply Z.eqb_eq; lia).
  rewrite app_nil_r in Himg. rewrite <- Himg in H4.
  destruct (fclose_holds _ _ _ _ H4) as (C1 & C2 & C3).
  exists true, (FS.fclose s4).2, (file_image f). split; [done|]. split; [done|].
  rewrite C1, C2, C3. cbn [FS.files FS.free FS.read_only FS.bufsiz fs0].
  rewrite insert_insert_eq. done.
Qed.


Lemma file_image_length f :
  Z.of_nat (length (file_image f)) = 9 + 2 * Z.of_nat (length (feature_ f)).
Proof.
  unfold file_image. cbn [length]. rewrite !length_app.
  unfold int32_bytes. rewrite !length_le_split.
  pose proof (length_int16_image (feature_ f)). lia.
Qed.

(** [saveFile] succeeds on a writable volume with room for the image, and
    leaves the image in the file. *)
Lemma saveFile_room fs path f :
  wf_feature f ->
  FS.read_only fs = false ->
  9 + 2 * frame_num_ f * coef_num_ f <= FS.free fs ->
  exists fs', saveFile fs path f = Some (true, fs') /\
              FS.files fs' !! path = Some (file_image f).
Proof.
  intros Hwf Hrw Hfree.
  destruct (saveFile_writable fs path f Hwf Hrw)
    as (b & fs' & put & Hsave & _ & Hfiles & _ & _ & Hput & Hroom & _).
  pose proof (file_image_length f) as Hlen.
  destruct Hwf as (_ & _ & _ & Hcells & _).
  rewrite Hroom in * by lia. rewrite Hput in * by done.
  exists fs'. split; [done|].
  rewrite Hfiles, lookup_insert_eq, take_ge by lia. done.
Qed.

(** C6.  For a well-formed feature, [saveFile] succeeds on a writable
    volume with room for the nine header bytes and the matrix.  Whenever it
    reports success on a volume with that room, the file holds the tag
    byte 1, [frame_num] and [coef_num] as 32-bit little-endian integers and
    the matrix row by row as 16-bit little-endian integers; and [loadFile],
    given room for the matrix, returns a feature with the same [frame_num],
    [coef_num] and matrix. *)
Theorem C6_save_load_roundtrip h fs path f :
  wf_feature f ->
  (FS.read_only fs = false -> 9 + 2 * frame_num_ f * coef_num_ f <= FS.free fs ->
     exists fs', saveFile fs path f = Some (true, fs')) /\
  (9 + 2 * frame_num_ f * coef_num_ f <= FS.free fs ->
   forall fs', saveFile fs path f = Some (true, fs') ->
     FS.files fs' !! path
       = Some (Byte.x01 :: le_split 4 (frame_num_ f) ++ le_split 4 (coef_num_ f)
                 ++ concat (le_split 2 <$> feature_ f)) /\
     (Heap.malloc h (2 * frame_num_ f * coef_num_ f) = true ->
        loadFile h fs' path = Some (Some f))).
Proof.
  intros Hwf. split.
  - intros Hrw Hfree.
    destruct (saveFile_room fs path f Hwf Hrw Hfree) as (fs' & Hsave & _). eauto.
  - intros Hfree fs' Hsave.
    destruct (FS.read_only fs) eqn:Hrw.
    { unfold saveFile, FS.fopen_wb in Hsave. rewrite Hrw in Hsave. discriminate. }
    destruct (saveFile_room fs path f Hwf Hrw Hfree) as (fs'' & Hsave' & Himg).
    rewrite Hsave in Hsave'. injection Hsave' as <-.
    split; [exact Himg|]. intros Hroom. now apply loadFile_image.
Qed.

(** C3 as stated fails: this file starts with the byte 2 and loads. *)
Lemma C3_counterexample :
  head foreign_file = Some Byte.x02 /\
  loadFile (Heap.mk 100000 false) foreign_volume "wakeword.bin"
    = Some (Some (mkMfccFeature 1 1 [5])).
Proof. split; vm_compute; reflexivity. Qed.

(** C3, amended.  [loadFile] reads the version tag and never examines it:
    two files that differ only in their first byte load alike (both to the
    same feature, or both to null). *)
Theorem C3_loadFile_ignores_tag h files free ro bufsiz path tag tag' rest :
  loadFile h (FS.mk (<[path := tag :: rest]> files) free ro bufsiz) path
  = loadFile h (FS.mk (<[path := tag' :: rest]> files) free ro bufsiz) path.
Proof.
  unfold loadFile, FS.fopen_rb. cbn [FS.files].
  rewrite !lookup_insert_eq.
  change (tag :: rest) with ([tag] ++ rest).
  change (tag' :: rest) with ([tag'] ++ rest).
  rewrite !(fread_exact _ rest 1 1) by (cbn [length]; lia). done.
Qed.

End FeatureFiles.

Lemma C6_witness :
  (exists fs', Mfcc.saveFile Mfcc.empty_volume "wakeword.bin" Mfcc.sample_feature
               = Some (true, fs')) /\
  FS.files Mfcc.sample_volume !! "wakeword.bin"%string
    = Some (Byte.x01 :: le_split 4 (Mfcc.frame_num_ Mfcc.sample_feature)
              ++ le_split 4 (Mfcc.coef_num_ Mfcc.sample_feature)
              ++ concat (le_split 2 <$> Mfcc.feature_ Mfcc.sample_feature)) /\
  Mfcc.loadFile (Heap.mk 100000 false) Mfcc.sample_volume "wakeword.bin"
    = Some (Some Mfcc.sample_feature).
Proof.
  assert (Hwf : Mfcc.wf_feature Mfcc.sample_feature).
  { unfold Mfcc.wf_feature. repeat split; try (vm_compute; congruence).
    repeat constructor; vm_compute; congruence. }
  destruct (C6_save_load_roundtrip (Heap.mk 100000 false) Mfcc.empty_volume
              "wakeword.bin" Mfcc.sample_feature Hwf) as [Hsave Hload].
  split; [apply Hsave; vm_compute; congruence|].
  destruct (Hload ltac:(vm_compute; congruence) Mfcc.sample_volume)
    as [Himg Hback]; [vm_compute; reflexivity|].
  split; [exact Himg|]. apply Hback. vm_compute. reflexivity.
Defined.
(** ** IEEE binary32: rounding

    What the roundings of [SpecFloat] do to a mantissa, as far as the
    cosine distance of a vector to itself needs it. *)

Section Rounding.

Lemma digits2_pos_bounds p :
  2 ^ (Z.pos (digits2_pos p) - 1) <= Z.pos p < 2 ^ Z.pos (digits2_pos p).
Proof.
  induction p as [p IH|p IH|]; cbn [digits2_pos].
  - rewrite Pos2Z.inj_succ.
    replace (Z.succ (Z.pos (digits2_pos p)) - 1) with (Z.succ (Z.pos (digits2_pos p) - 1)) by lia.
    rewrite !Z.pow_succ_r by lia. lia.
  - rewrite Pos2Z.inj_succ.
    replace (Z.succ (Z.pos (digits2_pos p)) - 1) with (Z.succ (Z.pos (digits2_pos p) - 1)) by lia.
    rewrite !Z.pow_succ_r by lia. lia.
  - vm_compute. intuition congruence.
Qed.

Lemma digits2_pos_unique p d :
  0 < d -> 2 ^ (d - 1) <= Z.pos p < 2 ^ d -> Z.pos (digits2_pos p) = d.
Proof.
  intros Hd [Hlo Hhi]. pose proof (digits2_pos_bounds p) as [Blo Bhi].
  set (k := Z.pos (digits2_pos p)) in *. assert (0 < k) by (unfold k; lia).
  destruct (Z.lt_trichotomy k d) as [Hlt|[Heq|Hgt]]; [|done|].
  - assert (2 ^ k <= 2 ^ (d - 1)) by (apply Z.pow_le_mono_r; lia). lia.
  - assert (2 ^ d <= 2 ^ (k - 1)) by (apply Z.pow_le_mono_r; lia). lia.
Qed.

Lemma shr_inv_start N : 0 <= N -> F32.shr_inv N 0 (shr_record_of_loc N loc_Exact).
Proof.
  intros H. split; [done|]. exists 0. cbn. repeat split; try lia; try done.
Qed.

Lemma shr_inv_step N k mrs :
  0 <= k -> F32.shr_inv N k mrs -> F32.shr_inv N (k + 1) (shr_1 mrs).
Proof.
  intros Hk (Hm & R & HN & HR & Hr & Hs).
  assert (Hp : 2 ^ (k + 1) = 2 * 2 ^ k) by (rewrite Z.pow_add_r by lia; lia).
  assert (Hpos : 0 < 2 ^ k) by (apply Z.pow_pos_nonneg; lia).
  destruct mrs as [m r s]. cbn [shr_m shr_r shr_s] in *.
  assert (Hrs : orb r s = true <-> R <> 0).
  { rewrite orb_true_iff. destruct (decide (R = 0)) as [->|Hne].
    - split; [|done]. intros [H|H]; [apply Hr in H|apply Hs in H]; lia.
    - split; [done|]. intros _.
      destruct (decide (2 * R = 2 ^ k)); [left; apply Hr; lia|right; apply Hs; lia]. }
  unfold F32.shr_inv, shr_1. rewrite Hp.
  destruct m as [|[p|p|]|p]; cbn [shr_m shr_r shr_s]; try lia.
  - split; [done|]. exists R. rewrite Hrs. repeat split; try lia; try done.
  - split; [lia|]. exists (2 ^ k + R). rewrite Hrs.
    repeat split; try lia; try done.
  - split; [lia|]. exists R. rewrite Hrs. repeat split; try lia; try done.
  - split; [lia|]. exists (2 ^ k + R). rewrite Hrs.
    repeat split; try lia; try done.
Qed.

Lemma shr_inv_iter p : forall N k mrs,
  0 <= k -> F32.shr_inv N k mrs -> F32.shr_inv N (k + Z.pos p) (SpecFloat.iter_pos shr_1 p mrs).
Proof.
  induction p as [p IH|p IH|]; intros N k mrs Hk H; cbn [SpecFloat.iter_pos].
  - replace (k + Z.pos p~1) with (((k + 1) + Z.pos p) + Z.pos p) by lia.
    apply IH; [lia|]. apply IH; [lia|]. now apply shr_inv_step.
  - replace (k + Z.pos p~0) with ((k + Z.pos p) + Z.pos p) by lia.
    apply IH; [lia|]. now apply IH.
  - now apply shr_inv_step.
Qed.

Lemma shr_fexp_normal m e l :
  0 < m -> -149 <= Zdigits2 m + e - 24 ->
  shr_fexp 24 128 m e l = shr (shr_record_of_loc m l) e (Zdigits2 m - 24).
Proof.
  intros Hm Hn. unfold shr_fexp, fexp, emin. f_equal. lia.
Qed.

Lemma shr_m_of_loc m l : shr_m (shr_record_of_loc m l) = m.
Proof. now destruct l as [|[]]. Qed.

Lemma loc_of_shr_record_of_loc m l : loc_of_shr_record (shr_record_of_loc m l) = l.
Proof. now destruct l as [|[]]. Qed.

Lemma Zdigits2_24 m : 2 ^ 23 <= m < 2 ^ 24 -> Zdigits2 m = 24.
Proof.
  intros H. destruct m as [|p|p]; try lia.
  cbn [Zdigits2]. apply digits2_pos_unique; [lia|exact H].
Qed.

(** The last step of a rounding: a mantissa of 24 bits is kept, and 2^24
    becomes 2^23 with the exponent one higher. *)
Lemma round_finish sx m e :
  2 ^ 23 <= m <= 2 ^ 24 -> -149 <= e <= 103 ->
  (let '(mrs, e') := shr_fexp 24 128 m e loc_Exact in
   match shr_m mrs with
   | Z0 => S754_zero sx
   | Z.pos q => if e' <=? 128 - 24 then S754_finite sx q e' else S754_infinity sx
   | Z.neg _ => S754_nan
   end)
  = if m <? 2 ^ 24 then S754_finite sx (Z.to_pos m) e
    else S754_finite sx 8388608 (e + 1).
Proof.
  intros Hm He. destruct (m <? 2 ^ 24) eqn:E.
  - apply Z.ltb_lt in E.
    rewrite shr_fexp_normal by (rewrite ?Zdigits2_24; lia).
    rewrite Zdigits2_24 by lia. change (24 - 24) with 0.
    cbn [shr shr_record_of_loc shr_m].
    destruct m as [|q|q]; try lia.
    replace (e <=? 128 - 24) with true by (symmetry; apply Z.leb_le; lia). done.
  - apply Z.ltb_ge in E. assert (m = 2 ^ 24) as -> by lia.
    unfold shr_fexp, fexp, emin.
    change (Zdigits2 (2 ^ 24)) with 25.
    replace (Z.max (25 + e - 24) (3 - 128 - 24) - e) with 1 by lia.
    cbn [shr shr_record_of_loc SpecFloat.iter_pos]. 
    change (shr_m (shr_1 {| shr_m := 2 ^ 24; shr_r := false; shr_s := false |}))
      with 8388608.
    replace (e + 1 <=? 128 - 24) with true by (symmetry; apply Z.leb_le; lia). done.
Qed.

(** Rounding a mantissa of 24 bits. *)
Lemma binary_round_aux_24 sx m e l :
  2 ^ 23 <= m < 2 ^ 24 -> -149 <= e <= 103 ->
  binary_round_aux 24 128 sx m e l =
    if round_nearest_even m l <? 2 ^ 24
    then S754_finite sx (Z.to_pos (round_nearest_even m l)) e
    else S754_finite sx 8388608 (e + 1).
Proof.
  intros Hm He. unfold binary_round_aux.
  rewrite shr_fexp_normal by (rewrite ?Zdigits2_24; lia).
  rewrite Zdigits2_24 by lia. change (24 - 24) with 0. cbn [shr].
  rewrite shr_m_of_loc, loc_of_shr_record_of_loc.
  apply round_finish; [|lia].
  destruct l as [|[]]; cbn [round_nearest_even]; try lia.
  destruct (Z.even m); lia.
Qed.

(** Rounding an exact value whose mantissa has [24 + n] bits: the result
    is within half a unit (of the last place kept) of the value. *)
Lemma binary_round_aux_exact sx mx ex n :
  0 <= n -> Z.pos (digits2_pos mx) = 24 + n ->
  -149 <= ex + n -> ex + n <= 103 ->
  exists M E,
    binary_round_aux 24 128 sx (Z.pos mx) ex loc_Exact = S754_finite sx M E /\
    2 ^ 23 <= Z.pos M < 2 ^ 24 /\
    (E = ex + n \/ (E = ex + n + 1 /\ Z.pos M = 2 ^ 23)) /\
    2 * Z.abs (Z.pos M * 2 ^ (E - ex) - Z.pos mx) <= 2 ^ n.
Proof.
  intros Hn Hd Hlo Hhi.
  pose proof (digits2_pos_bounds mx) as [Blo Bhi]. rewrite Hd in Blo, Bhi.
  replace (24 + n - 1) with (23 + n) in Blo by lia.
  rewrite Z.pow_add_r in Blo, Bhi by lia.
  assert (Hpn : 0 < 2 ^ n) by (apply Z.pow_pos_nonneg; lia).
  unfold binary_round_aux.
  rewrite shr_fexp_normal by (cbn [Zdigits2]; lia).
  cbn [Zdigits2]. rewrite Hd. replace (24 + n - 24) with n by lia.
  assert (Hinv : exists mrs,
    shr (shr_record_of_loc (Z.pos mx) loc_Exact) ex n = (mrs, ex + n) /\
    F32.shr_inv (Z.pos mx) n mrs).
  { destruct n as [|p|p]; [| |lia].
    - eexists. split; [cbn [shr]; f_equal; lia|]. apply shr_inv_start. lia.
    - eexists. split; [reflexivity|].
      apply (shr_inv_iter p (Z.pos mx) 0); [lia|]. apply shr_inv_start. lia. }
  destruct Hinv as ([m1 r s] & -> & Hm1 & R & HN & HR & Hr & Hs).
  cbn [shr_m shr_r shr_s] in *.
  assert (Hm1r : 2 ^ 23 <= m1 < 2 ^ 24) by nia.
  set (m2 := round_nearest_even m1 _).
  assert (Hm2 : (m2 = m1 /\ 2 * R <= 2 ^ n) \/ (m2 = m1 + 1 /\ 2 ^ n <= 2 * R)).
  { unfold m2. destruct r, s; cbn [loc_of_shr_record round_nearest_even].
    - right. split; [done|]. now apply Hr.
    - destruct (Z.even m1).
      + left. split; [done|]. destruct (decide (2 * R = 2 ^ n)); [lia|].
        destruct (decide (R = 0)); [lia|]. 
        assert (false = true) by (apply Hs; done). discriminate.
      + right. split; [done|]. now apply Hr.
    - left. split; [done|].
      destruct (Z_le_gt_dec (2 ^ n) (2 * R)) as [H|H]; [|lia].
      apply Hr in H. discriminate.
    - left. split; [done|].
      destruct (Z_le_gt_dec (2 ^ n) (2 * R)) as [H|H]; [|lia].
      apply Hr in H. discriminate. }
  rewrite round_finish by lia.
  destruct (m2 <? 2 ^ 24) eqn:E.
  - apply Z.ltb_lt in E. exists (Z.to_pos m2), (ex + n).
    split; [done|]. rewrite Z2Pos.id by lia. split; [lia|]. split; [lia|].
    replace (ex + n - ex) with n by lia. lia.
  - apply Z.ltb_ge in E. exists 8388608%positive, (ex + n + 1).
    split; [done|]. split; [done|]. split; [right; done|].
    replace (ex + n + 1 - ex) with (n + 1) by lia.
    rewrite Z.pow_add_r by lia. change (Z.pos 8388608) with (2 ^ 23) .
    assert (m2 = 2 ^ 24) by lia. lia.
Qed.

Lemma Pos_iter_xO p k : Z.pos (Pos.iter xO p k) = Z.pos p * 2 ^ Z.pos k.
Proof.
  induction k as [|k IH] using Pos.peano_ind.
  - cbn [Pos.iter]. lia.
  - rewrite Pos.iter_succ, Pos2Z.inj_succ, Z.pow_succ_r by lia.
    rewrite Pos2Z.inj_xO, IH. lia.
Qed.

(** The conversion of a positive [int] is a normal number. *)
Lemma of_int_normal s :
  0 < s <= CInt.INT32_MAX -> F32.normal24 (F32.of_int s) (-23) 8.
Proof.
  unfold CInt.INT32_MAX. intros Hs. destruct s as [|p|p]; try lia.
  unfold F32.of_int, F32.prec, F32.emax, binary_normalize, binary_round.
  pose proof (digits2_pos_bounds p) as [Blo Bhi].
  set (d := Z.pos (digits2_pos p)) in *.
  assert (Hd : 1 <= d <= 31).
  { split; [unfold d; lia|].
    destruct (Z_le_gt_dec d 31) as [H|H]; [done|].
    assert (2 ^ 31 <= 2 ^ (d - 1)) by (apply Z.pow_le_mono_r; lia). lia. }
  unfold fexp, emin. replace (Z.max (d + 0 - 24) (3 - 128 - 24)) with (d - 24) by lia.
  unfold shl_align. replace (d - 24 - 0) with (d - 24) by lia.
  destruct (d - 24) as [|k|k] eqn:Ek.
  - destruct (binary_round_aux_exact false p 0 0) as (M & E & -> & HM & HE & _);
      try lia; try (fold d; lia).
    exists M, E. split; [done|]. split; [done|]. lia.
  - destruct (binary_round_aux_exact false p 0 (Z.pos k)) as (M & E & -> & HM & HE & _);
      try lia; try (fold d; lia).
    exists M, E. split; [done|]. split; [done|]. lia.
  - assert (Hmz : Z.pos (Pos.iter xO p k) = Z.pos p * 2 ^ Z.pos k) by apply Pos_iter_xO.
    assert (Hpk : 2 ^ (d - 1) * 2 ^ Z.pos k = 2 ^ 23).
    { rewrite <- Z.pow_add_r by lia. f_equal. lia. }
    assert (Hpk' : 2 ^ d * 2 ^ Z.pos k = 2 ^ 24).
    { rewrite <- Z.pow_add_r by lia. f_equal. lia. }
    assert (Hp2 : 0 < 2 ^ Z.pos k) by (apply Z.pow_pos_nonneg; lia).
    rewrite binary_round_aux_24 by (rewrite ?Hmz; nia).
    cbn [round_nearest_even].
    replace (_ <? _) with true by (symmetry; apply Z.ltb_lt; nia).
    eexists _, _. split; [reflexivity|]. cbn [Z.to_pos]. rewrite Hmz. split; [nia|lia].
Qed.

(** The square of a normal number: a mantissa [P] and an exponent
    [2 * E + t] whose value [P * 2^t] (in units of [2^(2 * E)]) is within
    half a unit of the last place of [M * M]. *)
Lemma mul_self M E :
  2 ^ 23 <= Z.pos M < 2 ^ 24 -> -60 <= E <= 30 ->
  exists P t,
    F32.mul (S754_finite false M E) (S754_finite false M E)
      = S754_finite false P (2 * E + t) /\
    2 ^ 23 <= Z.pos P < 2 ^ 24 /\ (t = 23 \/ t = 24) /\
    2 * Z.abs (Z.pos P * 2 ^ t - Z.pos M * Z.pos M) <= 2 ^ 24.
Proof.
  intros HM HE. unfold F32.mul, F32.prec, F32.emax, SFmul. cbn [xorb].
  pose proof (digits2_pos_bounds (M * M)) as [Blo Bhi].
  set (d := Z.pos (digits2_pos (M * M))) in *.
  rewrite Pos2Z.inj_mul in Blo, Bhi.
  assert (Hd : d = 47 \/ d = 48).
  { destruct (Z_le_gt_dec d 46) as [H|H].
    - assert (2 ^ d <= 2 ^ 46) by (apply Z.pow_le_mono_r; lia). nia.
    - destruct (Z_le_gt_dec 49 d) as [H'|H']; [|lia].
      assert (2 ^ 48 <= 2 ^ (d - 1)) by (apply Z.pow_le_mono_r; lia). nia. }
  destruct (binary_round_aux_exact false (M * M) (E + E) (d - 24))
    as (P & E' & -> & HP & HE' & Hnear); try lia; try (fold d; lia).
  rewrite Pos2Z.inj_mul in Hnear.
  exists P, (E' - (E + E)). split; [f_equal; lia|]. split; [done|].
  assert (Hn : 2 ^ (d - 24) <= 2 ^ 24) by (apply Z.pow_le_mono_r; lia).
  split; [|lia].
  destruct HE' as [->|[-> HP23]]; [lia|].
  destruct Hd as [Hd|Hd]; [lia|]. exfalso.
  rewrite Hd, HP23 in Hnear.
  replace (E + E + (48 - 24) + 1 - (E + E)) with 25 in Hnear by lia.
  change (2 ^ (48 - 24)) with 16777216 in Hnear.
  change (2 ^ 23 * 2 ^ 25) with 281474976710656 in Hnear.
  change (2 ^ 24) with 16777216 in HM. nia.
Qed.

Lemma sqrt_core_shift m s :
  0 < s ->
  match s with Z.pos _ => Z.shiftl m s | 0 => m | Z.neg _ => 0 end = m * 2 ^ s.
Proof. intros H. destruct s; try lia. apply Z.shiftl_mul_pow2. lia. Qed.

(** The square root of the square of a normal number is the number. *)
Lemma sqrt_mul_self M E :
  2 ^ 23 <= Z.pos M < 2 ^ 24 -> -60 <= E <= 30 ->
  F32.sqrt (F32.mul (S754_finite false M E) (S754_finite false M E))
  = S754_finite false M E.
Proof.
  intros HM HE.
  destruct (mul_self M E HM HE) as (P & t & -> & HP & Ht & Hnear).
  unfold F32.sqrt, F32.prec, F32.emax, SFsqrt, SFsqrt_core_binary.
  cbn [Zdigits2].
  rewrite (digits2_pos_unique P 24) by lia.
  replace (Z.min (fexp 24 128 (Z.div2 (24 + (2 * E + t) + 1))) (Z.div2 (2 * E + t)))
    with E.
  2: { unfold fexp, emin. rewrite !Z.div2_div.
       destruct Ht as [-> | ->]; Z.div_mod_to_equations; lia. }
  replace (2 * E + t - 2 * E) with t by lia.
  rewrite sqrt_core_shift by lia.
  set (V := Z.pos P * 2 ^ t) in *.
  assert (HV : 2 ^ 46 <= V).
  { unfold V. destruct Ht as [-> | ->]; lia. }
  pose proof (Z.sqrtrem_spec V ltac:(lia)) as Hsq.
  destruct (Z.sqrtrem V) as [q r]. destruct Hsq as [Hq Hr].
  change (2 ^ 23) with 8388608 in *. change (2 ^ 24) with 16777216 in *.
  change (2 ^ 46) with 70368744177664 in *.
  destruct (Z_le_gt_dec (Z.pos M * Z.pos M) V) as [Hge|Hlt].
  - assert (q = Z.pos M) as -> by nia.
    assert (Hrq : r <= Z.pos M) by lia.
    rewrite binary_round_aux_24 by (change (2 ^ 23) with 8388608;
      change (2 ^ 24) with 16777216; lia).
    replace (r <=? Z.pos M) with true by (symmetry; apply Z.leb_le; lia).
    assert (Hrne : round_nearest_even (Z.pos M)
              (if r =? 0 then loc_Exact else loc_Inexact Lt) = Z.pos M)
      by (destruct (r =? 0); done).
    rewrite Hrne.
    replace (Z.pos M <? 2 ^ 24) with true by (symmetry; apply Z.ltb_lt;
      change (2 ^ 24) with 16777216; lia).
    done.
  - assert (q = Z.pos M - 1) as -> by nia.
    assert (Hrq : Z.pos M - 1 < r) by nia.
    rewrite binary_round_aux_24 by (change (2 ^ 23) with 8388608;
      change (2 ^ 24) with 16777216; nia).
    replace (r =? 0) with false by (symmetry; apply Z.eqb_neq; lia).
    replace (r <=? Z.pos M - 1) with false by (symmetry; apply Z.leb_gt; lia).
    cbn [round_nearest_even].
    replace (Z.pos M - 1 + 1) with (Z.pos M) by lia.
    replace (Z.pos M <? 2 ^ 24) with true by (symmetry; apply Z.ltb_lt;
      change (2 ^ 24) with 16777216; lia).
    done.
Qed.

Lemma div_eucl_mul a b : 0 < b -> Z.div_eucl (b * a) b = (a, 0).
Proof.
  intros Hb. pose proof (Z_div_mod (b * a) b ltac:(lia)) as H.
  destruct (Z.div_eucl (b * a) b) as [q r]. destruct H as [H Hr].
  assert (q = a) by nia. subst q. f_equal. lia.
Qed.

(** A finite number divided by itself is 1. *)
Lemma div_self M E :
  F32.div (S754_finite false M E) (S754_finite false M E)
  = S754_finite false 8388608 (-23).
Proof.
  unfold F32.div, F32.prec, F32.emax, SFdiv, SFdiv_core_binary.
  cbn [Zdigits2 xorb].
  replace (Z.pos (digits2_pos M) + E - (Z.pos (digits2_pos M) + E)) with 0 by lia.
  replace (E - E) with 0 by lia.
  change (Z.min (fexp 24 128 0) 0) with (-24). change (0 - -24) with 24.
  rewrite sqrt_core_shift by lia. rewrite div_eucl_mul by lia.
  replace (new_location (Z.pos M) 0) with loc_Exact.
  2: { unfold new_location. destruct (Z.even _); reflexivity. }
  vm_compute. reflexivity.
Qed.

(** The cosine distance of a non-zero vector to itself is 0. *)
Lemma CosineDistance_self s :
  0 < s <= CInt.INT32_MAX -> Dtw.CosineDistance s s s = Some 0.
Proof.
  intros Hs. unfold Dtw.CosineDistance, Dtw.CosineDistancef.
  replace ((s =? 0) || (s =? 0)) with false
    by (symmetry; apply orb_false_iff; split; apply Z.eqb_neq; lia).
  destruct (of_int_normal s Hs) as (M & E & -> & HM & HE).
  rewrite sqrt_mul_self by lia. rewrite div_self.
  vm_compute. reflexivity.
Qed.

(** Shifts keep a mantissa non-negative. *)
Lemma shr_1_nonneg mrs : 0 <= shr_m mrs -> 0 <= shr_m (shr_1 mrs).
Proof. destruct mrs as [[|[p|p|]|p] r s]; cbn; lia. Qed.

Lemma iter_shr_1_nonneg p : forall mrs,
  0 <= shr_m mrs -> 0 <= shr_m (SpecFloat.iter_pos shr_1 p mrs).
Proof.
  induction p as [p IH|p IH|]; intros mrs H; cbn [SpecFloat.iter_pos].
  - apply IH, IH. now apply shr_1_nonneg.
  - now apply IH, IH.
  - now apply shr_1_nonneg.
Qed.

Lemma shr_nonneg mrs e n : 0 <= shr_m mrs -> 0 <= shr_m (shr mrs e n).1.
Proof.
  intros H. destruct n; cbn [shr fst]; try done. now apply iter_shr_1_nonneg.
Qed.

End Rounding.

(** ** IEEE binary32: values

    The value of a rounded result, to a relative error, as far as the
    cosine distance needs it. *)

Section Values.

Lemma pow2_pos e : (0 < powerRZ 2 e)%R.
Proof. apply powerRZ_lt. lra. Qed.

Lemma pow2_add a b : powerRZ 2 (a + b) = (powerRZ 2 a * powerRZ 2 b)%R.
Proof. apply powerRZ_add. lra. Qed.

Lemma IZR_pow2 n : 0 <= n -> IZR (2 ^ n) = powerRZ 2 n.
Proof.
  intros Hn. rewrite <- (Z2Nat.id n) by lia.
  rewrite <- pow_IZR, pow_powerRZ. done.
Qed.

(** [M * 2^E] in units of [2^ex], for [ex <= E]. *)
Lemma scale_pow2 M E ex :
  ex <= E -> (IZR M * powerRZ 2 E = IZR (M * 2 ^ (E - ex)) * powerRZ 2 ex)%R.
Proof.
  intros H. rewrite mult_IZR, IZR_pow2 by lia.
  rewrite Rmult_assoc, <- pow2_add. f_equal. f_equal. lia.
Qed.

(** Rounding an exact value: the result is normal, within a relative
    error of 2^-24. *)
Lemma binary_round_aux_value sx mx ex n :
  0 <= n -> Z.pos (digits2_pos mx) = 24 + n ->
  -149 <= ex + n -> ex + n <= 103 ->
  F32.rounds_to (binary_round_aux 24 128 sx (Z.pos mx) ex loc_Exact) sx
    (IZR (Z.pos mx) * powerRZ 2 ex) (ex + n) (ex + n + 1).
Proof.
  intros Hn Hd Hlo Hhi.
  destruct (binary_round_aux_exact sx mx ex n) as (M & E & -> & HM & HE & Hnear);
    try done.
  exists M, E. split; [done|]. split; [done|]. split; [lia|].
  pose proof (digits2_pos_bounds mx) as [Blo _]. rewrite Hd in Blo.
  replace (24 + n - 1) with (23 + n) in Blo by lia.
  rewrite Z.pow_add_r in Blo by lia.
  rewrite (scale_pow2 _ E ex) by lia.
  rewrite <- Rmult_minus_distr_r, Rabs_mult, (Rabs_pos_eq (powerRZ 2 ex))
    by (left; apply pow2_pos).
  rewrite <- minus_IZR, <- abs_IZR.
  assert (Hz : 16777216 * Z.abs (Z.pos M * 2 ^ (E - ex) - Z.pos mx) <= Z.pos mx).
  { change (2 ^ 23) with 8388608 in Blo. lia. }
  apply IZR_le in Hz. rewrite mult_IZR in Hz.
  pose proof (pow2_pos ex) as Hp.
  set (a := IZR (Z.abs _)) in *. set (m := IZR (Z.pos mx)) in *.
  assert (Ha : (a <= m / 16777216)%R) by lra.
  replace (m * powerRZ 2 ex / 16777216)%R with (m / 16777216 * powerRZ 2 ex)%R
    by (unfold Rdiv; ring).
  apply Rmult_le_compat_r; lra.
Qed.

Lemma rounds_to_weaken x s v lo hi lo' hi' :
  F32.rounds_to x s v lo hi -> lo' <= lo -> hi <= hi' -> F32.rounds_to x s v lo' hi'.
Proof.
  intros (M & E & -> & HM & HE & Hv) Hlo Hhi.
  exists M, E. repeat split; try done; lia.
Qed.

Lemma binary_round_value sx mx ex :
  -149 <= Z.pos (digits2_pos mx) + ex - 24 -> Z.pos (digits2_pos mx) + ex <= 127 ->
  F32.rounds_to (binary_round 24 128 sx mx ex) sx (IZR (Z.pos mx) * powerRZ 2 ex)
    (Z.pos (digits2_pos mx) + ex - 24) (Z.pos (digits2_pos mx) + ex - 23).
Proof.
  set (d := Z.pos (digits2_pos mx)). intros Hlo Hhi.
  assert (Hd : 1 <= d) by (unfold d; lia).
  unfold binary_round, fexp, emin. fold d.
  replace (Z.max (d + ex - 24) (3 - 128 - 24)) with (d + ex - 24) by lia.
  unfold shl_align. replace (d + ex - 24 - ex) with (d - 24) by lia.
  destruct (d - 24) as [|k|k] eqn:Ek.
  - eapply rounds_to_weaken; [apply (binary_round_aux_value sx mx ex 0)|..];
      try lia; fold d; lia.
  - eapply rounds_to_weaken; [apply (binary_round_aux_value sx mx ex (Z.pos k))|..];
      try lia; fold d; lia.
  - pose proof (digits2_pos_bounds mx) as [Blo Bhi]. fold d in Blo, Bhi.
    assert (Hmz : Z.pos (Pos.iter xO mx k) = Z.pos mx * 2 ^ Z.pos k) by apply Pos_iter_xO.
    assert (Hpk : 2 ^ (d - 1) * 2 ^ Z.pos k = 2 ^ 23).
    { rewrite <- Z.pow_add_r by lia. f_equal. lia. }
    assert (Hpk' : 2 ^ d * 2 ^ Z.pos k = 2 ^ 24).
    { rewrite <- Z.pow_add_r by lia. f_equal. lia. }
    assert (Hp2 : 0 < 2 ^ Z.pos k) by (apply Z.pow_pos_nonneg; lia).
    rewrite binary_round_aux_24 by (rewrite ?Hmz; nia).
    cbn [round_nearest_even].
    replace (_ <? _) with true by (symmetry; apply Z.ltb_lt; nia).
    eexists _, _. split; [reflexivity|]. cbn [Z.to_pos]. rewrite Hmz.
    split; [nia|]. split; [lia|].
    rewrite mult_IZR, IZR_pow2 by lia.
    replace (IZR (Z.pos mx) * powerRZ 2 (Z.pos k) * powerRZ 2 (d + ex - 24)
             - IZR (Z.pos mx) * powerRZ 2 ex)%R with 0%R.
    + rewrite Rabs_R0. pose proof (pow2_pos ex).
      assert (0 < IZR (Z.pos mx))%R by (apply IZR_lt; lia).
      apply Rmult_le_pos; [|lra]. apply Rmult_le_pos; lra.
    + rewrite Rmult_assoc, <- pow2_add.
      replace (Z.pos k + (d + ex - 24)) with ex by lia. ring.
Qed.

(** The conversion of a non-zero [int]. *)
Lemma of_int_value z :
  z <> 0 -> - CInt.INT32_MAX <= z <= CInt.INT32_MAX ->
  F32.rounds_to (F32.of_int z) (z <? 0) (IZR (Z.abs z)) (-23) 8.
Proof.
  unfold CInt.INT32_MAX. intros Hz Hr.
  assert (Hd : forall p, Z.pos p <= 2147483647 -> 1 <= Z.pos (digits2_pos p) <= 31).
  { intros p Hp. pose proof (digits2_pos_bounds p) as [Blo Bhi].
    split; [lia|].
    destruct (Z_le_gt_dec (Z.pos (digits2_pos p)) 31) as [H|H]; [done|].
    assert (2 ^ 31 <= 2 ^ (Z.pos (digits2_pos p) - 1)) by (apply Z.pow_le_mono_r; lia).
    lia. }
  unfold F32.of_int, F32.prec, F32.emax, binary_normalize.
  destruct z as [|p|p]; [done| |].
  - specialize (Hd p ltac:(lia)).
    replace (IZR (Z.abs (Z.pos p))) with (IZR (Z.pos p) * powerRZ 2 0)%R
      by (rewrite powerRZ_O, Rmult_1_r; reflexivity).
    eapply rounds_to_weaken; [apply binary_round_value; lia|lia|lia].
  - specialize (Hd p ltac:(lia)).
    replace (IZR (Z.abs (Z.neg p))) with (IZR (Z.pos p) * powerRZ 2 0)%R
      by (rewrite powerRZ_O, Rmult_1_r; reflexivity).
    eapply rounds_to_weaken; [apply binary_round_value; lia|lia|lia].
Qed.

(** The product of two normal numbers. *)
Lemma mul_value sx Mx Ex sy My Ey :
  2 ^ 23 <= Z.pos Mx < 2 ^ 24 -> 2 ^ 23 <= Z.pos My < 2 ^ 24 ->
  -172 <= Ex + Ey -> Ex + Ey <= 79 ->
  F32.rounds_to (F32.mul (S754_finite sx Mx Ex) (S754_finite sy My Ey)) (xorb sx sy)
    (IZR (Z.pos Mx) * powerRZ 2 Ex * (IZR (Z.pos My) * powerRZ 2 Ey))
    (Ex + Ey + 23) (Ex + Ey + 25).
Proof.
  intros HMx HMy Hlo Hhi. unfold F32.mul, F32.prec, F32.emax, SFmul.
  pose proof (digits2_pos_bounds (Mx * My)) as [Blo Bhi].
  set (d := Z.pos (digits2_pos (Mx * My))) in *.
  rewrite Pos2Z.inj_mul in Blo, Bhi.
  change (2 ^ 23) with 8388608 in *. change (2 ^ 24) with 16777216 in *.
  assert (Hd : d = 47 \/ d = 48).
  { destruct (Z_le_gt_dec d 46) as [H|H].
    - assert (2 ^ d <= 2 ^ 46) by (apply Z.pow_le_mono_r; lia).
      change (2 ^ 46) with 70368744177664 in *. nia.
    - destruct (Z_le_gt_dec 49 d) as [H'|H']; [|lia].
      assert (2 ^ 48 <= 2 ^ (d - 1)) by (apply Z.pow_le_mono_r; lia).
      change (2 ^ 48) with 281474976710656 in *. nia. }
  replace (IZR (Z.pos Mx) * powerRZ 2 Ex * (IZR (Z.pos My) * powerRZ 2 Ey))%R
    with (IZR (Z.pos (Mx * My)) * powerRZ 2 (Ex + Ey))%R
    by (rewrite Pos2Z.inj_mul, mult_IZR, pow2_add; ring).
  eapply rounds_to_weaken;
    [apply (binary_round_aux_value _ (Mx * My) (Ex + Ey) (d - 24))|..];
    try lia; fold d; lia.
Qed.

Lemma shr_1_m mrs : 0 <= shr_m mrs -> shr_m (shr_1 mrs) = shr_m mrs / 2.
Proof.
  destruct mrs as [[|[p|p|]|p] r s]; cbn [shr_m shr_1]; intros H;
    try lia; try done; Z.div_mod_to_equations; lia.
Qed.

Lemma iter_shr_1_m p : forall mrs,
  0 <= shr_m mrs ->
  shr_m (SpecFloat.iter_pos shr_1 p mrs) = shr_m mrs / 2 ^ Z.pos p.
Proof.
  induction p as [p IH|p IH|]; intros mrs H; cbn [SpecFloat.iter_pos].
  - assert (H1 : 0 <= shr_m (shr_1 mrs)) by now apply shr_1_nonneg.
    assert (H2 : 0 <= shr_m (SpecFloat.iter_pos shr_1 p (shr_1 mrs)))
      by now apply iter_shr_1_nonneg.
    rewrite IH, IH, shr_1_m by done.
    assert (0 < 2 ^ Z.pos p) by (apply Z.pow_pos_nonneg; lia).
    rewrite !Z.div_div by lia. f_equal.
    replace (Z.pos p~1) with (1 + (Z.pos p + Z.pos p)) by lia.
    rewrite !Z.pow_add_r by lia. lia.
  - assert (H2 : 0 <= shr_m (SpecFloat.iter_pos shr_1 p mrs))
      by now apply iter_shr_1_nonneg.
    rewrite IH, IH by done.
    assert (0 < 2 ^ Z.pos p) by (apply Z.pow_pos_nonneg; lia).
    rewrite Z.div_div by lia. f_equal.
    replace (Z.pos p~0) with (Z.pos p + Z.pos p) by lia.
    rewrite Z.pow_add_r by lia. lia.
  - now apply shr_1_m.
Qed.

(** Rounding a mantissa of [24 + n] bits, whatever is known of the digits
    beyond it: the result exceeds the mantissa by at most one unit of the
    last place kept. *)
Lemma binary_round_aux_crude sx m ex l n :
  0 <= n -> 2 ^ (23 + n) <= m < 2 ^ (24 + n) ->
  -149 <= ex + n -> ex + n <= 103 ->
  exists M E,
    binary_round_aux 24 128 sx m ex l = S754_finite sx M E /\
    2 ^ 23 <= Z.pos M < 2 ^ 24 /\ ex + n <= E <= ex + n + 1 /\
    Z.pos M * 2 ^ (E - ex) <= m + 2 ^ n.
Proof.
  intros Hn Hm Hlo Hhi.
  assert (Hpn : 0 < 2 ^ n) by (apply Z.pow_pos_nonneg; lia).
  rewrite !Z.pow_add_r in Hm by lia.
  assert (Hd : Zdigits2 m = 24 + n).
  { destruct m as [|p|p]; try lia. cbn [Zdigits2].
    apply digits2_pos_unique; [lia|].
    replace (24 + n - 1) with (23 + n) by lia. rewrite !Z.pow_add_r by lia. lia. }
  unfold binary_round_aux.
  rewrite shr_fexp_normal by lia. rewrite Hd.
  replace (24 + n - 24) with n by lia.
  assert (Hs : exists mrs,
    shr (shr_record_of_loc m l) ex n = (mrs, ex + n) /\ shr_m mrs = m / 2 ^ n).
  { destruct n as [|p|p]; [| |lia].
    - eexists. split; [cbn [shr]; f_equal; lia|].
      rewrite shr_m_of_loc, Z.div_1_r. done.
    - eexists. split; [reflexivity|].
      rewrite iter_shr_1_m by (rewrite shr_m_of_loc; lia).
      now rewrite shr_m_of_loc. }
  destruct Hs as (mrs & -> & Hm1).
  set (m1 := shr_m mrs) in *.
  assert (Hm1r : 2 ^ 23 <= m1 < 2 ^ 24).
  { rewrite Hm1. split.
    - apply Z.div_le_lower_bound; lia.
    - apply Z.div_lt_upper_bound; lia. }
  assert (Hm1n : m1 * 2 ^ n <= m).
  { rewrite Hm1. rewrite Z.mul_comm. apply Z.mul_div_le. lia. }
  set (m2 := round_nearest_even m1 _).
  assert (Hm2 : m1 <= m2 <= m1 + 1).
  { unfold m2. destruct (loc_of_shr_record mrs) as [|[]];
      cbn [round_nearest_even]; try lia. destruct (Z.even m1); lia. }
  rewrite round_finish by lia.
  destruct (m2 <? 2 ^ 24) eqn:E.
  - apply Z.ltb_lt in E. exists (Z.to_pos m2), (ex + n).
    split; [done|]. rewrite Z2Pos.id by lia. split; [lia|]. split; [lia|].
    replace (ex + n - ex) with n by lia. nia.
  - apply Z.ltb_ge in E. exists 8388608%positive, (ex + n + 1).
    split; [done|]. split; [done|]. split; [lia|].
    replace (ex + n + 1 - ex) with (n + 1) by lia.
    rewrite Z.pow_add_r by lia. change (Z.pos 8388608) with (2 ^ 23).
    assert (m2 = 2 ^ 24) by lia.
    change (2 ^ 23) with 8388608 in *. change (2 ^ 24) with 16777216 in *. nia.
Qed.

(** The square root of a normal number is normal and, squared, falls
    short of the number by a relative error of at most 2^-22. *)
Lemma sqrt_value P Ep :
  2 ^ 23 <= Z.pos P < 2 ^ 24 -> -200 <= Ep <= 200 ->
  exists Q Eq,
    F32.sqrt (S754_finite false P Ep) = S754_finite false Q Eq /\
    2 ^ 23 <= Z.pos Q < 2 ^ 24 /\ Ep - 24 <= 2 * Eq <= Ep - 21 /\
    (IZR (Z.pos P) * powerRZ 2 Ep
     <= (IZR (Z.pos Q) * powerRZ 2 Eq) * (IZR (Z.pos Q) * powerRZ 2 Eq)
        * ((1 + / 8388608) * (1 + / 8388608)))%R.
Proof.
  intros HP HE.
  unfold F32.sqrt, F32.prec, F32.emax, SFsqrt, SFsqrt_core_binary.
  cbn [Zdigits2]. rewrite (digits2_pos_unique P 24) by lia.
  set (e' := (Ep + 25) / 2 - 24).
  replace (Z.min (fexp 24 128 (Z.div2 (24 + Ep + 1))) (Z.div2 Ep)) with e'.
  2: { unfold fexp, emin, e'. rewrite !Z.div2_div. Z.div_mod_to_equations. lia. }
  assert (He' : Ep - 2 * e' = 23 \/ Ep - 2 * e' = 24).
  { unfold e'. Z.div_mod_to_equations. lia. }
  set (s := Ep - 2 * e') in *.
  rewrite sqrt_core_shift by lia.
  set (V := Z.pos P * 2 ^ s) in *.
  change (2 ^ 23) with 8388608 in *. change (2 ^ 24) with 16777216 in *.
  assert (HV : 2 ^ 46 <= V < 2 ^ 48).
  { unfold V. destruct He' as [-> | ->].
    - change (2 ^ 23) with 8388608. change (2 ^ 46) with 70368744177664.
      change (2 ^ 48) with 281474976710656. lia.
    - change (2 ^ 24) with 16777216. change (2 ^ 46) with 70368744177664.
      change (2 ^ 48) with 281474976710656. lia. }
  change (2 ^ 46) with 70368744177664 in HV.
  change (2 ^ 48) with 281474976710656 in HV.
  pose proof (Z.sqrtrem_spec V ltac:(lia)) as Hsq.
  destruct (Z.sqrtrem V) as [q r]. destruct Hsq as [Hq Hr].
  assert (Hqr : 8388608 <= q < 16777216) by nia.
  rewrite binary_round_aux_24 by (change (2 ^ 23) with 8388608;
    change (2 ^ 24) with 16777216; lia).
  set (Q' := round_nearest_even q _).
  assert (HQ' : q <= Q' <= q + 1).
  { unfold Q'. destruct (r =? 0); [cbn; lia|].
    destruct (r <=? q); cbn [round_nearest_even]; lia. }
  assert (Hval : (IZR (Z.pos P) * powerRZ 2 Ep
                  <= (IZR Q' * powerRZ 2 e') * (IZR Q' * powerRZ 2 e')
                     * ((1 + / 8388608) * (1 + / 8388608)))%R).
  { replace Ep with (s + (e' + e')) by (unfold s; lia).
    rewrite !pow2_add. rewrite <- IZR_pow2 by lia.
    rewrite <- Rmult_assoc, <- mult_IZR. fold V.
    pose proof (pow2_pos e') as Hp.
    assert (HVq : (IZR V <= (IZR q + 1) * (IZR q + 1))%R).
    { rewrite <- plus_IZR, <- mult_IZR. apply IZR_le. nia. }
    assert (Hq1 : (8388608 <= IZR q)%R) by (apply IZR_le; lia).
    assert (Hq2 : (IZR q <= IZR Q')%R) by (apply IZR_le; lia).
    assert (Hq3 : (IZR q + 1 <= IZR Q' * (1 + / 8388608))%R) by nra.
    assert (Hq4 : (IZR V <= IZR Q' * (1 + / 8388608) * (IZR Q' * (1 + / 8388608)))%R).
    { eapply Rle_trans; [exact HVq|]. apply Rmult_le_compat; lra. }
    replace (IZR Q' * powerRZ 2 e' * (IZR Q' * powerRZ 2 e')
             * ((1 + / 8388608) * (1 + / 8388608)))%R
      with (IZR Q' * (1 + / 8388608) * (IZR Q' * (1 + / 8388608))
            * (powerRZ 2 e' * powerRZ 2 e'))%R by ring.
    apply Rmult_le_compat_r; [nra|lra]. }
  destruct (Q' <? 2 ^ 24) eqn:E.
  - apply Z.ltb_lt in E. change (2 ^ 24) with 16777216 in E.
    exists (Z.to_pos Q'), e'. split; [done|]. rewrite Z2Pos.id by lia.
    split; [lia|]. split; [lia|]. exact Hval.
  - apply Z.ltb_ge in E. change (2 ^ 24) with 16777216 in E.
    exists 8388608%positive, (e' + 1). split; [done|].
    split; [lia|]. split; [lia|].
    assert (HQ16 : Q' = 16777216) by lia. rewrite HQ16 in Hval.
    rewrite pow2_add. change (powerRZ 2 1) with (2 * 1)%R.
    replace (IZR (Z.pos 8388608) * (powerRZ 2 e' * (2 * 1)))%R
      with (16777216 * powerRZ 2 e')%R by (simpl; lra).
    exact Hval.
Qed.

(** The quotient of two normal numbers is normal and exceeds the exact
    quotient by a relative error of at most 2^-22. *)
Lemma div_value sc Mc Ec Q Eq :
  2 ^ 23 <= Z.pos Mc < 2 ^ 24 -> 2 ^ 23 <= Z.pos Q < 2 ^ 24 ->
  -125 <= Ec - Eq <= 100 ->
  exists Mr Er,
    F32.div (S754_finite sc Mc Ec) (S754_finite false Q Eq) = S754_finite sc Mr Er /\
    2 ^ 23 <= Z.pos Mr < 2 ^ 24 /\ Ec - Eq - 24 <= Er <= Ec - Eq - 22 /\
    (IZR (Z.pos Mr) * powerRZ 2 Er * (IZR (Z.pos Q) * powerRZ 2 Eq)
     <= IZR (Z.pos Mc) * powerRZ 2 Ec * (1 + / 4194304))%R.
Proof.
  intros HMc HQ HE.
  unfold F32.div, F32.prec, F32.emax, SFdiv, SFdiv_core_binary.
  cbn [Zdigits2]. rewrite (digits2_pos_unique Mc 24), (digits2_pos_unique Q 24) by lia.
  replace (24 + Ec - (24 + Eq)) with (Ec - Eq) by lia.
  set (e' := Ec - Eq - 24).
  replace (Z.min (fexp 24 128 (Ec - Eq)) (Ec - Eq)) with e'
    by (unfold fexp, emin, e'; lia).
  replace (Ec - Eq - e') with 24 by (unfold e'; lia).
  rewrite Z.shiftl_mul_pow2 by lia.
  change (2 ^ 23) with 8388608 in *. change (2 ^ 24) with 16777216 in *.
  pose proof (Z_div_mod (Z.pos Mc * 16777216) (Z.pos Q) ltac:(lia)) as Hdiv.
  destruct (Z.div_eucl (Z.pos Mc * 16777216) (Z.pos Q)) as [Qt Rm].
  destruct Hdiv as [Hdiv HRm].
  assert (HQt : 8388608 <= Qt < 33554432) by nia.
  assert (Hn : exists n, 0 <= n <= 1 /\ 2 ^ (23 + n) <= Qt < 2 ^ (24 + n)).
  { destruct (Z_lt_ge_dec Qt 16777216) as [H|H].
    - exists 0. split; [lia|]. change (2 ^ (23 + 0)) with 8388608.
      change (2 ^ (24 + 0)) with 16777216. lia.
    - exists 1. split; [lia|]. change (2 ^ (23 + 1)) with 16777216.
      change (2 ^ (24 + 1)) with 33554432. lia. }
  destruct Hn as (n & Hn & HQtn).
  destruct (binary_round_aux_crude (xorb sc false) Qt e' (new_location (Z.pos Q) Rm) n)
    as (Mr & Er & -> & HMr & HEr & Hup); try lia; try (unfold e'; lia).
  rewrite xorb_false_r. exists Mr, Er. split; [done|].
  split; [done|]. split; [unfold e' in *; lia|].
  assert (Hup2 : Z.pos Mr * 2 ^ (Er - e') <= Qt + 2).
  { assert (2 ^ n <= 2) by (assert (n = 0 \/ n = 1) as [-> | ->] by lia; done). lia. }
  rewrite (scale_pow2 _ Er e') by lia.
  apply IZR_le in Hup2. rewrite plus_IZR in Hup2.
  set (W := IZR (Z.pos Mr * 2 ^ (Er - e'))) in *.
  replace Ec with (24 + (e' + Eq)) by (unfold e'; lia).
  rewrite !pow2_add. set (pe := powerRZ 2 e'). set (pq := powerRZ 2 Eq).
  assert (Hpe : (0 < pe)%R) by apply pow2_pos.
  assert (Hpq : (0 < pq)%R) by apply pow2_pos.
  rewrite <- (IZR_pow2 24) by lia. change (2 ^ 24) with 16777216.
  assert (HW : (0 <= W)%R) by (apply IZR_le; unfold e' in *; nia).
  assert (HQt1 : (8388608 <= IZR Qt)%R) by (apply IZR_le; lia).
  assert (HQt2 : (IZR Qt * IZR (Z.pos Q) <= IZR (Z.pos Mc) * 16777216)%R).
  { rewrite <- !mult_IZR. apply IZR_le. lia. }
  assert (HQp : (0 < IZR (Z.pos Q))%R) by (apply IZR_lt; lia).
  assert (HW2 : (W <= IZR Qt * (1 + / 4194304))%R) by lra.
  replace (W * pe * (IZR (Z.pos Q) * pq))%R
    with (W * IZR (Z.pos Q) * (pe * pq))%R by ring.
  replace (IZR (Z.pos Mc) * (16777216 * (pe * pq)) * (1 + / 4194304))%R
    with (IZR (Z.pos Mc) * 16777216 * (1 + / 4194304) * (pe * pq))%R by ring.
  apply Rmult_le_compat_r; [nra|].
  apply Rle_trans with (IZR Qt * (1 + / 4194304) * IZR (Z.pos Q))%R.
  - apply Rmult_le_compat_r; lra.
  - replace (IZR Qt * (1 + / 4194304) * IZR (Z.pos Q))%R
      with (IZR Qt * IZR (Z.pos Q) * (1 + / 4194304))%R by ring.
    apply Rmult_le_compat_r; lra.
Qed.

End Values.

Section Ratio.

Local Open Scope R_scope.

Lemma Rabs_le_both x b : Rabs x <= b -> - b <= x <= b.
Proof. unfold Rabs. destruct (Rcase_abs x); lra. Qed.

(** The computed cosine exceeds 1 by at most 2^-20: the relative errors of
    the five roundings add up to less. *)
Lemma ratio_real (a b c A B C P Q r : R) :
  0 < a -> 0 < b -> 0 <= c -> c * c <= a * b ->
  Rabs (A - a) <= a / 16777216 -> Rabs (B - b) <= b / 16777216 ->
  Rabs (C - c) <= c / 16777216 ->
  Rabs (P - A * B) <= A * B / 16777216 ->
  P <= Q * Q * ((1 + / 8388608) * (1 + / 8388608)) ->
  0 < Q -> 0 <= r -> r * Q <= C * (1 + / 4194304) ->
  r <= 1 + / 1048576.
Proof.
  intros Ha Hb Hc Hcs HA HB HC HP HQ HQp Hr HrQ.
  apply Rabs_le_both in HA, HB, HC, HP.
  set (u := / 16777216) in *.
  assert (Hu : u = / 16777216) by done.
  assert (HA1 : a * (1 - u) <= A) by (unfold Rdiv in HA; fold u in HA; lra).
  assert (HB1 : b * (1 - u) <= B) by (unfold Rdiv in HB; fold u in HB; lra).
  assert (HC1 : C <= c * (1 + u)) by (unfold Rdiv in HC; fold u in HC; lra).
  assert (HC0 : 0 <= C) by (unfold Rdiv in HC; fold u in HC; nra).
  assert (HAB : a * b * ((1 - u) * (1 - u)) <= A * B).
  { replace (a * b * ((1 - u) * (1 - u))) with (a * (1 - u) * (b * (1 - u))) by ring.
    apply Rmult_le_compat; nra. }
  assert (HABp : 0 <= A * B) by nra.
  assert (HP1 : A * B * (1 - u) <= P) by (unfold Rdiv in HP; fold u in HP; lra).
  assert (HP2 : a * b * ((1 - u) * (1 - u) * (1 - u)) <= P).
  { apply Rle_trans with (A * B * (1 - u)); [|done].
    replace (a * b * ((1 - u) * (1 - u) * (1 - u)))
      with (a * b * ((1 - u) * (1 - u)) * (1 - u)) by ring.
    apply Rmult_le_compat_r; lra. }
  assert (HCC : C * C <= a * b * ((1 + u) * (1 + u))).
  { apply Rle_trans with (c * (1 + u) * (c * (1 + u))).
    - apply Rmult_le_compat; lra.
    - replace (c * (1 + u) * (c * (1 + u))) with (c * c * ((1 + u) * (1 + u))) by ring.
      apply Rmult_le_compat_r; nra. }
  assert (HrQ2 : r * Q * (r * Q) <= C * C * ((1 + / 4194304) * (1 + / 4194304))).
  { replace (C * C * ((1 + / 4194304) * (1 + / 4194304)))
      with (C * (1 + / 4194304) * (C * (1 + / 4194304))) by ring.
    apply Rmult_le_compat; nra. }
  set (k1 := (1 + / 8388608) * (1 + / 8388608)) in *.
  set (k2 := (1 + / 4194304) * (1 + / 4194304)) in *.
  set (k3 := (1 - u) * (1 - u) * (1 - u)) in *.
  set (k4 := (1 + u) * (1 + u)) in *.
  assert (Hk1 : 0 < k1) by (unfold k1; nra).
  assert (Hk2 : 0 < k2) by (unfold k2; nra).
  assert (Hk3 : 0 < k3) by (unfold k3; rewrite Hu; nra).
  assert (Hk4 : 0 < k4) by (unfold k4; rewrite Hu; nra).
  assert (Hab : 0 < a * b) by nra.
  (* r^2 * (a b k3) <= r^2 * Q^2 * k1 <= C^2 k2 k1 <= a b k4 k2 k1 *)
  assert (H1 : r * r * (a * b * k3) <= r * r * (Q * Q * k1)).
  { apply Rmult_le_compat_l; [nra|lra]. }
  assert (H2 : r * r * (Q * Q * k1) <= a * b * k4 * k2 * k1).
  { replace (r * r * (Q * Q * k1)) with (r * Q * (r * Q) * k1) by ring.
    apply Rmult_le_compat_r; [lra|].
    apply Rle_trans with (C * C * k2); [done|].
    apply Rmult_le_compat_r; lra. }
  assert (H3 : r * r * k3 <= k4 * k2 * k1).
  { apply Rmult_le_reg_l with (a * b); [done|].
    replace (a * b * (r * r * k3)) with (r * r * (a * b * k3)) by ring.
    replace (a * b * (k4 * k2 * k1)) with (a * b * k4 * k2 * k1) by ring. lra. }
  assert (Hnum : k4 * k2 * k1 <= (1 + / 1048576) * (1 + / 1048576) * k3).
  { unfold k1, k2, k3, k4. rewrite Hu. lra. }
  assert (H4 : r * r <= (1 + / 1048576) * (1 + / 1048576)).
  { apply Rmult_le_reg_r with k3; [done|]. lra. }
  nra.
Qed.

End Ratio.

Section Distance.

Import Dtw.

Lemma pow2_le a b : a <= b -> (powerRZ 2 a <= powerRZ 2 b)%R.
Proof.
  intros H.
  assert (E : powerRZ 2 b = (powerRZ 2 (b - a) * powerRZ 2 a)%R)
    by (rewrite <- pow2_add; f_equal; lia).
  rewrite E, <- (IZR_pow2 (b - a)) by lia.
  assert (0 < 2 ^ (b - a)) by (apply Z.pow_pos_nonneg; lia).
  assert (1 <= IZR (2 ^ (b - a)))%R by (apply IZR_le; lia).
  pose proof (pow2_pos a). nra.
Qed.

Lemma shl_align_fst m e e' :
  e' <= e -> Z.pos (fst (shl_align m e e')) = Z.pos m * 2 ^ (e - e').
Proof.
  intros H. unfold shl_align. destruct (e' - e) as [|d|d] eqn:Ed; cbn [fst]; try lia.
  - replace (e - e') with 0 by lia. lia.
  - rewrite Pos_iter_xO. f_equal. f_equal. lia.
Qed.

(** What [1 - r] is for a normal [r] of magnitude [|r| <= 1 + 2^-20]: zero,
    a positive number of at most [2 + 2^-19], or a negative one of
    magnitude at most [2^-19]. *)
Lemma one_minus_value sr Mr Er :
  2 ^ 23 <= Z.pos Mr < 2 ^ 24 -> -60 <= Er <= -23 ->
  (IZR (Z.pos Mr) * powerRZ 2 Er <= 1 + / 1048576)%R ->
  let y := F32.sub (F32.of_int 1) (S754_finite sr Mr Er) in
  y = S754_zero false \/
  exists sy My Ey,
    y = S754_finite sy My Ey /\ 2 ^ 23 <= Z.pos My < 2 ^ 24 /\ -90 <= Ey <= 10 /\
    (IZR (Z.pos My) * powerRZ 2 Ey <= if sy then / 524288 else 2 + / 524288)%R.
Proof.
  intros HMr HEr Hr. cbn zeta.
  change (F32.of_int 1) with (S754_finite false 8388608 (-23)).
  unfold F32.sub, F32.prec, F32.emax, SFsub.
  rewrite Z.min_r by lia.
  rewrite !shl_align_fst by lia.
  replace (Er - Er) with 0 by lia. rewrite Z.mul_1_r.
  change (Z.pos 8388608) with (2 ^ 23). rewrite <- Z.pow_add_r by lia.
  replace (23 + (-23 - Er)) with (- Er) by lia.
  cbn [cond_Zopp].
  set (z := 2 ^ (- Er) - cond_Zopp sr (Z.pos Mr)).
  assert (Hp : 0 < 2 ^ (- Er)) by (apply Z.pow_pos_nonneg; lia).
  assert (Hp24 : 2 ^ 24 <= 2 * 2 ^ (- Er)).
  { replace (2 * 2 ^ (- Er)) with (2 ^ (1 + - Er)) by (rewrite Z.pow_add_r by lia; lia).
    apply Z.pow_le_mono_r; lia. }
  assert (Hzr : (IZR z * powerRZ 2 Er
                 = 1 - IZR (cond_Zopp sr (Z.pos Mr)) * powerRZ 2 Er)%R).
  { unfold z. rewrite minus_IZR, IZR_pow2 by lia.
    rewrite Rmult_minus_distr_r, <- pow2_add.
    replace (- Er + Er) with 0 by lia. rewrite powerRZ_O. done. }
  assert (Hzabs : Z.abs z <= 3 * 2 ^ (- Er)).
  { unfold z. destruct sr; cbn [cond_Zopp]; lia. }
  assert (Hd : forall p, Z.pos p = Z.abs z -> 1 <= Z.pos (digits2_pos p) <= 2 - Er).
  { intros p Hpz. pose proof (digits2_pos_bounds p) as [Blo _]. split; [lia|].
    destruct (Z_le_gt_dec (Z.pos (digits2_pos p)) (2 - Er)) as [H|H]; [done|].
    assert (2 ^ (2 - Er) <= 2 ^ (Z.pos (digits2_pos p) - 1))
      by (apply Z.pow_le_mono_r; lia).
    replace (2 - Er) with (2 + - Er) in H0 by lia.
    rewrite Z.pow_add_r in H0 by lia. lia. }
  pose proof (pow2_pos Er) as HpE.
  assert (Hmag : (0 <= IZR (Z.pos Mr) * powerRZ 2 Er)%R).
  { apply Rmult_le_pos; [apply IZR_le; lia|lra]. }
  unfold binary_normalize. destruct z as [|p|p] eqn:Ez; [left; done| |]; right.
  - specialize (Hd p ltac:(lia)).
    destruct (binary_round_value false p Er) as (My & Ey & -> & HMy & HEy & Hv);
      try lia.
    exists false, My, Ey. split; [done|]. split; [done|]. split; [lia|].
    apply Rabs_le_both in Hv.
    assert (Hz1 : (IZR (Z.pos p) * powerRZ 2 Er <= 2 + / 1048576)%R).
    { rewrite Hzr. destruct sr; cbn [cond_Zopp].
      - rewrite opp_IZR. lra.
      - lra. }
    assert (Hz0 : (0 <= IZR (Z.pos p) * powerRZ 2 Er)%R).
    { apply Rmult_le_pos; [apply IZR_le; lia|lra]. }
    lra.
  - specialize (Hd p ltac:(lia)).
    destruct (binary_round_value true p Er) as (My & Ey & -> & HMy & HEy & Hv);
      try lia.
    exists true, My, Ey. split; [done|]. split; [done|]. split; [lia|].
    apply Rabs_le_both in Hv.
    assert (Hz1 : (IZR (Z.pos p) * powerRZ 2 Er <= / 1048576)%R).
    { replace (IZR (Z.pos p)) with (- IZR (Z.neg p))%R
        by (rewrite <- opp_IZR; done).
      rewrite Ropp_mult_distr_l_reverse, Hzr. destruct sr; cbn [cond_Zopp].
      - rewrite opp_IZR. lra.
      - lra. }
    assert (Hz0 : (0 <= IZR (Z.pos p) * powerRZ 2 Er)%R).
    { apply Rmult_le_pos; [apply IZR_le; lia|lra]. }
    lra.
Qed.

(** The conversion to [uint32_t] of a number above -1 and below 2001. *)
Lemma to_uint32_value (s : bool) M E :
  (IZR (Z.pos M) * powerRZ 2 E < if s then 1 else 2001)%R ->
  exists t, F32.to_uint32 (S754_finite s M E) = Some t /\ 0 <= t <= 2000.
Proof.
  intros Hv. unfold F32.to_uint32, F32.trunc.
  match goal with |- context [cond_Zopp s ?x] => set (t := x) end.
  assert (Ht0 : 0 <= t).
  { unfold t. destruct (0 <=? E) eqn:HE.
    - apply Z.leb_le in HE. assert (0 < 2 ^ E) by (apply Z.pow_pos_nonneg; lia). lia.
    - apply Z.leb_gt in HE. apply Z.div_pos; [lia|]. apply Z.pow_pos_nonneg; lia. }
  assert (Ht : (IZR t <= IZR (Z.pos M) * powerRZ 2 E)%R).
  { unfold t. destruct (0 <=? E) eqn:HE.
    - apply Z.leb_le in HE. rewrite mult_IZR, IZR_pow2 by lia. lra.
    - apply Z.leb_gt in HE.
      assert (Hp : 0 < 2 ^ (- E)) by (apply Z.pow_pos_nonneg; lia).
      pose proof (Z.mul_div_le (Z.pos M) (2 ^ (- E)) Hp) as Hq.
      apply IZR_le in Hq. rewrite mult_IZR, IZR_pow2 in Hq by lia.
      pose proof (pow2_pos E) as HpE. pose proof (pow2_pos (- E)) as HpE'.
      assert (Hone : (powerRZ 2 (- E) * powerRZ 2 E = 1)%R).
      { rewrite <- pow2_add. replace (- E + E) with 0 by lia. apply powerRZ_O. }
      set (q := IZR (Z.pos M / 2 ^ (- E))) in *.
      assert (Hq0 : (0 <= q)%R) by (apply IZR_le; apply Z.div_pos; lia).
      replace q with (q * (powerRZ 2 (- E) * powerRZ 2 E))%R by (rewrite Hone; ring).
      replace (q * (powerRZ 2 (- E) * powerRZ 2 E))%R
        with (powerRZ 2 (- E) * q * powerRZ 2 E)%R by ring.
      apply Rmult_le_compat_r; lra. }
  destruct s; cbn [cond_Zopp mbind option_bind].
  - assert (t = 0).
    { assert (IZR t < 1)%R by lra. apply lt_IZR in H. lia. }
    rewrite H. exists 0. split; [reflexivity|lia].
  - assert (t <= 2000).
    { assert (IZR t < 2001)%R by lra. apply lt_IZR in H. lia. }
    exists t. split; [|lia].
    unfold CInt.UINT32_MAX.
    replace ((0 <=? t) && (t <=? 4294967295)) with true; [done|].
    symmetry. apply andb_true_iff. split; apply Z.leb_le; lia.
Qed.

Lemma pow2_inv n : 0 <= n -> (powerRZ 2 (- n) * IZR (2 ^ n) = 1)%R.
Proof.
  intros H. rewrite IZR_pow2, <- pow2_add by lia.
  replace (- n + n) with 0 by lia. apply powerRZ_O.
Qed.

(** The cosine distance is defined, and at most 2000, whenever the inner
    products satisfy the Cauchy-Schwarz inequality. *)
Lemma CosineDistance_defined inner12 inner1 inner2 :
  0 <= inner1 <= CInt.INT32_MAX -> 0 <= inner2 <= CInt.INT32_MAX ->
  inner12 * inner12 <= inner1 * inner2 ->
  exists t, CosineDistance inner12 inner1 inner2 = Some t /\ 0 <= t <= 2000.
Proof.
  unfold CInt.INT32_MAX. intros Ha Hb Hcs.
  unfold CosineDistance, CosineDistancef.
  destruct ((inner1 =? 0) || (inner2 =? 0)) eqn:Ez.
  { exists 1000. split; [vm_compute; reflexivity|lia]. }
  apply orb_false_iff in Ez as [Ea Eb]. apply Z.eqb_neq in Ea, Eb.
  assert (Hc : - 2147483647 <= inner12 <= 2147483647) by nia.
  destruct (of_int_value inner1) as (Ma & EA & -> & HMa & HEa & HvA);
    [done|unfold CInt.INT32_MAX; lia|].
  destruct (of_int_value inner2) as (Mb & EB & -> & HMb & HEb & HvB);
    [done|unfold CInt.INT32_MAX; lia|].
  replace (inner1 <? 0) with false by (symmetry; apply Z.ltb_ge; lia).
  replace (inner2 <? 0) with false by (symmetry; apply Z.ltb_ge; lia).
  rewrite Z.abs_eq in HvA, HvB by lia.
  destruct (mul_value false Ma EA false Mb EB) as (P & EP & -> & HP & HEp & HvP);
    try done; try lia.
  cbn [xorb].
  destruct (sqrt_value P EP) as (Q & EQ & -> & HQ & HEq & HvQ); try done; try lia.
  destruct (decide (inner12 = 0)) as [->|Hc0].
  { exists 1000. split; [vm_compute; reflexivity|lia]. }
  destruct (of_int_value inner12) as (Mc & EC & -> & HMc & HEc & HvC);
    [done|unfold CInt.INT32_MAX; lia|].
  destruct (div_value (inner12 <? 0) Mc EC Q EQ) as (Mr & Er & -> & HMr & HEr & HvR);
    try done; try lia.
  set (Rv := (IZR (Z.pos Mr) * powerRZ 2 Er)%R) in *.
  assert (HRv : (Rv <= 1 + / 1048576)%R).
  { apply (ratio_real (IZR inner1) (IZR inner2) (IZR (Z.abs inner12))
             (IZR (Z.pos Ma) * powerRZ 2 EA) (IZR (Z.pos Mb) * powerRZ 2 EB)
             (IZR (Z.pos Mc) * powerRZ 2 EC) (IZR (Z.pos P) * powerRZ 2 EP)
             (IZR (Z.pos Q) * powerRZ 2 EQ) Rv); try done.
    - apply IZR_lt. lia.
    - apply IZR_lt. lia.
    - apply IZR_le. lia.
    - rewrite <- !mult_IZR. apply IZR_le. lia.
    - apply Rmult_lt_0_compat; [apply IZR_lt; lia|apply pow2_pos].
    - apply Rmult_le_pos; [apply IZR_le; lia|]. left. apply pow2_pos. }
  assert (HEr23 : Er <= -23).
  { destruct (Z_le_gt_dec Er (-23)) as [H|H]; [done|]. exfalso.
    pose proof (pow2_le (-22) Er ltac:(lia)) as Hle.
    pose proof (pow2_inv 22 ltac:(lia)) as Hinv.
    change (- (22)) with (-22) in Hinv. change (2 ^ 22) with 4194304 in Hinv.
    assert (8388608 <= IZR (Z.pos Mr))%R
      by (apply IZR_le; change (2 ^ 23) with 8388608 in HMr; lia).
    pose proof (pow2_pos (-22)). unfold Rv in HRv. nra. }
  destruct (one_minus_value (inner12 <? 0) Mr Er) as [Hy|(sy & My & Ey & Hy & HMy & HEy & HvY)];
    try done; try lia; cbn zeta in Hy; rewrite Hy.
  { exists 0. split; [vm_compute; reflexivity|lia]. }
  change (F32.of_int kDistanceCoef) with (S754_finite false 16384000 (-14)).
  destruct (mul_value false 16384000 (-14) sy My Ey) as (Mx & Ex & -> & HMx & HEx & HvX);
    try done; try lia.
  cbn [xorb] in *.
  apply to_uint32_value.
  apply Rabs_le_both in HvX.
  pose proof (pow2_inv 14 ltac:(lia)) as Hinv.
  change (- (14)) with (-14) in Hinv. change (2 ^ 14) with 16384 in Hinv.
  set (Yv := (IZR (Z.pos My) * powerRZ 2 Ey)%R) in *.
  assert (HY0 : (0 <= Yv)%R).
  { apply Rmult_le_pos; [apply IZR_le; lia|]. left. apply pow2_pos. }
  assert (H1000 : (IZR (Z.pos 16384000) * powerRZ 2 (-14) = 1000)%R) by lra.
  rewrite H1000 in HvX.
  destruct sy; lra.
Qed.

End Distance.


(** ** Normalisation: saturation *)

Section Saturation.

Import Mfcc.

Lemma of_int_INT16_MIN : F32.of_int CInt.INT16_MIN = S754_finite true 8388608 (-8).
Proof. vm_compute. reflexivity. Qed.

Lemma of_int_INT16_MAX : F32.of_int CInt.INT16_MAX = S754_finite false 16776704 (-9).
Proof. vm_compute. reflexivity. Qed.

(** Comparing [v * 2^e] with the integer [b] after scaling both by
    [2^(-e0)], as [F32.compare_finite] does. *)
Lemma scaled_le v b e e0 :
  e0 <= e -> e0 <= 0 -> v * 2 ^ (e - e0) <= b * 2 ^ (- e0) ->
  (0 <= e -> v * 2 ^ e <= b) /\ (e < 0 -> v <= b * 2 ^ (- e)).
Proof.
  intros He H0 H. split; intros Hs.
  - replace (e - e0) with (e + - e0) in H by lia.
    rewrite Z.pow_add_r in H by lia.
    assert (0 < 2 ^ (- e0)) by (apply Z.pow_pos_nonneg; lia). nia.
  - replace (- e0) with (- e + (e - e0)) in H by lia.
    rewrite Z.pow_add_r in H by lia.
    assert (0 < 2 ^ (e - e0)) by (apply Z.pow_pos_nonneg; lia). nia.
Qed.

Lemma scaled_ge v b e e0 :
  e0 <= e -> e0 <= 0 -> b * 2 ^ (- e0) <= v * 2 ^ (e - e0) ->
  (0 <= e -> b <= v * 2 ^ e) /\ (e < 0 -> b * 2 ^ (- e) <= v).
Proof.
  intros He H0 H.
  destruct (scaled_le (- v) (- b) e e0) as [H1 H2]; [lia|lia|lia|].
  split; intros Hs; [specialize (H1 Hs)|specialize (H2 Hs)]; lia.
Qed.

(** A finite number that is neither below -32768 nor above 32767
    truncates into the [int16_t] range. *)
Lemma trunc_finite_in_i16 s m e :
  F32.ltb (S754_finite s m e) (F32.of_int CInt.INT16_MIN) = false ->
  F32.ltb (F32.of_int CInt.INT16_MAX) (S754_finite s m e) = false ->
  exists t, F32.trunc (S754_finite s m e) = Some t /\
            CInt.INT16_MIN <= t <= CInt.INT16_MAX.
Proof.
  rewrite of_int_INT16_MIN, of_int_INT16_MAX.
  unfold F32.ltb, F32.compare, F32.compare_finite, F32.trunc.
  intros Hlo Hhi. eexists. split; [reflexivity|].
  set (v := cond_Zopp s (Z.pos m)) in *.
  assert (Hv : (v = Z.pos m /\ s = false) \/ (v = - Z.pos m /\ s = true)).
  { unfold v. destruct s; simpl; auto. }
  assert (Hge : -32768 * 2 ^ (- Z.min e (-8)) <= v * 2 ^ (e - Z.min e (-8))).
  { replace (- Z.min e (-8)) with (8 + (-8 - Z.min e (-8))) by lia.
    rewrite Z.pow_add_r by lia.
    change (cond_Zopp true 8388608) with (-8388608) in Hlo.
    destruct (Z.compare_spec (v * 2 ^ (e - Z.min e (-8)))
                (-8388608 * 2 ^ (-8 - Z.min e (-8)))) as [E|E|E];
      try discriminate; lia. }
  assert (Hle : v * 2 ^ (e - Z.min (-9) e) <= 32767 * 2 ^ (- Z.min (-9) e)).
  { replace (- Z.min (-9) e) with (9 + (-9 - Z.min (-9) e)) by lia.
    rewrite Z.pow_add_r by lia.
    change (cond_Zopp false 16776704) with 16776704 in Hhi.
    destruct (Z.compare_spec (16776704 * 2 ^ (-9 - Z.min (-9) e))
                (v * 2 ^ (e - Z.min (-9) e))) as [E|E|E];
      try discriminate; lia. }
  apply scaled_ge in Hge as [Hge0 Hge1]; [|lia|lia].
  apply scaled_le in Hle as [Hle0 Hle1]; [|lia|lia].
  unfold CInt.INT16_MIN, CInt.INT16_MAX.
  destruct (0 <=? e) eqn:Ee.
  - apply Z.leb_le in Ee. specialize (Hge0 Ee). specialize (Hle0 Ee).
    destruct Hv as [[Hv ->]|[Hv ->]]; simpl; rewrite Hv in *; lia.
  - apply Z.leb_gt in Ee. specialize (Hge1 Ee). specialize (Hle1 Ee).
    assert (Hp : 0 < 2 ^ (- e)) by (apply Z.pow_pos_nonneg; lia).
    assert (Hq : 0 <= Z.pos m / 2 ^ (- e)) by (apply Z.div_pos; lia).
    destruct Hv as [[Hv ->]|[Hv ->]]; simpl; rewrite Hv in *.
    + split; [lia|]. apply Z.div_le_upper_bound; lia.
    + split; [|lia].
      cut (Z.pos m / 2 ^ (- e) <= 32768); [lia|].
      apply Z.div_le_upper_bound; lia.
Qed.

Lemma trunc_zero_in_i16 s : F32.to_int16 (S754_zero s) = Some 0.
Proof. reflexivity. Qed.

(** The stored value lies in the [int16_t] range, and it is the bound
    whenever the normalised value is beyond one. *)
Lemma saturate_Some v t :
  saturate v = Some t ->
  CInt.INT16_MIN <= t <= CInt.INT16_MAX /\
  (F32.ltb v (F32.of_int CInt.INT16_MIN) = true -> t = CInt.INT16_MIN) /\
  (F32.ltb (F32.of_int CInt.INT16_MAX) v = true -> t = CInt.INT16_MAX) /\
  F32.is_nan v = false.
Proof.
  unfold saturate. intros H.
  assert (Hnan : F32.is_nan v = false).
  { destruct v; first [done | vm_compute in H; discriminate]. }
  assert (Hexcl : F32.ltb v (F32.of_int CInt.INT16_MIN) = true ->
                  F32.ltb (F32.of_int CInt.INT16_MAX) v = true -> False).
  { rewrite of_int_INT16_MIN, of_int_INT16_MAX.
    destruct v as [s|s| |s m e];
      [destruct s; vm_compute; congruence | destruct s; vm_compute; congruence
      | vm_compute; congruence | ].
    unfold F32.ltb, F32.compare, F32.compare_finite.
    change (cond_Zopp true 8388608) with (-8388608).
    change (cond_Zopp false 16776704) with 16776704.
    intros H1 H2.
    destruct (Z.compare_spec (cond_Zopp s (Z.pos m) * 2 ^ (e - Z.min e (-8)))
                (-8388608 * 2 ^ (-8 - Z.min e (-8)))) as [E1|E1|E1];
      try discriminate.
    destruct (Z.compare_spec (16776704 * 2 ^ (-9 - Z.min (-9) e))
                (cond_Zopp s (Z.pos m) * 2 ^ (e - Z.min (-9) e))) as [E2|E2|E2];
      try discriminate.
    assert (0 < 2 ^ (e - Z.min e (-8))) by (apply Z.pow_pos_nonneg; lia).
    assert (0 < 2 ^ (-8 - Z.min e (-8))) by (apply Z.pow_pos_nonneg; lia).
    assert (0 < 2 ^ (e - Z.min (-9) e)) by (apply Z.pow_pos_nonneg; lia).
    assert (0 < 2 ^ (-9 - Z.min (-9) e)) by (apply Z.pow_pos_nonneg; lia).
    destruct s; simpl in *; nia. }
  destruct (F32.ltb v (F32.of_int CInt.INT16_MIN)) eqn:E1.
  - injection H as <-. repeat split; try done. intros E2. now destruct Hexcl.
  - destruct (F32.ltb (F32.of_int CInt.INT16_MAX) v) eqn:E2.
    + injection H as <-. repeat split; done.
    + unfold F32.to_int16 in H. apply bind_Some in H as (t' & _ & H).
      unfold CInt.in_i16 in H. destruct (_ && _) eqn:E; [|discriminate].
      injection H as <-. apply andb_true_iff in E as [Ea Eb].
      apply Z.leb_le in Ea, Eb. repeat split; done.
Qed.

(** Storing is defined exactly for the normalised values that are numbers. *)
Lemma saturate_defined v :
  F32.is_nan v = false -> exists t, saturate v = Some t.
Proof.
  intros Hnan. unfold saturate.
  destruct (F32.ltb v (F32.of_int CInt.INT16_MIN)) eqn:E1; [eauto|].
  destruct (F32.ltb (F32.of_int CInt.INT16_MAX) v) eqn:E2; [eauto|].
  destruct v as [s|s| |s m e]; try done.
  - rewrite trunc_zero_in_i16. eauto.
  - destruct s; vm_compute in E1, E2; discriminate.
  - destruct (trunc_finite_in_i16 s m e E1 E2) as (t & Ht & Hr).
    unfold F32.to_int16. rewrite Ht. cbn [mbind option_bind].
    unfold CInt.in_i16. exists t.
    replace (_ && _) with true; [done|].
    symmetry. apply andb_true_iff. split; apply Z.leb_le; lia.
Qed.

End Saturation.

(** ** Normalisation: the three loops *)

Section Normalize.

Import Mfcc.

Variables (src : list F32.float) (frame_num coef_num : Z).

Lemma cell_Some i j k : cell i coef_num j = Some k -> k = i * coef_num + j.
Proof.
  unfold cell. intros H. apply bind_Some in H as (p & Hp & H).
  apply mul_Some in Hp. apply add_Some in H. lia.
Qed.

Lemma cell_defined i j :
  frame_num * coef_num <= CInt.INT32_MAX ->
  0 <= i < frame_num -> 0 <= j < coef_num ->
  cell i coef_num j = Some (i * coef_num + j).
Proof.
  intros Hmax Hi Hj. unfold cell, CInt.mul, CInt.add.
  rewrite int_of_in by (unfold CInt.INT32_MIN, CInt.INT32_MAX in *; nia).
  cbn [mbind option_bind].
  rewrite int_of_in by (unfold CInt.INT32_MIN, CInt.INT32_MAX in *; nia). done.
Qed.

Lemma accumulate_defined f :
  0 < frame_num -> 0 < coef_num -> frame_num * coef_num <= CInt.INT32_MAX ->
  Z.of_nat (length src) = frame_num * coef_num ->
  exists r, accumulate src frame_num coef_num f = Some r.
Proof.
  intros Hf Hc Hmax Hlen. unfold accumulate.
  destruct (for_range_total (fun _ _ => True) 0 frame_num
              (fun i sum_val =>
                 Loop.for_range 0 coef_num
                   (fun j sum_val =>
                      k ← cell i coef_num j; x ← Loop.get src k; Some (f sum_val x))
                   sum_val)
              (F32.of_int 0)) as (r & Hr & _); [lia|done| |eauto].
  intros i s1 Hi _.
  destruct (for_range_total (fun _ _ => True) 0 coef_num
              (fun j sum_val =>
                 k ← cell i coef_num j; x ← Loop.get src k; Some (f sum_val x))
              s1) as (r & Hr & _); [lia|done| |eauto].
  intros j s2 Hj _. rewrite cell_defined by done. cbn [mbind option_bind].
  destruct (lookup_lt_is_Some_2 src (Z.to_nat (i * coef_num + j))) as [x Hx]; [nia|].
  assert (Hg : Loop.get src (i * coef_num + j) = Some x).
  { apply get_Some. split; [nia|done]. }
  rewrite Hg. cbn [mbind option_bind]. eauto.
Qed.

Local Abbreviation fill := (Mfcc.fill src frame_num coef_num).
Local Abbreviation filled := (Mfcc.filled src coef_num).

Lemma fill_Some g dest dest' :
  0 < frame_num -> 0 < coef_num ->
  fill g dest = Some dest' ->
  length dest' = length dest /\
  forall i j, 0 <= i < frame_num -> 0 <= j < coef_num -> filled g dest' i j.
Proof.
  intros Hf Hc Hfill. unfold fill in Hfill.
  pose (Q := fun (i : Z) (d : list Z) =>
    length d = length dest /\
    forall i' j', 0 <= i' < i -> 0 <= j' < coef_num -> filled g d i' j').
  assert (HQ : Q frame_num dest').
  { eapply (for_range_ind Q); [|exact Hfill| |]; [lia| |].
    { split; [done|]. intros; lia. }
    intros i d1 d2 Hi [Hlen1 Hdone1] Hrow.
    pose (P := fun (j : Z) (d : list Z) =>
      length d = length dest /\
      forall i' j', 0 <= j' < coef_num ->
        (0 <= i' < i \/ (i' = i /\ j' < j)) -> filled g d i' j').
    assert (HP : P coef_num d2).
    { eapply (for_range_ind P); [|exact Hrow| |]; [lia| |].
      { split; [done|]. intros i' j' Hj' [Hi'|[_ ?]]; [auto|lia]. }
      intros j d3 d4 Hj [Hlen3 Hdone3] Hbody.
      apply bind_Some in Hbody as (k & Hk & Hbody).
      apply bind_Some in Hbody as (x & Hx & Hbody).
      apply bind_Some in Hbody as (t & Ht & Hbody).
      apply cell_Some in Hk. subst k.
      apply set_Some in Hbody as [Hin ->].
      split; [rewrite length_insert; done|].
      intros i' j' Hj' Hbefore.
      destruct (decide (i' = i /\ j' = j)) as [[-> ->]|Hne].
      - exists x, t. repeat split; try done.
        apply get_Some. split; [lia|].
        apply list_lookup_insert_eq. lia.
      - destruct (Hdone3 i' j') as (x' & t' & Hx' & Ht' & Hd'); [done|lia|].
        exists x', t'. repeat split; try done.
        apply get_Some in Hd' as [Hnn Hd']. apply get_Some. split; [done|].
        rewrite list_lookup_insert_ne; [done|]. nia. }
    destruct HP as [Hlen2 Hdone2]. split; [done|].
    intros i' j' Hi' Hj'. apply Hdone2; [done|]. lia. }
  destruct HQ as [Hlen HQ]. split; [done|]. intros i j Hi Hj. now apply HQ.
Qed.

Lemma fill_defined g dest :
  0 < frame_num -> 0 < coef_num -> frame_num * coef_num <= CInt.INT32_MAX ->
  Z.of_nat (length src) = frame_num * coef_num ->
  Z.of_nat (length dest) = frame_num * coef_num ->
  (forall x, x ∈ src -> is_Some (g x)) ->
  exists dest', fill g dest = Some dest'.
Proof.
  intros Hf Hc Hmax Hsrc Hdest Hg. unfold fill.
  destruct (for_range_total (fun _ d => length d = length dest) 0 frame_num
              (fun i dest =>
                 Loop.for_range 0 coef_num
                   (fun j dest =>
                      k ← cell i coef_num j; x ← Loop.get src k; v ← g x;
                      Loop.set dest k v)
                   dest)
              dest) as (r & Hr & _); [lia|done| |eauto].
  intros i d1 Hi Hlen1.
  apply (for_range_total (fun _ d => length d = length dest)); [lia|done|].
  intros j d2 Hj Hlen2. rewrite cell_defined by done. cbn [mbind option_bind].
  destruct (lookup_lt_is_Some_2 src (Z.to_nat (i * coef_num + j))) as [x Hx]; [nia|].
  assert (Hget : Loop.get src (i * coef_num + j) = Some x).
  { apply get_Some. split; [nia|done]. }
  rewrite Hget. cbn [mbind option_bind].
  destruct (Hg x) as [t Ht]; [eapply list_elem_of_lookup_2; eauto|].
  rewrite Ht. cbn [mbind option_bind].
  exists (<[Z.to_nat (i * coef_num + j) := t]> d2).
  split; [|rewrite length_insert; done].
  apply set_Some. split; [nia|done].
Qed.

End Normalize.

(** ** Normalisation: when the normalised values are numbers *)

Section NotNaN.

Import Mfcc.

(** A rounding of a non-negative mantissa is a number. *)
Lemma binary_round_aux_number sx mx ex lx :
  0 <= mx -> F32.is_nan (binary_round_aux 24 128 sx mx ex lx) = false.
Proof.
  intros Hm. unfold binary_round_aux, shr_fexp.
  match goal with |- context [shr ?a ?b ?c] =>
    pose proof (shr_nonneg a b c) as H1; destruct (shr a b c) as [mrs' e']
  end.
  cbn [fst] in H1. rewrite shr_m_of_loc in H1. specialize (H1 Hm).
  match goal with |- context [shr ?a ?b ?c] =>
    pose proof (shr_nonneg a b c) as H2; destruct (shr a b c) as [mrs'' e'']
  end.
  cbn [fst] in H2. rewrite shr_m_of_loc in H2.
  assert (Hr : 0 <= round_nearest_even (shr_m mrs') (loc_of_shr_record mrs')).
  { destruct (loc_of_shr_record mrs') as [|[]]; cbn [round_nearest_even]; try lia.
    destruct (Z.even _); lia. }
  specialize (H2 Hr).
  destruct (shr_m mrs'') as [|q|q]; [done| |lia].
  now destruct (_ <=? _).
Qed.

Lemma binary_normalize_number m e :
  F32.is_nan (binary_normalize 24 128 m e false) = false.
Proof.
  destruct m as [|p|p]; cbn [binary_normalize]; [done| |];
    unfold binary_round; destruct (shl_align _ _ _) as [mz ez];
    now apply binary_round_aux_number.
Qed.

Lemma sub_number x y :
  F32.is_finite x = true -> F32.is_finite y = true ->
  F32.is_nan (F32.sub x y) = false.
Proof.
  unfold F32.sub, F32.prec, F32.emax.
  destruct x as [sx|sx| |sx mx ex], y as [sy|sy| |sy my ey]; try done; intros _ _.
  - now destruct sx, sy.
  - apply binary_normalize_number.
Qed.

Lemma mul_number m e y :
  F32.is_nan y = false ->
  F32.is_nan (F32.mul (S754_finite false m e) y) = false.
Proof.
  unfold F32.mul, F32.prec, F32.emax.
  destruct y as [sy|sy| |sy my ey]; try done; intros _.
  now apply binary_round_aux_number.
Qed.

Lemma div_number x s m e :
  F32.is_nan x = false ->
  F32.is_nan (F32.div x (S754_finite s m e)) = false.
Proof.
  unfold F32.div, F32.prec, F32.emax.
  destruct x as [sx|sx| |sx mx ex]; try done; intros _.
  cbn [SFdiv]. unfold SFdiv_core_binary.
  match goal with |- context [Z.div_eucl ?a ?b] =>
    pose proof (Z_div_mod a b ltac:(lia)) as H;
    assert (Ha : 0 <= a); [|destruct (Z.div_eucl a b) as [q r]]
  end.
  { destruct (_ - _ - _) as [|p|p]; try lia. apply Z.shiftl_nonneg. lia. }
  apply binary_round_aux_number. destruct H as [H Hr]. nia.
Qed.

(** With a finite mean and a finite non-zero deviation, the normalised
    value of a finite cell is a number. *)
Lemma normalized_val_number x mean_val s m e :
  F32.is_finite x = true -> F32.is_finite mean_val = true ->
  F32.is_nan (normalized_val x mean_val (S754_finite s m e)) = false.
Proof.
  intros Hx Hmean. unfold normalized_val.
  apply div_number.
  change (F32.of_int kNormalizeCoef) with (S754_finite false 16384000 (-14)).
  apply mul_number. now apply sub_number.
Qed.

End NotNaN.

Section NormalizeClaims.

Import Mfcc.

Lemma mean_of_defined src frame_num coef_num dest :
  normalize_shape src frame_num coef_num dest ->
  exists mean_val, mean_of src frame_num coef_num = Some mean_val.
Proof.
  intros (Hf & Hc & Hmax & Hsrc & _). unfold mean_of.
  destruct (accumulate_defined src frame_num coef_num F32.add) as [r ->]; try done.
  cbn [mbind option_bind]. unfold CInt.mul.
  rewrite int_of_in by (unfold CInt.INT32_MIN, CInt.INT32_MAX in *; nia).
  cbn [mbind option_bind]. eauto.
Qed.

Lemma stddev_of_defined src frame_num coef_num dest mean_val :
  normalize_shape src frame_num coef_num dest ->
  exists stddev, stddev_of src frame_num coef_num mean_val = Some stddev.
Proof.
  intros (Hf & Hc & Hmax & Hsrc & _). unfold stddev_of.
  match goal with |- context [accumulate ?a ?b ?c ?f] =>
    destruct (accumulate_defined a b c f) as [r Hr]; try done; rewrite Hr
  end.
  cbn [mbind option_bind]. destruct (F32.ltb _ _); [eauto|].
  unfold CInt.mul.
  rewrite int_of_in by (unfold CInt.INT32_MIN, CInt.INT32_MAX in *; nia).
  cbn [mbind option_bind]. eauto.
Qed.

(** C9 as stated fails: both cells of this 1 x 2 matrix are finite, their
    sum overflows to infinity, the normalised values are NaN, and the
    conversion of a NaN to [int16_t] is undefined. *)
Lemma C9_counterexample :
  Forall (fun x => F32.is_finite x = true) [huge; huge] /\
  normalize_shape [huge; huge] 1 2 [0; 0] /\
  (exists mean_val stddev,
     mean_of [huge; huge] 1 2 = Some mean_val /\
     stddev_of [huge; huge] 1 2 mean_val = Some stddev /\
     normalized_val huge mean_val stddev = S754_nan) /\
  normalize [huge; huge] 1 2 [0; 0] = None.
Proof.
  split; [repeat constructor|]. split; [vm_compute; intuition congruence|].
  split; [|vm_compute; reflexivity].
  eexists _, _. split; [vm_compute; reflexivity|].
  split; vm_compute; reflexivity.
Qed.

(** C9, amended.  For a matrix of [frame_num * coef_num] cells (both
    positive), [normalize] computes a mean and a deviation; it is defined
    exactly when no normalised value [1000 * (x - mean) / stddev] is a NaN,
    which is the case whenever the cells and the mean are finite and the
    deviation is finite and not zero.  The value stored for every cell
    then lies in [-32768, 32767]: it is INT16_MIN when the normalised value
    is below INT16_MIN and INT16_MAX when it is above INT16_MAX. *)
Theorem C9_normalize_saturates src frame_num coef_num dest :
  normalize_shape src frame_num coef_num dest ->
  exists mean_val stddev,
    mean_of src frame_num coef_num = Some mean_val /\
    stddev_of src frame_num coef_num mean_val = Some stddev /\
    ((forall x, x ∈ src -> F32.is_nan (normalized_val x mean_val stddev) = false)
     <-> exists dest', normalize src frame_num coef_num dest = Some dest') /\
    (Forall (fun x => F32.is_finite x = true) src ->
     F32.is_finite mean_val = true ->
     (exists s m e, stddev = S754_finite s m e) ->
     exists dest', normalize src frame_num coef_num dest = Some dest') /\
    forall dest', normalize src frame_num coef_num dest = Some dest' ->
      forall i j, 0 <= i < frame_num -> 0 <= j < coef_num ->
      exists x t,
        Loop.get src (i * coef_num + j) = Some x /\
        Loop.get dest' (i * coef_num + j) = Some t /\
        CInt.INT16_MIN <= t <= CInt.INT16_MAX /\
        (F32.ltb (normalized_val x mean_val stddev) (F32.of_int CInt.INT16_MIN) = true ->
         t = CInt.INT16_MIN) /\
        (F32.ltb (F32.of_int CInt.INT16_MAX) (normalized_val x mean_val stddev) = true ->
         t = CInt.INT16_MAX).
Proof.
  intros Hshape.
  destruct (mean_of_defined _ _ _ _ Hshape) as [mean_val Hmean].
  destruct (stddev_of_defined _ _ _ _ mean_val Hshape) as [stddev Hdev].
  destruct Hshape as (Hf & Hc & Hmax & Hsrc & Hdest).
  exists mean_val, stddev. split; [done|]. split; [done|].
  unfold normalize. rewrite Hmean. cbn [mbind option_bind].
  rewrite Hdev. cbn [mbind option_bind].
  assert (Hcells : forall dest',
    fill src frame_num coef_num
      (fun x => saturate (normalized_val x mean_val stddev)) dest = Some dest' ->
    forall i j, 0 <= i < frame_num -> 0 <= j < coef_num ->
    exists x t,
      Loop.get src (i * coef_num + j) = Some x /\
      Loop.get dest' (i * coef_num + j) = Some t /\
      saturate (normalized_val x mean_val stddev) = Some t).
  { intros dest' Hfill i j Hi Hj.
    apply fill_Some in Hfill as [_ Hfill]; try done.
    destruct (Hfill i j Hi Hj) as (x & t & Hx & Ht & Hd). eauto. }
  assert (Hdef : (forall x, x ∈ src ->
                    F32.is_nan (normalized_val x mean_val stddev) = false) ->
                 exists dest', fill src frame_num coef_num
                   (fun x => saturate (normalized_val x mean_val stddev)) dest
                   = Some dest').
  { intros Hnan. apply fill_defined; try done.
    intros x Hx. destruct (saturate_defined _ (Hnan x Hx)) as [t Ht]. eauto. }
  split; [split; [exact Hdef|]|split].
  - intros [dest' Hfill] x Hx.
    apply list_elem_of_lookup_1 in Hx as [k Hk].
    pose proof (lookup_lt_Some _ _ _ Hk) as Hlt.
    pose proof (Z.div_mod (Z.of_nat k) coef_num ltac:(lia)) as Hdm.
    pose proof (Z.mod_pos_bound (Z.of_nat k) coef_num Hc) as Hm.
    assert (Hq : 0 <= Z.of_nat k / coef_num < frame_num).
    { split; [apply Z.div_pos; lia|]. apply Z.div_lt_upper_bound; lia. }
    destruct (Hcells dest' Hfill _ _ Hq Hm) as (x' & t & Hx' & _ & Ht).
    apply get_Some in Hx' as [_ Hx'].
    replace (Z.of_nat k / coef_num * coef_num + Z.of_nat k `mod` coef_num)
      with (Z.of_nat k) in Hx' by lia.
    rewrite Nat2Z.id in Hx'. assert (x' = x) as -> by congruence.
    now apply saturate_Some in Ht.
  - intros Hfin Hmf (s & m & e & ->). apply Hdef. intros x Hx.
    apply normalized_val_number; [|done].
    rewrite Forall_forall in Hfin. now apply Hfin.
  - intros dest' Hfill i j Hi Hj.
    destruct (Hcells dest' Hfill i j Hi Hj) as (x & t & Hx & Hd & Ht).
    apply saturate_Some in Ht as (Hr & Hlo & Hhi & _).
    exists x, t. done.
Qed.

End NormalizeClaims.

Lemma C9_witness :
  exists mean_val stddev,
    Mfcc.mean_of Mfcc.small_matrix 2 2 = Some mean_val /\
    Mfcc.stddev_of Mfcc.small_matrix 2 2 mean_val = Some stddev /\
    ((forall x, x ∈ Mfcc.small_matrix ->
        F32.is_nan (Mfcc.normalized_val x mean_val stddev) = false)
     <-> exists dest', Mfcc.normalize Mfcc.small_matrix 2 2 [0; 0; 0; 0] = Some dest') /\
    (Forall (fun x => F32.is_finite x = true) Mfcc.small_matrix ->
     F32.is_finite mean_val = true ->
     (exists s m e, stddev = S754_finite s m e) ->
     exists dest', Mfcc.normalize Mfcc.small_matrix 2 2 [0; 0; 0; 0] = Some dest') /\
    forall dest', Mfcc.normalize Mfcc.small_matrix 2 2 [0; 0; 0; 0] = Some dest' ->
      forall i j, 0 <= i < 2 -> 0 <= j < 2 ->
      exists x t,
        Loop.get Mfcc.small_matrix (i * 2 + j) = Some x /\
        Loop.get dest' (i * 2 + j) = Some t /\
        CInt.INT16_MIN <= t <= CInt.INT16_MAX /\
        (F32.ltb (Mfcc.normalized_val x mean_val stddev) (F32.of_int CInt.INT16_MIN) = true ->
         t = CInt.INT16_MIN) /\
        (F32.ltb (F32.of_int CInt.INT16_MAX) (Mfcc.normalized_val x mean_val stddev) = true ->
         t = CInt.INT16_MAX).
Proof.
  apply (C9_normalize_saturates Mfcc.small_matrix 2 2 [0; 0; 0; 0]).
  vm_compute. intuition congruence.
Defined.

(** ** DTW: the pre-checks *)

Section DtwGate.

Import Feature Dtw.

Context {T1 T2 : Type} {F1 : ISoundFeature T1} {F2 : ISoundFeature T2}.
Variables (feature1 : T1) (feature2 : T2).

Lemma classic_invalid : invalid feature1 feature2 \/ ~ invalid feature1 feature2.
Proof.
  unfold invalid.
  destruct (decide (dimension feature1 = dimension feature2));
    destruct (decide (size feature1 <= 0));
    destruct (decide (size feature2 <= 0));
    destruct (decide (size feature1 > 3 * size feature2));
    destruct (decide (size feature2 > 3 * size feature1));
    try (left; tauto); right; tauto.
Qed.

Lemma rejects_spec :
  size feature1 <= 715827882 -> size feature2 <= 715827882 ->
  (invalid feature1 feature2 -> rejects feature1 feature2 = Some true) /\
  (~ invalid feature1 feature2 -> rejects feature1 feature2 = Some false).
Proof.
  intros H1 H2. unfold invalid, rejects.
  destruct (dimension feature1 =? dimension feature2) eqn:Ed; cbn [negb].
  2: { apply Z.eqb_neq in Ed. split; [done|]. intros H. destruct H. auto. }
  apply Z.eqb_eq in Ed.
  destruct (size feature1 <=? 0) eqn:E1; cbn [orb].
  { apply Z.leb_le in E1. split; [done|]. intros H. destruct H. auto. }
  apply Z.leb_gt in E1.
  destruct (size feature2 <=? 0) eqn:E2.
  { apply Z.leb_le in E2. split; [done|]. intros H. destruct H. auto. }
  apply Z.leb_gt in E2.
  unfold CInt.mul.
  rewrite !int_of_in by (unfold CInt.INT32_MIN, CInt.INT32_MAX; lia).
  cbn [mbind option_bind].
  destruct (3 * size feature2 <? size feature1) eqn:E3.
  { apply Z.ltb_lt in E3. split; [done|]. intros H. destruct H. lia. }
  apply Z.ltb_ge in E3.
  destruct (3 * size feature1 <? size feature2) eqn:E4.
  { apply Z.ltb_lt in E4. split; [done|]. intros H. destruct H. lia. }
  apply Z.ltb_ge in E4. split; [|done].
  intros [H|[H|[H|[H|H]]]]; (done || lia).
Qed.

(** For sizes whose triple fits an [int], the pre-checks refuse exactly
    the invalid pairs, for which [calcDTW] returns UINT32_MAX; it returns
    UINT32_MAX as well for a valid pair when the two work rows (six bytes a
    frame of [feature2]) cannot be allocated. *)
Lemma calcDTW_gate heap :
  size feature1 <= 715827882 -> size feature2 <= 715827882 ->
  (invalid feature1 feature2 <-> rejects feature1 feature2 = Some true) /\
  (invalid feature1 feature2 ->
     calcDTW feature1 feature2 heap = Some CInt.UINT32_MAX) /\
  (~ invalid feature1 feature2 -> Heap.free heap < 6 * size feature2 ->
     calcDTW feature1 feature2 heap = Some CInt.UINT32_MAX) /\
  (size feature1 = 1 -> size feature2 = 4 ->
     calcDTW feature1 feature2 heap = Some CInt.UINT32_MAX) /\
  (size feature1 = 2 -> size feature2 = 6 ->
     dimension feature1 = dimension feature2 ->
     rejects feature1 feature2 = Some false).
Proof.
  intros H1 H2. destruct (rejects_spec H1 H2) as [Hinv Hval].
  assert (Hrej : invalid feature1 feature2 ->
                 calcDTW feature1 feature2 heap = Some CInt.UINT32_MAX).
  { intros Hi. unfold calcDTW. rewrite (Hinv Hi). done. }
  split; [|split; [done|split; [|split]]].
  - split; [done|]. intros Hr.
    destruct (classic_invalid) as [Hi|Hi]; [done|].
    rewrite (Hval Hi) in Hr. discriminate.
  - intros Hv Hfree. unfold calcDTW. rewrite (Hval Hv). cbn [mbind option_bind].
    assert (0 < size feature2) by (unfold invalid in Hv; lia).
    unfold Heap.new_array.
    destruct (_ && _) eqn:E1; cbn [mbind option_bind]; [|done].
    apply andb_true_iff in E1 as [_ E1]. apply Z.leb_le in E1.
    cbn [Heap.free].
    replace (_ && _) with false; [done|].
    symmetry. apply andb_false_iff. right. apply Z.leb_gt. lia.
  - intros E1 E2. apply Hrej. unfold invalid. lia.
  - intros E1 E2 Ed. apply Hval. unfold invalid. lia.
Qed.

End DtwGate.

(** ** DTW: the rolling rows compute the lattice *)

Ltac opt_step H := rewrite H; cbn [mbind option_bind].

Section DtwLattice.

Import Feature Dtw.

Context {T1 T2 : Type} {F1 : ISoundFeature T1} {F2 : ISoundFeature T2}.
Variables (feature1 : T1) (feature2 : T2) (cost : Z -> Z -> Z).

Hypothesis Hm : 0 < size feature1.
Hypothesis Hn : 0 < size feature2 <= 2 ^ 30.
Hypothesis Hcost : forall i j,
  0 <= i < size feature1 -> 0 <= j < size feature2 ->
  cell_cost feature1 feature2 i j = Some (cost i j).

Lemma cost_parts i j :
  0 <= i < size feature1 -> 0 <= j < size feature2 ->
  exists f1 f2 a b ab,
    feature feature1 i = Some f1 /\ feature feature2 j = Some f2 /\
    InnerProduct1 f1 (dimension feature1) = Some a /\
    InnerProduct1 f2 (dimension feature1) = Some b /\
    InnerProduct f1 (dimension feature1) f2 = Some ab /\
    CosineDistance ab a b = Some (cost i j).
Proof.
  intros Hi Hj. specialize (Hcost i j Hi Hj). unfold cell_cost in Hcost.
  apply bind_Some in Hcost as (f1 & H1 & Hcost).
  apply bind_Some in Hcost as (f2 & H2 & Hcost).
  apply bind_Some in Hcost as (a & H3 & Hcost).
  apply bind_Some in Hcost as (b & H4 & Hcost).
  apply bind_Some in Hcost as (ab & H5 & Hcost).
  exists f1, f2, a, b, ab. done.
Qed.

Local Abbreviation row_is := (Dtw.row_is feature2).

Lemma first_row_spec f a d0 :
  feature feature1 0 = Some f ->
  InnerProduct1 f (dimension feature1) = Some a ->
  d0 = CInt.u32 (2 * cost 0 0) ->
  exists rows,
    first_row feature1 feature2 (dimension feature1) a
      (<[0%nat := d0]> (replicate (Z.to_nat (size feature2)) 0),
       <[0%nat := 0]> (replicate (Z.to_nat (size feature2)) 0)) = Some rows /\
    row_is (first_cells cost) rows.
Proof.
  intros Hf Ha ->. unfold first_row.
  pose (P := fun (j : Z) (rows : list Z * list Z) =>
    Z.of_nat (length rows.1) = size feature2 /\
    Z.of_nat (length rows.2) = size feature2 /\
    forall k : nat, Z.of_nat k < j ->
      rows.1 !! k = Some (first_cells cost k).1 /\
      rows.2 !! k = Some (CInt.i16 (first_cells cost k).2)).
  match goal with |- exists rows, Loop.for_range _ _ ?body ?s = _ /\ _ =>
    destruct (for_range_total P 1 (size feature2) body s) as (rows & Hrun & HP)
  end.
  - lia.
  - unfold P. cbn [fst snd]. rewrite !length_insert, !length_replicate.
    split; [lia|]. split; [lia|]. intros k Hk.
    assert (k = 0%nat) as -> by lia.
    rewrite !list_lookup_insert_eq by (rewrite length_replicate; lia). done.
  - intros j [D C] Hj (HlD & HlC & Hcells). cbn [fst snd] in *.
    destruct (cost_parts 0 j) as (f1 & f2 & a' & b & ab & H1 & H2 & H3 & H4 & H5 & H6);
      [lia|lia|].
    assert (f1 = f) as -> by congruence. assert (a' = a) as -> by congruence.
    opt_step H1. opt_step H2. opt_step H5. opt_step H4.
    destruct (Hcells (Z.to_nat (j - 1))) as [HD HC]; [lia|].
    assert (Hget : Loop.get D (j - 1) = Some (first_cells cost (Z.to_nat (j - 1))).1).
    { apply get_Some. split; [lia|done]. }
    opt_step Hget. opt_step H6.
    assert (HsD : Loop.set D j (CInt.u32 ((first_cells cost (Z.to_nat (j - 1))).1 + cost 0 j))
                  = Some (<[Z.to_nat j := CInt.u32 ((first_cells cost (Z.to_nat (j - 1))).1 + cost 0 j)]> D)).
    { apply set_Some. split; [lia|done]. }
    opt_step HsD.
    assert (HsC : Loop.set C j (CInt.i16 j) = Some (<[Z.to_nat j := CInt.i16 j]> C)).
    { apply set_Some. split; [lia|done]. }
    opt_step HsC.
    eexists. split; [reflexivity|]. unfold P. cbn [fst snd].
    rewrite !length_insert. split; [done|]. split; [done|].
    intros k Hk. destruct (decide (k = Z.to_nat j)) as [->|Hne].
    + rewrite !list_lookup_insert_eq by lia.
      replace (Z.to_nat j) with (S (Z.to_nat (j - 1))) by lia.
      cbn [first_cells fst snd].
      replace (Z.of_nat (S (Z.to_nat (j - 1)))) with j by lia. done.
    + rewrite !list_lookup_insert_ne by lia. apply Hcells. lia.
  - exists rows. split; [done|]. destruct HP as (H1 & H2 & H3).
    unfold row_is. auto.
Qed.

Lemma select_step_cases up left diag :
  select_step up left diag = up \/ select_step up left diag = left \/
  select_step up left diag = diag.
Proof.
  unfold select_step. destruct (up.1 <? left.1); destruct (_ <? _); auto.
Qed.

Lemma i16_bounds z : -32768 <= CInt.i16 z <= 32767.
Proof. apply i16_range. Qed.

Lemma inner_loop_spec i f a (above : nat -> Z * Z) rows :
  1 <= i < size feature1 ->
  feature feature1 i = Some f ->
  InnerProduct1 f (dimension feature1) = Some a ->
  row_is above rows ->
  exists D C,
    inner_loop feature1 feature2 (dimension feature1) i a
      (rows.1, rows.2, (next_cells cost above i 0).1, (next_cells cost above i 0).2)
    = Some (D, C,
            (next_cells cost above i (Z.to_nat (size feature2 - 1))).1,
            (next_cells cost above i (Z.to_nat (size feature2 - 1))).2) /\
    Z.of_nat (length D) = size feature2 /\
    Z.of_nat (length C) = size feature2 /\
    forall k : nat, Z.of_nat k < size feature2 - 1 ->
      D !! k = Some (next_cells cost above i k).1 /\
      C !! k = Some (CInt.i16 (next_cells cost above i k).2).
Proof.
  intros Hi Hf Ha (HlD0 & HlC0 & Habove). unfold inner_loop.
  set (cur := next_cells cost above i).
  pose (P := fun (j : Z) (st : list Z * list Z * Z * Z) =>
    let '(D, C, pd, pc) := st in
    Z.of_nat (length D) = size feature2 /\
    Z.of_nat (length C) = size feature2 /\
    (forall k : nat, Z.of_nat k < j - 1 ->
       D !! k = Some (cur k).1 /\ C !! k = Some (CInt.i16 (cur k).2)) /\
    (forall k : nat, j - 1 <= Z.of_nat k < size feature2 ->
       D !! k = Some (above k).1 /\ C !! k = Some (CInt.i16 (above k).2)) /\
    (pd, pc) = cur (Z.to_nat (j - 1)) /\ -32768 <= pc <= 32768 + j).
  match goal with |- exists D C, Loop.for_range _ _ ?body ?s = _ /\ _ =>
    destruct (for_range_total P 1 (size feature2) body s) as (st & Hrun & HP)
  end.
  - lia.
  - unfold P. split; [done|]. split; [done|]. split; [intros; lia|].
    split; [intros k Hk; apply Habove; lia|]. split.
    + change (Z.to_nat (1 - 1)) with 0%nat. now destruct (cur 0%nat).
    + unfold cur. cbn [next_cells stored fst snd].
      pose proof (i16_bounds (above 0%nat).2). lia.
  - intros j [[[D C] pd] pc] Hj (HlD & HlC & Hcur & Hab & Hprev & Hpc).
    destruct (Hab (Z.to_nat j)) as [HDj HCj]; [lia|].
    destruct (Hab (Z.to_nat (j - 1))) as [HDj1 HCj1]; [lia|].
    assert (G1 : Loop.get D j = Some (above (Z.to_nat j)).1)
      by (apply get_Some; split; [lia|done]).
    assert (G2 : Loop.get C j = Some (CInt.i16 (above (Z.to_nat j)).2))
      by (apply get_Some; split; [lia|done]).
    assert (G3 : Loop.get D (j - 1) = Some (above (Z.to_nat (j - 1))).1)
      by (apply get_Some; split; [lia|done]).
    assert (G4 : Loop.get C (j - 1) = Some (CInt.i16 (above (Z.to_nat (j - 1))).2))
      by (apply get_Some; split; [lia|done]).
    opt_step G1. opt_step G2. opt_step G3. opt_step G4.
    destruct (cost_parts i j) as (f1 & f2 & a' & b & ab & H1 & H2 & H3 & H4 & H5 & H6);
      [lia|lia|].
    assert (f1 = f) as -> by congruence. assert (a' = a) as -> by congruence.
    set (s := select_step _ _ _).
    assert (Hs : s = select_step (stored (above (Z.to_nat j)))
                       (cur (Z.to_nat (j - 1))) (stored (above (Z.to_nat (j - 1))))).
    { unfold s, stored. rewrite Hprev. done. }
    assert (Hsb : -32768 <= s.2 <= 32768 + j).
    { destruct (select_step_cases (stored (above (Z.to_nat j)))
                  (cur (Z.to_nat (j - 1))) (stored (above (Z.to_nat (j - 1)))))
        as [E|[E|E]]; rewrite Hs, E; unfold stored; cbn [snd].
      - pose proof (i16_bounds (above (Z.to_nat j)).2). lia.
      - rewrite <- Hprev. cbn [snd]. lia.
      - pose proof (i16_bounds (above (Z.to_nat (j - 1))).2). lia. }
    destruct s as [sd sc] eqn:Es. cbn [snd] in Hsb.
    opt_step H1. opt_step H2. opt_step H5. opt_step H4. opt_step H6.
    unfold CInt.add.
    rewrite int_of_in by (unfold CInt.INT32_MIN, CInt.INT32_MAX; lia).
    cbn [mbind option_bind].
    assert (S1 : Loop.set D (j - 1) pd = Some (<[Z.to_nat (j - 1) := pd]> D))
      by (apply set_Some; split; [lia|done]).
    opt_step S1.
    assert (S2 : Loop.set C (j - 1) (CInt.i16 pc)
                 = Some (<[Z.to_nat (j - 1) := CInt.i16 pc]> C))
      by (apply set_Some; split; [lia|done]).
    opt_step S2.
    eexists. split; [reflexivity|]. unfold P.
    rewrite !length_insert. split; [done|]. split; [done|].
    assert (Hcurj : cur (Z.to_nat j) = (CInt.u32 (sd + cost i j), sc + 1)).
    { unfold cur. replace (Z.to_nat j) with (S (Z.to_nat (j - 1))) by lia.
      cbn [next_cells].
      replace (Z.of_nat (S (Z.to_nat (j - 1)))) with j by lia.
      replace (S (Z.to_nat (j - 1))) with (Z.to_nat j) by lia.
      fold cur. rewrite <- Hs. done. }
    split; [|split; [|split]].
    + intros k Hk. destruct (decide (k = Z.to_nat (j - 1))) as [->|Hne].
      * rewrite !list_lookup_insert_eq by lia. rewrite <- Hprev. done.
      * rewrite !list_lookup_insert_ne by lia. apply Hcur. lia.
    + intros k Hk. rewrite !list_lookup_insert_ne by lia. apply Hab. lia.
    + replace (Z.to_nat (j + 1 - 1)) with (Z.to_nat j) by lia. now rewrite Hcurj.
    + lia.
  - destruct st as [[[D C] pd] pc]. destruct HP as (HlD & HlC & Hcur & _ & Hprev & _).
    exists D, C. split; [|split; [done|split; [done|]]].
    + rewrite Hrun. fold cur. rewrite <- Hprev. done.
    + intros k Hk. apply Hcur. lia.
Qed.

Lemma outer_loop_spec g b hi rows :
  feature feature2 0 = Some g ->
  InnerProduct1 g (dimension feature1) = Some b ->
  1 <= hi <= size feature1 ->
  row_is (first_cells cost) rows ->
  exists rows',
    outer_loop feature1 feature2 (dimension feature1) b (size feature2 - 1) hi rows
    = Some rows' /\
    row_is (lattice cost (Z.to_nat (hi - 1))) rows'.
Proof.
  intros Hg Hb Hhi Hrows. unfold outer_loop.
  pose (Q := fun (i : Z) (rows : list Z * list Z) =>
    row_is (lattice cost (Z.to_nat (i - 1))) rows).
  match goal with |- exists rows', Loop.for_range _ _ ?body ?s = _ /\ _ =>
    destruct (for_range_total Q 1 hi body s) as (rows' & Hrun & HQ)
  end; [lia|exact Hrows| |eauto].
  intros i [D C] Hi HQ. unfold Q in HQ.
  set (above := lattice cost (Z.to_nat (i - 1))) in *.
  pose proof HQ as (HlD & HlC & Habove). cbn [fst snd] in *.
  destruct (cost_parts i 0) as (f1 & f2 & a & b' & ab & H1 & H2 & H3 & H4 & H5 & H6);
    [lia|lia|].
  assert (f2 = g) as -> by congruence. assert (b' = b) as -> by congruence.
  opt_step H1. opt_step H2. opt_step H3. opt_step H5.
  destruct (Habove 0%nat) as [HD0 HC0]; [lia|].
  assert (G1 : Loop.get D 0 = Some (above 0%nat).1)
    by (apply get_Some; split; [lia|done]).
  assert (G2 : Loop.get C 0 = Some (CInt.i16 (above 0%nat).2))
    by (apply get_Some; split; [lia|done]).
  opt_step G1. opt_step H6. opt_step G2.
  pose proof (i16_bounds (above 0%nat).2) as Hb0.
  unfold CInt.add.
  rewrite int_of_in by (unfold CInt.INT32_MIN, CInt.INT32_MAX; lia).
  cbn [mbind option_bind].
  destruct (inner_loop_spec i f1 a above (D, C)) as (D' & C' & Hin & HlD' & HlC' & Hcur);
    [lia|done|done|done|].
  cbn [fst snd next_cells stored] in Hin. opt_step Hin.
  set (cur := next_cells cost above i) in *.
  assert (S1 : Loop.set D' (size feature2 - 1) (cur (Z.to_nat (size feature2 - 1))).1
               = Some (<[Z.to_nat (size feature2 - 1) :=
                          (cur (Z.to_nat (size feature2 - 1))).1]> D'))
    by (apply set_Some; split; [lia|done]).
  opt_step S1.
  assert (S2 : Loop.set C' (size feature2 - 1)
                 (CInt.i16 (cur (Z.to_nat (size feature2 - 1))).2)
               = Some (<[Z.to_nat (size feature2 - 1) :=
                          CInt.i16 (cur (Z.to_nat (size feature2 - 1))).2]> C'))
    by (apply set_Some; split; [lia|done]).
  opt_step S2.
  eexists. split; [reflexivity|]. unfold Q, row_is. cbn [fst snd].
  rewrite !length_insert. split; [done|]. split; [done|].
  replace (Z.to_nat (i + 1 - 1)) with (S (Z.to_nat (i - 1))) by lia.
  cbn [lattice]. replace (Z.of_nat (S (Z.to_nat (i - 1)))) with i by lia.
  fold above. fold cur.
  intros k Hk. destruct (decide (k = Z.to_nat (size feature2 - 1))) as [->|Hne].
  - rewrite !list_lookup_insert_eq by lia. done.
  - rewrite !list_lookup_insert_ne by lia. apply Hcur. lia.
Qed.

(** The arrays after the rows below [hi] hold row [hi - 1] of the lattice. *)
Lemma rows_upto_spec hi :
  1 <= hi <= size feature1 ->
  exists rows,
    rows_upto feature1 feature2 hi = Some rows /\
    row_is (lattice cost (Z.to_nat (hi - 1))) rows.
Proof.
  intros Hhi. unfold rows_upto.
  destruct (cost_parts 0 0) as (f & g & a & b & ab & H1 & H2 & H3 & H4 & H5 & H6);
    [lia|lia|].
  opt_step H1. opt_step H2. opt_step H3. opt_step H4. opt_step H5. opt_step H6.
  assert (S1 : forall x : Z,
    Loop.set (replicate (Z.to_nat (size feature2)) 0) 0 x
    = Some (<[0%nat := x]> (replicate (Z.to_nat (size feature2)) 0))).
  { intros x. apply set_Some. rewrite length_replicate. split; [lia|done]. }
  rewrite !S1. cbn [mbind option_bind].
  destruct (first_row_spec f a (CInt.u32 (2 * cost 0 0))) as (rows & Hrow & Hrows);
    try done.
  opt_step Hrow. unfold CInt.sub.
  rewrite int_of_in by (unfold CInt.INT32_MIN, CInt.INT32_MAX; lia).
  cbn [mbind option_bind].
  now apply (outer_loop_spec g b).
Qed.

End DtwLattice.
(** ** DTW: the choice of the predecessor *)

Section DtwCells.

Import Feature Dtw.

Lemma select_step_rule up left diag :
  let s := select_step up left diag in
  s.1 = Z.min (Z.min up.1 left.1) diag.1 /\
  (left.1 <= up.1 -> left.1 <= diag.1 -> s = left) /\
  (up.1 < left.1 -> up.1 <= diag.1 -> s = up) /\
  (diag.1 < up.1 -> diag.1 < left.1 -> s = diag).
Proof.
  unfold select_step.
  destruct (up.1 <? left.1) eqn:E1;
    [apply Z.ltb_lt in E1|apply Z.ltb_ge in E1];
    match goal with |- context [?a <? ?b] =>
      destruct (a <? b) eqn:E2; [apply Z.ltb_lt in E2|apply Z.ltb_ge in E2]
    end; cbn zeta; repeat split; intros; try lia; try done.
Qed.

Context {T1 T2 : Type} {F1 : ISoundFeature T1} {F2 : ISoundFeature T2}.
Variables (feature1 : T1) (feature2 : T2) (cost : Z -> Z -> Z).

Hypothesis Hm : 0 < size feature1.
Hypothesis Hn : 0 < size feature2 <= 2 ^ 30.
Hypothesis Hcost : forall i j,
  0 <= i < size feature1 -> 0 <= j < size feature2 ->
  cell_cost feature1 feature2 i j = Some (cost i j).

(** At every inner cell [(i, j)] the code reads the up predecessor
    [(step_distances[j], step_counts[j])] and the diagonal one
    [(step_distances[j-1], step_counts[j-1])] from the arrays as row [i-1]
    left them, and holds the left predecessor in [prev_step_dist] and
    [prev_step_count]; the cell receives the chosen predecessor's distance
    plus the cell cost, and its count plus one. *)
Lemma predecessor_choice i j :
  1 <= i < size feature1 -> 1 <= j < size feature2 ->
  exists D C D' C' up left diag,
    rows_upto feature1 feature2 i = Some (D, C) /\
    rows_upto feature1 feature2 (i + 1) = Some (D', C') /\
    Loop.get D j = Some up.1 /\ Loop.get C j = Some up.2 /\
    Loop.get D (j - 1) = Some diag.1 /\ Loop.get C (j - 1) = Some diag.2 /\
    Loop.get D' (j - 1) = Some left.1 /\ Loop.get C' (j - 1) = Some (CInt.i16 left.2) /\
    let s := select_step up left diag in
    Loop.get D' j = Some (CInt.u32 (s.1 + cost i j)) /\
    Loop.get C' j = Some (CInt.i16 (s.2 + 1)) /\
    s.1 = Z.min (Z.min up.1 left.1) diag.1 /\
    (left.1 <= up.1 -> left.1 <= diag.1 -> s = left) /\
    (up.1 < left.1 -> up.1 <= diag.1 -> s = up) /\
    (diag.1 < up.1 -> diag.1 < left.1 -> s = diag).
Proof.
  intros Hi Hj.
  destruct (rows_upto_spec feature1 feature2 cost Hm Hn Hcost i)
    as ([D C] & Hrows & HlD & HlC & Habove); [lia|].
  destruct (rows_upto_spec feature1 feature2 cost Hm Hn Hcost (i + 1))
    as ([D' C'] & Hrows' & HlD' & HlC' & Hcur); [lia|].
  cbn [fst snd] in *.
  replace (Z.to_nat (i + 1 - 1)) with (S (Z.to_nat (i - 1))) in Hcur by lia.
  cbn [lattice] in Hcur.
  replace (Z.of_nat (S (Z.to_nat (i - 1)))) with i in Hcur by lia.
  set (above := lattice cost (Z.to_nat (i - 1))) in *.
  set (cur := next_cells cost above i) in *.
  exists D, C, D', C', (stored (above (Z.to_nat j))), (cur (Z.to_nat (j - 1))),
    (stored (above (Z.to_nat (j - 1)))).
  destruct (Habove (Z.to_nat j)) as [A1 A2]; [lia|].
  destruct (Habove (Z.to_nat (j - 1))) as [A3 A4]; [lia|].
  destruct (Hcur (Z.to_nat j)) as [B1 B2]; [lia|].
  destruct (Hcur (Z.to_nat (j - 1))) as [B3 B4]; [lia|].
  assert (Hcurj : cur (Z.to_nat j) =
    let s := select_step (stored (above (Z.to_nat j))) (cur (Z.to_nat (j - 1)))
               (stored (above (Z.to_nat (j - 1)))) in
    (CInt.u32 (s.1 + cost i j), s.2 + 1)).
  { unfold cur. replace (Z.to_nat j) with (S (Z.to_nat (j - 1))) at 1 by lia.
    cbn [next_cells].
    replace (Z.of_nat (S (Z.to_nat (j - 1)))) with j by lia.
    replace (S (Z.to_nat (j - 1))) with (Z.to_nat j) by lia. done. }
  rewrite Hcurj in B1, B2. cbn zeta in B1, B2. cbn [fst snd] in B1, B2.
  split; [done|]. split; [done|].
  split; [apply get_Some; split; [lia|done]|].
  split; [apply get_Some; split; [lia|done]|].
  split; [apply get_Some; split; [lia|done]|].
  split; [apply get_Some; split; [lia|done]|].
  split; [apply get_Some; split; [lia|done]|].
  split; [apply get_Some; split; [lia|done]|].
  cbn zeta.
  split; [apply get_Some; split; [lia|done]|].
  split; [apply get_Some; split; [lia|done]|].
  apply select_step_rule.
Qed.

End DtwCells.

(** ** DTW: facts about the lattice *)

Section DtwLatticeFacts.

Import Feature Dtw.

Variable cost : Z -> Z -> Z.

Lemma lattice_dist_range i j : 0 <= (lattice cost i j).1 < 2 ^ 32.
Proof. destruct i, j; cbn [lattice first_cells next_cells fst]; apply u32_range. Qed.

Lemma select_step_dist up left diag :
  (select_step up left diag).1 = Z.min (Z.min up.1 left.1) diag.1.
Proof. apply select_step_rule. Qed.

(** No step count overflows an [int16_t] while the two indices add up to
    at most 32767, and every cell but the first has made a step. *)
Lemma lattice_count i : forall j,
  Z.of_nat i + Z.of_nat j <= 32767 ->
  (1 <= Z.of_nat i + Z.of_nat j -> 1 <= (lattice cost i j).2) /\
  0 <= (lattice cost i j).2 <= Z.of_nat i + Z.of_nat j.
Proof.
  induction i as [|i IH]; intros j Hij.
  - destruct j; cbn [lattice first_cells snd]; lia.
  - assert (Hc : forall k, Z.of_nat i + Z.of_nat k <= 32767 ->
              0 <= (stored (lattice cost i k)).2 <= Z.of_nat i + Z.of_nat k).
    { intros k Hk. unfold stored. cbn [snd].
      destruct (IH k) as [_ Hu]; [lia|].
      rewrite i16_small by (unfold CInt.INT16_MIN, CInt.INT16_MAX; lia). lia. }
    cbn [lattice]. induction j as [|j IHj].
    + cbn [next_cells]. cbn zeta. cbn [snd]. specialize (Hc 0%nat). lia.
    + cbn [next_cells]. cbn zeta. cbn [snd].
      destruct (select_step_cases (stored (lattice cost i (S j)))
                  (next_cells cost (lattice cost i) (Z.of_nat (S i)) j)
                  (stored (lattice cost i j))) as [E|[E|E]]; rewrite E.
      * specialize (Hc (S j)). lia.
      * destruct IHj as [Hl Hu]; [lia|]. lia.
      * specialize (Hc j). lia.
Qed.

(** The accumulated distances of the transposed problem are the
    transposed accumulated distances: the minimum over the three
    predecessors does not depend on how ties are broken. *)
Lemma lattice_transpose i : forall j,
  (lattice cost i j).1 = (lattice (fun a b => cost b a) j i).1.
Proof.
  induction i as [|i IH]; intros j.
  - induction j as [|j IHj]; [done|].
    cbn [lattice first_cells next_cells stored fst] in *. cbn zeta. cbn [fst].
    now rewrite IHj.
  - induction j as [|j IHj].
    + specialize (IH 0%nat).
      cbn [lattice first_cells next_cells stored fst] in *. cbn zeta. cbn [fst].
      now rewrite IH.
    + pose proof (IH (S j)) as H1. pose proof (IH j) as H2.
      cbn [lattice next_cells] in *. cbn zeta. cbn [fst].
      rewrite !select_step_dist. unfold stored. cbn [fst] in *.
      rewrite H1, H2, IHj. f_equal. f_equal. lia.
Qed.

(** With a zero cost all along the diagonal, the accumulated distance on
    the diagonal is zero. *)
Lemma lattice_diag_zero m k :
  (forall i, 0 <= i < m -> cost i i = 0) ->
  Z.of_nat k < m -> (lattice cost k k).1 = 0.
Proof.
  intros Hdiag. induction k as [|k IH]; intros Hk.
  - cbn [lattice first_cells fst]. rewrite Hdiag by lia. done.
  - cbn [lattice next_cells]. cbn zeta. cbn [fst]. rewrite select_step_dist.
    unfold stored. cbn [fst]. rewrite IH by lia.
    pose proof (lattice_dist_range k (S k)).
    pose proof (lattice_dist_range (S k) k) as Hl. cbn [lattice] in Hl.
    rewrite Z.min_r by lia. rewrite Hdiag by lia. done.
Qed.

End DtwLatticeFacts.

(** ** DTW: the cell costs *)

Section DtwCosts.

Import Feature Dtw.

Lemma foldM_ext {A S : Type} (f g : A -> S -> option S) l s :
  (forall a s, f a s = g a s) -> Loop.foldM f l s = Loop.foldM g l s.
Proof.
  intros H. revert s. induction l as [|a l IH]; intros s; simpl; [done|].
  rewrite H. destruct (g a s); simpl; [apply IH|done].
Qed.

Lemma InnerProduct_comm vec1 n vec2 :
  InnerProduct vec1 n vec2 = InnerProduct vec2 n vec1.
Proof.
  unfold InnerProduct, Loop.for_range. apply foldM_ext. intros i val.
  destruct (deref vec1 i) as [a|], (deref vec2 i) as [b|]; simpl; try done.
  unfold CInt.mul. now rewrite Z.mul_comm.
Qed.

(** The inner product of a vector with itself is a non-negative [int]. *)
Lemma InnerProduct1_range vec n s :
  InnerProduct1 vec n = Some s -> 0 <= s <= CInt.INT32_MAX.
Proof.
  unfold InnerProduct1, InnerProduct. intros H.
  destruct (Z_le_gt_dec n 0) as [Hn|Hn].
  - rewrite for_range_empty in H by lia. injection H as <-.
    unfold CInt.INT32_MAX. lia.
  - eapply (for_range_ind (fun _ val => 0 <= val <= CInt.INT32_MAX));
      [|exact H| |]; [lia|unfold CInt.INT32_MAX; lia|].
    intros j s1 s2 _ Hs1 Hb. cbn beta in Hb.
    destruct (deref vec j) as [a|]; [|discriminate]. cbn [mbind option_bind] in Hb.
    apply bind_Some in Hb as (p & Hp & Hb).
    apply mul_Some in Hp. apply add_Some in Hb. nia.
Qed.

Lemma F32_mul_comm x y : F32.mul x y = F32.mul y x.
Proof.
  unfold F32.mul.
  destruct x as [sx|sx| |sx mx ex], y as [sy|sy| |sy my ey]; simpl;
    try done; try (now rewrite xorb_comm).
  now rewrite xorb_comm, Pos.mul_comm, Z.add_comm.
Qed.

Lemma CosineDistance_comm inner12 inner1 inner2 :
  CosineDistance inner12 inner1 inner2 = CosineDistance inner12 inner2 inner1.
Proof.
  unfold CosineDistance, CosineDistancef.
  now rewrite (orb_comm (inner1 =? 0)), (F32_mul_comm (F32.of_int inner1)).
Qed.

Context {T1 T2 : Type} {F1 : ISoundFeature T1} {F2 : ISoundFeature T2}.
Variables (feature1 : T1) (feature2 : T2).

(** The cost of a cell does not depend on the order of the two features. *)
Lemma cell_cost_comm i j :
  dimension feature1 = dimension feature2 ->
  cell_cost feature2 feature1 j i = cell_cost feature1 feature2 i j.
Proof.
  intros Hd. unfold cell_cost. rewrite Hd.
  destruct (feature feature1 i) as [f1|], (feature feature2 j) as [f2|];
    cbn [mbind option_bind]; try done.
  destruct (InnerProduct1 f1 _) as [a|], (InnerProduct1 f2 _) as [b|];
    cbn [mbind option_bind]; try done.
  rewrite (InnerProduct_comm f2).
  destruct (InnerProduct f1 _ f2) as [ab|]; cbn [mbind option_bind]; [|done].
  apply CosineDistance_comm.
Qed.

(** The cost of a frame against itself is 0 unless the frame is zero. *)
Lemma cell_cost_self i c :
  cell_cost feature1 feature1 i i = Some c ->
  (forall f, feature feature1 i = Some f ->
             InnerProduct1 f (dimension feature1) <> Some 0) ->
  c = 0.
Proof.
  unfold cell_cost. intros H Hnz.
  destruct (feature feature1 i) as [f|]; [|discriminate].
  cbn [mbind option_bind] in H. specialize (Hnz f eq_refl).
  change (InnerProduct f (dimension feature1) f)
    with (InnerProduct1 f (dimension feature1)) in H.
  destruct (InnerProduct1 f (dimension feature1)) as [s|] eqn:Es; [|discriminate].
  cbn [mbind option_bind] in H.
  apply InnerProduct1_range in Es.
  assert (s <> 0) by congruence.
  rewrite CosineDistance_self in H by lia. congruence.
Qed.

End DtwCosts.

(** ** DTW: inner products *)

Section InnerProducts.

Import Feature Dtw.

Lemma cauchy_step S A B x y :
  0 <= A -> 0 <= B -> S * S <= A * B ->
  (S + x * y) * (S + x * y) <= (A + x * x) * (B + y * y).
Proof.
  intros HA HB HS.
  assert (H1 : (2 * S * x * y) * (2 * S * x * y)
               <= (A * (y * y) + B * (x * x)) * (A * (y * y) + B * (x * x))).
  { assert (0 <= (A * B - S * S) * ((x * y) * (x * y)))
      by (apply Z.mul_nonneg_nonneg; [lia|apply Z.square_nonneg]).
    assert (0 <= (A * (y * y) - B * (x * x)) * (A * (y * y) - B * (x * x)))
      by apply Z.square_nonneg.
    assert (Hid : (A * (y * y) + B * (x * x)) * (A * (y * y) + B * (x * x))
                  - (2 * S * x * y) * (2 * S * x * y)
                  = (A * (y * y) - B * (x * x)) * (A * (y * y) - B * (x * x))
                    + 4 * ((A * B - S * S) * ((x * y) * (x * y)))) by ring.
    lia. }
  assert (H2 : 0 <= A * (y * y) + B * (x * x)).
  { pose proof (Z.square_nonneg x). pose proof (Z.square_nonneg y).
    apply Z.add_nonneg_nonneg; apply Z.mul_nonneg_nonneg; lia. }
  assert (H3 : 2 * S * x * y <= A * (y * y) + B * (x * x)).
  { destruct (Z_le_gt_dec (2 * S * x * y) (A * (y * y) + B * (x * x))); [done|].
    exfalso. nia. }
  assert (Hid : (A + x * x) * (B + y * y) - (S + x * y) * (S + x * y)
                = (A * B - S * S) + (A * (y * y) + B * (x * x) - 2 * S * x * y)) by ring.
  lia.
Qed.

Lemma dotn_nonneg vec k : 0 <= dotn vec vec k.
Proof. induction k as [|k IH]; cbn [dotn]; nia. Qed.

Lemma dotn_mono vec k k' : (k <= k')%nat -> dotn vec vec k <= dotn vec vec k'.
Proof.
  induction 1 as [|k' _ IH]; [lia|]. cbn [dotn].
  pose proof (dotn_nonneg vec k'). nia.
Qed.

Lemma dotn_cauchy vec1 vec2 k :
  dotn vec1 vec2 k * dotn vec1 vec2 k <= dotn vec1 vec1 k * dotn vec2 vec2 k.
Proof.
  induction k as [|k IH]; cbn [dotn]; [lia|].
  apply cauchy_step; [apply dotn_nonneg..|done].
Qed.

(** What [InnerProduct] returns is the sum. *)
Lemma InnerProduct_dotn vec1 n vec2 c :
  InnerProduct vec1 n vec2 = Some c -> c = dotn vec1 vec2 (Z.to_nat n).
Proof.
  unfold InnerProduct. intros H.
  destruct (Z_le_gt_dec n 0) as [Hn|Hn].
  - rewrite for_range_empty in H by lia. injection H as <-.
    replace (Z.to_nat n) with 0%nat by lia. done.
  - eapply (for_range_ind (fun j val => val = dotn vec1 vec2 (Z.to_nat j)));
      [|exact H| |]; [lia|done|].
    intros j s1 s2 Hj -> Hb. cbn beta in Hb.
    destruct (deref vec1 j) as [a|] eqn:E1; [|discriminate].
    cbn [mbind option_bind] in Hb.
    destruct (deref vec2 j) as [b|] eqn:E2; [|discriminate].
    cbn [mbind option_bind] in Hb.
    apply bind_Some in Hb as (p & Hp & Hb).
    apply mul_Some in Hp. apply add_Some in Hb as [-> _]. subst p.
    replace (Z.to_nat (j + 1)) with (S (Z.to_nat j)) by lia. cbn [dotn].
    rewrite Z2Nat.id by lia. rewrite E1, E2. done.
Qed.

(** [InnerProduct] is defined when the vectors are within their arrays
    and the two sums of squares fit an [int]. *)
Lemma InnerProduct_defined vec1 n vec2 :
  (forall k, 0 <= k < n -> is_Some (deref vec1 k) /\ is_Some (deref vec2 k)) ->
  dotn vec1 vec1 (Z.to_nat n) <= CInt.INT32_MAX ->
  dotn vec2 vec2 (Z.to_nat n) <= CInt.INT32_MAX ->
  InnerProduct vec1 n vec2 = Some (dotn vec1 vec2 (Z.to_nat n)).
Proof.
  unfold CInt.INT32_MAX. intros Hin H1 H2. unfold InnerProduct.
  destruct (Z_le_gt_dec n 0) as [Hn|Hn].
  { rewrite for_range_empty by lia. replace (Z.to_nat n) with 0%nat by lia. done. }
  match goal with |- Loop.for_range _ _ ?body ?s = _ =>
    destruct (for_range_total (fun j val => val = dotn vec1 vec2 (Z.to_nat j))
                0 n body s) as (r & Hr & ->)
  end; [lia|done| |done].
  intros j s1 Hj ->.
  destruct (Hin j Hj) as [[a Ea] [b Eb]]. rewrite Ea, Eb. cbn [mbind option_bind].
  assert (Hstep : dotn vec1 vec2 (Z.to_nat (j + 1))
                  = dotn vec1 vec2 (Z.to_nat j) + a * b).
  { replace (Z.to_nat (j + 1)) with (S (Z.to_nat j)) by lia. cbn [dotn].
    rewrite Z2Nat.id by lia. rewrite Ea, Eb. done. }
  assert (Ha : dotn vec1 vec1 (Z.to_nat (j + 1)) = dotn vec1 vec1 (Z.to_nat j) + a * a).
  { replace (Z.to_nat (j + 1)) with (S (Z.to_nat j)) by lia. cbn [dotn].
    rewrite Z2Nat.id by lia. rewrite Ea. done. }
  assert (Hb : dotn vec2 vec2 (Z.to_nat (j + 1)) = dotn vec2 vec2 (Z.to_nat j) + b * b).
  { replace (Z.to_nat (j + 1)) with (S (Z.to_nat j)) by lia. cbn [dotn].
    rewrite Z2Nat.id by lia. rewrite Eb. done. }
  pose proof (dotn_mono vec1 (Z.to_nat (j + 1)) (Z.to_nat n) ltac:(lia)) as M1.
  pose proof (dotn_mono vec2 (Z.to_nat (j + 1)) (Z.to_nat n) ltac:(lia)) as M2.
  pose proof (dotn_nonneg vec1 (Z.to_nat j)) as N1.
  pose proof (dotn_nonneg vec2 (Z.to_nat j)) as N2.
  pose proof (dotn_cauchy vec1 vec2 (Z.to_nat (j + 1))) as C1.
  pose proof (dotn_nonneg vec1 (Z.to_nat (j + 1))) as N1'.
  pose proof (dotn_nonneg vec2 (Z.to_nat (j + 1))) as N2'.
  assert (Hab : - 2147483647 <= a * b <= 2147483647) by nia.
  assert (Hsum : - 2147483647 <= dotn vec1 vec2 (Z.to_nat (j + 1)) <= 2147483647) by nia.
  unfold CInt.mul, CInt.add.
  rewrite int_of_in by (unfold CInt.INT32_MIN, CInt.INT32_MAX; lia).
  cbn [mbind option_bind].
  rewrite int_of_in by (unfold CInt.INT32_MIN, CInt.INT32_MAX; lia).
  eexists. split; [reflexivity|]. lia.
Qed.

End InnerProducts.

Section CellCosts.

Import Feature Dtw.

Context {T1 T2 : Type} {F1 : ISoundFeature T1} {F2 : ISoundFeature T2}.
Variables (feature1 : T1) (feature2 : T2).

(** A cell cost is defined, and at most 2000, as soon as the three inner
    products are: the conversion of the distance to [uint32_t] never fails. *)
Lemma cell_cost_products i j f1 f2 a b c :
  feature feature1 i = Some f1 -> feature feature2 j = Some f2 ->
  InnerProduct1 f1 (dimension feature1) = Some a ->
  InnerProduct1 f2 (dimension feature1) = Some b ->
  InnerProduct f1 (dimension feature1) f2 = Some c ->
  exists t, cell_cost feature1 feature2 i j = Some t /\ 0 <= t <= 2000.
Proof.
  intros H1 H2 Ha Hb Hc. unfold cell_cost.
  rewrite H1, H2. cbn [mbind option_bind]. rewrite Ha, Hb. cbn [mbind option_bind].
  rewrite Hc. cbn [mbind option_bind].
  pose proof (InnerProduct1_range _ _ _ Ha). pose proof (InnerProduct1_range _ _ _ Hb).
  apply CosineDistance_defined; try done.
  apply InnerProduct_dotn in Ha, Hb, Hc. subst. apply dotn_cauchy.
Qed.

End CellCosts.

(** ** DTW: the result *)

Section DtwResult.

Import Feature Dtw.

Context {T1 T2 : Type} {F1 : ISoundFeature T1} {F2 : ISoundFeature T2}.
Variables (feature1 : T1) (feature2 : T2) (cost : Z -> Z -> Z).

Hypothesis Hsize1 : 1 <= size feature1 <= 16383.
Hypothesis Hsize2 : 1 <= size feature2 <= 16383.
Hypothesis Hdim : dimension feature1 = dimension feature2.
Hypothesis Hgate :
  size feature1 <= 3 * size feature2 /\ size feature2 <= 3 * size feature1.
Hypothesis Hcost : forall i j,
  0 <= i < size feature1 -> 0 <= j < size feature2 ->
  cell_cost feature1 feature2 i j = Some (cost i j).

(** For a pair that passes the pre-checks, with room for the two rows,
    the result is the accumulated distance of the last cell of the lattice
    divided by its step count. *)
Lemma calcDTW_lattice heap :
  6 * size feature2 <= Heap.free heap ->
  3 <= size feature1 + size feature2 ->
  let last := lattice cost (Z.to_nat (size feature1 - 1))
                (Z.to_nat (size feature2 - 1)) in
  calcDTW feature1 feature2 heap = Some (last.1 / last.2) /\
  1 <= last.2 <= 32767.
Proof.
  intros Hheap Hthree. cbn zeta. unfold calcDTW.
  assert (Hvalid : ~ invalid feature1 feature2) by (unfold invalid; lia).
  destruct (rejects_spec feature1 feature2) as [_ Hrej]; [lia|lia|].
  rewrite (Hrej Hvalid). cbn [mbind option_bind].
  unfold Heap.new_array.
  replace ((0 <=? size feature2) && (2 * size feature2 <=? Heap.free heap))
    with true by (symmetry; apply andb_true_iff; split; apply Z.leb_le; lia).
  cbn [mbind option_bind Heap.free].
  replace ((0 <=? size feature2)
           && (4 * size feature2 <=? Heap.free heap - 2 * size feature2))
    with true by (symmetry; apply andb_true_iff; split; apply Z.leb_le; lia).
  unfold final_rows.
  destruct (rows_upto_spec feature1 feature2 cost) with (hi := size feature1)
    as ([D C] & Hrows & HlD & HlC & Hcells);
    [lia|split; [lia|]|done|lia|].
  { change (2 ^ 30) with 1073741824. lia. }
  opt_step Hrows. unfold CInt.sub.
  rewrite int_of_in by (unfold CInt.INT32_MIN, CInt.INT32_MAX; lia).
  cbn [mbind option_bind fst snd] in *.
  destruct (Hcells (Z.to_nat (size feature2 - 1))) as [HD HC]; [lia|].
  set (last := lattice cost (Z.to_nat (size feature1 - 1))
                 (Z.to_nat (size feature2 - 1))) in *.
  assert (G1 : Loop.get D (size feature2 - 1) = Some last.1)
    by (apply get_Some; split; [lia|done]).
  assert (G2 : Loop.get C (size feature2 - 1) = Some (CInt.i16 last.2))
    by (apply get_Some; split; [lia|done]).
  opt_step G1. opt_step G2.
  destruct (lattice_count cost (Z.to_nat (size feature1 - 1))
              (Z.to_nat (size feature2 - 1))) as [Hl Hu]; [lia|].
  fold last in Hl, Hu.
  rewrite i16_small by (unfold CInt.INT16_MIN, CInt.INT16_MAX; lia).
  rewrite u32_small by (change (2 ^ 32) with 4294967296; lia).
  replace (_ =? 0) with false by (symmetry; apply Z.eqb_neq; lia).
  split; [done|lia].
Qed.

(** The last elements of the two rows, which [calcDTW] divides at the
    end, are the last cell of the lattice. *)
Lemma final_rows_lattice :
  3 <= size feature1 + size feature2 ->
  let last := lattice cost (Z.to_nat (size feature1 - 1))
                (Z.to_nat (size feature2 - 1)) in
  exists rows,
    final_rows feature1 feature2 = Some rows /\
    Loop.get rows.1 (size feature2 - 1) = Some last.1 /\
    Loop.get rows.2 (size feature2 - 1) = Some last.2.
Proof.
  intros Hthree. cbn zeta. unfold final_rows.
  destruct (rows_upto_spec feature1 feature2 cost) with (hi := size feature1)
    as ([D C] & Hrows & HlD & HlC & Hcells);
    [lia|split; [lia|]|done|lia|].
  { change (2 ^ 30) with 1073741824. lia. }
  exists (D, C). split; [done|]. cbn [fst snd] in *.
  destruct (Hcells (Z.to_nat (size feature2 - 1))) as [HD HC]; [lia|].
  destruct (lattice_count cost (Z.to_nat (size feature1 - 1))
              (Z.to_nat (size feature2 - 1))) as [Hl Hu]; [lia|].
  rewrite i16_small in HC by (unfold CInt.INT16_MIN, CInt.INT16_MAX; lia).
  split; apply get_Some; (split; [lia|done]).
Qed.

End DtwResult.

(** ** DTW: MFCC features *)

Section MfccCosts.

Import Feature Dtw Mfcc.

Lemma mfcc_feature (f : MfccFeature) i :
  wf_feature f -> 0 <= i < frame_num_ f ->
  feature f i = Some (feature_ f, i * coef_num_ f).
Proof.
  intros (Hn & Hc & Hmax & Hlen & _) Hi. cbn [feature MfccFeature_sound].
  unfold CInt.mul.
  rewrite int_of_in by (unfold CInt.INT32_MIN, CInt.INT32_MAX in *; nia). done.
Qed.

Lemma mfcc_deref (f : MfccFeature) i k :
  wf_feature f -> 0 <= i < frame_num_ f -> 0 <= k < coef_num_ f ->
  is_Some (deref (feature_ f, i * coef_num_ f) k).
Proof.
  intros (Hn & Hc & Hmax & Hlen & _) Hi Hk. unfold deref. cbn [fst snd].
  destruct (lookup_lt_is_Some_2 (feature_ f) (Z.to_nat (i * coef_num_ f + k)))
    as [x Hx]; [nia|].
  exists x. apply get_Some. split; [nia|done].
Qed.

(** Between well-formed features whose sums of squares fit an [int], every
    cell cost is defined and at most 2000. *)
Lemma mfcc_cell_cost (f g : MfccFeature) i j :
  wf_feature f -> wf_feature g -> coef_num_ f = coef_num_ g ->
  norms_fit f -> norms_fit g ->
  0 <= i < frame_num_ f -> 0 <= j < frame_num_ g ->
  exists t, cell_cost f g i j = Some t /\ 0 <= t <= 2000.
Proof.
  intros Hf Hg Hd Nf Ng Hi Hj.
  specialize (Nf i Hi). specialize (Ng j Hj). unfold norm in Nf, Ng.
  cbn zeta in Nf, Ng.
  assert (Hcn : 0 < coef_num_ f) by (destruct Hf as (_ & ? & _); done).
  eapply (cell_cost_products f g i j).
  - now apply mfcc_feature.
  - now apply mfcc_feature.
  - unfold InnerProduct1. cbn [dimension MfccFeature_sound].
    apply InnerProduct_defined; try done.
    intros k Hk. split; now apply mfcc_deref.
  - unfold InnerProduct1. cbn [dimension MfccFeature_sound].
    rewrite Hd. apply InnerProduct_defined; try done.
    intros k Hk. split; apply mfcc_deref; try done; lia.
  - cbn [dimension MfccFeature_sound].
    apply InnerProduct_defined; try done.
    + intros k Hk. split; apply mfcc_deref; try done; lia.
    + now rewrite Hd.
Qed.

Lemma mfcc_norm (f : MfccFeature) i :
  wf_feature f -> norms_fit f -> 0 <= i < frame_num_ f ->
  InnerProduct1 (feature_ f, i * coef_num_ f) (coef_num_ f) = Some (norm f i).
Proof.
  intros Hf Nf Hi. specialize (Nf i Hi). unfold InnerProduct1.
  apply InnerProduct_defined; try done.
  intros k Hk. split; now apply mfcc_deref.
Qed.

End MfccCosts.

Section LatticeBound.

Import Feature Dtw.

Variables (cost : Z -> Z -> Z) (K : Z).
Hypothesis Hcost : forall i j, 0 <= i -> 0 <= j -> 0 <= cost i j <= K.

(** With costs of at most [K], the accumulated distance of cell [(i, j)]
    is at most [K * (i + j + 2)], short of any wrap-around. *)
Lemma lattice_dist_bound i : forall j,
  K * (Z.of_nat i + Z.of_nat j + 2) < 2 ^ 32 ->
  (lattice cost i j).1 <= K * (Z.of_nat i + Z.of_nat j + 2).
Proof.
  assert (HK : 0 <= K) by (specialize (Hcost 0 0); lia).
  change (2 ^ 32) with 4294967296.
  induction i as [|i IH]; intros j Hij.
  - induction j as [|j IHj]; cbn [lattice first_cells fst].
    + pose proof (Hcost 0 0 ltac:(lia) ltac:(lia)).
      rewrite u32_small by (change (2 ^ 32) with 4294967296; lia). lia.
    + pose proof (Hcost 0 (Z.of_nat (S j)) ltac:(lia) ltac:(lia)).
      pose proof (lattice_dist_range cost 0 j) as Hr. cbn [lattice] in Hr.
      specialize (IHj ltac:(lia)). cbn [lattice] in IHj.
      rewrite u32_small by (change (2 ^ 32) with 4294967296; lia). lia.
  - cbn [lattice]. destruct j as [|j].
    + cbn [next_cells stored fst]. cbn zeta. cbn [fst].
      pose proof (Hcost (Z.of_nat (S i)) 0 ltac:(lia) ltac:(lia)).
      pose proof (lattice_dist_range cost i 0) as Hr.
      specialize (IH 0%nat ltac:(lia)).
      rewrite u32_small by (change (2 ^ 32) with 4294967296; lia). lia.
    + cbn [next_cells]. cbn zeta. cbn [fst]. rewrite select_step_dist.
      unfold stored. cbn [fst].
      pose proof (Hcost (Z.of_nat (S i)) (Z.of_nat (S j)) ltac:(lia) ltac:(lia)).
      pose proof (lattice_dist_range cost i j) as Hr.
      pose proof (lattice_dist_range cost i (S j)) as Hr1.
      pose proof (lattice_dist_range cost (S i) j) as Hr2. cbn [lattice] in Hr2.
      specialize (IH j ltac:(lia)).
      rewrite u32_small by (change (2 ^ 32) with 4294967296; lia). lia.
Qed.

End LatticeBound.

Section MfccResult.

Import Feature Dtw Mfcc.

Variables f g : MfccFeature.
Hypothesis Hf : wf_feature f.
Hypothesis Hg : wf_feature g.
Hypothesis Nf : norms_fit f.
Hypothesis Ng : norms_fit g.
Hypothesis Hsf : frame_num_ f <= 16383.
Hypothesis Hsg : frame_num_ g <= 16383.

(** Between well-formed features that pass the pre-checks, with room for
    the two rows, [calcDTW] returns a distance of at most
    [2000 * (m + n)]. *)
Lemma calcDTW_mfcc_defined heap :
  ~ invalid f g -> 3 <= frame_num_ f + frame_num_ g ->
  6 * frame_num_ g <= Heap.free heap ->
  exists d, calcDTW f g heap = Some d /\
            0 <= d <= 2000 * (frame_num_ f + frame_num_ g).
Proof.
  intros Hv Hthree Hheap. unfold invalid in Hv.
  cbn [size dimension MfccFeature_sound] in Hv.
  pose proof Hf as (Hfn & Hfc & _). pose proof Hg as (Hgn & Hgc & _).
  assert (Hd : coef_num_ f = coef_num_ g) by lia.
  pose (cost := fun i j => default 0 (cell_cost f g i j)).
  assert (Hcost : forall i j, 0 <= i < frame_num_ f -> 0 <= j < frame_num_ g ->
            cell_cost f g i j = Some (cost i j) /\ 0 <= cost i j <= 2000).
  { intros i j Hi Hj. unfold cost.
    destruct (mfcc_cell_cost f g i j) as (t & -> & Ht); done. }
  pose (cost' := fun i j =>
    if decide (0 <= i < frame_num_ f /\ 0 <= j < frame_num_ g) then cost i j else 0).
  assert (Hcost1 : forall i j, 0 <= i < size f -> 0 <= j < size g ->
            cell_cost f g i j = Some (cost' i j)).
  { intros i j Hi Hj. unfold cost'.
    destruct (decide _) as [_|Hn]; [now apply Hcost|].
    cbn [size MfccFeature_sound] in Hi, Hj. lia. }
  assert (Hcost2 : forall i j, 0 <= i -> 0 <= j -> 0 <= cost' i j <= 2000).
  { intros i j _ _. unfold cost'. destruct (decide _) as [[Hi Hj]|_]; [|lia].
    now apply Hcost. }
  pose proof (calcDTW_lattice f g cost') as H. cbn zeta in H.
  cbn [size dimension MfccFeature_sound] in H.
  destruct H with (heap := heap) as [-> Hc]; try done; try lia.
  eexists. split; [reflexivity|].
  set (last := lattice cost' (Z.to_nat (frame_num_ f - 1)) (Z.to_nat (frame_num_ g - 1))) in *.
  pose proof (lattice_dist_range cost' (Z.to_nat (frame_num_ f - 1))
                (Z.to_nat (frame_num_ g - 1))) as Hr. fold last in Hr.
  pose proof (lattice_dist_bound cost' 2000 Hcost2 (Z.to_nat (frame_num_ f - 1))
                (Z.to_nat (frame_num_ g - 1))) as Hb. fold last in Hb.
  specialize (Hb ltac:(change (2 ^ 32) with 4294967296; lia)).
  split; [apply Z.div_pos; lia|].
  apply Z.div_le_upper_bound; [lia|]. nia.
Qed.

(** So [calcDTW] returns [UINT32_MAX] exactly when the pair is refused or
    the rows cannot be allocated. *)
Lemma calcDTW_mfcc_sentinel heap :
  3 <= frame_num_ f + frame_num_ g ->
  calcDTW f g heap = Some CInt.UINT32_MAX
  <-> invalid f g \/ Heap.free heap < 6 * frame_num_ g.
Proof.
  intros Hthree.
  pose proof Hf as (Hfn & Hfc & _). pose proof Hg as (Hgn & Hgc & _).
  destruct (rejects_spec f g) as [Hinv Hval];
    [cbn [size MfccFeature_sound]; lia..|].
  destruct (classic_invalid f g) as [Hi|Hv].
  - split; [auto|]. intros _. unfold calcDTW. rewrite (Hinv Hi). done.
  - destruct (Z_lt_ge_dec (Heap.free heap) (6 * frame_num_ g)) as [Hh|Hh].
    + split; [auto|]. intros _. unfold calcDTW. rewrite (Hval Hv).
      cbn [mbind option_bind size MfccFeature_sound]. unfold Heap.new_array.
      destruct (_ && _) eqn:E1; cbn [mbind option_bind]; [|done].
      apply andb_true_iff in E1 as [_ E1]. apply Z.leb_le in E1.
      cbn [Heap.free].
      replace (_ && _) with false; [done|].
      symmetry. apply andb_false_iff. right. apply Z.leb_gt. lia.
    + destruct (calcDTW_mfcc_defined heap Hv Hthree ltac:(lia)) as (d & -> & Hd).
      unfold CInt.UINT32_MAX. split.
      * intros [= ->]. lia.
      * intros [?|?]; [done|lia].
Qed.

End MfccResult.

(** ** DTW: identity and symmetry, for any kind of feature *)

Section DtwIdentity.

Import Feature Dtw.

Context {T1 T2 : Type} {F1 : ISoundFeature T1} {F2 : ISoundFeature T2}.
Variables (A : T1) (B : T2).

(** A feature of at least two frames, none of them the zero vector, is at
    distance 0 from itself: the diagonal path costs nothing. *)
Lemma dtw_identity heap :
  2 <= size A <= 16383 ->
  (forall i j, 0 <= i < size A -> 0 <= j < size A -> is_Some (cell_cost A A i j)) ->
  (forall i f, 0 <= i < size A -> feature A i = Some f ->
               InnerProduct1 f (dimension A) <> Some 0) ->
  6 * size A <= Heap.free heap ->
  calcDTW A A heap = Some 0.
Proof.
  intros Hsize Hdef Hnz Hheap.
  pose (cost := fun i j => default 0 (cell_cost A A i j)).
  assert (Hcost : forall i j, 0 <= i < size A -> 0 <= j < size A ->
            cell_cost A A i j = Some (cost i j)).
  { intros i j Hi Hj. unfold cost. destruct (Hdef i j Hi Hj) as [c ->]. done. }
  assert (Hdiag : forall i, 0 <= i < size A -> cost i i = 0).
  { intros i Hi. apply (cell_cost_self A i); [now apply Hcost|].
    intros f. now apply Hnz. }
  pose proof (calcDTW_lattice A A cost) as H. cbn zeta in H.
  destruct H with (heap := heap) as [-> Hc]; try done; try lia.
  rewrite (lattice_diag_zero cost (size A)) by (try done; lia).
  now rewrite Z.div_0_l by lia.
Qed.

(** The two orders of a pair give one accumulated distance, divided by
    the step count of the path each run has kept. *)
Lemma dtw_accumulated_symmetric heap :
  1 <= size A <= 16383 -> 1 <= size B <= 16383 -> 3 <= size A + size B ->
  dimension A = dimension B ->
  size A <= 3 * size B -> size B <= 3 * size A ->
  (forall i j, 0 <= i < size A -> 0 <= j < size B -> is_Some (cell_cost A B i j)) ->
  6 * size A <= Heap.free heap -> 6 * size B <= Heap.free heap ->
  exists rows rows' d c c',
    final_rows A B = Some rows /\ final_rows B A = Some rows' /\
    Loop.get rows.1 (size B - 1) = Some d /\
    Loop.get rows'.1 (size A - 1) = Some d /\
    Loop.get rows.2 (size B - 1) = Some c /\
    Loop.get rows'.2 (size A - 1) = Some c' /\
    calcDTW A B heap = Some (d / c) /\ calcDTW B A heap = Some (d / c') /\
    1 <= c <= 32767 /\ 1 <= c' <= 32767.
Proof.
  intros HA HB Hthree Hdim Hg1 Hg2 Hdef HheapA HheapB.
  pose (cost := fun i j => default 0 (cell_cost A B i j)).
  assert (Hcost : forall i j, 0 <= i < size A -> 0 <= j < size B ->
            cell_cost A B i j = Some (cost i j)).
  { intros i j Hi Hj. unfold cost. destruct (Hdef i j Hi Hj) as [c ->]. done. }
  assert (Hcost' : forall j i, 0 <= j < size B -> 0 <= i < size A ->
            cell_cost B A j i = Some (cost i j)).
  { intros j i Hj Hi. rewrite cell_cost_comm by done. now apply Hcost. }
  pose proof (calcDTW_lattice A B cost) as H. cbn zeta in H.
  destruct H with (heap := heap) as [HAB Hc]; try done; try lia.
  pose proof (calcDTW_lattice B A (fun j i => cost i j)) as H'. cbn zeta in H'.
  destruct H' with (heap := heap) as [HBA Hc']; try done; try lia.
  rewrite <- (lattice_transpose cost) in HBA.
  pose proof (final_rows_lattice A B cost) as R. cbn zeta in R.
  destruct R as (rows & R0 & R1 & R2); try done; try lia.
  pose proof (final_rows_lattice B A (fun j i => cost i j)) as R'. cbn zeta in R'.
  destruct R' as (rows' & R0' & R1' & R2'); try done; try lia.
  rewrite <- (lattice_transpose cost) in R1'.
  exists rows, rows'. eexists _, _, _.
  split; [exact R0|]. split; [exact R0'|].
  split; [exact R1|]. split; [exact R1'|].
  split; [exact R2|]. split; [exact R2'|].
  split; [exact HAB|]. split; [exact HBA|]. done.
Qed.

End DtwIdentity.

(** ** DTW: what the specification states *)

Section DtwClaims.

Import Feature Dtw Mfcc.

(** C1, amended.  Between well-formed MFCC features (of one dimension,
    sums of squares fitting an [int]), at every inner cell [(i, j)] the
    code reads the up predecessor [(step_distances[j], step_counts[j])] and
    the diagonal one [(step_distances[j-1], step_counts[j-1])] from the
    arrays as row [i-1] left them, and holds the left predecessor in
    [prev_step_dist] and [prev_step_count]; the cell receives the chosen
    predecessor's distance plus the cell cost, and its count plus one.  The
    chosen predecessor has the smallest distance; on equality the left one
    is preferred, then the up one, then the diagonal one. *)
Theorem C1_predecessor_choice (f g : MfccFeature) i j :
  wf_feature f -> wf_feature g -> coef_num_ f = coef_num_ g ->
  norms_fit f -> norms_fit g -> frame_num_ g <= 1073741824 ->
  1 <= i < frame_num_ f -> 1 <= j < frame_num_ g ->
  exists D C D' C' up left diag c,
    rows_upto f g i = Some (D, C) /\
    rows_upto f g (i + 1) = Some (D', C') /\
    cell_cost f g i j = Some c /\
    Loop.get D j = Some up.1 /\ Loop.get C j = Some up.2 /\
    Loop.get D (j - 1) = Some diag.1 /\ Loop.get C (j - 1) = Some diag.2 /\
    Loop.get D' (j - 1) = Some left.1 /\ Loop.get C' (j - 1) = Some (CInt.i16 left.2) /\
    let s := select_step up left diag in
    Loop.get D' j = Some (CInt.u32 (s.1 + c)) /\
    Loop.get C' j = Some (CInt.i16 (s.2 + 1)) /\
    s.1 = Z.min (Z.min up.1 left.1) diag.1 /\
    (left.1 <= up.1 -> left.1 <= diag.1 -> s = left) /\
    (up.1 < left.1 -> up.1 <= diag.1 -> s = up) /\
    (diag.1 < up.1 -> diag.1 < left.1 -> s = diag).
Proof.
  intros Hf Hg Hd Nf Ng Hsg Hi Hj.
  pose proof Hf as (Hfn & _). pose proof Hg as (Hgn & _).
  pose (cost := fun i j => default 0 (cell_cost f g i j)).
  assert (Hcost : forall i j, 0 <= i < size f -> 0 <= j < size g ->
            cell_cost f g i j = Some (cost i j)).
  { intros i' j' Hi' Hj'. unfold cost.
    destruct (mfcc_cell_cost f g i' j') as (t & -> & _); done. }
  destruct (predecessor_choice f g cost) with (i := i) (j := j)
    as (D & C & D' & C' & up & left & diag & H);
    try done; cbn [size MfccFeature_sound];
    try (change (2 ^ 30) with 1073741824); try lia.
  exists D, C, D', C', up, left, diag, (cost i j).
  destruct H as (H1 & H2 & H). split; [done|]. split; [done|].
  split; [apply Hcost; cbn [size MfccFeature_sound]; lia|]. exact H.
Qed.

(** C2, amended.  Between well-formed MFCC features of at most 16383
    frames (sums of squares fitting an [int]) and with room for the work
    rows: a feature of at least two frames, none of them the zero vector,
    is at distance 0 from itself; and for a pair of one dimension that
    passes the length-ratio gate in both directions, the run on [(f, g)]
    and the run on [(g, f)] end with one and the same accumulated distance
    [d] in the last element of [step_distances], and with step counts [c]
    and [c'] in the last element of [step_counts]; [calcDTW(f, g)] is
    [d / c] and [calcDTW(g, f)] is [d / c']. *)
Theorem C2_identity_distance (f g : MfccFeature) heap :
  wf_feature f -> wf_feature g -> norms_fit f -> norms_fit g ->
  frame_num_ f <= 16383 -> frame_num_ g <= 16383 ->
  (2 <= frame_num_ f ->
   (forall i, 0 <= i < frame_num_ f -> norm f i <> 0) ->
   6 * frame_num_ f <= Heap.free heap ->
   calcDTW f f heap = Some 0) /\
  (3 <= frame_num_ f + frame_num_ g -> coef_num_ f = coef_num_ g ->
   frame_num_ f <= 3 * frame_num_ g -> frame_num_ g <= 3 * frame_num_ f ->
   6 * frame_num_ f <= Heap.free heap -> 6 * frame_num_ g <= Heap.free heap ->
   exists rows rows' d c c',
     final_rows f g = Some rows /\ final_rows g f = Some rows' /\
     Loop.get rows.1 (frame_num_ g - 1) = Some d /\
     Loop.get rows'.1 (frame_num_ f - 1) = Some d /\
     Loop.get rows.2 (frame_num_ g - 1) = Some c /\
     Loop.get rows'.2 (frame_num_ f - 1) = Some c' /\
     calcDTW f g heap = Some (d / c) /\ calcDTW g f heap = Some (d / c') /\
     1 <= c <= 32767 /\ 1 <= c' <= 32767).
Proof.
  intros Hf Hg Nf Ng Hsf Hsg.
  pose proof Hf as (Hfn & Hfc & _). pose proof Hg as (Hgn & Hgc & _).
  split.
  - intros Htwo Hnz Hheap. apply dtw_identity; cbn [size dimension MfccFeature_sound];
      try lia.
    + intros i j Hi Hj. destruct (mfcc_cell_cost f f i j) as (t & -> & _); done.
    + intros i fp Hi Hfp. rewrite mfcc_feature in Hfp by done.
      injection Hfp as <-. rewrite mfcc_norm by done.
      intros [= E]. now apply (Hnz i).
  - intros Hthree Hd Hg1 Hg2 HheapF HheapG.
    pose proof (dtw_accumulated_symmetric f g heap) as H.
    cbn [size dimension MfccFeature_sound] in H.
    apply H; try done; try lia.
    intros i j Hi Hj. destruct (mfcc_cell_cost f g i j) as (t & -> & _); done.
Qed.

(** C7, amended.  For sizes whose triple fits an [int], [calcDTW] returns
    UINT32_MAX whenever the inputs are invalid (the dimensions differ, a
    size is not positive, or one size exceeds three times the other), the
    pre-checks refusing exactly those inputs; it returns UINT32_MAX as well
    for valid inputs when the two work rows (six bytes a frame of
    [feature2]) cannot be allocated.  Sizes 1 and 4 are refused, sizes 2
    and 6 pass the pre-checks.  Between well-formed MFCC features of at
    most 16383 frames these are the only cases: [calcDTW] returns
    UINT32_MAX exactly when the pair is invalid or the rows cannot be
    allocated. *)
Theorem C7_calcDTW_sentinel {T1 T2 : Type} {F1 : ISoundFeature T1}
    {F2 : ISoundFeature T2} (feature1 : T1) (feature2 : T2) heap :
  size feature1 <= 715827882 -> size feature2 <= 715827882 ->
  (invalid feature1 feature2 <-> rejects feature1 feature2 = Some true) /\
  (invalid feature1 feature2 ->
     calcDTW feature1 feature2 heap = Some CInt.UINT32_MAX) /\
  (~ invalid feature1 feature2 -> Heap.free heap < 6 * size feature2 ->
     calcDTW feature1 feature2 heap = Some CInt.UINT32_MAX) /\
  (size feature1 = 1 -> size feature2 = 4 ->
     calcDTW feature1 feature2 heap = Some CInt.UINT32_MAX) /\
  (size feature1 = 2 -> size feature2 = 6 ->
     dimension feature1 = dimension feature2 ->
     rejects feature1 feature2 = Some false) /\
  (forall f g : MfccFeature,
     wf_feature f -> wf_feature g -> norms_fit f -> norms_fit g ->
     frame_num_ f <= 16383 -> frame_num_ g <= 16383 ->
     3 <= frame_num_ f + frame_num_ g ->
     (calcDTW f g heap = Some CInt.UINT32_MAX
      <-> invalid f g \/ Heap.free heap < 6 * frame_num_ g)).
Proof.
  intros H1 H2.
  destruct (calcDTW_gate feature1 feature2 heap H1 H2) as (G1 & G2 & G3 & G4 & G5).
  repeat (split; [done|]).
  intros f g Hf Hg Nf Ng Hsf Hsg Hthree. now apply calcDTW_mfcc_sentinel.
Qed.

End DtwClaims.

(** Small features are well-formed, and their sums of squares fit. *)
Lemma small_features :
  (Mfcc.wf_feature (Mfcc.ones 2) /\ Mfcc.norms_fit (Mfcc.ones 2)) /\
  (Mfcc.wf_feature Mfcc.tail3 /\ Mfcc.norms_fit Mfcc.tail3) /\
  (Mfcc.wf_feature Mfcc.turn /\ Mfcc.norms_fit Mfcc.turn) /\
  (Mfcc.wf_feature Mfcc.flat /\ Mfcc.norms_fit Mfcc.flat).
Proof.
  assert (Hwf : forall f : Mfcc.MfccFeature,
    (0 <? Mfcc.frame_num_ f) && (0 <? Mfcc.coef_num_ f)
    && (Mfcc.frame_num_ f * Mfcc.coef_num_ f <=? CInt.INT32_MAX)
    && (Z.of_nat (length (Mfcc.feature_ f)) =? Mfcc.frame_num_ f * Mfcc.coef_num_ f)
    && forallb (fun v => (CInt.INT16_MIN <=? v) && (v <=? CInt.INT16_MAX)) (Mfcc.feature_ f)
    = true -> Mfcc.wf_feature f).
  { intros f H. repeat (apply andb_true_iff in H as [H ?]).
    unfold Mfcc.wf_feature. repeat split; try lia.
    apply Forall_forall. intros v Hv.
    rewrite forallb_forall in H0. apply list_elem_of_In in Hv. specialize (H0 v Hv). lia. }
  assert (Hfit : forall f : Mfcc.MfccFeature,
    0 <= Mfcc.frame_num_ f ->
    forallb (fun i => Mfcc.norm f i <=? CInt.INT32_MAX)
      (seqZ 0 (Mfcc.frame_num_ f)) = true -> Mfcc.norms_fit f).
  { intros f Hn H i Hi. rewrite forallb_forall in H.
    apply Z.leb_le. apply H. apply list_elem_of_In. apply elem_of_seqZ. lia. }
  repeat split; first [apply Hwf; vm_compute; reflexivity
                      | apply Hfit; vm_compute; congruence].
Defined.

(** C1 as stated fails.  For the frames (1,0), (0,1) against (0,1), (0,1)
    the cell (1,1) has the up predecessor (3000, 1), the left one (2000, 1)
    and the diagonal one (2000, 0).  The distances of the left and the
    diagonal one are equal; the code carries the left one's count forward
    (the cell's count is 2, the result 2000 / 2), where the diagonal one
    would give the count 1 and the result 2000. *)
Lemma C1_counterexample :
  Dtw.rows_upto Mfcc.turn Mfcc.flat 1 = Some ([2000; 3000], [0; 1]) /\
  Dtw.rows_upto Mfcc.turn Mfcc.flat 2 = Some ([2000; 2000], [1; 2]) /\
  Dtw.select_step (3000, 1) (2000, 1) (2000, 0) = (2000, 1) /\
  Dtw.select_step_spec (3000, 1) (2000, 1) (2000, 0) = (2000, 0) /\
  Dtw.calcDTW Mfcc.turn Mfcc.flat Mfcc.roomy_heap = Some 1000.
Proof. repeat split; vm_compute; reflexivity. Qed.

Lemma C1_witness :
  exists D C D' C' up left diag c,
    Dtw.rows_upto Mfcc.turn Mfcc.flat 1 = Some (D, C) /\
    Dtw.rows_upto Mfcc.turn Mfcc.flat (1 + 1) = Some (D', C') /\
    Dtw.cell_cost Mfcc.turn Mfcc.flat 1 1 = Some c /\
    Loop.get D 1 = Some up.1 /\ Loop.get C 1 = Some up.2 /\
    Loop.get D (1 - 1) = Some diag.1 /\ Loop.get C (1 - 1) = Some diag.2 /\
    Loop.get D' (1 - 1) = Some left.1 /\ Loop.get C' (1 - 1) = Some (CInt.i16 left.2) /\
    let s := Dtw.select_step up left diag in
    Loop.get D' 1 = Some (CInt.u32 (s.1 + c)) /\
    Loop.get C' 1 = Some (CInt.i16 (s.2 + 1)) /\
    s.1 = Z.min (Z.min up.1 left.1) diag.1 /\
    (left.1 <= up.1 -> left.1 <= diag.1 -> s = left) /\
    (up.1 < left.1 -> up.1 <= diag.1 -> s = up) /\
    (diag.1 < up.1 -> diag.1 < left.1 -> s = diag).
Proof.
  destruct small_features as (_ & _ & [Wt Nt] & [Wf Nf]).
  apply (C1_predecessor_choice Mfcc.turn Mfcc.flat 1 1); try done;
    vm_compute; first [congruence | split; congruence].
Defined.

(** C2 as stated fails in each of its parts.  A feature of a single frame
    makes [calcDTW] divide by a step count of zero; two all-zero frames are
    at distance 3000 from themselves; and the frames (1), (1) against (-1),
    (-1), (1) pass the length-ratio gate in both directions and are at
    distance 3000 one way and 2000 the other. *)
Lemma C2_counterexample :
  Dtw.calcDTW (Mfcc.ones 1) (Mfcc.ones 1) Mfcc.roomy_heap = None /\
  Dtw.calcDTW Mfcc.zeros2 Mfcc.zeros2 Mfcc.roomy_heap = Some 3000 /\
  Dtw.rejects (Mfcc.ones 2) Mfcc.tail3 = Some false /\
  Dtw.rejects Mfcc.tail3 (Mfcc.ones 2) = Some false /\
  Dtw.calcDTW (Mfcc.ones 2) Mfcc.tail3 Mfcc.roomy_heap = Some 3000 /\
  Dtw.calcDTW Mfcc.tail3 (Mfcc.ones 2) Mfcc.roomy_heap = Some 2000.
Proof. repeat split; vm_compute; reflexivity. Qed.

Lemma C2_witness :
  Dtw.calcDTW (Mfcc.ones 2) (Mfcc.ones 2) Mfcc.roomy_heap = Some 0 /\
  exists rows rows' d c c',
    Dtw.final_rows (Mfcc.ones 2) Mfcc.tail3 = Some rows /\
    Dtw.final_rows Mfcc.tail3 (Mfcc.ones 2) = Some rows' /\
    Loop.get rows.1 (Mfcc.frame_num_ Mfcc.tail3 - 1) = Some d /\
    Loop.get rows'.1 (Mfcc.frame_num_ (Mfcc.ones 2) - 1) = Some d /\
    Loop.get rows.2 (Mfcc.frame_num_ Mfcc.tail3 - 1) = Some c /\
    Loop.get rows'.2 (Mfcc.frame_num_ (Mfcc.ones 2) - 1) = Some c' /\
    Dtw.calcDTW (Mfcc.ones 2) Mfcc.tail3 Mfcc.roomy_heap = Some (d / c) /\
    Dtw.calcDTW Mfcc.tail3 (Mfcc.ones 2) Mfcc.roomy_heap = Some (d / c') /\
    1 <= c <= 32767 /\ 1 <= c' <= 32767.
Proof.
  destruct small_features as ([Wo No] & [Wt Nt] & _).
  destruct (C2_identity_distance (Mfcc.ones 2) Mfcc.tail3 Mfcc.roomy_heap
              Wo Wt No Nt)
    as [Hid Hsym]; [vm_compute; congruence | vm_compute; congruence |].
  split.
  - apply Hid.
    + vm_compute. congruence.
    + intros i Hi. change (Mfcc.frame_num_ (Mfcc.ones 2)) with 2 in Hi.
      assert (Ei : i = 0 \/ i = 1) by lia.
      destruct Ei as [-> | ->]; vm_compute; congruence.
    + vm_compute. congruence.
  - apply Hsym.
    + vm_compute. congruence.
    + reflexivity.
    + vm_compute. congruence.
    + vm_compute. congruence.
    + vm_compute. congruence.
    + vm_compute. congruence.
Defined.

(** C7 as stated fails: two features of two frames each pass every
    pre-check, yet the sentinel comes back when the heap is exhausted. *)
Lemma C7_counterexample :
  ~ Dtw.invalid (Mfcc.ones 2) (Mfcc.ones 2) /\
  Dtw.calcDTW (Mfcc.ones 2) (Mfcc.ones 2) Mfcc.full_heap = Some CInt.UINT32_MAX /\
  Dtw.calcDTW (Mfcc.ones 2) (Mfcc.ones 2) Mfcc.roomy_heap = Some 0.
Proof.
  split; [|split; vm_compute; reflexivity].
  unfold Dtw.invalid. vm_compute. intuition congruence.
Qed.

Lemma C7_witness :
  (Dtw.invalid (Mfcc.ones 1) (Mfcc.ones 4)
   <-> Dtw.rejects (Mfcc.ones 1) (Mfcc.ones 4) = Some true) /\
  (Dtw.invalid (Mfcc.ones 1) (Mfcc.ones 4) ->
     Dtw.calcDTW (Mfcc.ones 1) (Mfcc.ones 4) Mfcc.roomy_heap = Some CInt.UINT32_MAX) /\
  (~ Dtw.invalid (Mfcc.ones 1) (Mfcc.ones 4) ->
     Heap.free Mfcc.roomy_heap < 6 * Feature.size (Mfcc.ones 4) ->
     Dtw.calcDTW (Mfcc.ones 1) (Mfcc.ones 4) Mfcc.roomy_heap = Some CInt.UINT32_MAX) /\
  (Feature.size (Mfcc.ones 1) = 1 -> Feature.size (Mfcc.ones 4) = 4 ->
     Dtw.calcDTW (Mfcc.ones 1) (Mfcc.ones 4) Mfcc.roomy_heap = Some CInt.UINT32_MAX) /\
  (Feature.size (Mfcc.ones 1) = 2 -> Feature.size (Mfcc.ones 4) = 6 ->
     Feature.dimension (Mfcc.ones 1) = Feature.dimension (Mfcc.ones 4) ->
     Dtw.rejects (Mfcc.ones 1) (Mfcc.ones 4) = Some false) /\
  (forall f g : Mfcc.MfccFeature,
     Mfcc.wf_feature f -> Mfcc.wf_feature g -> Mfcc.norms_fit f -> Mfcc.norms_fit g ->
     Mfcc.frame_num_ f <= 16383 -> Mfcc.frame_num_ g <= 16383 ->
     3 <= Mfcc.frame_num_ f + Mfcc.frame_num_ g ->
     (Dtw.calcDTW f g Mfcc.roomy_heap = Some CInt.UINT32_MAX
      <-> Dtw.invalid f g \/ Heap.free Mfcc.roomy_heap < 6 * Mfcc.frame_num_ g)).
Proof.
  apply (C7_calcDTW_sentinel (Mfcc.ones 1) (Mfcc.ones 4) Mfcc.roomy_heap);
    vm_compute; congruence.
Defined.

(** Scenario E5: sizes 1 and 4 are refused, sizes 2 and 6 are compared. *)
Lemma dtw_ratio_gate_examples :
  Dtw.calcDTW (Mfcc.ones 1) (Mfcc.ones 4) Mfcc.roomy_heap = Some CInt.UINT32_MAX /\
  Dtw.calcDTW (Mfcc.ones 2) (Mfcc.ones 6) Mfcc.roomy_heap = Some 0.
Proof. split; vm_compute; reflexivity. Qed.

(** Scenario E4: ten identical frames 1000..1011 against themselves. *)
Lemma dtw_identity_example :
  let f := Mfcc.mkMfccFeature 10 12
             (concat (replicate 10
                [1000; 1001; 1002; 1003; 1004; 1005; 1006; 1007; 1008; 1009; 1010; 1011])) in
  Dtw.calcDTW f f Mfcc.roomy_heap = Some 0.
Proof. vm_compute. reflexivity. Qed.

(** ** Inner products and cosine distance (simplevox_dtw.cpp) *)

Section CosineLandmarks.

(** Rounding does not look at the sign. *)
Lemma binary_round_aux_opp m e l :
  binary_round_aux 24 128 true m e l = SFopp (binary_round_aux 24 128 false m e l).
Proof.
  unfold binary_round_aux.
  destruct (shr_fexp 24 128 m e l) as [mrs' e'].
  destruct (shr_fexp 24 128 _ e' loc_Exact) as [mrs'' e''].
  destruct (shr_m mrs''); try reflexivity.
  destruct (_ <=? _); reflexivity.
Qed.

Lemma of_int_opp z : 0 < z -> F32.of_int (- z) = SFopp (F32.of_int z).
Proof.
  intros Hz. unfold F32.of_int, binary_normalize.
  destruct z as [|p|p]; try lia. change (- Z.pos p) with (Z.neg p). cbv iota.
  unfold binary_round, F32.prec, F32.emax. destruct (shl_align _ _ _) as [mz ez].
  apply binary_round_aux_opp.
Qed.

(** A finite number divided by its opposite is -1. *)
Lemma div_opp_self M E :
  F32.div (S754_finite true M E) (S754_finite false M E)
  = S754_finite true 8388608 (-23).
Proof.
  unfold F32.div, F32.prec, F32.emax, SFdiv, SFdiv_core_binary.
  cbn [Zdigits2 xorb].
  replace (Z.pos (digits2_pos M) + E - (Z.pos (digits2_pos M) + E)) with 0 by lia.
  replace (E - E) with 0 by lia.
  change (Z.min (fexp 24 128 0) 0) with (-24). change (0 - -24) with 24.
  rewrite sqrt_core_shift by lia. rewrite div_eucl_mul by lia.
  replace (new_location (Z.pos M) 0) with loc_Exact.
  2: { unfold new_location. destruct (Z.even _); reflexivity. }
  vm_compute. reflexivity.
Qed.

Lemma CosineDistance_opposite s :
  0 < s <= CInt.INT32_MAX -> Dtw.CosineDistance (- s) s s = Some 2000.
Proof.
  intros Hs. unfold Dtw.CosineDistance, Dtw.CosineDistancef.
  replace ((s =? 0) || (s =? 0)) with false
    by (symmetry; apply orb_false_iff; split; apply Z.eqb_neq; lia).
  rewrite of_int_opp by lia.
  destruct (of_int_normal s Hs) as (M & E & -> & HM & HE).
  rewrite sqrt_mul_self by lia. cbn [SFopp negb]. rewrite div_opp_self.
  vm_compute. reflexivity.
Qed.

(** The zero-norm guard: the quotient is replaced by 0. *)
Lemma CosineDistance_guard inner12 inner1 inner2 :
  inner1 = 0 \/ inner2 = 0 -> Dtw.CosineDistance inner12 inner1 inner2 = Some 1000.
Proof.
  intros H. unfold Dtw.CosineDistance, Dtw.CosineDistancef.
  replace ((inner1 =? 0) || (inner2 =? 0)) with true.
  - vm_compute. reflexivity.
  - symmetry. apply orb_true_iff. destruct H as [-> | ->]; auto.
Qed.

End CosineLandmarks.

Section InnerProductFacts.

Import Feature Dtw.

(** A defined inner product has read the first [n] elements of both
    vectors. *)
Lemma InnerProduct_reads vec1 n vec2 c :
  InnerProduct vec1 n vec2 = Some c ->
  forall k, 0 <= k < n -> is_Some (deref vec1 k) /\ is_Some (deref vec2 k).
Proof.
  unfold InnerProduct. intros H.
  destruct (Z_le_gt_dec n 0) as [Hn|Hn]; [intros k Hk; lia|].
  eapply (for_range_ind
            (fun j _ => forall k, 0 <= k < j ->
                          is_Some (deref vec1 k) /\ is_Some (deref vec2 k)));
    [|exact H| |]; [lia|intros k Hk; lia|].
  intros j s1 s2 Hj IH Hb k Hk. cbn beta in Hb.
  destruct (Z.eq_dec k j) as [->|Hne]; [|apply IH; lia].
  destruct (deref vec1 j) as [a|]; [|discriminate]. cbn [mbind option_bind] in Hb.
  destruct (deref vec2 j) as [b|]; [|discriminate]. split; eauto.
Qed.

(** A sum of squares is zero only when every term is. *)
Lemma dotn_zero vec k :
  dotn vec vec k = 0 ->
  forall i, (i < k)%nat -> default 0 (deref vec (Z.of_nat i)) = 0.
Proof.
  induction k as [|k IH]; intros H i Hi; [lia|]. cbn [dotn] in H.
  pose proof (dotn_nonneg vec k) as Hk.
  assert (Hz : dotn vec vec k = 0) by nia.
  destruct (Nat.eq_dec i k) as [->|Hne]; [nia|]. apply IH; [done|lia].
Qed.

Lemma dotn_zeros vec k :
  (forall i, (i < k)%nat -> default 0 (deref vec (Z.of_nat i)) = 0) ->
  dotn vec vec k = 0.
Proof.
  induction k as [|k IH]; intros H; [done|]. cbn [dotn].
  rewrite IH by (intros i Hi; apply H; lia). rewrite H by lia. done.
Qed.

End InnerProductFacts.

Section LatticeAverage.

Import Feature Dtw.

Variables (cost : Z -> Z -> Z) (K : Z).
Hypothesis Hcost : forall i j, 0 <= i -> 0 <= j -> 0 <= cost i j <= K.

Local Abbreviation paced := (DtwPath.paced K).

Lemma paced_step lo lo' p c B :
  paced lo p -> 0 <= c <= K -> 0 <= p.1 <= B -> B + K < 4294967296 ->
  lo' <= lo + 1 ->
  paced lo' (CInt.u32 (p.1 + c), p.2 + 1).
Proof.
  intros [H1 H2] Hc H0 Hw Hlo. unfold DtwPath.paced. cbn [fst snd].
  rewrite u32_small by (change (2 ^ 32) with 4294967296; lia). split; lia.
Qed.

(** Along the path the code keeps, the accumulated distance is at most
    [K] a step plus [2 * K], and the path to cell [(i, j)] has at least
    [max i j] steps. *)
Lemma lattice_paced i : forall j,
  K * (Z.of_nat i + Z.of_nat j + 2) < 2 ^ 32 ->
  Z.of_nat i + Z.of_nat j <= 32767 ->
  paced (Z.max (Z.of_nat i) (Z.of_nat j)) (lattice cost i j).
Proof.
  assert (HK : 0 <= K) by (specialize (Hcost 0 0); lia).
  change (2 ^ 32) with 4294967296.
  assert (Hroom : forall a b : nat,
            K * (Z.of_nat a + Z.of_nat b + 2) < 4294967296 ->
            (forall a' b' : nat, Z.of_nat a' + Z.of_nat b' + 1 <= Z.of_nat a + Z.of_nat b ->
               K * (Z.of_nat a' + Z.of_nat b' + 2) + K < 4294967296
               /\ K * (Z.of_nat a' + Z.of_nat b' + 2) < 4294967296)).
  { intros a b H a' b' H'. clear - HK H H'. nia. }
  induction i as [|i IH]; intros j Hw Hij.
  - induction j as [|j IHj]; cbn [lattice first_cells].
    + pose proof (Hcost 0 0 ltac:(lia) ltac:(lia)) as Hc.
      unfold DtwPath.paced. cbn [fst snd].
      rewrite u32_small by (change (2 ^ 32) with 4294967296; clear - Hw Hc HK; lia).
      clear - Hc. lia.
    + pose proof (Hcost 0 (Z.of_nat (S j)) ltac:(lia) ltac:(lia)) as Hc.
      destruct (Hroom _ _ Hw 0%nat j) as [R1 R2]; [lia|].
      specialize (IHj R2 ltac:(lia)). cbn [lattice] in IHj.
      pose proof (lattice_dist_range cost 0 j) as Hr. cbn [lattice] in Hr.
      pose proof (lattice_dist_bound cost K Hcost 0 j R2) as Hb. cbn [lattice] in Hb.
      assert (Hn : (first_cells cost j).2 = Z.of_nat j) by (destruct j; done).
      generalize dependent (first_cells cost j). intros p IHj Hr Hb Hn.
      destruct IHj as [I1 I2]. rewrite Hn in I1.
      unfold DtwPath.paced. cbn [fst snd].
      rewrite u32_small by (change (2 ^ 32) with 4294967296; clear - Hr Hb R1 Hc; lia).
      clear - I1 Hc. split; lia.
  - assert (Hst : forall k, K * (Z.of_nat i + Z.of_nat k + 2) < 4294967296 ->
              Z.of_nat i + Z.of_nat k <= 32767 ->
              paced (Z.max (Z.of_nat i) (Z.of_nat k)) (stored (lattice cost i k))
              /\ 0 <= (stored (lattice cost i k)).1
                   <= K * (Z.of_nat i + Z.of_nat k + 2)).
    { intros k Hk1 Hk2. unfold stored.
      destruct (lattice_count cost i k) as [_ Hu]; [lia|].
      rewrite i16_small by (unfold CInt.INT16_MIN, CInt.INT16_MAX; lia).
      pose proof (IH k Hk1 Hk2) as Hp.
      pose proof (lattice_dist_range cost i k) as Hr.
      pose proof (lattice_dist_bound cost K Hcost i k Hk1) as Hb.
      destruct (lattice cost i k) as [d c]. cbn [fst snd] in *.
      split; [exact Hp|]. clear - Hr Hb. lia. }
    cbn [lattice]. induction j as [|j IHj].
    + cbn [next_cells]. cbn zeta.
      pose proof (Hcost (Z.of_nat (S i)) 0 ltac:(lia) ltac:(lia)) as Hc.
      destruct (Hroom _ _ Hw i 0%nat) as [R1 R2]; [lia|].
      destruct (Hst 0%nat R2 ltac:(lia)) as (Hp & Hb).
      eapply paced_step; [exact Hp|exact Hc|exact Hb|exact R1|lia].
    + cbn [next_cells]. cbn zeta.
      pose proof (Hcost (Z.of_nat (S i)) (Z.of_nat (S j)) ltac:(lia) ltac:(lia)) as Hc.
      destruct (Hroom _ _ Hw i (S j)) as [R1 R2]; [lia|].
      destruct (Hroom _ _ Hw i j) as [R3 R4]; [lia|].
      destruct (Hroom _ _ Hw (S i) j) as [R5 R6]; [lia|].
      destruct (Hst (S j) R2 ltac:(lia)) as (Hp1 & Hb1).
      destruct (Hst j R4 ltac:(lia)) as (Hp2 & Hb2).
      specialize (IHj R6 ltac:(lia)).
      pose proof (lattice_dist_range cost (S i) j) as Hr3. cbn [lattice] in Hr3.
      pose proof (lattice_dist_bound cost K Hcost (S i) j R6) as Hb3.
      cbn [lattice] in Hb3.
      destruct (select_step_cases (stored (lattice cost i (S j)))
                  (next_cells cost (lattice cost i) (Z.of_nat (S i)) j)
                  (stored (lattice cost i j))) as [E|[E|E]]; rewrite E.
      * eapply paced_step; [exact Hp1|exact Hc|exact Hb1|exact R1|lia].
      * eapply paced_step; [exact IHj|exact Hc| |exact R5|lia].
        clear - Hr3 Hb3. lia.
      * eapply paced_step; [exact Hp2|exact Hc|exact Hb2|exact R3|lia].
Qed.

End LatticeAverage.

(** ** DTW: what the inner products, the cosine distance and the result
    obey *)

Section DtwFacts.

Import Feature Dtw Mfcc Create.

Lemma feature_checks_sound f :
  feature_checks f = true -> wf_feature f /\ norms_fit f.
Proof.
  unfold feature_checks. intros H.
  repeat (apply andb_true_iff in H as [H ?]).
  split.
  - unfold wf_feature. repeat split; try lia.
    apply Forall_forall. intros v Hv.
    match goal with Hall : forallb _ (feature_ f) = true |- _ =>
      rewrite forallb_forall in Hall; apply list_elem_of_In in Hv;
      specialize (Hall v Hv); lia end.
  - intros i Hi.
    match goal with Hall : forallb _ (seqZ _ _) = true |- _ =>
      rewrite forallb_forall in Hall; apply Z.leb_le; apply Hall end.
    apply list_elem_of_In. apply elem_of_seqZ. lia.
Qed.

(** X1.  Whenever [InnerProduct] is defined on two vectors and on each of
    them with itself, the result does not depend on the order of the two
    vectors, the two sums of squares are not negative, the Cauchy-Schwarz
    inequality holds between the three results, and a sum of squares is 0
    exactly when the first [n] elements of the vector are all 0. *)
Theorem InnerProduct_cauchy_schwarz vec1 vec2 n c a b :
  InnerProduct vec1 n vec2 = Some c ->
  InnerProduct1 vec1 n = Some a -> InnerProduct1 vec2 n = Some b ->
  InnerProduct vec2 n vec1 = Some c /\
  0 <= a /\ 0 <= b /\ c * c <= a * b /\
  (a = 0 <-> forall k, 0 <= k < n -> deref vec1 k = Some 0).
Proof.
  intros Hc Ha Hb.
  split; [now rewrite InnerProduct_comm|].
  pose proof (InnerProduct1_range _ _ _ Ha) as Ra.
  pose proof (InnerProduct1_range _ _ _ Hb) as Rb.
  split; [lia|]. split; [lia|].
  pose proof (InnerProduct_reads _ _ _ _ Ha) as Hreads.
  apply InnerProduct_dotn in Ha, Hb, Hc. subst.
  split; [apply dotn_cauchy|]. split.
  - intros Hz k Hk. destruct (Hreads k Hk) as [[x Hx] _].
    pose proof (dotn_zero vec1 (Z.to_nat n) Hz (Z.to_nat k) ltac:(lia)) as H0.
    rewrite Z2Nat.id in H0 by lia. rewrite Hx in H0. cbn in H0. now subst.
  - intros Hz. apply dotn_zeros. intros i Hi. rewrite Hz by lia. done.
Qed.

Lemma InnerProduct_cauchy_schwarz_witness :
  InnerProduct ([1; 2], 0) 2 ([3; 4], 0) = Some 11 /\
  0 <= 25 /\ 0 <= 5 /\ 11 * 11 <= 25 * 5 /\
  (25 = 0 <-> forall k, 0 <= k < 2 -> deref ([3; 4], 0) k = Some 0).
Proof.
  apply (InnerProduct_cauchy_schwarz ([3; 4], 0) ([1; 2], 0) 2 11 25 5);
    vm_compute; reflexivity.
Defined.

(** X2.  [InnerProduct] overflows at no step, and returns the sum of the
    [n] products, whenever both vectors hold [n] elements and the sum of
    the squares of each fits an [int]; for [n <= 0] it reads nothing and
    returns 0. *)
Theorem InnerProduct_no_overflow vec1 n vec2 :
  (forall k, 0 <= k < n -> is_Some (deref vec1 k) /\ is_Some (deref vec2 k)) ->
  dotn vec1 vec1 (Z.to_nat n) <= CInt.INT32_MAX ->
  dotn vec2 vec2 (Z.to_nat n) <= CInt.INT32_MAX ->
  InnerProduct vec1 n vec2 = Some (dotn vec1 vec2 (Z.to_nat n)) /\
  - CInt.INT32_MAX <= dotn vec1 vec2 (Z.to_nat n) <= CInt.INT32_MAX /\
  (n <= 0 -> InnerProduct vec1 n vec2 = Some 0).
Proof.
  intros Hin H1 H2. split; [now apply InnerProduct_defined|]. split.
  - pose proof (dotn_cauchy vec1 vec2 (Z.to_nat n)) as Hcs.
    pose proof (dotn_nonneg vec1 (Z.to_nat n)).
    pose proof (dotn_nonneg vec2 (Z.to_nat n)).
    unfold CInt.INT32_MAX in *. nia.
  - intros Hn. unfold InnerProduct. now rewrite for_range_empty.
Qed.

Lemma InnerProduct_no_overflow_witness :
  InnerProduct ([3; 4], 0) 2 ([1; 2], 0)
    = Some (dotn ([3; 4], 0) ([1; 2], 0) (Z.to_nat 2)) /\
  - CInt.INT32_MAX <= dotn ([3; 4], 0) ([1; 2], 0) (Z.to_nat 2) <= CInt.INT32_MAX /\
  (2 <= 0 -> InnerProduct ([3; 4], 0) 2 ([1; 2], 0) = Some 0).
Proof.
  apply (InnerProduct_no_overflow ([3; 4], 0) 2 ([1; 2], 0)).
  - intros k Hk. assert (Ek : k = 0 \/ k = 1) by lia.
    destruct Ek as [-> | ->]; vm_compute; eauto.
  - vm_compute. congruence.
  - vm_compute. congruence.
Defined.

(** X3.  For an inner product [inner12] and two sums of squares that obey
    the Cauchy-Schwarz inequality, [CosineDistance] is defined (the
    conversion of the scaled [float] to [uint32_t] is never out of range)
    and lies between 0 and 2000; exchanging the two sums of squares does
    not change it. *)
Theorem CosineDistance_in_range inner12 inner1 inner2 :
  0 <= inner1 <= CInt.INT32_MAX -> 0 <= inner2 <= CInt.INT32_MAX ->
  inner12 * inner12 <= inner1 * inner2 ->
  exists t, CosineDistance inner12 inner1 inner2 = Some t /\ 0 <= t <= 2000 /\
            CosineDistance inner12 inner2 inner1 = Some t.
Proof.
  intros H1 H2 Hcs.
  destruct (CosineDistance_defined inner12 inner1 inner2 H1 H2 Hcs) as (t & Ht & Hr).
  exists t. split; [done|]. split; [done|]. now rewrite CosineDistance_comm.
Qed.

Lemma CosineDistance_in_range_witness :
  exists t, CosineDistance 11 25 5 = Some t /\ 0 <= t <= 2000 /\
            CosineDistance 11 5 25 = Some t.
Proof.
  apply (CosineDistance_in_range 11 25 5); vm_compute; intuition congruence.
Defined.

(** X4.  The landmarks of the cosine distance are exact: a non-zero vector
    is at 0 from itself and at 2000 from its opposite, and whenever one of
    the two sums of squares is 0 the distance is 1000, whatever the inner
    product. *)
Theorem CosineDistance_landmarks s inner12 :
  0 < s <= CInt.INT32_MAX ->
  CosineDistance s s s = Some 0 /\
  CosineDistance (- s) s s = Some 2000 /\
  CosineDistance inner12 0 s = Some 1000 /\
  CosineDistance inner12 s 0 = Some 1000 /\
  CosineDistance inner12 0 0 = Some 1000.
Proof.
  intros Hs. split; [now apply CosineDistance_self|].
  split; [now apply CosineDistance_opposite|].
  repeat split; apply CosineDistance_guard; auto.
Qed.

Lemma CosineDistance_landmarks_witness :
  CosineDistance 25 25 25 = Some 0 /\
  CosineDistance (- 25) 25 25 = Some 2000 /\
  CosineDistance 7 0 25 = Some 1000 /\
  CosineDistance 7 25 0 = Some 1000 /\
  CosineDistance 7 0 0 = Some 1000.
Proof. apply (CosineDistance_landmarks 25 7). vm_compute. intuition congruence. Defined.

(** X5.  Between well-formed MFCC features of at most 16383 frames that
    pass the pre-checks (not both of a single frame), with room for the two
    work rows, [calcDTW] returns a distance; it is at most 6000, and at
    most [2000 + 4000 / (max m n - 1)]: the average cost of a step is at
    most 2000, and the doubled first cell adds what the second term
    bounds. *)
Theorem calcDTW_average_bound (f g : MfccFeature) heap :
  wf_feature f -> wf_feature g -> norms_fit f -> norms_fit g ->
  frame_num_ f <= 16383 -> frame_num_ g <= 16383 ->
  ~ invalid f g -> 3 <= frame_num_ f + frame_num_ g ->
  6 * frame_num_ g <= Heap.free heap ->
  exists d, calcDTW f g heap = Some d /\
    0 <= d <= 2000 + 4000 / (Z.max (frame_num_ f) (frame_num_ g) - 1) /\
    d <= 6000.
Proof.
  intros Hf Hg Nf Ng Hsf Hsg Hv Hthree Hheap. unfold invalid in Hv.
  cbn [size dimension MfccFeature_sound] in Hv.
  pose proof Hf as (Hfn & Hfc & _). pose proof Hg as (Hgn & Hgc & _).
  assert (Hd : coef_num_ f = coef_num_ g) by lia.
  pose (cost := fun i j => default 0 (cell_cost f g i j)).
  assert (Hcost : forall i j, 0 <= i < frame_num_ f -> 0 <= j < frame_num_ g ->
            cell_cost f g i j = Some (cost i j) /\ 0 <= cost i j <= 2000).
  { intros i j Hi Hj. unfold cost.
    destruct (mfcc_cell_cost f g i j) as (t & -> & Ht); done. }
  pose (cost' := fun i j =>
    if decide (0 <= i < frame_num_ f /\ 0 <= j < frame_num_ g) then cost i j else 0).
  assert (Hcost1 : forall i j, 0 <= i < size f -> 0 <= j < size g ->
            cell_cost f g i j = Some (cost' i j)).
  { intros i j Hi Hj. unfold cost'.
    destruct (decide _) as [_|Hn]; [now apply Hcost|].
    cbn [size MfccFeature_sound] in Hi, Hj. lia. }
  assert (Hcost2 : forall i j, 0 <= i -> 0 <= j -> 0 <= cost' i j <= 2000).
  { intros i j _ _. unfold cost'. destruct (decide _) as [[Hi Hj]|_]; [|lia].
    now apply Hcost. }
  pose proof (calcDTW_lattice f g cost') as H. cbn zeta in H.
  cbn [size dimension MfccFeature_sound] in H.
  destruct H with (heap := heap) as [-> Hc]; try done; try lia.
  eexists. split; [reflexivity|].
  pose proof (lattice_dist_range cost' (Z.to_nat (frame_num_ f - 1))
                (Z.to_nat (frame_num_ g - 1))) as Hr.
  destruct (lattice_paced cost' 2000 Hcost2 (Z.to_nat (frame_num_ f - 1))
              (Z.to_nat (frame_num_ g - 1))) as [P1 P2];
    [change (2 ^ 32) with 4294967296; clear - Hsf Hsg Hfn Hgn; lia
    |clear - Hsf Hsg Hfn Hgn; lia|].
  destruct (lattice cost' _ _) as [D C]. cbn [fst snd] in *.
  set (M := Z.max (frame_num_ f) (frame_num_ g)) in *.
  assert (HM : 1 <= M - 1 <= C) by lia.
  assert (Hq : D / C <= 2000 + 4000 / C).
  { rewrite <- Z.div_add_l by lia. apply Z.div_le_mono; lia. }
  assert (Hq2 : 4000 / C <= 4000 / (M - 1)) by (apply Z.div_le_compat_l; lia).
  assert (Hq3 : 4000 / (M - 1) <= 4000).
  { apply Z.div_le_upper_bound; lia. }
  split; [split; [apply Z.div_pos; lia|lia]|lia].
Qed.

Lemma calcDTW_average_bound_witness :
  exists d, calcDTW (ones 2) tail3 roomy_heap = Some d /\
    0 <= d <= 2000 + 4000 / (Z.max (frame_num_ (ones 2)) (frame_num_ tail3) - 1) /\
    d <= 6000.
Proof.
  destruct (feature_checks_sound (ones 2)) as [W1 N1]; [vm_compute; reflexivity|].
  destruct (feature_checks_sound tail3) as [W2 N2]; [vm_compute; reflexivity|].
  apply (calcDTW_average_bound (ones 2) tail3 roomy_heap W1 W2 N1 N2).
  - vm_compute. congruence.
  - vm_compute. congruence.
  - unfold invalid. vm_compute. intuition congruence.
  - vm_compute. congruence.
  - vm_compute. congruence.
Defined.

(** X6.  Between two well-formed MFCC features of one frame each and of
    one dimension, with room for the two work rows, [calcDTW] has no
    defined result: the only cell has made no step, and the accumulated
    distance is divided by a step count of zero. *)
Theorem calcDTW_single_frames (f g : MfccFeature) heap :
  wf_feature f -> wf_feature g -> norms_fit f -> norms_fit g ->
  frame_num_ f = 1 -> frame_num_ g = 1 -> coef_num_ f = coef_num_ g ->
  6 <= Heap.free heap ->
  rejects f g = Some false /\ calcDTW f g heap = None.
Proof.
  intros Hf Hg Nf Ng H1 H2 Hd Hheap.
  pose (cost := fun i j => default 0 (cell_cost f g i j)).
  assert (Hcost : forall i j, 0 <= i < size f -> 0 <= j < size g ->
            cell_cost f g i j = Some (cost i j)).
  { intros i j Hi Hj. unfold cost. cbn [size MfccFeature_sound] in Hi, Hj.
    destruct (mfcc_cell_cost f g i j) as (t & -> & _); try done; lia. }
  assert (Hvalid : ~ invalid f g).
  { unfold invalid. cbn [size dimension MfccFeature_sound]. lia. }
  destruct (rejects_spec f g) as [_ Hrej];
    [cbn [size MfccFeature_sound]; lia..|].
  split; [now apply Hrej|].
  unfold calcDTW. rewrite (Hrej Hvalid). cbn [mbind option_bind].
  cbn [size MfccFeature_sound]. rewrite H2. unfold Heap.new_array.
  replace ((0 <=? 1) && (2 * 1 <=? Heap.free heap))
    with true by (symmetry; apply andb_true_iff; split; apply Z.leb_le; lia).
  cbn [mbind option_bind Heap.free].
  replace ((0 <=? 1) && (4 * 1 <=? Heap.free heap - 2 * 1))
    with true by (symmetry; apply andb_true_iff; split; apply Z.leb_le; lia).
  unfold final_rows.
  destruct (rows_upto_spec f g cost) with (hi := size f)
    as ([D C] & Hrows & HlD & HlC & Hcells);
    try done;
    try (cbn [size MfccFeature_sound]; change (2 ^ 30) with 1073741824; lia).
  cbn [size MfccFeature_sound] in *.
  rewrite Hrows. cbn [mbind option_bind]. unfold CInt.sub.
  rewrite int_of_in by (unfold CInt.INT32_MIN, CInt.INT32_MAX; lia).
  cbn [mbind option_bind fst snd size MfccFeature_sound] in *.
  destruct (Hcells 0%nat) as [HD HC]; [lia|].
  rewrite H1 in HD, HC. change (Z.to_nat (1 - 1)) with 0%nat in HD, HC.
  cbn [lattice first_cells fst snd] in HD, HC.
  change (1 - 1) with 0.
  assert (G1 : Loop.get D 0 = Some (CInt.u32 (2 * cost 0 0)))
    by (apply get_Some; split; [lia|done]).
  assert (G2 : Loop.get C 0 = Some (CInt.i16 0))
    by (apply get_Some; split; [lia|done]).
  rewrite G1, G2. cbn [mbind option_bind]. reflexivity.
Qed.

Lemma calcDTW_single_frames_witness :
  rejects (ones 1) (ones 1) = Some false /\
  calcDTW (ones 1) (ones 1) roomy_heap = None.
Proof.
  destruct (feature_checks_sound (ones 1)) as [W N]; [vm_compute; reflexivity|].
  apply (calcDTW_single_frames (ones 1) (ones 1) roomy_heap W W N N);
    vm_compute; congruence.
Defined.

End DtwFacts.

(** ** Feature files: failures and foreign files *)

Section FileFacts.

Import Mfcc.

Lemma fread_inv (stream : list byte) size count bytes k rest :
  FS.fread stream size count = (bytes, k, rest) ->
  0 < size -> 0 <= k ->
  stream = bytes ++ rest /\ Z.of_nat (length bytes) = k * size.
Proof.
  unfold FS.fread. intros [= <- <- <-] Hs Hk.
  split; [now rewrite take_drop|].
  rewrite length_take.
  assert (Z.min count (Z.of_nat (length stream) / size) * size
          <= Z.of_nat (length stream)).
  { pose proof (Z.mul_div_le (Z.of_nat (length stream)) size Hs). nia. }
  nia.
Qed.

Lemma int32_bytes_i32 (bytes : list byte) :
  length bytes = 4%nat -> int32_bytes (CInt.i32 (le_combine bytes)) = bytes.
Proof.
  intros Hlen. unfold int32_bytes, CInt.i32.
  rewrite le_split_mod. change (2 ^ (Z.of_nat 4 * 8)) with (2 ^ 32).
  replace (((le_combine bytes + 2 ^ 31) mod 2 ^ 32 - 2 ^ 31) mod 2 ^ 32)
    with (le_combine bytes mod 2 ^ (Z.of_nat 4 * 8)).
  - rewrite <- le_split_mod. now apply split_le_combine'.
  - change (2 ^ (Z.of_nat 4 * 8)) with (2 ^ 32).
    rewrite Zminus_mod_idemp_l.
    replace (le_combine bytes + 2 ^ 31 - 2 ^ 31) with (le_combine bytes) by lia. done.
Qed.

Lemma int16_bytes_i16 (b0 b1 : byte) :
  int16_bytes (CInt.i16 (le_combine [b0; b1])) = [b0; b1].
Proof.
  unfold int16_bytes, CInt.i16.
  rewrite le_split_mod. change (2 ^ (Z.of_nat 2 * 8)) with (2 ^ 16).
  replace (((le_combine [b0; b1] + 2 ^ 15) mod 2 ^ 16 - 2 ^ 15) mod 2 ^ 16)
    with (le_combine [b0; b1] mod 2 ^ (Z.of_nat 2 * 8)).
  - rewrite <- le_split_mod. now apply split_le_combine'.
  - change (2 ^ (Z.of_nat 2 * 8)) with (2 ^ 16).
    rewrite Zminus_mod_idemp_l.
    replace (le_combine [b0; b1] + 2 ^ 15 - 2 ^ 15) with (le_combine [b0; b1]) by lia.
    done.
Qed.

(** Reading an even number of bytes as [int16_t] values and writing the
    values back gives the bytes. *)
Lemma int16s_of_bytes_image (m : nat) : forall data : list byte,
  length data = (2 * m)%nat ->
  concat (int16_bytes <$> int16s_of_bytes data) = data /\
  length (int16s_of_bytes data) = m /\
  Forall (fun v => CInt.INT16_MIN <= v <= CInt.INT16_MAX) (int16s_of_bytes data).
Proof.
  induction m as [|m IH]; intros data Hlen.
  - destruct data; [|discriminate]. cbn. repeat split. constructor.
  - destruct data as [|b0 [|b1 rest]]; try (cbn in Hlen; lia).
    destruct (IH rest) as (I1 & I2 & I3); [cbn in Hlen; lia|].
    cbn [int16s_of_bytes]. rewrite fmap_cons. cbn [concat length].
    rewrite int16_bytes_i16, I1, I2. repeat split.
    constructor; [apply i16_range|done].
Qed.

(** X7.  On a read-only volume [saveFile] returns false and changes
    nothing.  On a writable one it truncates the file first; what it leaves
    in it is a prefix of the image of the feature, and no other file is
    touched.  The stream is buffered and closed without a look at the
    result of [fclose]: a true result says that every [fwrite] has put its
    items into the stream, and the file then holds as much of the image as
    the volume had room for once the file was truncated.  A file that holds
    the whole image comes with a true result; on a volume with room for the
    image the result is true and the file holds the image; and the result
    is true whenever the image is smaller than the buffer, whatever the
    room. *)
Theorem saveFile_leaves_prefix fs path f :
  wf_feature f ->
  (FS.read_only fs = true -> saveFile fs path f = Some (false, fs)) /\
  (FS.read_only fs = false ->
   exists b fs' written,
     saveFile fs path f = Some (b, fs') /\
     FS.files fs' !! path = Some written /\
     written `prefix_of` file_image f /\
     (b = true ->
      written
      = take (Z.to_nat (FS.free fs
                        + Z.of_nat (length (default [] (FS.files fs !! path)))))
          (file_image f)) /\
     (written = file_image f -> b = true) /\
     (Z.of_nat (length (file_image f))
      <= FS.free fs + Z.of_nat (length (default [] (FS.files fs !! path))) ->
      b = true /\ written = file_image f) /\
     (Z.of_nat (length (file_image f)) < FS.bufsiz fs -> b = true) /\
     forall other, other <> path -> FS.files fs' !! other = FS.files fs !! other).
Proof.
  intros Hwf. split.
  { intros Hro. unfold saveFile, FS.fopen_wb. now rewrite Hro. }
  intros Hrw.
  destruct (saveFile_writable fs path f Hwf Hrw)
    as (b & fs' & put & Hsave & Hpre & Hfiles & _ & _ & Hput & Hroom & Hbuf).
  cbv zeta in Hfiles, Hroom.
  set (room := FS.free fs + Z.of_nat (length (default [] (FS.files fs !! path)))) in *.
  exists b, fs', (take (Z.to_nat room) put).
  split; [done|]. split; [rewrite Hfiles; apply lookup_insert_eq|].
  split; [etrans; [apply prefix_take|done]|].
  split; [intros Hb; now rewrite Hput|].
  split.
  { intros E. apply Hroom. pose proof (file_image_length f).
    apply (f_equal length) in E. rewrite length_take in E. lia. }
  split.
  { intros Hfit. split; [auto|]. rewrite Hput by auto. apply take_ge. lia. }
  split; [done|].
  intros other Hother. rewrite Hfiles. now apply lookup_insert_ne.
Qed.

Lemma saveFile_leaves_prefix_witness :
  saveFile (FS.mk ∅ 1000 true 128) "wakeword.bin" sample_feature
  = Some (false, FS.mk ∅ 1000 true 128) /\
  saveFile full_volume "wakeword.bin" sample_feature
  = Some (true, FS.mk {[ "wakeword.bin"%string := [] ]} 0 false 128) /\
  exists b fs' written,
    saveFile full_volume "wakeword.bin" sample_feature = Some (b, fs') /\
    FS.files fs' !! "wakeword.bin"%string = Some written /\
    written `prefix_of` file_image sample_feature /\
    (b = true ->
     written
     = take (Z.to_nat (FS.free full_volume
                       + Z.of_nat (length (default []
                            (FS.files full_volume !! "wakeword.bin"%string)))))
         (file_image sample_feature)) /\
    (written = file_image sample_feature -> b = true) /\
    (Z.of_nat (length (file_image sample_feature))
     <= FS.free full_volume
        + Z.of_nat (length (default []
             (FS.files full_volume !! "wakeword.bin"%string))) ->
     b = true /\ written = file_image sample_feature) /\
    (Z.of_nat (length (file_image sample_feature)) < FS.bufsiz full_volume ->
     b = true) /\
    forall other, other <> "wakeword.bin"%string ->
      FS.files fs' !! other = FS.files full_volume !! other.
Proof.
  assert (W : wf_feature sample_feature).
  { unfold wf_feature. repeat split; try (vm_compute; congruence).
    repeat constructor; vm_compute; congruence. }
  split; [|split].
  - apply (proj1 (saveFile_leaves_prefix (FS.mk ∅ 1000 true 128) "wakeword.bin"
                    sample_feature W)).
    reflexivity.
  - vm_compute. reflexivity.
  - apply (proj2 (saveFile_leaves_prefix full_volume "wakeword.bin" sample_feature W)).
    reflexivity.
Defined.





(** X9.  Whatever [loadFile] returns as a feature, it has read from the
    file: after the tag byte, the file starts with the two 32-bit values
    and the matrix of the feature returned, as [saveFile] writes them.  The
    matrix has as many cells as the product of the two values taken modulo
    2^32, every cell is an [int16_t], and the allocation asked for twice
    that many bytes.  Neither value need be positive. *)
Theorem loadFile_reencodes h fs path f :
  loadFile h fs path = Some (Some f) ->
  exists tag rest,
    FS.files fs !! path
      = Some (tag :: int32_bytes (frame_num_ f) ++ int32_bytes (coef_num_ f)
                ++ concat (int16_bytes <$> feature_ f) ++ rest) /\
    Z.of_nat (length (feature_ f)) = CInt.u32 (frame_num_ f * coef_num_ f) /\
    Forall (fun v => CInt.INT16_MIN <= v <= CInt.INT16_MAX) (feature_ f) /\
    CInt.INT32_MIN <= frame_num_ f <= CInt.INT32_MAX /\
    CInt.INT32_MIN <= coef_num_ f <= CInt.INT32_MAX /\
    Heap.malloc h (CInt.u32 (2 * frame_num_ f * coef_num_ f)) = true.
Proof.
  unfold loadFile, FS.fopen_rb. intros H.
  destruct (FS.files fs !! path) as [file|] eqn:Efile; [|discriminate].
  destruct (FS.fread file 1 1) as [[t k1] file1] eqn:E1.
  destruct (k1 =? 1) eqn:Ek1; cbn [negb] in H; [|discriminate].
  apply Z.eqb_eq in Ek1. subst k1.
  apply fread_inv in E1 as [-> Lt]; [|lia..].
  destruct (FS.fread file1 4 1) as [[b1 k2] file2] eqn:E2.
  destruct (k2 =? 1) eqn:Ek2; cbn [negb] in H; [|discriminate].
  apply Z.eqb_eq in Ek2. subst k2.
  apply fread_inv in E2 as [-> L1]; [|lia..].
  destruct (FS.fread file2 4 1) as [[b2 k3] file3] eqn:E3.
  destruct (k3 =? 1) eqn:Ek3; cbn [negb] in H; [|discriminate].
  apply Z.eqb_eq in Ek3. subst k3.
  apply fread_inv in E3 as [-> L2]; [|lia..].
  set (size := CInt.i32 (le_combine b1)) in *.
  set (coef_num := CInt.i32 (le_combine b2)) in *.
  destruct (Heap.malloc h _) eqn:Emalloc; cbn [negb] in H; [|discriminate].
  apply bind_Some in H as (data_num & Hdn & H). apply mul_Some in Hdn. subst data_num.
  destruct (FS.fread file3 2 _) as [[data k] file4] eqn:E4.
  destruct (_ <? _); [discriminate|].
  destruct (k =? _) eqn:Ek; cbn [negb] in H; [|discriminate].
  apply Z.eqb_eq in Ek. subst k. injection H as <-.
  cbn [frame_num_ coef_num_ feature_].
  pose proof (u32_range (size * coef_num)) as Hu.
  apply fread_inv in E4 as [-> L4]; [|lia..].
  destruct t as [|tag [|? ?]]; try (cbn in Lt; lia).
  destruct (int16s_of_bytes_image (Z.to_nat (CInt.u32 (size * coef_num))) data)
    as (I1 & I2 & I3); [lia|].
  exists tag, file4. unfold size, coef_num.
  rewrite !int32_bytes_i32 by lia. rewrite I1. fold size coef_num.
  split; [reflexivity|].
  split; [lia|]. split; [done|].
  assert (R : forall z, CInt.INT32_MIN <= CInt.i32 z <= CInt.INT32_MAX).
  { intros z. unfold CInt.i32, CInt.INT32_MIN, CInt.INT32_MAX.
    pose proof (Z.mod_pos_bound (z + 2 ^ 31) (2 ^ 32)). lia. }
  split; [apply R|]. split; [apply R|]. done.
Qed.

Lemma loadFile_reencodes_witness :
  exists tag rest,
    FS.files foreign_volume !! "wakeword.bin"%string
      = Some (tag :: int32_bytes (frame_num_ (mkMfccFeature 1 1 [5]))
                ++ int32_bytes (coef_num_ (mkMfccFeature 1 1 [5]))
                ++ concat (int16_bytes <$> feature_ (mkMfccFeature 1 1 [5])) ++ rest) /\
    Z.of_nat (length (feature_ (mkMfccFeature 1 1 [5])))
      = CInt.u32 (frame_num_ (mkMfccFeature 1 1 [5]) * coef_num_ (mkMfccFeature 1 1 [5])) /\
    Forall (fun v => CInt.INT16_MIN <= v <= CInt.INT16_MAX)
      (feature_ (mkMfccFeature 1 1 [5])) /\
    CInt.INT32_MIN <= frame_num_ (mkMfccFeature 1 1 [5]) <= CInt.INT32_MAX /\
    CInt.INT32_MIN <= coef_num_ (mkMfccFeature 1 1 [5]) <= CInt.INT32_MAX /\
    Heap.malloc roomy_heap
      (CInt.u32 (2 * frame_num_ (mkMfccFeature 1 1 [5])
                 * coef_num_ (mkMfccFeature 1 1 [5]))) = true.
Proof.
  apply (loadFile_reencodes roomy_heap foreign_volume "wakeword.bin"
           (mkMfccFeature 1 1 [5])).
  vm_compute. reflexivity.
Defined.

End FileFacts.

(** ** MFCC engine: what [init] needs, and [deinit] *)

Section EngineLife.

Import Mfcc MfccLife.

(** What a verified configuration is known to satisfy. *)
Lemma VerifyMfccConfig_true config :
  VerifyMfccConfig config = Some true ->
  0 <= fft_num config /\ 0 <= mel_channel config /\ 0 <= coef_num config /\
  0 <= pre_emphasis config /\ 0 <= frame_time_ms config /\
  (sample_rate config = 8000 \/ sample_rate config = 16000) /\
  exists l, frame_length config = Some l /\ 0 <= l <= fft_num config.
Proof.
  unfold VerifyMfccConfig. intros H.
  destruct (_ || _) eqn:E1; [discriminate|].
  apply orb_false_iff in E1 as [E1 _]. apply Z.ltb_ge in E1.
  destruct (_ || _) eqn:E2; [discriminate|].
  apply orb_false_iff in E2 as [E2 E2d]. apply orb_false_iff in E2 as [E2 E2c].
  apply orb_false_iff in E2 as [E2a E2b].
  apply Z.ltb_ge in E2a, E2b, E2c, E2d.
  destruct (_ && _) eqn:E3; [discriminate|].
  assert (Hrate : sample_rate config = 8000 \/ sample_rate config = 16000).
  { apply andb_false_iff in E3 as [E3|E3]; apply negb_false_iff, Z.eqb_eq in E3; auto. }
  apply bind_Some in H as (l & Hl & H). injection H as H.
  apply negb_true_iff, Z.ltb_ge in H.
  repeat split; try done. exists l. split; [done|]. split; [|done].
  unfold frame_length in Hl. apply bind_Some in Hl as (p & Hp & Hl).
  apply mul_Some in Hp. unfold CInt.div in Hl. cbn in Hl.
  apply int_of_Some in Hl as [-> _]. subst p.
  apply Z.quot_pos; [|lia]. destruct Hrate as [-> | ->]; lia.
Qed.

(** An engine without buffers holds no byte. *)
Lemma released_held e :
  release e = e ->
  window_ e = None /\ mel_position_ e = None /\ dctII_table_ e = None /\
  mel_data_ e = None /\ fft_data_ e = None /\ held e = 0.
Proof.
  intros <-. unfold release, held. cbn. repeat split.
Qed.

Lemma give_0 h : Heap.give h 0 = h.
Proof. destruct h. unfold Heap.give. cbn. f_equal. lia. Qed.

Lemma credit_0 env : credit env 0 = env.
Proof. destruct env. unfold credit. cbn. now rewrite give_0. Qed.

(** X10.  For an engine that holds no buffer and a verified configuration
    whose table sizes fit an [int], in surroundings where the three set-up
    routines are defined (every value they convert to [int16_t] lies in
    its range): [init] succeeds exactly when the heap holds
    [2 * frame_length + 2 * (mel_channel + 2) + 2 * coef_num * mel_channel
    + 4 * mel_channel + 4 * fft_num] bytes, the FFT driver is not yet
    initialised and initialises; it then stores the configuration and
    takes that many bytes.  In every other case it returns false with the
    engine and the surroundings as they were. *)
Theorem init_needs env config e l w p d :
  release e = e ->
  VerifyMfccConfig config = Some true -> frame_length config = Some l ->
  fft_num config <= CInt.INT32_MAX ->
  mel_channel config + 2 <= CInt.INT32_MAX ->
  coef_num config * mel_channel config <= CInt.INT32_MAX ->
  SetupHammingWindow (libm env) (raw l) l = Some w ->
  SetupMelFilter (libm env) (raw (mel_channel config + 2)) (sample_rate config)
    (fft_num config) (mel_channel config) = Some p ->
  SetupDctTable (libm env) (raw (coef_num config * mel_channel config))
    (coef_num config) (mel_channel config) = Some d ->
  let bytes := 2 * l + 2 * (mel_channel config + 2)
               + 2 * (coef_num config * mel_channel config)
               + 4 * mel_channel config + 4 * fft_num config in
  init env config e =
    if (bytes <=? Heap.free (heap env)) && negb (dsps_fft4r_initialized env)
       && dsps_fft4r_init_fc32 env (fft_num config / 2)
    then Some (true,
               mkMfccEngine config (Some l) (Some (mel_channel config + 2))
                 (Some (coef_num config * mel_channel config))
                 (Some (mel_channel config)) (Some (fft_num config)),
               mkEnv (Heap.mk (Heap.free (heap env) - bytes)
                        (Heap.malloc_zero (heap env)))
                 true (dsps_fft4r_init_fc32 env) (libm env))
    else Some (false, e, env).
Proof.
  intros He Hv Hl Hfftmax Hpos Hcells Hw Hp Hd. cbn zeta.
  destruct (VerifyMfccConfig_true _ Hv)
    as (Hfft & Hmel & Hcoef & _ & _ & _ & l' & Hl' & Hlr).
  assert (l' = l) as -> by congruence.
  destruct (released_held e He) as (E1 & E2 & E3 & E4 & E5 & E6).
  unfold init. rewrite Hv, Hl, E1, E2, E3, E4, E5, E6, He, credit_0.
  cbn [negb mbind option_bind default from_option].
  unfold CInt.add, CInt.mul, CInt.div.
  rewrite (int_of_in (mel_channel config + 2))
    by (unfold CInt.INT32_MIN, CInt.INT32_MAX in *; lia).
  rewrite (int_of_in (coef_num config * mel_channel config))
    by (unfold CInt.INT32_MIN, CInt.INT32_MAX in *; nia).
  cbn [mbind option_bind].
  rewrite Hw, Hp, Hd. cbn [mbind option_bind].
  change (2 =? 0) with false. cbv iota.
  rewrite Z.quot_div_nonneg by lia.
  rewrite (int_of_in (fft_num config / 2)).
  2: { pose proof (Z.div_pos (fft_num config) 2 ltac:(lia) ltac:(lia)).
       assert (fft_num config / 2 <= fft_num config)
         by (apply Z.div_le_upper_bound; lia).
       unfold CInt.INT32_MIN, CInt.INT32_MAX in *. lia. }
  cbn [mbind option_bind].
  rewrite ?Z.mul_0_r.
  unfold Heap.new_array, Heap.give. cbn [Heap.free Heap.malloc_zero].
  rewrite ?Z.add_0_r.
  repeat match goal with
  | |- context [(0 <=? ?x) && (?a <=? ?b)] =>
      replace (0 <=? x) with true by (symmetry; apply Z.leb_le; lia);
      cbn [andb]; destruct (Z.leb_spec a b); cbn [Heap.free Heap.malloc_zero];
      rewrite ?Z.add_0_r
  end;
  try (replace (_ <=? Heap.free (heap env)) with false
         by (symmetry; apply Z.leb_gt; lia); done).
  replace (_ <=? Heap.free (heap env)) with true by (symmetry; apply Z.leb_le; lia).
  cbn [andb]. destruct (dsps_fft4r_initialized env); cbn [negb andb]; [done|].
  destruct (dsps_fft4r_init_fc32 env _); cbn [negb]; [|done].
  do 4 f_equal. lia.
Qed.

Lemma init_needs_witness :
  let bytes := 2 * 512 + 2 * (mel_channel default_config + 2)
               + 2 * (coef_num default_config * mel_channel default_config)
               + 4 * mel_channel default_config + 4 * fft_num default_config in
  init roomy_env default_config blank_engine =
    if (bytes <=? Heap.free (heap roomy_env)) && negb (dsps_fft4r_initialized roomy_env)
       && dsps_fft4r_init_fc32 roomy_env (fft_num default_config / 2)
    then Some (true,
               mkMfccEngine default_config (Some 512)
                 (Some (mel_channel default_config + 2))
                 (Some (coef_num default_config * mel_channel default_config))
                 (Some (mel_channel default_config)) (Some (fft_num default_config)),
               mkEnv (Heap.mk (Heap.free (heap roomy_env) - bytes)
                        (Heap.malloc_zero (heap roomy_env)))
                 true (dsps_fft4r_init_fc32 roomy_env) (libm roomy_env))
    else Some (false, blank_engine, roomy_env).
Proof.
  apply (init_needs roomy_env default_config blank_engine 512
           (replicate 512 800) (replicate 25 0 ++ [256]) (replicate 288 10000));
    vm_compute; congruence.
Defined.

(** A successful [init] leaves the FFT driver initialised. *)
Lemma init_true_env env config e e' env' :
  init env config e = Some (true, e', env') ->
  dsps_fft4r_initialized env' = true /\ mfcc_config_ e' = config /\
  VerifyMfccConfig config = Some true.
Proof.
  unfold init. intros H.
  apply bind_Some in H as (ok & Hok & H).
  destruct ok; cbn [negb] in H; [|discriminate].
  apply bind_Some in H as (l & _ & H).
  destruct (Heap.new_array _ _ _); [|discriminate].
  apply bind_Some in H as (w & _ & H).
  apply bind_Some in H as (positions & _ & H).
  destruct (Heap.new_array _ _ _); [|discriminate].
  apply bind_Some in H as (p & _ & H).
  apply bind_Some in H as (cells & _ & H).
  destruct (Heap.new_array _ _ _); [|discriminate].
  apply bind_Some in H as (d & _ & H).
  destruct (Heap.new_array _ _ _); [|discriminate].
  destruct (Heap.new_array _ _ _); [|discriminate].
  destruct (dsps_fft4r_initialized env); [discriminate|].
  apply bind_Some in H as (half & _ & H).
  destruct (dsps_fft4r_init_fc32 env half); cbn [negb] in H; [|discriminate].
  injection H as <- <-. done.
Qed.

(** While the FFT driver is initialised, [init] does not succeed: a
    configuration that passes the check makes the engine release what it
    holds. *)
Lemma init_busy env config e r :
  dsps_fft4r_initialized env = true ->
  init env config e = Some r ->
  (VerifyMfccConfig config = Some false /\ r = (false, e, env)) \/
  (VerifyMfccConfig config = Some true /\
   r = (false, release e, credit env (held e))).
Proof.
  unfold init. intros Hbusy H.
  apply bind_Some in H as (ok & Hok & H).
  destruct ok; cbn [negb] in H; [right|left; split; [done|congruence]].
  split; [done|].
  apply bind_Some in H as (l & _ & H).
  destruct (Heap.new_array _ _ _); [|congruence].
  apply bind_Some in H as (w & _ & H).
  apply bind_Some in H as (positions & _ & H).
  destruct (Heap.new_array _ _ _); [|congruence].
  apply bind_Some in H as (p & _ & H).
  apply bind_Some in H as (cells & _ & H).
  destruct (Heap.new_array _ _ _); [|congruence].
  apply bind_Some in H as (d & _ & H).
  destruct (Heap.new_array _ _ _); [|congruence].
  destruct (Heap.new_array _ _ _); [|congruence].
  rewrite Hbusy in H. congruence.
Qed.

(** X11.  After a successful [init], a second [init] of the engine that
    is defined returns false, whatever the configuration and the heap, and
    leaves the FFT driver initialised.  A configuration that fails the
    check leaves the engine and the heap as they are.  One that passes it
    makes the engine release its five buffers: the engine keeps the first
    configuration and nothing to work with, the bytes of the five buffers
    are back in the heap, and [deinit] then does nothing, the table it
    looks at being null, so that the driver stays initialised. *)
Theorem init_twice env config e e' env' config2 r :
  init env config e = Some (true, e', env') ->
  init env' config2 e' = Some r ->
  r.1.1 = false /\
  mfcc_config_ r.1.2 = config /\
  dsps_fft4r_initialized r.2 = true /\
  (VerifyMfccConfig config2 = Some false -> r.1.2 = e' /\ r.2 = env') /\
  (VerifyMfccConfig config2 = Some true ->
   r.1.2 = mkMfccEngine config None None None None None /\
   r.2 = credit env' (held e') /\
   Heap.free (heap r.2) = Heap.free (heap env') + held e' /\
   deinit r.2 r.1.2 = (r.1.2, r.2)).
Proof.
  intros H1 H2.
  destruct (init_true_env _ _ _ _ _ H1) as (Hbusy & Hcfg & _).
  destruct (init_busy _ _ _ _ Hbusy H2) as [[Hv ->]|[Hv ->]]; cbn [fst snd].
  - repeat split; try done; congruence.
  - split; [done|]. split; [done|]. split; [done|].
    split; [congruence|]. intros _.
    unfold release. rewrite Hcfg. done.
Qed.

Lemma init_twice_witness :
  let e' := mkMfccEngine default_config (Some 512) (Some 26) (Some 288) (Some 24)
              (Some 512) in
  let env' := mkEnv (Heap.mk 96204 false) true (fun _ => true) flat_libm in
  let r := (false, release e', credit env' 3796) in
  r.1.1 = false /\
  mfcc_config_ r.1.2 = default_config /\
  dsps_fft4r_initialized r.2 = true /\
  (VerifyMfccConfig default_config = Some false -> r.1.2 = e' /\ r.2 = env') /\
  (VerifyMfccConfig default_config = Some true ->
   r.1.2 = mkMfccEngine default_config None None None None None /\
   r.2 = credit env' (held e') /\
   Heap.free (heap r.2) = Heap.free (heap env') + held e' /\
   deinit r.2 r.1.2 = (r.1.2, r.2)).
Proof.
  apply (init_twice roomy_env default_config blank_engine
           (mkMfccEngine default_config (Some 512) (Some 26) (Some 288) (Some 24)
              (Some 512))
           (mkEnv (Heap.mk 96204 false) true (fun _ => true) flat_libm)
           default_config);
    vm_compute; reflexivity.
Defined.

(** X12.  [deinit] undoes [init]: after a successful [init] of an engine
    that held no buffer, [deinit] hands back every byte, shuts the FFT
    driver down and leaves the engine without buffers, so that the same
    [init] succeeds again with the same result; and [deinit] on an engine
    whose DCT table is null changes nothing, so that calling it twice is
    harmless. *)
Theorem deinit_undoes_init env config e e' env' :
  release e = e ->
  init env config e = Some (true, e', env') ->
  (deinit env' e').1 = mkMfccEngine config None None None None None /\
  Heap.free (heap (deinit env' e').2) = Heap.free (heap env) /\
  dsps_fft4r_initialized (deinit env' e').2 = false /\
  deinit (deinit env' e').2 (deinit env' e').1 = deinit env' e' /\
  init (deinit env' e').2 config (deinit env' e').1 = Some (true, e', env').
Proof.
  intros He H.
  destruct (init_true_env _ _ _ _ _ H) as (_ & _ & Hv).
  destruct (released_held e He) as (E1 & E2 & E3 & E4 & E5 & E6).
  pose proof H as H0. unfold init in H0.
  rewrite Hv, E1, E2, E3, E4, E5 in H0.
  cbn [negb mbind option_bind default from_option] in H0.
  rewrite ?Z.mul_0_r in H0.
  apply bind_Some in H0 as (l & Hl & H0).
  unfold Heap.new_array, Heap.give in H0.
  destruct (_ && _) eqn:A1 in H0; [|discriminate].
  apply bind_Some in H0 as (w & Hw & H0).
  apply bind_Some in H0 as (positions & Hp & H0).
  cbn [Heap.free Heap.malloc_zero] in H0. rewrite ?Z.add_0_r in H0.
  destruct (_ && _) eqn:A2 in H0; [|discriminate].
  apply bind_Some in H0 as (p & Hpw & H0).
  apply bind_Some in H0 as (cells & Hc & H0).
  cbn [Heap.free Heap.malloc_zero] in H0. rewrite ?Z.add_0_r in H0.
  destruct (_ && _) eqn:A3 in H0; [|discriminate].
  apply bind_Some in H0 as (d & Hd & H0).
  cbn [Heap.free Heap.malloc_zero] in H0. rewrite ?Z.add_0_r in H0.
  destruct (_ && _) eqn:A4 in H0; [|discriminate].
  cbn [Heap.free Heap.malloc_zero] in H0. rewrite ?Z.add_0_r in H0.
  destruct (_ && _) eqn:A5 in H0; [|discriminate].
  destruct (dsps_fft4r_initialized env) eqn:Hidle; [discriminate|].
  apply bind_Some in H0 as (half & Hh & H0).
  destruct (dsps_fft4r_init_fc32 env half) eqn:Hdsp; cbn [negb] in H0; [|discriminate].
  injection H0 as <- <-.
  unfold deinit, held, release.
  cbn [dctII_table_ window_ mel_position_ mel_data_ fft_data_ mfcc_config_
       heap dsps_fft4r_init_fc32 dsps_fft4r_initialized libm Heap.free
       Heap.malloc_zero fst snd].
  unfold default, from_option, Datatypes.id.
  set (env0 := mkEnv _ false _ _).
  assert (F1 : Heap.free (heap env0) = Heap.free (heap env)) by (cbn; lia).
  assert (F2 : Heap.malloc_zero (heap env0) = Heap.malloc_zero (heap env)) by done.
  assert (F3 : dsps_fft4r_initialized env0 = false) by done.
  assert (F4 : dsps_fft4r_init_fc32 env0 = dsps_fft4r_init_fc32 env) by done.
  assert (F5 : libm env0 = libm env) by done.
  clearbody env0.
  split; [done|]. split; [clear; lia|]. split; [done|]. split; [done|].
  unfold init. rewrite Hv. cbn [negb mbind option_bind]. rewrite Hl.
  cbn [mbind option_bind window_ mel_position_ dctII_table_ mel_data_ fft_data_
       default from_option].
  rewrite ?Z.mul_0_r.
  unfold Heap.new_array, Heap.give. cbn [Heap.free Heap.malloc_zero].
  rewrite F1, F2, F3, F4, F5.
  rewrite A1. rewrite Hw. cbn [mbind option_bind].
  rewrite Hp. cbn [mbind option_bind Heap.free Heap.malloc_zero].
  rewrite ?Z.add_0_r.
  rewrite A2. rewrite Hpw. cbn [mbind option_bind].
  rewrite Hc. cbn [mbind option_bind Heap.free Heap.malloc_zero].
  rewrite ?Z.add_0_r.
  rewrite A3. rewrite Hd. cbn [mbind option_bind Heap.free Heap.malloc_zero].
  rewrite ?Z.add_0_r.
  rewrite A4. cbn [Heap.free Heap.malloc_zero]. rewrite ?Z.add_0_r. rewrite A5.
  rewrite Hh. cbn [mbind option_bind]. rewrite Hdsp. cbn [negb].
  rewrite ?Z.add_0_r. done.
Qed.

Lemma deinit_undoes_init_witness :
  let e' := mkMfccEngine default_config (Some 512) (Some 26) (Some 288) (Some 24)
              (Some 512) in
  let env' := mkEnv (Heap.mk 96204 false) true (fun _ => true) flat_libm in
  (deinit env' e').1 = mkMfccEngine default_config None None None None None /\
  Heap.free (heap (deinit env' e').2) = Heap.free (heap roomy_env) /\
  dsps_fft4r_initialized (deinit env' e').2 = false /\
  deinit (deinit env' e').2 (deinit env' e').1 = deinit env' e' /\
  init (deinit env' e').2 default_config (deinit env' e').1 = Some (true, e', env').
Proof.
  apply (deinit_undoes_init roomy_env default_config blank_engine);
    vm_compute; reflexivity.
Defined.

End EngineLife.

(** ** Building a feature from coefficients (MfccEngine::create) *)

Section CreateFacts.

Import Mfcc Create.

Lemma length_fresh {A : Type} (junk : Z -> A) cells :
  0 <= cells -> Z.of_nat (length (fresh junk cells)) = cells.
Proof. intros H. unfold fresh. rewrite length_fmap, length_seqZ. lia. Qed.




(** Whatever [create] returns as a feature is well formed. *)
Lemma create_mfccs_wf h junk mfccs frame_num coef_num f :
  0 < frame_num -> 0 < coef_num -> frame_num * coef_num <= CInt.INT32_MAX ->
  Z.of_nat (length mfccs) = frame_num * coef_num ->
  create_mfccs h junk mfccs frame_num coef_num = Some (Some f) ->
  wf_feature f /\ frame_num_ f = frame_num /\ coef_num_ f = coef_num /\
  Heap.malloc h (2 * frame_num * coef_num) = true.
Proof.
  intros Hf Hc Hmax Hsrc H.
  assert (Hroom : CInt.u32 (2 * frame_num * coef_num) = 2 * frame_num * coef_num).
  { apply u32_small. change (2 ^ 32) with 4294967296.
    unfold CInt.INT32_MAX in *. lia. }
  assert (Hhalf : 2 * frame_num * coef_num / 2 = frame_num * coef_num).
  { replace (2 * frame_num * coef_num) with (frame_num * coef_num * 2) by lia.
    apply Z.div_mul. lia. }
  unfold create_mfccs in H. rewrite Hroom, Hhalf in H.
  destruct (Heap.malloc h _) eqn:Em; cbn [negb] in H; [|discriminate].
  apply bind_Some in H as (dest & Hnorm & H). injection H as <-.
  cbn [frame_num_ coef_num_]. split; [|done].
  unfold normalize in Hnorm.
  apply bind_Some in Hnorm as (mean_val & _ & Hnorm).
  apply bind_Some in Hnorm as (stddev & _ & Hfill).
  pose proof (length_fresh junk (frame_num * coef_num) ltac:(lia)) as Hlen.
  pose proof (fill_Some _ _ _ _ _ _ Hf Hc Hfill) as [Hlen' Hcells].
  unfold wf_feature. cbn [frame_num_ coef_num_ feature_].
  repeat split; try done; try lia.
  apply Forall_lookup. intros k t Hk.
  pose proof (lookup_lt_Some _ _ _ Hk) as Hlt.
  pose proof (Z.div_mod (Z.of_nat k) coef_num ltac:(lia)) as Hdm.
  pose proof (Z.mod_pos_bound (Z.of_nat k) coef_num Hc) as Hm.
  assert (Hq : 0 <= Z.of_nat k / coef_num < frame_num).
  { split; [apply Z.div_pos; lia|]. apply Z.div_lt_upper_bound; lia. }
  destruct (Hcells _ _ Hq Hm) as (x & t' & _ & Ht & Hd).
  replace (Z.of_nat k / coef_num * coef_num + Z.of_nat k `mod` coef_num)
    with (Z.of_nat k) in Hd by lia.
  apply get_Some in Hd as [_ Hd]. rewrite Nat2Z.id in Hd.
  assert (t' = t) as -> by congruence.
  now apply saturate_Some in Ht.
Qed.

(** X14.  A feature that [create] has built from coefficients can be
    stored and read back: on a writable volume with room for the file
    [saveFile] succeeds, and [loadFile], given room for the matrix, then
    returns the very feature. *)
Theorem create_save_load h junk mfccs frame_num coef_num f h' fs path :
  0 < frame_num -> 0 < coef_num -> frame_num * coef_num <= CInt.INT32_MAX ->
  Z.of_nat (length mfccs) = frame_num * coef_num ->
  create_mfccs h junk mfccs frame_num coef_num = Some (Some f) ->
  FS.read_only fs = false -> 9 + 2 * frame_num * coef_num <= FS.free fs ->
  Heap.malloc h' (2 * frame_num * coef_num) = true ->
  exists fs', saveFile fs path f = Some (true, fs') /\
              loadFile h' fs' path = Some (Some f).
Proof.
  intros Hf Hc Hmax Hsrc Hcreate Hrw Hfree Hheap.
  destruct (create_mfccs_wf _ _ _ _ _ _ Hf Hc Hmax Hsrc Hcreate)
    as (Hwf & Hfn & Hcn & _).
  destruct (saveFile_room fs path f Hwf Hrw) as (fs' & Hsave & Himg);
    [rewrite Hfn, Hcn; lia|].
  exists fs'. split; [done|].
  apply loadFile_image; [done|done|rewrite Hfn, Hcn; done].
Qed.

Lemma create_save_load_witness :
  exists fs',
    saveFile empty_volume "wakeword.bin" (mkMfccFeature 2 2 [-600; -577; -553; 1731])
      = Some (true, fs') /\
    loadFile roomy_heap fs' "wakeword.bin"
      = Some (Some (mkMfccFeature 2 2 [-600; -577; -553; 1731])).
Proof.
  apply (create_save_load roomy_heap (fun _ => 7) small_matrix 2 2
           (mkMfccFeature 2 2 [-600; -577; -553; 1731]) roomy_heap empty_volume
           "wakeword.bin"); vm_compute; congruence.
Defined.

End CreateFacts.

(** ** VAD engine: from [init] to detection *)

(** Arithmetic that stays within the [int] range. *)
Ltac int_steps :=
  repeat (rewrite int_of_in by (unfold CInt.INT32_MIN, CInt.INT32_MAX in *; lia);
          cbn [mbind option_bind]).

Section VadRuns.

Import Vad VadLife.

Variable classifier : list frame -> frame -> Z -> Z -> bool.

(** What a successful [init] has checked, and the engine it leaves. *)
Lemma init_true vad_create config o o' :
  init vad_create config o = (true, o') ->
  is_null o = true /\
  (sample_rate config = 8000 \/ sample_rate config = 16000) /\
  0 <= hangbefore_ms config /\ 0 <= decision_time_ms config /\
  0 <= hangover_ms config /\ vad_create (vad_mode config) = true /\
  o' = mkVadObject false (mkVadEngine [] config VadState.Warmup 0 0 false).
Proof.
  unfold init. intros H.
  destruct (is_null o); cbn [negb] in H; [|discriminate].
  change (negb (frame_time_ms =? 10)) with false in H. cbv iota in H.
  destruct (_ && _) eqn:E1 in H; [discriminate|].
  destruct (_ || _) eqn:E2 in H; [discriminate|].
  destruct (vad_create _) eqn:E3; cbn [negb] in H; [|discriminate].
  injection H as <-.
  apply orb_false_iff in E2 as [E2 E2c]. apply orb_false_iff in E2 as [E2a E2b].
  apply Z.ltb_ge in E2a, E2b, E2c.
  repeat split; try done.
  apply andb_false_iff in E1 as [E1|E1]; apply negb_false_iff, Z.eqb_eq in E1; auto.
Qed.

Lemma ms_length_bound ms c l :
  ms_length ms c = Some l -> -2147484 <= l <= 2147484.
Proof.
  unfold ms_length. intros H. apply bind_Some in H as (p & Hp & H).
  apply int_of_Some in Hp as [-> Hp]. unfold CInt.div in H. cbn in H.
  apply int_of_Some in H as [-> _].
  unfold CInt.INT32_MIN, CInt.INT32_MAX in Hp.
  pose proof (Z.quot_le_mono (ms * sample_rate c) 2147483647 1000 ltac:(lia) ltac:(lia)).
  pose proof (Z.quot_le_mono (-2147483648) (ms * sample_rate c) 1000 ltac:(lia) ltac:(lia)).
  change (2147483647 ÷ 1000) with 2147483 in *.
  change (-2147483648 ÷ 1000) with (-2147483) in *. lia.
Qed.

Lemma DivCeil_defined dl fl :
  -2147484 <= dl <= 2147484 -> 0 < fl <= 2147484 ->
  exists pc, DivCeil dl fl = Some pc.
Proof.
  intros Hdl Hfl. unfold DivCeil, CInt.add, CInt.sub, CInt.div.
  rewrite int_of_in by (unfold CInt.INT32_MIN, CInt.INT32_MAX; lia).
  cbn [mbind option_bind].
  rewrite int_of_in by (unfold CInt.INT32_MIN, CInt.INT32_MAX; lia).
  cbn [mbind option_bind].
  replace (fl =? 0) with false by (symmetry; apply Z.eqb_neq; lia).
  rewrite int_of_in; [eauto|].
  assert (Z.abs ((dl + fl - 1) ÷ fl) <= Z.abs (dl + fl - 1)).
  { rewrite <- Z.quot_abs by lia. rewrite (Z.abs_eq fl) by lia.
    apply Z.quot_le_upper_bound; [lia|].
    pose proof (Z.abs_nonneg (dl + fl - 1)). nia. }
  unfold CInt.INT32_MIN, CInt.INT32_MAX. lia.
Qed.

(** The [switch] is defined as long as [frame_count_] can be
    incremented. *)
Lemma transition_defined fl sl b e :
  0 < fl <= 2147484 -> lengths_fit (vad_config_ e) ->
  0 <= frame_count_ e < CInt.INT32_MAX ->
  0 <= state_count_ e <= CInt.INT32_MAX ->
  exists e', transition fl sl b e = Some e'.
Proof.
  intros Hfl ([wl Hwl] & [bl Hbl] & [dl Hdl] & [ol Hol]) Hfc Hsc.
  assert (Hinc : CInt.add (frame_count_ e) 1 = Some (frame_count_ e + 1)).
  { apply int_of_in. unfold CInt.INT32_MIN, CInt.INT32_MAX in *. lia. }
  unfold transition.
  destruct (vad_state_ e); try (eexists; reflexivity).
  - rewrite Hwl. cbn [mbind option_bind]. eauto.
  - destruct (has_satisfied_hangbefore_ e); cbn [negb].
    + destruct b; [|eauto]. rewrite Hinc. cbn [mbind option_bind]. eauto.
    + rewrite Hinc, Hbl. cbn [mbind option_bind]. eauto.
  - destruct b.
    + rewrite Hdl. cbn [mbind option_bind].
      destruct (DivCeil_defined dl fl) as [pc ->];
        [eapply ms_length_bound; eauto|done|].
      cbn [mbind option_bind]. rewrite Hinc. cbn [mbind option_bind]. eauto.
    + unfold CInt.sub.
      rewrite int_of_in by (unfold CInt.INT32_MIN, CInt.INT32_MAX in *; lia).
      cbn [mbind option_bind]. eauto.
  - rewrite Hinc. cbn [mbind option_bind]. eauto.
  - rewrite Hinc. cbn [mbind option_bind]. destruct b; [eauto|].
    rewrite Hol. cbn [mbind option_bind].
    destruct (DivCeil_defined ol fl) as [pc ->];
      [eapply ms_length_bound; eauto|done|].
    cbn [mbind option_bind]. eauto.
Qed.

(** A call of [process] is undefined only when a counter overflows. *)
Lemma process_defined e data fl :
  frame_length (vad_config_ e) = Some fl -> 0 < fl ->
  lengths_fit (vad_config_ e) ->
  0 <= state_count_ e -> 0 <= frame_count_ e < CInt.INT32_MAX ->
  fl * (state_count_ e + 1) <= CInt.INT32_MAX ->
  exists st e', process classifier e data = Some (st, e').
Proof.
  intros Hfl Hpos Hfit Hsc Hfc Hroom.
  pose proof (ms_length_bound _ _ _ Hfl) as Hb.
  unfold process. rewrite Hfl. cbn [mbind option_bind].
  unfold CInt.add, CInt.mul.
  rewrite int_of_in by (unfold CInt.INT32_MIN, CInt.INT32_MAX in *; nia).
  cbn [mbind option_bind].
  rewrite int_of_in by (unfold CInt.INT32_MIN, CInt.INT32_MAX in *; nia).
  cbn [mbind option_bind].
  destruct (classify classifier e data) as [b inst].
  destruct (transition_defined fl (fl * (state_count_ e + 1)) b
              (set_inst inst (set_state_count (state_count_ e + 1) e)))
    as [e' He']; cbn [vad_config_ frame_count_ state_count_ set_inst set_state_count];
    try done; try (unfold CInt.INT32_MAX in *; nia).
  rewrite He'. cbn [mbind option_bind]. eauto.
Qed.

(** A call moves each counter up by one at most, and keeps the
    configuration. *)
Lemma process_counts e data st e' :
  0 <= state_count_ e -> 0 <= frame_count_ e ->
  process classifier e data = Some (st, e') ->
  state_count_ e' <= state_count_ e + 1 /\ frame_count_ e' <= frame_count_ e + 1 /\
  vad_config_ e' = vad_config_ e.
Proof.
  intros Hsc Hfc H. apply process_Some in H as (fl & sl & _ & _ & _ & _ & Ht).
  pose proof (transition_inst _ _ _ _ _ Ht) as [_ Hc]. cbn in Hc.
  split; [|split; [|done]].
  - unfold transition in Ht. cbn in Ht.
    destruct (vad_state_ e); vad_cases; cbn; lia.
  - unfold transition in Ht. cbn in Ht.
    destruct (vad_state_ e); vad_cases; cbn in *; try lia.
Qed.

Lemma run_defined frames : forall e fl,
  frame_length (vad_config_ e) = Some fl -> 0 < fl ->
  lengths_fit (vad_config_ e) -> vad_inv e ->
  fl * (state_count_ e + Z.of_nat (length frames)) <= CInt.INT32_MAX ->
  frame_count_ e + Z.of_nat (length frames) <= CInt.INT32_MAX ->
  exists e', run classifier e frames = Some e' /\ vad_inv e' /\
    state_count_ e' <= state_count_ e + Z.of_nat (length frames) /\
    frame_count_ e' <= frame_count_ e + Z.of_nat (length frames) /\
    vad_config_ e' = vad_config_ e.
Proof.
  induction frames as [|data rest IH]; intros e fl Hfl Hpos Hfit Hinv Hsc Hfc.
  - exists e. cbn [run length].
    split; [done|]. split; [done|]. split; [lia|]. split; [lia|done].
  - pose proof Hinv as (Hf0 & Hs0 & _). cbn [length] in Hsc, Hfc.
    destruct (process_defined e data fl) as (st & e1 & Hp); try done;
      try (unfold CInt.INT32_MAX in *; nia).
    pose proof (process_inv classifier _ _ _ _ Hinv Hp) as Hinv1.
    destruct (process_counts _ _ _ _ Hs0 ltac:(lia) Hp) as (Hs1 & Hf1 & Hc1).
    destruct (IH e1 fl) as (e' & Hrun & Hinv' & Hs' & Hf' & Hc'); try done;
      try (rewrite Hc1; done); try (unfold CInt.INT32_MAX in *; nia).
    exists e'. cbn [run]. rewrite Hp. cbn [mbind option_bind snd].
    split; [done|]. split; [done|]. cbn [length].
    split; [lia|]. split; [lia|]. congruence.
Qed.

Lemma run_from_warmup config fl frames :
  frame_length config = Some fl -> 0 < fl -> lengths_fit config ->
  fl * Z.of_nat (length frames) <= CInt.INT32_MAX ->
  exists e, run classifier (mkVadEngine [] config VadState.Warmup 0 0 false) frames
            = Some e /\
    reachable classifier e /\
    0 <= state_count_ e <= Z.of_nat (length frames) /\
    0 <= frame_count_ e <= Z.of_nat (length frames).
Proof.
  intros Hfl Hpos Hfit Hroom.
  set (e0 := mkVadEngine [] config VadState.Warmup 0 0 false).
  assert (Hreach : reachable classifier e0)
    by apply (reachable_reset classifier (mkVadEngine [] config VadState.None 0 0 false)).
  assert (Hinv0 : vad_inv e0) by exact (vad_inv_reset e0).
  destruct (run_defined frames e0 fl Hfl Hpos Hfit Hinv0)
    as (e & Hrun & Hinv & Hs & Hf & _).
  { cbn [state_count_ e0]. exact Hroom. }
  { cbn [frame_count_ e0]. unfold CInt.INT32_MAX in *. nia. }
  exists e. split; [done|]. split; [eapply run_reachable; eauto|].
  destruct Hinv as (Hf0 & Hs0 & _). cbn in Hs, Hf. lia.
Qed.

(** X15.  After a successful [init] with a configuration whose four
    lengths can be computed, no [process] call is undefined, whatever the
    classifier answers, as long as [frame_length] times the number of calls
    made fits an [int] (13421772 calls at 16000 Hz): the only undefined
    step left in [process] is the overflow of a counter. *)
Theorem run_defined_after_init vad_create config o o' fl frames :
  init vad_create config o = (true, o') ->
  lengths_fit config -> frame_length config = Some fl ->
  fl * Z.of_nat (length frames) <= CInt.INT32_MAX ->
  exists e, run classifier (fields o') frames = Some e /\
    reachable classifier e /\
    0 <= state_count_ e <= Z.of_nat (length frames) /\
    0 <= frame_count_ e <= Z.of_nat (length frames).
Proof.
  intros Hinit Hfit Hfl Hroom.
  destruct (init_true _ _ _ _ Hinit) as (_ & Hrate & _ & _ & _ & _ & ->).
  cbn [fields].
  destruct (frame_length_rate config Hrate) as (fl' & Hfl' & Hpos).
  assert (fl' = fl) as -> by congruence.
  exact (run_from_warmup config fl frames Hfl Hpos Hfit Hroom).
Qed.

Lemma run_app frames1 : forall e frames2,
  run classifier e (frames1 ++ frames2)
  = e1 ← run classifier e frames1; run classifier e1 frames2.
Proof.
  induction frames1 as [|d rest IH]; intros e frames2; cbn [run app]; [done|].
  destruct (process classifier e d) as [[st e1]|]; cbn [mbind option_bind snd]; [|done].
  apply IH.
Qed.

(** [calls length fl] is the first call, counted from one, at which
    [fl * state_count_] has reached [length]. *)
Lemma calls_spec length fl :
  0 < fl ->
  1 <= calls length fl /\ length <= fl * calls length fl /\
  fl * calls length fl <= Z.max fl (length + fl - 1) /\
  forall k, 1 <= k < calls length fl -> fl * k < length.
Proof.
  intros Hfl. unfold calls.
  pose proof (Z.div_mod (length + fl - 1) fl ltac:(lia)) as Hdm.
  pose proof (Z.mod_pos_bound (length + fl - 1) fl Hfl) as Hm.
  set (q := (length + fl - 1) / fl) in *.
  destruct (Z.max_spec 1 q) as [[Hq ->]|[Hq ->]]; repeat split; try lia; try nia.
Qed.

(** The calls that do not consult the classifier. *)
Lemma process_warmup inst c sc fc data fl wl :
  frame_length c = Some fl -> warmup_length c = Some wl ->
  0 <= sc -> 0 <= fl * (sc + 1) <= CInt.INT32_MAX -> sc + 1 <= CInt.INT32_MAX ->
  process classifier (mkVadEngine inst c VadState.Warmup sc fc false) data
  = Some (if wl <=? fl * (sc + 1)
          then (VadState.Setup, mkVadEngine inst c VadState.Setup 0 fc false)
          else (VadState.Warmup, mkVadEngine inst c VadState.Warmup (sc + 1) fc false)).
Proof.
  intros Hfl Hwl Hsc Hroom Hmax. unfold process.
  cbn [vad_config_ state_count_]. rewrite Hfl. cbn [mbind option_bind].
  unfold CInt.add, CInt.mul. int_steps. unfold classify. cbn [has_satisfied_hangbefore_].
  unfold transition. cbn. rewrite Hwl. cbn [mbind option_bind].
  destruct (wl <=? fl * (sc + 1)); done.
Qed.

Lemma process_setup inst c sc fc data fl :
  frame_length c = Some fl ->
  0 <= sc -> 0 <= fl * (sc + 1) <= CInt.INT32_MAX -> sc + 1 <= CInt.INT32_MAX ->
  process classifier (mkVadEngine inst c VadState.Setup sc fc false) data
  = Some (VadState.Silence, mkVadEngine inst c VadState.Silence 0 fc false).
Proof.
  intros Hfl Hsc Hroom Hmax. unfold process.
  cbn [vad_config_ state_count_]. rewrite Hfl. cbn [mbind option_bind].
  unfold CInt.add, CInt.mul. int_steps. unfold classify. cbn [has_satisfied_hangbefore_].
  unfold transition. cbn. done.
Qed.

Lemma process_before inst c sc fc data fl bl :
  frame_length c = Some fl -> before_length c = Some bl ->
  0 <= sc -> 0 <= fl * (sc + 1) <= CInt.INT32_MAX -> sc + 1 <= CInt.INT32_MAX ->
  0 <= fc < CInt.INT32_MAX ->
  process classifier (mkVadEngine inst c VadState.Silence sc fc false) data
  = Some (VadState.Silence,
          mkVadEngine inst c VadState.Silence (sc + 1) (fc + 1) (bl <=? fl * (sc + 1))).
Proof.
  intros Hfl Hbl Hsc Hroom Hmax Hfc. unfold process.
  cbn [vad_config_ state_count_]. rewrite Hfl. cbn [mbind option_bind].
  unfold CInt.add, CInt.mul. int_steps. unfold classify. cbn [has_satisfied_hangbefore_].
  unfold transition. cbn. unfold CInt.add. int_steps. rewrite Hbl. cbn [mbind option_bind].
  destruct (bl <=? fl * (sc + 1)); done.
Qed.

(** Warmup: the calls before the one that leaves it. *)
Lemma run_warmup frames : forall inst c sc fc fl wl,
  frame_length c = Some fl -> warmup_length c = Some wl -> 0 < fl -> 0 <= sc ->
  (forall k, sc < k <= sc + Z.of_nat (length frames) -> fl * k < wl) ->
  run classifier (mkVadEngine inst c VadState.Warmup sc fc false) frames
  = Some (mkVadEngine inst c VadState.Warmup (sc + Z.of_nat (length frames)) fc false).
Proof.
  induction frames as [|d rest IH]; intros inst c sc fc fl wl Hfl Hwl Hpos Hsc Hlt.
  - cbn. now rewrite Z.add_0_r.
  - cbn [run]. pose proof (ms_length_bound _ _ _ Hwl) as Hb.
    pose proof (Hlt (sc + 1) ltac:(cbn [length]; lia)) as H1.
    rewrite (process_warmup _ _ _ _ _ fl wl) by (try done; unfold CInt.INT32_MAX; nia).
    replace (wl <=? fl * (sc + 1)) with false by (symmetry; apply Z.leb_gt; lia).
    cbn [mbind option_bind snd].
    rewrite (IH _ _ _ _ fl wl) by (try done; try lia; intros k Hk; apply Hlt;
                                     cbn [length]; lia).
    do 2 f_equal. cbn [length]. lia.
Qed.

(** Silence before the look-back time has passed. *)
Lemma run_before frames : forall inst c sc fc fl bl,
  frame_length c = Some fl -> before_length c = Some bl -> 0 < fl -> 0 <= sc ->
  0 <= fc -> fc + Z.of_nat (length frames) < CInt.INT32_MAX ->
  (forall k, sc < k <= sc + Z.of_nat (length frames) -> fl * k < bl) ->
  run classifier (mkVadEngine inst c VadState.Silence sc fc false) frames
  = Some (mkVadEngine inst c VadState.Silence (sc + Z.of_nat (length frames))
            (fc + Z.of_nat (length frames)) false).
Proof.
  induction frames as [|d rest IH]; intros inst c sc fc fl bl Hfl Hbl Hpos Hsc Hfc Hmax Hlt.
  - cbn. now rewrite !Z.add_0_r.
  - cbn [run]. pose proof (ms_length_bound _ _ _ Hbl) as Hb.
    pose proof (Hlt (sc + 1) ltac:(cbn [length]; lia)) as H1.
    cbn [length] in Hmax.
    rewrite (process_before _ _ _ _ _ fl bl) by (try done; unfold CInt.INT32_MAX in *; nia).
    replace (bl <=? fl * (sc + 1)) with false by (symmetry; apply Z.leb_gt; lia).
    cbn [mbind option_bind snd].
    rewrite (IH _ _ _ _ fl bl) by (try done; try lia; intros k Hk; apply Hlt;
                                     cbn [length]; lia).
    do 2 f_equal; cbn [length]; lia.
Qed.

Lemma split_last {A : Type} (l : list A) n :
  Z.of_nat (length l) = n + 1 -> 0 <= n ->
  exists l' x, l = l' ++ [x] /\ Z.of_nat (length l') = n.
Proof.
  intros Hlen Hn. destruct l as [|x l'] using rev_ind; [cbn in Hlen; lia|].
  exists l', x. split; [done|]. rewrite length_app in Hlen. cbn in Hlen. lia.
Qed.

(** From [reset()] into Setup, and from there into Silence. *)
Lemma run_to_silence inst c fl wl frames :
  frame_length c = Some fl -> warmup_length c = Some wl -> 0 < fl ->
  Z.of_nat (length frames) = calls wl fl + 1 ->
  run classifier (mkVadEngine inst c VadState.Warmup 0 0 false) frames
  = Some (mkVadEngine inst c VadState.Silence 0 0 false).
Proof.
  intros Hfl Hwl Hpos Hlen.
  destruct (calls_spec wl fl Hpos) as (Hw1 & Hreach & Hup & Hbefore).
  pose proof (ms_length_bound _ _ _ Hwl) as Hb.
  pose proof (ms_length_bound _ _ _ Hfl) as Hbf.
  destruct (split_last frames (calls wl fl) Hlen ltac:(lia)) as (l1 & y & -> & Hl1).
  destruct (split_last l1 (calls wl fl - 1) ltac:(lia) ltac:(lia)) as (l0 & x & -> & Hl0).
  rewrite !run_app.
  rewrite (run_warmup l0 _ _ _ _ fl wl) by (try done; try lia; intros k Hk; apply Hbefore; lia).
  cbn [mbind option_bind run]. rewrite Hl0.
  replace (0 + (calls wl fl - 1)) with (calls wl fl - 1) by lia.
  rewrite (process_warmup _ _ _ _ _ fl wl)
    by (try done; try lia; replace (calls wl fl - 1 + 1) with (calls wl fl) by lia;
        unfold CInt.INT32_MAX; nia).
  replace (calls wl fl - 1 + 1) with (calls wl fl) by lia.
  replace (wl <=? fl * calls wl fl) with true by (symmetry; apply Z.leb_le; lia).
  cbn [mbind option_bind snd].
  rewrite (process_setup _ _ _ _ _ fl) by (try done; unfold CInt.INT32_MAX; lia).
  done.
Qed.

(** The first calls in Silence collect the look-back frames. *)
Lemma run_hangbefore inst c fl bl frames :
  frame_length c = Some fl -> before_length c = Some bl -> 0 < fl ->
  Z.of_nat (length frames) = calls bl fl ->
  run classifier (mkVadEngine inst c VadState.Silence 0 0 false) frames
  = Some (mkVadEngine inst c VadState.Silence (calls bl fl) (calls bl fl) true).
Proof.
  intros Hfl Hbl Hpos Hlen.
  destruct (calls_spec bl fl Hpos) as (Hw1 & Hreach & Hup & Hbefore).
  pose proof (ms_length_bound _ _ _ Hbl) as Hb.
  pose proof (ms_length_bound _ _ _ Hfl) as Hbf.
  assert (Hcalls : calls bl fl <= 2147484 + 2147484) by nia.
  destruct (split_last frames (calls bl fl - 1) ltac:(lia) ltac:(lia)) as (l0 & x & -> & Hl0).
  rewrite run_app.
  rewrite (run_before l0 _ _ _ _ fl bl)
    by (try done; try lia; try (unfold CInt.INT32_MAX; lia);
        intros k Hk; apply Hbefore; lia).
  cbn [mbind option_bind run]. rewrite Hl0.
  replace (0 + (calls bl fl - 1)) with (calls bl fl - 1) by lia.
  rewrite (process_before _ _ _ _ _ fl bl)
    by (try done; try lia; replace (calls bl fl - 1 + 1) with (calls bl fl) by lia;
        unfold CInt.INT32_MAX; nia).
  replace (calls bl fl - 1 + 1) with (calls bl fl) by lia.
  replace (bl <=? fl * calls bl fl) with true by (symmetry; apply Z.leb_le; lia).
  done.
Qed.

(** X16.  The calls before detection starts.  After a successful [init],
    whatever the frames hold and whatever the classifier would answer, the
    first [w + 1 + b] calls of [process] end in Silence with the look-back
    time just satisfied, [b] frames counted and the classifier never
    consulted; [w] is the number of calls spent in Warmup and [b] the
    number of look-back frames, each the ceiling of the configured length
    over the frame length, and at least one. *)
Theorem init_reaches_silence vad_create config o o' fl wl bl frames :
  init vad_create config o = (true, o') ->
  frame_length config = Some fl -> warmup_length config = Some wl ->
  before_length config = Some bl ->
  Z.of_nat (length frames) = calls wl fl + 1 + calls bl fl ->
  run classifier (fields o') frames
  = Some (mkVadEngine [] config VadState.Silence (calls bl fl) (calls bl fl) true).
Proof.
  intros Hinit Hfl Hwl Hbl Hlen.
  destruct (init_true _ _ _ _ Hinit) as (_ & Hrate & _ & _ & _ & _ & ->).
  cbn [fields].
  destruct (frame_length_rate config Hrate) as (fl' & Hfl' & Hpos).
  assert (fl' = fl) as -> by congruence.
  destruct (calls_spec wl fl Hpos) as (Hw1 & _).
  destruct (calls_spec bl fl Hpos) as (Hb1 & _).
  rewrite <- (take_drop (Z.to_nat (calls wl fl + 1)) frames).
  rewrite run_app.
  rewrite (run_to_silence _ _ fl wl) by (try done; rewrite length_take; lia).
  cbn [mbind option_bind].
  apply (run_hangbefore _ _ fl bl); try done. rewrite length_drop. lia.
Qed.

End VadRuns.

Section QuietRoom.

Import Vad VadLife.

(** In Silence, with a classifier that never hears speech, a call only
    counts; it is undefined exactly when [frame_length * state_count_]
    overflows. *)
Lemma quiet_step e data fl :
  vad_state_ e = VadState.Silence ->
  frame_length (vad_config_ e) = Some fl -> 0 < fl ->
  is_Some (before_length (vad_config_ e)) ->
  0 <= frame_count_ e <= state_count_ e ->
  (fl * (state_count_ e + 1) <= CInt.INT32_MAX ->
   exists e', process never e data = Some (VadState.Silence, e') /\
     vad_state_ e' = VadState.Silence /\
     state_count_ e' = state_count_ e + 1 /\
     0 <= frame_count_ e' <= state_count_ e + 1 /\
     vad_config_ e' = vad_config_ e) /\
  (CInt.INT32_MAX < fl * (state_count_ e + 1) -> process never e data = None).
Proof.
  intros Hst Hfl Hpos [bl Hbl] Hfc. split.
  - intros Hroom. unfold process. rewrite Hfl. cbn [mbind option_bind].
    unfold CInt.add, CInt.mul.
    rewrite (int_of_in (state_count_ e + 1))
      by (unfold CInt.INT32_MIN, CInt.INT32_MAX in *; nia).
    cbn [mbind option_bind].
    rewrite (int_of_in (fl * (state_count_ e + 1)))
      by (unfold CInt.INT32_MIN, CInt.INT32_MAX in *; nia).
    cbn [mbind option_bind].
    unfold classify, vad_process, never, transition.
    destruct (has_satisfied_hangbefore_ e) eqn:Eh; cbn; rewrite Hst, Eh; cbn.
    + rewrite ?Hst. eexists. split; [reflexivity|]. cbn. rewrite ?Hst.
      repeat split; lia.
    + unfold CInt.add.
      rewrite int_of_in by (unfold CInt.INT32_MIN, CInt.INT32_MAX in *; nia).
      cbn [mbind option_bind]. rewrite Hbl. cbn [mbind option_bind].
      destruct (bl <=? _); cbn; rewrite ?Hst;
        (eexists; split; [reflexivity|]; cbn; rewrite ?Hst; repeat split; lia).
  - intros Hover. unfold process. rewrite Hfl. cbn [mbind option_bind].
    unfold CInt.add, CInt.mul.
    destruct (CInt.int_of (state_count_ e + 1)) as [sc|] eqn:Esc; [|done].
    apply int_of_Some in Esc as [-> _]. cbn [mbind option_bind].
    unfold CInt.int_of, CInt.in_int.
    replace (fl * (state_count_ e + 1) <=? CInt.INT32_MAX) with false
      by (symmetry; apply Z.leb_gt; lia).
    rewrite andb_false_r. done.
Qed.

Lemma quiet_run frames : forall e fl,
  vad_state_ e = VadState.Silence ->
  frame_length (vad_config_ e) = Some fl -> 0 < fl ->
  is_Some (before_length (vad_config_ e)) ->
  0 <= frame_count_ e <= state_count_ e ->
  fl * state_count_ e <= CInt.INT32_MAX ->
  (is_Some (run never e frames)
   <-> fl * (state_count_ e + Z.of_nat (length frames)) <= CInt.INT32_MAX).
Proof.
  induction frames as [|d rest IH]; intros e fl Hst Hfl Hpos Hbl Hfc Hnow.
  - cbn. rewrite Z.add_0_r. split; [done|eauto].
  - destruct (quiet_step e d fl Hst Hfl Hpos Hbl Hfc) as [Hok Hover].
    cbn [run length].
    destruct (Z_le_gt_dec (fl * (state_count_ e + 1)) CInt.INT32_MAX) as [Hroom|Hroom].
    + destruct (Hok Hroom) as (e' & Hp & Hst' & Hsc' & Hfc' & Hc').
      rewrite Hp. cbn [mbind option_bind snd].
      rewrite (IH e' fl) by (try done; try (rewrite Hc'; done); try lia;
                             rewrite Hsc'; done).
      rewrite Hsc'.
      replace (state_count_ e + 1 + Z.of_nat (length rest))
        with (state_count_ e + Z.of_nat (S (length rest))) by lia. done.
    + rewrite (Hover ltac:(lia)). cbn [mbind option_bind]. split.
      * intros [? ?]. discriminate.
      * intros H. nia.
Qed.

(** X17.  The overflow that ends a long silence.  With a classifier that
    never hears speech the engine stays in Silence, where [state_count_]
    is incremented by every call and never cleared: after a successful
    [init], a sequence of [process] calls is defined exactly when it is no
    longer than [w + 1 + INT_MAX / frame_length] calls ([w] the calls spent
    in Warmup); the next call multiplies [frame_length] by a
    [state_count_] that no longer fits an [int]. *)
Theorem quiet_run_overflows vad_create config o o' fl wl frames :
  init vad_create config o = (true, o') ->
  lengths_fit config -> frame_length config = Some fl ->
  warmup_length config = Some wl ->
  (is_Some (run never (fields o') frames)
   <-> Z.of_nat (length frames) <= calls wl fl + 1 + CInt.INT32_MAX / fl).
Proof.
  intros Hinit Hfit Hfl Hwl.
  destruct (init_true _ _ _ _ Hinit) as (_ & Hrate & _ & _ & _ & _ & Ho).
  destruct (frame_length_rate config Hrate) as (fl' & Hfl' & Hpos).
  assert (fl' = fl) as -> by congruence.
  destruct (calls_spec wl fl Hpos) as (Hw1 & _ & Hup & _).
  pose proof (ms_length_bound _ _ _ Hwl) as Hb.
  pose proof (ms_length_bound _ _ _ Hfl) as Hbf.
  assert (Hq : 0 <= CInt.INT32_MAX / fl)
    by (apply Z.div_pos; [unfold CInt.INT32_MAX|]; lia).
  destruct (Z_le_gt_dec (Z.of_nat (length frames)) (calls wl fl + 1)) as [Hshort|Hlong].
  - split; [lia|]. intros _.
    subst o'. cbn [fields].
    destruct (run_from_warmup never config fl frames Hfl Hpos Hfit)
      as (e & -> & _); [unfold CInt.INT32_MAX; nia|eauto].
  - subst o'. cbn [fields].
    rewrite <- (take_drop (Z.to_nat (calls wl fl + 1)) frames) at 1.
    rewrite run_app.
    rewrite (run_to_silence never _ _ fl wl) by (try done; rewrite length_take; lia).
    cbn [mbind option_bind].
    set (e1 := mkVadEngine [] config VadState.Silence 0 0 false).
    assert (Hrun : is_Some (run never e1 (drop (Z.to_nat (calls wl fl + 1)) frames))
                   <-> fl * (0 + Z.of_nat (length (drop (Z.to_nat (calls wl fl + 1)) frames)))
                       <= CInt.INT32_MAX).
    { apply (quiet_run _ e1 fl); cbn [e1 state_count_ frame_count_ vad_config_ vad_state_];
        try done; try lia.
      - destruct Hfit as (_ & ? & _). done.
      - unfold CInt.INT32_MAX. lia. }
    rewrite Hrun. rewrite length_drop.
    replace (0 + Z.of_nat (length frames - Z.to_nat (calls wl fl + 1)))
      with (Z.of_nat (length frames) - (calls wl fl + 1)) by lia.
    split.
    + intros H.
      assert (Z.of_nat (length frames) - (calls wl fl + 1) <= CInt.INT32_MAX / fl)
        by (apply Z.div_le_lower_bound; lia).
      lia.
    + intros H.
      pose proof (Z.mul_div_le CInt.INT32_MAX fl Hpos). nia.
Qed.

End QuietRoom.

Lemma run_defined_after_init_witness :
  exists e, Vad.run Vad.loud
              (VadLife.fields
                 (VadLife.mkVadObject false
                    (Vad.mkVadEngine [] Vad.default_config Vad.VadState.Warmup 0 0 false)))
              Vad.onset_frames = Some e /\
    Vad.reachable Vad.loud e /\
    0 <= Vad.state_count_ e <= Z.of_nat (length Vad.onset_frames) /\
    0 <= Vad.frame_count_ e <= Z.of_nat (length Vad.onset_frames).
Proof.
  apply (run_defined_after_init Vad.loud (fun _ => true) Vad.default_config VadLife.blank
           (VadLife.mkVadObject false
              (Vad.mkVadEngine [] Vad.default_config Vad.VadState.Warmup 0 0 false))
           160 Vad.onset_frames).
  - reflexivity.
  - unfold VadLife.lengths_fit. vm_compute. eauto 10.
  - reflexivity.
  - vm_compute. congruence.
Defined.

Lemma init_reaches_silence_witness :
  Vad.run Vad.loud
    (VadLife.fields
       (VadLife.mkVadObject false
          (Vad.mkVadEngine [] Vad.default_config Vad.VadState.Warmup 0 0 false)))
    (replicate 12 [1])
  = Some (Vad.mkVadEngine [] Vad.default_config Vad.VadState.Silence
            (VadLife.calls 1600 160) (VadLife.calls 1600 160) true).
Proof.
  apply (init_reaches_silence Vad.loud (fun _ => true) Vad.default_config VadLife.blank
           (VadLife.mkVadObject false
              (Vad.mkVadEngine [] Vad.default_config Vad.VadState.Warmup 0 0 false))
           160 0 1600 (replicate 12 [1])); reflexivity.
Defined.

Lemma quiet_run_overflows_witness :
  is_Some (Vad.run VadLife.never
             (VadLife.fields
                (VadLife.mkVadObject false
                   (Vad.mkVadEngine [] Vad.default_config Vad.VadState.Warmup 0 0 false)))
             (replicate 5 []))
  <-> Z.of_nat (length (replicate 5 ([] : Vad.frame)))
      <= VadLife.calls 0 160 + 1 + CInt.INT32_MAX / 160.
Proof.
  apply (quiet_run_overflows (fun _ => true) Vad.default_config VadLife.blank
           (VadLife.mkVadObject false
              (Vad.mkVadEngine [] Vad.default_config Vad.VadState.Warmup 0 0 false))
           160 0 (replicate 5 [])).
  - reflexivity.
  - unfold VadLife.lengths_fit. vm_compute. eauto 10.
  - reflexivity.
  - reflexivity.
Defined.

(** ** Detection into a buffer *)

Section Copies.

Import Vad Detect.

Lemma copy_from_spec (src dest : list Z) count result :
  0 <= result -> 0 <= count -> count <= Z.of_nat (length src) ->
  result + count <= Z.of_nat (length dest) ->
  copy_from src count dest result
  = Some (take (Z.to_nat result) dest ++ take (Z.to_nat count) src
          ++ drop (Z.to_nat (result + count)) dest).
Proof.
  intros Hr Hc Hsrc Hdest. unfold copy_from.
  match goal with |- Loop.for_range _ _ ?body _ = _ =>
    destruct (for_range_total
                (fun k d => d = take (Z.to_nat result) dest ++ take (Z.to_nat k) src
                                ++ drop (Z.to_nat (result + k)) dest)
                0 count body dest) as (r & Hrun & ->)
  end; [lia| | |done].
  - cbv beta. rewrite Z.add_0_r. change (Z.to_nat 0) with 0%nat. rewrite take_0. cbn [app]. symmetry. apply take_drop.
  - intros k d Hk ->.
    destruct (lookup_lt_is_Some_2 src (Z.to_nat k)) as [x Hx]; [lia|].
    assert (Hget : Loop.get src k = Some x) by (apply get_Some; split; [lia|done]).
    rewrite Hget. cbn [mbind option_bind]. eexists. split.
    + apply set_Some. split; [|reflexivity].
      rewrite !length_app, !length_take, length_drop. lia.
    + replace (Z.to_nat (result + k))
        with (length (take (Z.to_nat result) dest ++ take (Z.to_nat k) src) + 0)%nat
        by (rewrite length_app, !length_take; lia).
      rewrite app_assoc. rewrite insert_app_r.
      rewrite <- app_assoc. f_equal.
      replace (Z.to_nat (k + 1)) with (S (Z.to_nat k)) by lia.
      rewrite (take_S_r _ _ x) by done. rewrite <- app_assoc. f_equal. cbn [app].
      rewrite length_app, !length_take.
      replace (Z.to_nat result `min` length dest + Z.to_nat k `min` length src + 0)%nat
        with (Z.to_nat (result + k)) by lia.
      destruct (drop (Z.to_nat (result + k)) dest) as [|y rest] eqn:Ed.
      { apply (f_equal length) in Ed. rewrite length_drop in Ed. cbn in Ed. lia. }
      cbn. f_equal.
      replace (Z.to_nat (result + (k + 1))) with (S (Z.to_nat (result + k))) by lia.
      rewrite <- (drop_drop _ 1 (Z.to_nat (result + k))) || idtac.
      change (S (Z.to_nat (result + k))) with (1 + Z.to_nat (result + k))%nat.
      rewrite Nat.add_comm, <- drop_drop, Ed. done.
Qed.

Lemma copy_within_spec (a : list Z) first count :
  0 <= first -> 0 <= count -> first + count <= Z.of_nat (length a) ->
  copy_within a first count 0
  = Some (take (Z.to_nat count) (drop (Z.to_nat first) a)
          ++ drop (Z.to_nat count) a).
Proof.
  intros Hf Hc Hlen. unfold copy_within.
  match goal with |- Loop.for_range _ _ ?body _ = _ =>
    destruct (for_range_total
                (fun k d => d = take (Z.to_nat k) (drop (Z.to_nat first) a)
                                ++ drop (Z.to_nat k) a)
                0 count body a) as (r & Hrun & ->)
  end; [lia| | |done].
  - cbv beta. change (Z.to_nat 0) with 0%nat. now rewrite take_0, drop_0.
  - intros k d Hk ->.
    destruct (lookup_lt_is_Some_2 a (Z.to_nat first + Z.to_nat k)) as [x Hx]; [lia|].
    assert (Hlt : length (take (Z.to_nat k) (drop (Z.to_nat first) a)) = Z.to_nat k)
      by (rewrite length_take, length_drop; lia).
    rewrite (proj2 (get_Some _ (first + k) x)).
    2:{ split; [lia|].
        rewrite lookup_app_r by (rewrite Hlt; lia).
        rewrite Hlt, lookup_drop. rewrite <- Hx. f_equal. lia. }
    cbn [mbind option_bind]. eexists. split.
    + apply set_Some. split; [|reflexivity].
      rewrite length_app, Hlt, length_drop. lia.
    + replace (Z.to_nat (0 + k))
        with (length (take (Z.to_nat k) (drop (Z.to_nat first) a)) + 0)%nat
        by (rewrite Hlt; lia).
      rewrite insert_app_r.
      replace (Z.to_nat (k + 1)) with (S (Z.to_nat k)) by lia.
      rewrite (take_S_r _ _ x) by (now rewrite lookup_drop).
      rewrite <- app_assoc. f_equal. cbn [app].
      destruct (drop (Z.to_nat k) a) as [|y rest] eqn:Ed.
      { apply (f_equal length) in Ed. rewrite length_drop in Ed. cbn in Ed. lia. }
      cbn. f_equal.
      change (S (Z.to_nat k)) with (1 + Z.to_nat k)%nat.
      rewrite Nat.add_comm, <- drop_drop, Ed. done.
Qed.

Lemma drop_tail_keep {A : Type} (x orig : list A) k m :
  length x = k -> (k <= m)%nat -> drop m (x ++ drop k orig) = drop m orig.
Proof.
  intros Hx Hm. rewrite drop_app_ge by lia. rewrite drop_drop. f_equal. lia.
Qed.

Lemma length_concat_uniform {A : Type} (n : nat) (cs : list (list A)) :
  Forall (fun c => length c = n) cs ->
  length (concat cs) = (n * length cs)%nat.
Proof.
  induction 1 as [|c cs Hc _ IH]; [cbn; lia|].
  cbn. rewrite length_app, IH, Hc. lia.
Qed.

Lemma drop_concat_uniform {A : Type} (n : nat) (cs : list (list A)) :
  Forall (fun c => length c = n) cs ->
  forall j, drop (n * j) (concat cs) = concat (drop j cs).
Proof.
  induction 1 as [|c cs Hc _ IH]; intros j.
  - cbn. now rewrite !drop_nil.
  - destruct j as [|j]; [now rewrite Nat.mul_0_r|].
    cbn [concat drop].
    replace (n * S j)%nat with (length c + n * j)%nat by lia.
    rewrite drop_app_add. apply IH.
Qed.

Lemma chunks_uniform fl (frames : list (list Z)) :
  Forall (fun d => Z.to_nat fl <= length d)%nat frames ->
  Forall (fun c => length c = Z.to_nat fl) (take (Z.to_nat fl) <$> frames).
Proof.
  intros H. apply Forall_fmap. eapply Forall_impl; [exact H|].
  intros d Hd. unfold compose. rewrite length_take. apply Nat.min_l, Hd.
Qed.

Lemma length_recent fl k (hist : list (list Z)) :
  0 <= fl -> 0 <= k <= Z.of_nat (length hist) ->
  Forall (fun d => Z.to_nat fl <= length d)%nat hist ->
  Z.of_nat (length (recent fl k hist)) = fl * k.
Proof.
  intros Hfl Hk Hall. unfold recent, frame in *.
  rewrite (length_concat_uniform (Z.to_nat fl)).
  - rewrite length_fmap, length_drop.
    rewrite Nat2Z.inj_mul, Z2Nat.id by lia. f_equal. lia.
  - apply chunks_uniform. now apply Forall_drop.
Qed.

Lemma recent_0 fl (hist : list (list Z)) : recent fl 0 hist = [].
Proof.
  unfold recent. change (Z.to_nat 0) with 0%nat.
  now rewrite Nat.sub_0_r, drop_all.
Qed.

Lemma recent_snoc fl k (hist : list (list Z)) d :
  0 <= k <= Z.of_nat (length hist) ->
  recent fl (k + 1) (hist ++ [d]) = recent fl k hist ++ take (Z.to_nat fl) d.
Proof.
  intros Hk. unfold recent, frame in *. rewrite length_app. cbn [length].
  replace (length hist + 1 - Z.to_nat (k + 1))%nat
    with (length hist - Z.to_nat k)%nat by lia.
  rewrite drop_app_le by lia.
  rewrite fmap_app, concat_app. cbn. now rewrite app_nil_r.
Qed.

Lemma recent_drop fl j k (hist : list (list Z)) :
  0 <= fl -> 0 <= j <= k -> k <= Z.of_nat (length hist) ->
  Forall (fun d => Z.to_nat fl <= length d)%nat hist ->
  drop (Z.to_nat (fl * j)) (recent fl k hist) = recent fl (k - j) hist.
Proof.
  intros Hfl Hj Hk Hall. unfold recent, frame in *.
  replace (Z.to_nat (fl * j)) with (Z.to_nat fl * Z.to_nat j)%nat by nia.
  rewrite (drop_concat_uniform (Z.to_nat fl))
    by (apply chunks_uniform; now apply Forall_drop).
  rewrite <- fmap_drop, drop_drop. do 3 f_equal. lia.
Qed.

End Copies.

Section DetectRuns.

Import Vad VadLife Detect.

Variable classifier : list frame -> frame -> Z -> Z -> bool.

Lemma process_steady e data st e' fl bl :
  frame_length (vad_config_ e) = Some fl -> 0 < fl ->
  before_length (vad_config_ e) = Some bl -> fl < bl ->
  steady e -> vad_state_ e <> VadState.Detected ->
  process classifier e data = Some (st, e') ->
  steady e' /\
  (frame_count_ e' = frame_count_ e + 1
   \/ st = VadState.Silence /\ 2 <= frame_count_ e' <= frame_count_ e
   \/ frame_count_ e' = 0 /\ frame_count_ e = 0).
Proof.
  intros Hfl Hpos Hbl Hlt (Hinv & Hsat & Hun) Hnd H.
  pose proof (process_inv classifier _ _ _ _ Hinv H) as Hinv'.
  apply process_Some in H as (fl' & sl & Hfl' & Hsl & Hsc & -> & Ht).
  rewrite Hfl in Hfl'. injection Hfl' as <-.
  apply mul_Some in Hsl as ->.
  destruct Hinv as (Hf & Hs & Hn & Hp).
  unfold steady, entry_count in *.
  unfold transition, classify in Ht. cbn in Ht. rewrite ?Hbl in Ht.
  split; [split; [exact Hinv'|]|]; clear Hinv'.
  - destruct (has_satisfied_hangbefore_ e) eqn:Eh;
      [destruct (Hsat eq_refl) as (Hw & Hu & Hsat'); clear Hun Hsat | specialize (Hun eq_refl); clear Hsat];
      (destruct (vad_state_ e) eqn:Est; try done);
      cbn in *; vad_cases; cbn in *; rewrite ?Est, ?Eh in *; cbn in *;
      try (split; [intros; try done; try (repeat split; (done || lia))
                  |intros; try done; try lia]).
    all: try (specialize (Hp eq_refl)).
    all: try lia.
    all: try (destruct Hun as [[[Hq|Hq] Hz]|[Hq Hz]]; try done).
    all: try (left; split; [tauto|lia]).
    all: try (right; split; [done|lia]).
    all: try (apply Z.leb_le in Heqb; repeat split; try done; nia).
  - destruct (has_satisfied_hangbefore_ e) eqn:Eh;
      [destruct (Hsat eq_refl) as (Hw & Hu & Hsat'); clear Hun Hsat | specialize (Hun eq_refl); clear Hsat];
      (destruct (vad_state_ e) eqn:Est; try done);
      cbn in *; vad_cases; cbn in *; rewrite ?Est, ?Eh in *; cbn in *.
    all: try (specialize (Hp eq_refl)).
    all: try (left; lia).
    all: try (right; left; split; [done|lia]).
    all: try (destruct Hun as [[[Hq|Hq] Hz]|[Hq Hz]]; try done).
    all: try (right; right; lia).
Qed.

Lemma eqb_false a b : a <> b -> VadState.eqb a b = false.
Proof.
  intros H. destruct (VadState.eqb a b) eqn:E; [|done].
  now apply VadState_eqb_eq in E.
Qed.

Lemma detect_step e dest length data hist fl bl st e' :
  frame_length (vad_config_ e) = Some fl -> 0 < fl ->
  before_length (vad_config_ e) = Some bl -> fl < bl ->
  steady e -> vad_state_ e <> VadState.Detected ->
  fl * (frame_count_ e + 1) <= length -> length <= CInt.INT32_MAX ->
  length <= Z.of_nat (List.length dest) ->
  fl <= Z.of_nat (List.length data) ->
  Forall (fun d => Z.to_nat fl <= List.length d)%nat hist ->
  frame_count_ e <= Z.of_nat (List.length hist) ->
  take (Z.to_nat (fl * frame_count_ e)) dest = recent fl (frame_count_ e) hist ->
  process classifier e data = Some (st, e') ->
  exists dest',
    detect classifier e dest length data
    = Some (if VadState.eqb st VadState.Detected then fl * frame_count_ e' else -1,
            e', dest') /\
    List.length dest' = List.length dest /\
    frame_count_ e' <= Z.of_nat (List.length (hist ++ [data])) /\
    take (Z.to_nat (fl * frame_count_ e')) dest'
    = recent fl (frame_count_ e') (hist ++ [data]).
Proof.
  intros Hfl Hpos Hbl Hlt Hst Hnd Hroom Hmax Hdest Hdata Hall Hfc Hwin Hp.
  destruct (process_steady _ _ _ _ _ _ Hfl Hpos Hbl Hlt Hst Hnd Hp) as [Hst' Hcase].
  pose proof Hst as ((Hf & Hs & _) & _). pose proof Hst' as ((Hf' & _) & _).
  clear Hst Hst' Hbl Hlt bl.
  assert (Hsl : 0 <= fl * frame_count_ e) by (apply Z.mul_nonneg_nonneg; lia).
  assert (Hsl' : 0 <= fl * frame_count_ e') by (apply Z.mul_nonneg_nonneg; lia).
  assert (Hfc1 : frame_count_ e + 1 <= CInt.INT32_MAX).
  { assert (1 * (frame_count_ e + 1) <= fl * (frame_count_ e + 1))
      by (apply Z.mul_le_mono_nonneg_r; lia). lia. }
  assert (Hup : fl * frame_count_ e' <= fl * (frame_count_ e + 1))
    by (apply Z.mul_le_mono_nonneg_l; lia).
  unfold detect. rewrite Hfl. cbn [mbind option_bind].
  unfold CInt.mul, CInt.add.
  rewrite (int_of_in (fl * frame_count_ e))
    by (unfold CInt.INT32_MIN, CInt.INT32_MAX in *; lia).
  cbn [mbind option_bind]. rewrite (eqb_false _ _ Hnd).
  rewrite (int_of_in (fl * frame_count_ e + fl))
    by (unfold CInt.INT32_MIN, CInt.INT32_MAX in *; lia).
  cbn [mbind option_bind].
  replace (length <? fl * frame_count_ e + fl) with false
    by (symmetry; apply Z.ltb_ge; lia).
  rewrite Hp. cbn [mbind option_bind].
  rewrite (int_of_in (frame_count_ e + 1))
    by (unfold CInt.INT32_MIN, CInt.INT32_MAX in *; lia).
  cbn [mbind option_bind].
  assert (Hret : forall d : list Z,
    (if VadState.eqb st VadState.Detected
     then CInt.int_of (fl * frame_count_ e') ≫= (fun r => Some (r, e', d))
     else Some (-1, e', d))
    = Some (if VadState.eqb st VadState.Detected then fl * frame_count_ e' else -1,
            e', d)).
  { intros d. destruct (VadState.eqb st VadState.Detected); [|done].
    rewrite int_of_in by (unfold CInt.INT32_MIN, CInt.INT32_MAX in *; lia). done. }
  rewrite length_app. cbn [List.length].
  destruct Hcase as [Hc|[[Hsil Hc]|[Hc Hz]]].
  - (* the frame is appended *)
    rewrite Hc, Z.eqb_refl.
    rewrite copy_from_spec by lia. cbn [mbind option_bind].
    rewrite <- Hc, Hret. eexists. split; [reflexivity|].
    assert (Hlen : List.length (take (Z.to_nat (fl * frame_count_ e)) dest)
                   = Z.to_nat (fl * frame_count_ e))
      by (rewrite length_take; lia).
    split; [|split; [lia|]].
    + rewrite !length_app, !length_take, length_drop. lia.
    + rewrite Hc, recent_snoc by lia. rewrite <- Hwin.
      rewrite app_assoc.
      rewrite take_app_length'; [done|].
      rewrite length_app, Hlen, length_take. lia.
  - (* a run of speech frames is retracted, or the window slides *)
    replace (frame_count_ e + 1 =? frame_count_ e') with false
      by (symmetry; apply Z.eqb_neq; lia).
    rewrite (proj2 (VadState_eqb_eq st VadState.Silence) Hsil).
    replace (frame_count_ e' <=? frame_count_ e) with true
      by (symmetry; apply Z.leb_le; lia).
    cbn [andb]. unfold CInt.sub, CInt.add, CInt.mul.
    rewrite (int_of_in (frame_count_ e - frame_count_ e'))
      by (unfold CInt.INT32_MIN, CInt.INT32_MAX in *; lia).
    cbn [mbind option_bind].
    rewrite (int_of_in (frame_count_ e - frame_count_ e' + 1))
      by (unfold CInt.INT32_MIN, CInt.INT32_MAX in *; lia).
    cbn [mbind option_bind].
    remember (frame_count_ e - frame_count_ e' + 1) as j eqn:Ej.
    assert (Hj : 1 <= j <= frame_count_ e - 1) by lia.
    assert (Hk : frame_count_ e' - 1 = frame_count_ e - j) by lia.
    assert (Hj1 : fl * 1 <= fl * j) by (apply Z.mul_le_mono_nonneg_l; lia).
    assert (Hj2 : fl * j <= fl * (frame_count_ e - 1))
      by (apply Z.mul_le_mono_nonneg_l; lia).
    assert (Hsum : fl * frame_count_ e - fl * j = fl * (frame_count_ e' - 1))
      by (rewrite Hk; lia).
    assert (Hsum' : fl * frame_count_ e' = fl * (frame_count_ e' - 1) + fl) by lia.
    assert (Hk0 : 0 <= fl * (frame_count_ e' - 1))
      by (apply Z.mul_nonneg_nonneg; lia).
    rewrite (int_of_in (fl * j))
      by (unfold CInt.INT32_MIN, CInt.INT32_MAX in *; lia).
    cbn [mbind option_bind].
    replace (fl * j <? fl * frame_count_ e) with true
      by (symmetry; apply Z.ltb_lt; lia).
    rewrite (int_of_in (fl * frame_count_ e - fl * j))
      by (unfold CInt.INT32_MIN, CInt.INT32_MAX in *; lia).
    cbn [mbind option_bind].
    rewrite Hsum.
    remember (fl * (frame_count_ e' - 1)) as kept eqn:Ekept.
    remember (fl * j) as shift eqn:Eshift.
    remember (fl * frame_count_ e) as sound eqn:Esound.
    rewrite copy_within_spec by lia. cbn [mbind option_bind].
    assert (Hlen : List.length (take (Z.to_nat kept) (drop (Z.to_nat shift) dest))
                   = Z.to_nat kept)
      by (rewrite length_take, length_drop; lia).
    rewrite copy_from_spec.
    2: lia. 2: lia. 2: lia.
    2: { rewrite length_app, Hlen, length_drop. lia. }
    cbn [mbind option_bind]. rewrite Hret. eexists. split; [reflexivity|].
    split; [|split; [lia|]].
    + rewrite !length_app, !length_take, !length_drop, !length_app, !length_take,
        !length_drop. lia.
    + rewrite (take_app_length' _ (drop (Z.to_nat kept) dest) _ (eq_sym Hlen)).
      assert (Hr : recent fl (frame_count_ e') (hist ++ [data])
                   = recent fl (frame_count_ e' - 1) hist ++ take (Z.to_nat fl) data).
      { rewrite <- recent_snoc by lia. f_equal. lia. }
      rewrite Hr, app_assoc. rewrite take_app_length'.
      2: { rewrite length_app, Hlen, length_take. lia. }
      f_equal. rewrite Hk.
      rewrite <- (recent_drop fl j (frame_count_ e)) by (try done; lia).
      rewrite <- Hwin, <- Eshift, take_drop_commute.
      do 2 f_equal. lia.
  - (* nothing is recorded yet *)
    rewrite Hc, Hz. change (0 + 1 =? 0) with false. cbv iota.
    rewrite Hc in Hret.
    destruct (VadState.eqb st VadState.Silence && (0 <=? 0)) eqn:Eb.
    + unfold CInt.sub, CInt.add, CInt.mul. cbn [mbind option_bind].
      rewrite (int_of_in (0 - 0)) by done. cbn [mbind option_bind].
      rewrite (int_of_in (0 - 0 + 1)) by done. cbn [mbind option_bind].
      rewrite (int_of_in (fl * (0 - 0 + 1)))
        by (unfold CInt.INT32_MIN, CInt.INT32_MAX in *; lia).
      cbn [mbind option_bind].
      replace (fl * (0 - 0 + 1) <? fl * 0) with false
        by (symmetry; apply Z.ltb_ge; lia).
      cbn [mbind option_bind]. rewrite Hret. eexists. split; [reflexivity|].
      split; [done|]. split; [lia|].
      rewrite Z.mul_0_r, recent_0. done.
    + cbn [mbind option_bind]. rewrite Hret. eexists. split; [reflexivity|].
      split; [done|]. split; [lia|].
      rewrite Z.mul_0_r, recent_0. done.
Qed.

(** X18.  [detect] stays inside the two arrays it is given and inside [int]:
    when the next products of the frame length with the counters fit an
    [int], [dest] has at least [length] cells and [data] at least one frame
    of samples, the call returns; [dest] keeps its size and every cell from
    index [length] on; and what is returned is either -1 or
    [frame_length * frame_count_], the latter only in Speech, PostDetection
    or Detected. *)
Theorem detect_in_bounds e dest length data fl :
  vad_inv e -> frame_length (vad_config_ e) = Some fl -> 0 < fl ->
  lengths_fit (vad_config_ e) ->
  fl * (state_count_ e + 1) <= CInt.INT32_MAX ->
  fl * (frame_count_ e + 1) <= CInt.INT32_MAX ->
  length <= Z.of_nat (List.length dest) ->
  fl <= Z.of_nat (List.length data) ->
  exists r e' dest',
    detect classifier e dest length data = Some (r, e', dest') /\
    List.length dest' = List.length dest /\
    drop (Z.to_nat length) dest' = drop (Z.to_nat length) dest /\
    (r = -1 \/
     r = fl * frame_count_ e' /\
     VadState.to_Z VadState.Speech <= VadState.to_Z (vad_state_ e')).
Proof.
  intros Hinv Hfl Hpos Hfit Hsc Hfc Hdest Hdata.
  pose proof Hinv as (Hf & Hs & _).
  assert (Hsl : 0 <= fl * frame_count_ e) by (apply Z.mul_nonneg_nonneg; lia).
  assert (Hfc1 : frame_count_ e + 1 <= CInt.INT32_MAX).
  { assert (1 * (frame_count_ e + 1) <= fl * (frame_count_ e + 1))
      by (apply Z.mul_le_mono_nonneg_r; lia). lia. }
  unfold detect. rewrite Hfl. cbn [mbind option_bind].
  unfold CInt.mul, CInt.add.
  rewrite (int_of_in (fl * frame_count_ e))
    by (unfold CInt.INT32_MIN, CInt.INT32_MAX in *; lia).
  cbn [mbind option_bind].
  destruct (VadState.eqb (vad_state_ e) VadState.Detected) eqn:Ed.
  { apply VadState_eqb_eq in Ed. do 3 eexists. split; [reflexivity|].
    split; [done|]. split; [done|]. right. split; [done|]. rewrite Ed. done. }
  rewrite (int_of_in (fl * frame_count_ e + fl))
    by (unfold CInt.INT32_MIN, CInt.INT32_MAX in *; lia).
  cbn [mbind option_bind].
  destruct (length <? fl * frame_count_ e + fl) eqn:Eroom.
  { do 3 eexists. split; [reflexivity|]. split; [done|]. split; [done|].
    destruct (_ <=? _) eqn:Esp; [right|left; done].
    apply Z.leb_le in Esp. done. }
  apply Z.ltb_ge in Eroom.
  destruct (process_defined classifier e data fl Hfl Hpos Hfit Hs) as (st & e' & Hp);
    [lia|exact Hsc|].
  rewrite Hp. cbn [mbind option_bind].
  pose proof (process_inv classifier _ _ _ _ Hinv Hp) as (Hf' & _).
  destruct (process_counts classifier _ _ _ _ Hs (proj1 Hf) Hp) as (_ & Hfc' & _).
  apply process_Some in Hp as (_ & _ & _ & _ & _ & -> & _).
  assert (Hsl' : 0 <= fl * frame_count_ e') by (apply Z.mul_nonneg_nonneg; lia).
  assert (Hup : fl * frame_count_ e' <= fl * (frame_count_ e + 1))
    by (apply Z.mul_le_mono_nonneg_l; lia).
  rewrite (int_of_in (frame_count_ e + 1))
    by (unfold CInt.INT32_MIN, CInt.INT32_MAX in *; lia).
  cbn [mbind option_bind].
  assert (Hret : forall d : list Z,
    List.length d = List.length dest ->
    drop (Z.to_nat length) d = drop (Z.to_nat length) dest ->
    exists r e'' dest',
      (if VadState.eqb (vad_state_ e') VadState.Detected
       then CInt.int_of (fl * frame_count_ e') ≫= (fun r => Some (r, e', d))
       else Some (-1, e', d)) = Some (r, e'', dest') /\
      List.length dest' = List.length dest /\
      drop (Z.to_nat length) dest' = drop (Z.to_nat length) dest /\
      (r = -1 \/
       r = fl * frame_count_ e'' /\
       VadState.to_Z VadState.Speech <= VadState.to_Z (vad_state_ e''))).
  { intros d Hlen Hdrop.
    destruct (VadState.eqb (vad_state_ e') VadState.Detected) eqn:Ed'.
    - apply VadState_eqb_eq in Ed'.
      rewrite int_of_in by (unfold CInt.INT32_MIN, CInt.INT32_MAX in *; lia).
      cbn [mbind option_bind]. do 3 eexists. split; [reflexivity|].
      split; [done|]. split; [done|]. right. split; [done|]. rewrite Ed'. done.
    - do 3 eexists. split; [reflexivity|]. split; [done|]. split; [done|].
      left. done. }
  destruct (frame_count_ e + 1 =? frame_count_ e') eqn:Enext.
  - (* the frame is appended *)
    rewrite copy_from_spec by lia. cbn [mbind option_bind].
    apply Hret.
    + rewrite !length_app, !length_take, length_drop. lia.
    + rewrite app_assoc. apply drop_tail_keep; [|lia].
      rewrite length_app, !length_take. lia.
  - destruct (VadState.eqb (vad_state_ e') VadState.Silence
              && (frame_count_ e' <=? frame_count_ e)) eqn:Eback;
      [|cbn [mbind option_bind]; apply Hret; done].
    apply andb_true_iff in Eback as [_ Eback]. apply Z.leb_le in Eback.
    unfold CInt.sub, CInt.add, CInt.mul.
    rewrite (int_of_in (frame_count_ e - frame_count_ e'))
      by (unfold CInt.INT32_MIN, CInt.INT32_MAX in *; lia).
    cbn [mbind option_bind].
    rewrite (int_of_in (frame_count_ e - frame_count_ e' + 1))
      by (unfold CInt.INT32_MIN, CInt.INT32_MAX in *; lia).
    cbn [mbind option_bind].
    remember (frame_count_ e - frame_count_ e' + 1) as j eqn:Ej.
    assert (Hj1 : fl * 1 <= fl * j) by (apply Z.mul_le_mono_nonneg_l; lia).
    assert (Hj2 : fl * j <= fl * (frame_count_ e + 1))
      by (apply Z.mul_le_mono_nonneg_l; lia).
    rewrite (int_of_in (fl * j))
      by (unfold CInt.INT32_MIN, CInt.INT32_MAX in *; lia).
    cbn [mbind option_bind].
    destruct (fl * j <? fl * frame_count_ e) eqn:Eshift;
      [|cbn [mbind option_bind]; apply Hret; done].
    apply Z.ltb_lt in Eshift.
    rewrite (int_of_in (fl * frame_count_ e - fl * j))
      by (unfold CInt.INT32_MIN, CInt.INT32_MAX in *; lia).
    cbn [mbind option_bind].
    remember (fl * j) as shift eqn:Eqshift.
    remember (fl * frame_count_ e) as sound eqn:Esound.
    rewrite copy_within_spec by lia. cbn [mbind option_bind].
    assert (Hlen : List.length (take (Z.to_nat (sound - shift))
                                  (drop (Z.to_nat shift) dest))
                   = Z.to_nat (sound - shift))
      by (rewrite length_take, length_drop; lia).
    rewrite copy_from_spec.
    2: lia. 2: lia. 2: lia.
    2: { rewrite length_app, Hlen, length_drop. lia. }
    cbn [mbind option_bind]. apply Hret.
    + rewrite !length_app, !length_take, !length_drop, !length_app, !length_take,
        !length_drop. lia.
    + rewrite app_assoc. rewrite drop_tail_keep.
      * apply drop_tail_keep; [exact Hlen|lia].
      * rewrite length_app, !length_take, length_app, Hlen, length_drop. lia.
      * lia.
Qed.

Lemma feed_detected (frames : list (list Z)) : forall e dest length fl,
  vad_state_ e = VadState.Detected ->
  frame_length (vad_config_ e) = Some fl ->
  0 <= fl * frame_count_ e <= CInt.INT32_MAX ->
  feed classifier e dest length frames
  = Some (e, dest, replicate (List.length frames) (fl * frame_count_ e)).
Proof.
  induction frames as [|d rest IH]; intros e dest length fl Hst Hfl Hsl; [done|].
  cbn [feed]. unfold detect. rewrite Hfl. cbn [mbind option_bind].
  unfold CInt.mul.
  rewrite int_of_in by (unfold CInt.INT32_MIN, CInt.INT32_MAX in *; lia).
  cbn [mbind option_bind]. rewrite Hst. cbn [VadState.eqb VadState.to_Z Z.eqb Pos.eqb].
  cbn [mbind option_bind]. rewrite (IH _ _ _ fl) by done. done.
Qed.

Lemma feed_window_inv fl bl length (frames : list (list Z)) : forall e dest (hist : list (list Z)),
  frame_length (vad_config_ e) = Some fl -> 0 < fl ->
  before_length (vad_config_ e) = Some bl -> fl < bl ->
  lengths_fit (vad_config_ e) ->
  steady e -> vad_state_ e <> VadState.Detected ->
  state_count_ e <= Z.of_nat (List.length hist) ->
  frame_count_ e <= Z.of_nat (List.length hist) ->
  Forall (fun d => Z.to_nat fl <= List.length d)%nat hist ->
  Forall (fun d => Z.to_nat fl <= List.length d)%nat frames ->
  fl * (Z.of_nat (List.length hist) + Z.of_nat (List.length frames)) <= length ->
  length <= Z.of_nat (List.length dest) -> length <= CInt.INT32_MAX ->
  take (Z.to_nat (fl * frame_count_ e)) dest = recent fl (frame_count_ e) hist ->
  exists e' dest' rs,
    feed classifier e dest length frames = Some (e', dest', rs) /\
    List.length rs = List.length frames /\
    forall rs0 r, rs = rs0 ++ [r] -> Forall (fun x => x = -1) rs0 ->
      take (Z.to_nat (fl * frame_count_ e')) dest'
      = recent fl (frame_count_ e') (hist ++ frames) /\
      frame_count_ e' <= Z.of_nat (List.length (hist ++ frames)) /\
      (r = -1 /\ vad_state_ e' <> VadState.Detected
       \/ vad_state_ e' = VadState.Detected /\ r = fl * frame_count_ e').
Proof.
  induction frames as [|d rest IH];
    intros e dest hist Hfl Hpos Hbl Hlt Hfit Hst Hnd Hsc Hfc Hall Hfr Hroom Hdest Hmax Hwin.
  { do 3 eexists. split; [reflexivity|]. split; [done|].
    intros rs0 r Hrs. now destruct rs0. }
  apply Forall_cons in Hfr as [Hd Hfr]. cbn [List.length] in Hroom.
  pose proof Hst as ((Hf & Hs & _) & _).
  assert (Hh : fl * Z.of_nat (List.length hist) <= fl * (Z.of_nat (List.length hist)
                 + Z.of_nat (S (List.length rest)) - 1))
    by (apply Z.mul_le_mono_nonneg_l; lia).
  assert (Hsc' : fl * (state_count_ e + 1) <= fl * (Z.of_nat (List.length hist) + 1))
    by (apply Z.mul_le_mono_nonneg_l; lia).
  assert (Hfc' : fl * (frame_count_ e + 1) <= fl * (Z.of_nat (List.length hist) + 1))
    by (apply Z.mul_le_mono_nonneg_l; lia).
  assert (Hfc1 : frame_count_ e + 1 <= CInt.INT32_MAX).
  { assert (1 * (frame_count_ e + 1) <= fl * (frame_count_ e + 1))
      by (apply Z.mul_le_mono_nonneg_r; lia). lia. }
  destruct (process_defined classifier e d fl Hfl Hpos Hfit Hs) as (st & e1 & Hp);
    [lia|lia|].
  destruct (detect_step e dest length d hist fl bl st e1) as (dest1 & Hdet & Hlen1 & Hfc1' & Hwin1);
    try done; try lia.
  destruct (process_steady _ _ _ _ _ _ Hfl Hpos Hbl Hlt Hst Hnd Hp) as [Hst1 _].
  destruct (process_counts classifier _ _ _ _ Hs (proj1 Hf) Hp) as (Hsc1 & _ & Hcfg).
  pose proof Hst1 as ((Hf1 & _) & _).
  assert (Hsl1 : 0 <= fl * frame_count_ e1) by (apply Z.mul_nonneg_nonneg; lia).
  assert (Hup : fl * frame_count_ e1 <= fl * (Z.of_nat (List.length hist) + 1)).
  { apply Z.mul_le_mono_nonneg_l; [lia|]. rewrite length_app in Hfc1'. cbn in Hfc1'. lia. }
  apply process_Some in Hp as (_ & _ & _ & _ & _ & Est & _).
  cbn [feed]. rewrite Hdet. cbn [mbind option_bind].
  destruct (VadState.eqb st VadState.Detected) eqn:Ed.
  - (* detected by this call *)
    apply VadState_eqb_eq in Ed. rewrite Est in Ed.
    rewrite (feed_detected rest e1 dest1 length fl) by (try done; try congruence; lia).
    cbn [mbind option_bind]. do 3 eexists. split; [reflexivity|].
    split; [cbn; now rewrite length_replicate|].
    intros rs0 r Hrs Hquiet. destruct rs0 as [|r0 rs0].
    + destruct rest as [|d' rest]; [|destruct rest; discriminate].
      cbn in Hrs. injection Hrs as <-.
      split; [done|]. split; [done|]. right. done.
    + cbn in Hrs. injection Hrs as <- _. apply Forall_cons in Hquiet as [Hq _]. lia.
  - (* not yet *)
    assert (Hnd1 : vad_state_ e1 <> VadState.Detected).
    { intros Hx. rewrite <- Est in Hx. rewrite Hx in Ed. done. }
    assert (Hlh : Z.of_nat (List.length (hist ++ [d])) = Z.of_nat (List.length hist) + 1)
      by (rewrite length_app; cbn [List.length]; lia).
    assert (Hall1 : Forall (fun d => Z.to_nat fl <= List.length d)%nat (hist ++ [d]))
      by (apply Forall_app; split; [done|]; apply Forall_cons; done).
    destruct (IH e1 dest1 (hist ++ [d])) as (e' & dest' & rs & Hfeed & Hlen & Hconcl);
      [rewrite Hcfg; done|done|rewrite Hcfg; done|done|rewrite Hcfg; done|done|done
      |lia|lia|done|done|lia|lia|done|done|].
    rewrite Hfeed. cbn [mbind option_bind]. do 3 eexists. split; [reflexivity|].
    split; [cbn; lia|].
    intros rs0 r Hrs Hquiet. rewrite <- app_assoc in Hconcl. cbn [app] in Hconcl.
    destruct rs0 as [|r0 rs0].
    + cbn in Hrs. injection Hrs as <- ->.
      destruct rest; [|discriminate].
      cbn [feed] in Hfeed. injection Hfeed as <- <-.
      split; [done|]. split; [done|]. left. done.
    + cbn in Hrs. injection Hrs as <- ->.
      apply Forall_cons in Hquiet as [_ Hquiet].
      apply (Hconcl rs0 r eq_refl Hquiet).
Qed.

(** X19.  What [detect] leaves in [dest].  After [init], with a look-back
    window longer than one frame and a buffer that has room for every frame
    given, the calls all return, and as long as the earlier ones returned
    -1 the first [frame_length * frame_count_] cells of [dest] are exactly
    the last [frame_count_] frames given, in order; the last call returns
    -1 when the engine is not in Detected, and otherwise that length. *)
Theorem detect_holds_recent_frames vad_create config o o' fl bl dest length
    (frames : list (list Z)) :
  init vad_create config o = (true, o') ->
  lengths_fit config -> frame_length config = Some fl ->
  before_length config = Some bl -> fl < bl ->
  Forall (fun d => fl <= Z.of_nat (List.length d)) frames ->
  fl * Z.of_nat (List.length frames) <= length ->
  length <= Z.of_nat (List.length dest) -> length <= CInt.INT32_MAX ->
  exists e dest' rs,
    feed classifier (fields o') dest length frames = Some (e, dest', rs) /\
    List.length rs = List.length frames /\
    forall rs0 r, rs = rs0 ++ [r] -> Forall (fun x => x = -1) rs0 ->
      take (Z.to_nat (fl * frame_count_ e)) dest' = recent fl (frame_count_ e) frames /\
      frame_count_ e <= Z.of_nat (List.length frames) /\
      (r = -1 /\ vad_state_ e <> VadState.Detected
       \/ vad_state_ e = VadState.Detected /\ r = fl * frame_count_ e).
Proof.
  intros Hinit Hfit Hfl Hbl Hlt Hall Hroom Hdest Hmax.
  destruct (init_true _ _ _ _ Hinit) as (_ & Hrate & _ & _ & _ & _ & ->).
  cbn [fields].
  destruct (frame_length_rate config Hrate) as (fl' & Hfl' & Hpos).
  assert (fl' = fl) as -> by congruence.
  set (e0 := mkVadEngine [] config VadState.Warmup 0 0 false).
  apply (feed_window_inv fl bl length frames e0 dest []); try done.
  - split; [exact (vad_inv_reset e0)|]. split; [done|].
    intros _. left. split; [left|]; done.
  - eapply Forall_impl; [exact Hall|]. intros d Hd. cbv beta in Hd. lia.
  - cbn [frame_count_ e0]. rewrite Z.mul_0_r. done.
Qed.

Lemma feed_app frames1 : forall e dest length frames2,
  feed classifier e dest length (frames1 ++ frames2)
  = '(e1, dest1, rs1) ← feed classifier e dest length frames1;
    '(e2, dest2, rs2) ← feed classifier e1 dest1 length frames2;
    Some (e2, dest2, rs1 ++ rs2).
Proof.
  induction frames1 as [|d rest IH]; intros e dest length frames2.
  - cbn [app feed mbind option_bind].
    destruct (feed classifier e dest length frames2) as [[[e2 dest2] rs2]|]; done.
  - cbn [app feed].
    destruct (detect classifier e dest length d) as [[[r e1] dest1]|];
      cbn [mbind option_bind]; [|done].
    rewrite IH.
    destruct (feed classifier e1 dest1 length rest) as [[[e2 dest2] rs2]|];
      cbn [mbind option_bind]; [|done].
    destruct (feed classifier e2 dest2 length frames2) as [[[e3 dest3] rs3]|];
      cbn [mbind option_bind]; done.
Qed.

(** A call that leaves [frame_count_] at 0 or 1 writes nothing. *)
Lemma detect_quiet e dest length data fl st e' :
  frame_length (vad_config_ e) = Some fl -> 0 < fl ->
  vad_state_ e <> VadState.Detected -> st <> VadState.Detected ->
  0 <= frame_count_ e <= 1 ->
  fl * (frame_count_ e + 1) <= length -> length <= CInt.INT32_MAX ->
  process classifier e data = Some (st, e') ->
  frame_count_ e' = frame_count_ e ->
  detect classifier e dest length data = Some (-1, e', dest).
Proof.
  intros Hfl Hpos Hnd Hnd' Hfc Hroom Hmax Hp Hsame.
  assert (H0 : 0 <= fl * frame_count_ e) by (apply Z.mul_nonneg_nonneg; lia).
  assert (H1 : fl * frame_count_ e <= fl * 1) by (apply Z.mul_le_mono_nonneg_l; lia).
  unfold detect. rewrite Hfl. cbn [mbind option_bind].
  unfold CInt.mul, CInt.add, CInt.sub.
  rewrite (int_of_in (fl * frame_count_ e))
    by (unfold CInt.INT32_MIN, CInt.INT32_MAX in *; lia).
  cbn [mbind option_bind]. rewrite (eqb_false _ _ Hnd).
  rewrite (int_of_in (fl * frame_count_ e + fl))
    by (unfold CInt.INT32_MIN, CInt.INT32_MAX in *; lia).
  cbn [mbind option_bind].
  replace (length <? fl * frame_count_ e + fl) with false
    by (symmetry; apply Z.ltb_ge; lia).
  rewrite Hp. cbn [mbind option_bind].
  rewrite (int_of_in (frame_count_ e + 1))
    by (unfold CInt.INT32_MIN, CInt.INT32_MAX in *; lia).
  cbn [mbind option_bind]. rewrite Hsame.
  replace (frame_count_ e + 1 =? frame_count_ e) with false
    by (symmetry; apply Z.eqb_neq; lia).
  rewrite (eqb_false _ _ Hnd'), Z.leb_refl, andb_true_r.
  destruct (VadState.eqb st VadState.Silence); [|done].
  rewrite (int_of_in (frame_count_ e - frame_count_ e))
    by (unfold CInt.INT32_MIN, CInt.INT32_MAX in *; lia).
  cbn [mbind option_bind].
  rewrite (int_of_in (frame_count_ e - frame_count_ e + 1))
    by (unfold CInt.INT32_MIN, CInt.INT32_MAX in *; lia).
  cbn [mbind option_bind].
  rewrite (int_of_in (fl * (frame_count_ e - frame_count_ e + 1)))
    by (unfold CInt.INT32_MIN, CInt.INT32_MAX in *; lia).
  cbn [mbind option_bind].
  replace (fl * (frame_count_ e - frame_count_ e + 1) <? fl * frame_count_ e)
    with false by (symmetry; apply Z.ltb_ge; lia).
  done.
Qed.

Lemma feed_warmup length (frames : list (list Z)) : forall inst c sc dest fl wl,
  frame_length c = Some fl -> warmup_length c = Some wl -> 0 < fl -> 0 <= sc ->
  fl <= length -> length <= CInt.INT32_MAX ->
  (forall k, sc < k <= sc + Z.of_nat (List.length frames) -> fl * k < wl) ->
  feed classifier (mkVadEngine inst c VadState.Warmup sc 0 false) dest length frames
  = Some (mkVadEngine inst c VadState.Warmup (sc + Z.of_nat (List.length frames)) 0 false,
          dest, replicate (List.length frames) (-1)).
Proof.
  induction frames as [|d rest IH];
    intros inst c sc dest fl wl Hfl Hwl Hpos Hsc Hlen Hmax Hlt.
  - cbn. now rewrite Z.add_0_r.
  - cbn [feed]. pose proof (ms_length_bound _ _ _ Hwl) as Hb.
    pose proof (Hlt (sc + 1) ltac:(cbn [List.length]; lia)) as H1.
    assert (H0 : 0 <= fl * (sc + 1)) by (apply Z.mul_nonneg_nonneg; lia).
    assert (Hs1 : 1 * (sc + 1) <= fl * (sc + 1))
      by (apply Z.mul_le_mono_nonneg_r; lia).
    rewrite (detect_quiet _ dest length d fl VadState.Warmup
               (mkVadEngine inst c VadState.Warmup (sc + 1) 0 false)); try done.
    + cbn [mbind option_bind].
      rewrite (IH _ _ _ _ fl wl)
        by (try done; try lia; intros k Hk; apply Hlt; cbn [List.length]; lia).
      cbn [mbind option_bind replicate List.length].
      replace (sc + 1 + Z.of_nat (List.length rest))
        with (sc + Z.of_nat (S (List.length rest))) by lia.
      done.
    + cbn. lia.
    + rewrite (process_warmup classifier _ _ _ _ _ fl wl)
        by (try done; unfold CInt.INT32_MAX; lia).
      replace (wl <=? fl * (sc + 1)) with false by (symmetry; apply Z.leb_gt; lia).
      done.
Qed.

End DetectRuns.

Section ShortLookBack.

Import Vad VadLife Detect.

Lemma process_silent inst c sc fc data fl :
  frame_length c = Some fl ->
  0 <= sc -> 0 <= fl * (sc + 1) <= CInt.INT32_MAX -> sc + 1 <= CInt.INT32_MAX ->
  process never (mkVadEngine inst c VadState.Silence sc fc true) data
  = Some (VadState.Silence, mkVadEngine (data :: inst) c VadState.Silence (sc + 1) fc true).
Proof.
  intros Hfl Hsc Hroom Hmax. unfold process.
  cbn [vad_config_ state_count_]. rewrite Hfl. cbn [mbind option_bind].
  unfold CInt.add, CInt.mul. int_steps. done.
Qed.

Lemma feed_silent length (frames : list (list Z)) : forall inst c sc dest fl,
  frame_length c = Some fl -> 0 < fl -> 0 <= sc ->
  fl * 2 <= length -> length <= CInt.INT32_MAX ->
  fl * (sc + Z.of_nat (List.length frames)) <= CInt.INT32_MAX ->
  feed never (mkVadEngine inst c VadState.Silence sc 1 true) dest length frames
  = Some (mkVadEngine (rev frames ++ inst) c VadState.Silence
            (sc + Z.of_nat (List.length frames)) 1 true,
          dest, replicate (List.length frames) (-1)).
Proof.
  induction frames as [|d rest IH]; intros inst c sc dest fl Hfl Hpos Hsc Hlen Hmax Hroom.
  - cbn. now rewrite Z.add_0_r.
  - cbn [feed]. cbn [List.length] in Hroom.
    assert (H0 : 0 <= fl * (sc + 1)) by (apply Z.mul_nonneg_nonneg; lia).
    assert (H1 : fl * (sc + 1) <= fl * (sc + Z.of_nat (S (List.length rest))))
      by (apply Z.mul_le_mono_nonneg_l; lia).
    assert (Hs1 : 1 * (sc + 1) <= fl * (sc + 1))
      by (apply Z.mul_le_mono_nonneg_r; lia).
    rewrite (detect_quiet never _ dest length d fl VadState.Silence
               (mkVadEngine (d :: inst) c VadState.Silence (sc + 1) 1 true)); try done.
    + cbn [mbind option_bind].
      rewrite (IH _ _ _ _ fl) by (try done; lia).
      cbn [mbind option_bind replicate List.length rev]. rewrite <- app_assoc.
      replace (sc + 1 + Z.of_nat (List.length rest))
        with (sc + Z.of_nat (S (List.length rest))) by lia.
      done.
    + apply (process_silent _ _ _ _ _ fl); try done; lia.
Qed.

(** X20.  A look-back window of at most one frame.  After [init] with
    [before_length <= frame_length] and a classifier that hears no speech,
    the first frame given after the warm-up and set-up calls is copied to
    the front of [dest], and the frames that follow are not: the buffer is
    left as it is, so its first frame is not the most recent one. *)
Theorem detect_one_frame_lookback vad_create config o o' fl wl bl dest length
    (warm quiet : list (list Z)) (d1 : list Z) :
  init vad_create config o = (true, o') ->
  frame_length config = Some fl -> warmup_length config = Some wl ->
  before_length config = Some bl -> bl <= fl ->
  Z.of_nat (List.length warm) = calls wl fl + 1 ->
  fl <= Z.of_nat (List.length d1) ->
  fl * 2 <= length -> length <= Z.of_nat (List.length dest) ->
  length <= CInt.INT32_MAX ->
  fl * (1 + Z.of_nat (List.length quiet)) <= CInt.INT32_MAX ->
  feed never (fields o') dest length (warm ++ d1 :: quiet)
  = Some (mkVadEngine (rev quiet) config VadState.Silence
            (1 + Z.of_nat (List.length quiet)) 1 true,
          take (Z.to_nat fl) d1 ++ drop (Z.to_nat fl) dest,
          replicate (List.length warm + 1 + List.length quiet) (-1)).
Proof.
  intros Hinit Hfl Hwl Hbl Hshort Hwarm Hd1 Hlen Hdest Hmax Hroom.
  destruct (init_true _ _ _ _ Hinit) as (_ & Hrate & _ & _ & _ & _ & ->).
  cbn [fields].
  destruct (frame_length_rate config Hrate) as (fl' & Hfl' & Hpos).
  assert (fl' = fl) as -> by congruence.
  destruct (calls_spec wl fl Hpos) as (Hw1 & Hreach & Hup & Hbefore).
  pose proof (ms_length_bound _ _ _ Hwl) as Hb.
  pose proof (ms_length_bound _ _ _ Hfl) as Hbf.
  destruct (split_last warm (calls wl fl) Hwarm ltac:(lia)) as (l1 & y & -> & Hl1).
  destruct (split_last l1 (calls wl fl - 1) ltac:(lia) ltac:(lia)) as (l0 & x & -> & Hl0).
  rewrite <- !app_assoc. cbn [app].
  rewrite feed_app.
  rewrite (feed_warmup never length l0 _ _ _ _ fl wl)
    by (try done; try lia; intros k Hk; apply Hbefore; lia).
  cbn [mbind option_bind]. rewrite Hl0.
  replace (0 + (calls wl fl - 1)) with (calls wl fl - 1) by lia.
  cbn [feed].
  (* the call that leaves Warmup *)
  assert (Hx : detect never
                 (mkVadEngine [] config VadState.Warmup (calls wl fl - 1) 0 false)
                 dest length x
               = Some (-1, mkVadEngine [] config VadState.Setup 0 0 false, dest)).
  { apply (detect_quiet never _ dest length x fl VadState.Setup);
      cbn [frame_count_ vad_state_ vad_config_]; try done; try lia.
    rewrite (process_warmup never _ _ _ _ _ fl wl)
      by (try done; try lia; replace (calls wl fl - 1 + 1) with (calls wl fl) by lia;
          unfold CInt.INT32_MAX; lia).
    replace (calls wl fl - 1 + 1) with (calls wl fl) by lia.
    replace (wl <=? fl * calls wl fl) with true by (symmetry; apply Z.leb_le; lia).
    done. }
  rewrite Hx. cbn [mbind option_bind].
  (* the Setup call *)
  assert (Hy : detect never (mkVadEngine [] config VadState.Setup 0 0 false)
                 dest length y
               = Some (-1, mkVadEngine [] config VadState.Silence 0 0 false, dest)).
  { apply (detect_quiet never _ dest length y fl VadState.Silence);
      cbn [frame_count_ vad_state_ vad_config_]; try done; try lia.
    apply (process_setup never _ _ _ _ _ fl); try done; unfold CInt.INT32_MAX; lia. }
  rewrite Hy. cbn [mbind option_bind].
  (* the first frame in Silence fills the window *)
  assert (Hfirst : detect never (mkVadEngine [] config VadState.Silence 0 0 false)
                     dest length d1
                   = Some (-1, mkVadEngine [] config VadState.Silence 1 1 true,
                           take (Z.to_nat fl) d1 ++ drop (Z.to_nat fl) dest)).
  { unfold detect. cbn [vad_config_ frame_count_ vad_state_].
    rewrite Hfl. cbn [mbind option_bind].
    unfold CInt.mul, CInt.add. rewrite Z.mul_0_r. cbn [CInt.int_of CInt.in_int].
    rewrite (int_of_in 0) by done. cbn [mbind option_bind].
    change (VadState.eqb VadState.Silence VadState.Detected) with false. cbv iota.
    rewrite (int_of_in (0 + fl)) by (unfold CInt.INT32_MIN, CInt.INT32_MAX in *; lia).
    cbn [mbind option_bind].
    replace (length <? 0 + fl) with false by (symmetry; apply Z.ltb_ge; lia).
    rewrite (process_before never _ _ _ _ _ fl bl)
      by (try done; unfold CInt.INT32_MAX; lia).
    cbn [mbind option_bind frame_count_].
    replace (bl <=? fl * (0 + 1)) with true by (symmetry; apply Z.leb_le; lia).
    rewrite (int_of_in (0 + 1)) by done. cbn [mbind option_bind].
    rewrite Z.eqb_refl.
    rewrite copy_from_spec by lia. cbn [mbind option_bind].
    change (Z.to_nat 0) with 0%nat. rewrite take_0. cbn [app]. rewrite Z.add_0_l.
    done. }
  rewrite Hfirst. cbn [mbind option_bind].
  rewrite (feed_silent length quiet _ _ _ _ fl) by (try done; lia).
  cbn [mbind option_bind]. rewrite app_nil_r.
  do 2 f_equal.
  rewrite !length_app. cbn [List.length]. rewrite !replicate_add.
  cbn [replicate app Nat.add]. rewrite <- !app_assoc. reflexivity.
Qed.

End ShortLookBack.

Lemma detect_in_bounds_witness :
  exists r e' dest',
    Detect.detect Vad.loud Vad.onset_engine (replicate 2240 0) 2240 (replicate 160 1)
    = Some (r, e', dest') /\
    length dest' = length (replicate 2240 0) /\
    drop (Z.to_nat 2240) dest' = drop (Z.to_nat 2240) (replicate 2240 0) /\
    (r = -1 \/
     r = 160 * Vad.frame_count_ e' /\
     Vad.VadState.to_Z Vad.VadState.Speech <= Vad.VadState.to_Z (Vad.vad_state_ e')).
Proof.
  apply (detect_in_bounds Vad.loud Vad.onset_engine (replicate 2240 0) 2240
           (replicate 160 1) 160).
  - unfold Vad.vad_inv. cbn. repeat split; (lia || done).
  - reflexivity.
  - lia.
  - unfold VadLife.lengths_fit. vm_compute. eauto 10.
  - vm_compute. congruence.
  - vm_compute. congruence.
  - rewrite length_replicate. lia.
  - rewrite length_replicate. lia.
Defined.

Lemma detect_holds_recent_frames_witness :
  exists e dest' rs,
    Detect.feed Vad.loud
      (VadLife.fields
         (VadLife.mkVadObject false
            (Vad.mkVadEngine [] Vad.default_config Vad.VadState.Warmup 0 0 false)))
      (replicate 480 0) 480 (replicate 3 (replicate 160 1))
    = Some (e, dest', rs) /\
    length rs = length (replicate 3 (replicate 160 1)) /\
    forall rs0 r, rs = rs0 ++ [r] -> Forall (fun x => x = -1) rs0 ->
      take (Z.to_nat (160 * Vad.frame_count_ e)) dest'
      = Detect.recent 160 (Vad.frame_count_ e) (replicate 3 (replicate 160 1)) /\
      Vad.frame_count_ e <= Z.of_nat (length (replicate 3 (replicate 160 1))) /\
      (r = -1 /\ Vad.vad_state_ e <> Vad.VadState.Detected
       \/ Vad.vad_state_ e = Vad.VadState.Detected /\ r = 160 * Vad.frame_count_ e).
Proof.
  apply (detect_holds_recent_frames Vad.loud (fun _ => true) Vad.default_config
           VadLife.blank
           (VadLife.mkVadObject false
              (Vad.mkVadEngine [] Vad.default_config Vad.VadState.Warmup 0 0 false))
           160 1600 (replicate 480 0) 480 (replicate 3 (replicate 160 1))).
  - reflexivity.
  - unfold VadLife.lengths_fit. vm_compute. eauto 10.
  - reflexivity.
  - reflexivity.
  - lia.
  - apply Forall_replicate. rewrite length_replicate. lia.
  - rewrite length_replicate. lia.
  - rewrite length_replicate. lia.
  - vm_compute. congruence.
Defined.

Lemma detect_one_frame_lookback_witness :
  Detect.feed VadLife.never
    (VadLife.fields
       (VadLife.mkVadObject false
          (Vad.mkVadEngine [] (Vad.mkVadConfig 0 10 200 200 16000 Vad.Aggression_LV0)
             Vad.VadState.Warmup 0 0 false)))
    (replicate 320 0) 320 ([[]; []] ++ replicate 160 7 :: [[9]])
  = Some (Vad.mkVadEngine (rev [[9]])
            (Vad.mkVadConfig 0 10 200 200 16000 Vad.Aggression_LV0)
            Vad.VadState.Silence (1 + Z.of_nat (length [[9]])) 1 true,
          take (Z.to_nat 160) (replicate 160 7) ++ drop (Z.to_nat 160) (replicate 320 0),
          replicate (length ([[]; []] : list (list Z)) + 1 + length [[9]]) (-1)).
Proof.
  apply (detect_one_frame_lookback (fun _ => true)
           (Vad.mkVadConfig 0 10 200 200 16000 Vad.Aggression_LV0) VadLife.blank
           (VadLife.mkVadObject false
              (Vad.mkVadEngine [] (Vad.mkVadConfig 0 10 200 200 16000 Vad.Aggression_LV0)
                 Vad.VadState.Warmup 0 0 false))
           160 0 160 (replicate 320 0) 320 [[]; []] [[9]] (replicate 160 7)).
  - reflexivity.
  - reflexivity.
  - reflexivity.
  - reflexivity.
  - lia.
  - reflexivity.
  - rewrite length_replicate. lia.
  - lia.
  - rewrite length_replicate. lia.
  - vm_compute. congruence.
  - vm_compute. congruence.
Defined.

(** ** VAD engine: a burst of speech *)

Section SpeechBurst.

Import Vad VadLife.

Variable classifier : list frame -> frame -> Z -> Z -> bool.

Local Abbreviation hears := (VadLife.hears classifier).

Lemma DivCeil_calls dl fl :
  0 <= dl <= 2147484 -> 0 < fl <= 2147484 ->
  exists pc, DivCeil dl fl = Some pc /\ calls dl fl = Z.max 1 pc.
Proof.
  intros Hdl Hfl. unfold DivCeil, CInt.add, CInt.sub, CInt.div, calls.
  rewrite int_of_in by (unfold CInt.INT32_MIN, CInt.INT32_MAX; lia).
  cbn [mbind option_bind].
  rewrite int_of_in by (unfold CInt.INT32_MIN, CInt.INT32_MAX; lia).
  cbn [mbind option_bind].
  replace (fl =? 0) with false by (symmetry; apply Z.eqb_neq; lia).
  rewrite Z.quot_div_nonneg by lia.
  assert (0 <= (dl + fl - 1) / fl <= dl + fl - 1).
  { split; [apply Z.div_pos; lia|].
    apply Z.div_le_upper_bound; [lia|]. 
    assert (1 * (dl + fl - 1) <= fl * (dl + fl - 1))
      by (apply Z.mul_le_mono_nonneg_r; lia). lia. }
  rewrite int_of_in by (unfold CInt.INT32_MIN, CInt.INT32_MAX; lia).
  eauto.
Qed.

Lemma process_onset inst c sc fc data fl :
  frame_length c = Some fl ->
  0 <= sc -> 0 <= fl * (sc + 1) <= CInt.INT32_MAX -> sc + 1 <= CInt.INT32_MAX ->
  0 <= fc < CInt.INT32_MAX -> hears c true data ->
  process classifier (mkVadEngine inst c VadState.Silence sc fc true) data
  = Some (VadState.PreDetection,
          mkVadEngine (data :: inst) c VadState.PreDetection 0 (fc + 1) true).
Proof.
  intros Hfl Hsc Hroom Hmax Hfc Hh. unfold process.
  cbn [vad_config_ state_count_]. rewrite Hfl. cbn [mbind option_bind].
  unfold CInt.add, CInt.mul. int_steps. unfold classify, vad_process.
  cbn [has_satisfied_hangbefore_ vad_inst_ vad_config_]. rewrite Hh.
  unfold transition. cbn. unfold CInt.add. int_steps. done.
Qed.

Lemma process_pre inst c sc fc data fl dl pc :
  frame_length c = Some fl -> decision_length c = Some dl ->
  DivCeil dl fl = Some pc ->
  0 <= sc -> 0 <= fl * (sc + 1) <= CInt.INT32_MAX -> sc + 1 <= CInt.INT32_MAX ->
  0 <= fc < CInt.INT32_MAX -> hears c true data ->
  process classifier (mkVadEngine inst c VadState.PreDetection sc fc true) data
  = Some (if pc <=? sc + 1
          then (VadState.Speech,
                mkVadEngine (data :: inst) c VadState.Speech 0 (fc + 1) true)
          else (VadState.PreDetection,
                mkVadEngine (data :: inst) c VadState.PreDetection (sc + 1) (fc + 1) true)).
Proof.
  intros Hfl Hdl Hpc Hsc Hroom Hmax Hfc Hh. unfold process.
  cbn [vad_config_ state_count_]. rewrite Hfl. cbn [mbind option_bind].
  unfold CInt.add, CInt.mul. int_steps. unfold classify, vad_process.
  cbn [has_satisfied_hangbefore_ vad_inst_ vad_config_]. rewrite Hh.
  unfold transition. cbn. rewrite Hdl. cbn [mbind option_bind]. rewrite Hpc.
  cbn [mbind option_bind]. unfold CInt.add. int_steps.
  destruct (pc <=? sc + 1); done.
Qed.

Lemma process_speech inst c sc fc data fl b :
  frame_length c = Some fl ->
  0 <= sc -> 0 <= fl * (sc + 1) <= CInt.INT32_MAX -> sc + 1 <= CInt.INT32_MAX ->
  0 <= fc < CInt.INT32_MAX -> hears c b data ->
  process classifier (mkVadEngine inst c VadState.Speech sc fc true) data
  = Some (if b
          then (VadState.Speech,
                mkVadEngine (data :: inst) c VadState.Speech (sc + 1) (fc + 1) true)
          else (VadState.PostDetection,
                mkVadEngine (data :: inst) c VadState.PostDetection 0 (fc + 1) true)).
Proof.
  intros Hfl Hsc Hroom Hmax Hfc Hh. unfold process.
  cbn [vad_config_ state_count_]. rewrite Hfl. cbn [mbind option_bind].
  unfold CInt.add, CInt.mul. int_steps. unfold classify, vad_process.
  cbn [has_satisfied_hangbefore_ vad_inst_ vad_config_]. rewrite Hh.
  unfold transition. cbn. unfold CInt.add. int_steps.
  destruct b; done.
Qed.

Lemma process_post inst c sc fc data fl ol oc :
  frame_length c = Some fl -> over_length c = Some ol ->
  DivCeil ol fl = Some oc ->
  0 <= sc -> 0 <= fl * (sc + 1) <= CInt.INT32_MAX -> sc + 1 <= CInt.INT32_MAX ->
  0 <= fc < CInt.INT32_MAX -> hears c false data ->
  process classifier (mkVadEngine inst c VadState.PostDetection sc fc true) data
  = Some (if oc <=? sc + 1
          then (VadState.Detected,
                mkVadEngine (data :: inst) c VadState.Detected 0 (fc + 1) true)
          else (VadState.PostDetection,
                mkVadEngine (data :: inst) c VadState.PostDetection (sc + 1) (fc + 1) true)).
Proof.
  intros Hfl Hol Hoc Hsc Hroom Hmax Hfc Hh. unfold process.
  cbn [vad_config_ state_count_]. rewrite Hfl. cbn [mbind option_bind].
  unfold CInt.add, CInt.mul. int_steps. unfold classify, vad_process.
  cbn [has_satisfied_hangbefore_ vad_inst_ vad_config_]. rewrite Hh.
  unfold transition. cbn. unfold CInt.add. int_steps.
  rewrite Hol. cbn [mbind option_bind]. rewrite Hoc. cbn [mbind option_bind].
  destruct (oc <=? sc + 1); done.
Qed.

Lemma run_pre (frames : list (list Z)) : forall inst c sc fc fl dl pc,
  frame_length c = Some fl -> decision_length c = Some dl ->
  DivCeil dl fl = Some pc -> 0 < fl -> 0 <= sc -> 0 <= fc ->
  fl * (sc + Z.of_nat (length frames)) <= CInt.INT32_MAX ->
  fc + Z.of_nat (length frames) < CInt.INT32_MAX ->
  Forall (hears c true) frames ->
  (forall k, sc < k <= sc + Z.of_nat (length frames) -> k < pc) ->
  run classifier (mkVadEngine inst c VadState.PreDetection sc fc true) frames
  = Some (mkVadEngine (rev frames ++ inst) c VadState.PreDetection
            (sc + Z.of_nat (length frames)) (fc + Z.of_nat (length frames)) true).
Proof.
  induction frames as [|d rest IH];
    intros inst c sc fc fl dl pc Hfl Hdl Hpc Hpos Hsc Hfc Hroom Hmax Hall Hlt.
  - cbn. now rewrite !Z.add_0_r.
  - cbn [run]. apply Forall_cons in Hall as [Hd Hall]. cbn [length] in Hroom, Hmax.
    pose proof (Hlt (sc + 1) ltac:(cbn [length]; lia)) as H1.
    assert (H0 : 0 <= fl * (sc + 1)) by (apply Z.mul_nonneg_nonneg; lia).
    assert (Hup : fl * (sc + 1) <= fl * (sc + Z.of_nat (S (length rest))))
      by (apply Z.mul_le_mono_nonneg_l; lia).
    assert (Hs1 : 1 * (sc + 1) <= fl * (sc + 1))
      by (apply Z.mul_le_mono_nonneg_r; lia).
    rewrite (process_pre _ _ _ _ _ fl dl pc) by (try done; lia).
    replace (pc <=? sc + 1) with false by (symmetry; apply Z.leb_gt; lia).
    cbn [mbind option_bind snd].
    assert (Hroom' : fl * (sc + 1 + Z.of_nat (length rest)) <= CInt.INT32_MAX)
      by (replace (sc + 1 + Z.of_nat (length rest))
            with (sc + Z.of_nat (S (length rest))) by lia; done).
    assert (Hlt' : forall k, sc + 1 < k <= sc + 1 + Z.of_nat (length rest) -> k < pc)
      by (intros k Hk; apply Hlt; cbn [length]; lia).
    rewrite (IH _ _ _ _ fl dl pc) by (try done; lia).
    cbn [rev length]. rewrite <- app_assoc. cbn [app].
    replace (sc + 1 + Z.of_nat (length rest)) with (sc + Z.of_nat (S (length rest))) by lia.
    replace (fc + 1 + Z.of_nat (length rest)) with (fc + Z.of_nat (S (length rest))) by lia.
    done.
Qed.

Lemma run_speech (frames : list (list Z)) : forall inst c sc fc fl,
  frame_length c = Some fl -> 0 < fl -> 0 <= sc -> 0 <= fc ->
  fl * (sc + Z.of_nat (length frames)) <= CInt.INT32_MAX ->
  fc + Z.of_nat (length frames) < CInt.INT32_MAX ->
  Forall (hears c true) frames ->
  run classifier (mkVadEngine inst c VadState.Speech sc fc true) frames
  = Some (mkVadEngine (rev frames ++ inst) c VadState.Speech
            (sc + Z.of_nat (length frames)) (fc + Z.of_nat (length frames)) true).
Proof.
  induction frames as [|d rest IH];
    intros inst c sc fc fl Hfl Hpos Hsc Hfc Hroom Hmax Hall.
  - cbn. now rewrite !Z.add_0_r.
  - cbn [run]. apply Forall_cons in Hall as [Hd Hall]. cbn [length] in Hroom, Hmax.
    assert (H0 : 0 <= fl * (sc + 1)) by (apply Z.mul_nonneg_nonneg; lia).
    assert (Hup : fl * (sc + 1) <= fl * (sc + Z.of_nat (S (length rest))))
      by (apply Z.mul_le_mono_nonneg_l; lia).
    assert (Hs1 : 1 * (sc + 1) <= fl * (sc + 1))
      by (apply Z.mul_le_mono_nonneg_r; lia).
    rewrite (process_speech _ _ _ _ _ fl true) by (try done; lia).
    cbn [mbind option_bind snd].
    assert (Hroom' : fl * (sc + 1 + Z.of_nat (length rest)) <= CInt.INT32_MAX)
      by (replace (sc + 1 + Z.of_nat (length rest))
            with (sc + Z.of_nat (S (length rest))) by lia; done).
    rewrite (IH _ _ _ _ fl) by (try done; lia).
    cbn [rev length]. rewrite <- app_assoc. cbn [app].
    replace (sc + 1 + Z.of_nat (length rest)) with (sc + Z.of_nat (S (length rest))) by lia.
    replace (fc + 1 + Z.of_nat (length rest)) with (fc + Z.of_nat (S (length rest))) by lia.
    done.
Qed.

Lemma run_post (frames : list (list Z)) : forall inst c sc fc fl ol oc,
  frame_length c = Some fl -> over_length c = Some ol ->
  DivCeil ol fl = Some oc -> 0 < fl -> 0 <= sc -> 0 <= fc ->
  fl * (sc + Z.of_nat (length frames)) <= CInt.INT32_MAX ->
  fc + Z.of_nat (length frames) < CInt.INT32_MAX ->
  Forall (hears c false) frames ->
  (forall k, sc < k <= sc + Z.of_nat (length frames) -> k < oc) ->
  run classifier (mkVadEngine inst c VadState.PostDetection sc fc true) frames
  = Some (mkVadEngine (rev frames ++ inst) c VadState.PostDetection
            (sc + Z.of_nat (length frames)) (fc + Z.of_nat (length frames)) true).
Proof.
  induction frames as [|d rest IH];
    intros inst c sc fc fl ol oc Hfl Hol Hoc Hpos Hsc Hfc Hroom Hmax Hall Hlt.
  - cbn. now rewrite !Z.add_0_r.
  - cbn [run]. apply Forall_cons in Hall as [Hd Hall]. cbn [length] in Hroom, Hmax.
    pose proof (Hlt (sc + 1) ltac:(cbn [length]; lia)) as H1.
    assert (H0 : 0 <= fl * (sc + 1)) by (apply Z.mul_nonneg_nonneg; lia).
    assert (Hup : fl * (sc + 1) <= fl * (sc + Z.of_nat (S (length rest))))
      by (apply Z.mul_le_mono_nonneg_l; lia).
    assert (Hs1 : 1 * (sc + 1) <= fl * (sc + 1))
      by (apply Z.mul_le_mono_nonneg_r; lia).
    rewrite (process_post _ _ _ _ _ fl ol oc) by (try done; lia).
    replace (oc <=? sc + 1) with false by (symmetry; apply Z.leb_gt; lia).
    cbn [mbind option_bind snd].
    assert (Hroom' : fl * (sc + 1 + Z.of_nat (length rest)) <= CInt.INT32_MAX)
      by (replace (sc + 1 + Z.of_nat (length rest))
            with (sc + Z.of_nat (S (length rest))) by lia; done).
    assert (Hlt' : forall k, sc + 1 < k <= sc + 1 + Z.of_nat (length rest) -> k < oc)
      by (intros k Hk; apply Hlt; cbn [length]; lia).
    rewrite (IH _ _ _ _ fl ol oc) by (try done; lia).
    cbn [rev length]. rewrite <- app_assoc. cbn [app].
    replace (sc + 1 + Z.of_nat (length rest)) with (sc + Z.of_nat (S (length rest))) by lia.
    replace (fc + 1 + Z.of_nat (length rest)) with (fc + Z.of_nat (S (length rest))) by lia.
    done.
Qed.

Lemma ms_length_nonneg ms c l :
  ms_length ms c = Some l -> 0 <= ms -> 0 <= sample_rate c -> 0 <= l.
Proof.
  unfold ms_length. intros H Hms Hrate.
  apply bind_Some in H as (p & Hp & H). apply mul_Some in Hp as ->.
  unfold CInt.div in H. change (1000 =? 0) with false in H. cbv iota in H.
  apply int_of_Some in H as [-> _].
  apply Z.quot_pos; [apply Z.mul_nonneg_nonneg|]; lia.
Qed.

Lemma frame_length_values c fl :
  sample_rate c = 8000 \/ sample_rate c = 16000 ->
  frame_length c = Some fl -> fl = 80 \/ fl = 160.
Proof.
  unfold frame_length, ms_length, frame_time_ms.
  intros [-> | ->] H; vm_compute in H; injection H as <-; [left|right]; reflexivity.
Qed.

Lemma split_at {A : Type} (l : list A) n :
  0 <= n < Z.of_nat (length l) ->
  exists l1 x l2, l = l1 ++ x :: l2 /\ Z.of_nat (length l1) = n.
Proof.
  intros Hn. destruct (lookup_lt_is_Some_2 l (Z.to_nat n)) as [x Hx]; [lia|].
  exists (take (Z.to_nat n) l), x, (drop (S (Z.to_nat n)) l).
  split; [symmetry; now apply take_drop_middle|].
  rewrite length_take. lia.
Qed.

(** X25.  A burst of speech is detected.  After a successful [init], the
    warm-up and look-back calls, a run of frames the classifier takes for
    speech that is at least [1 + p] frames long, followed by [1 + q] frames
    it takes for silence, ends in Detected exactly at the last frame;
    [frame_count_] then counts the look-back frames, the speech and the
    silence after it.  [p] and [q] are the decision and hang-over times in
    frames, rounded up and at least one. *)
Theorem speech_burst_detected vad_create config o o' fl wl bl dl ol
    (warm before speech tail : list (list Z)) :
  init vad_create config o = (true, o') ->
  frame_length config = Some fl -> warmup_length config = Some wl ->
  before_length config = Some bl -> decision_length config = Some dl ->
  over_length config = Some ol ->
  Z.of_nat (length warm) = calls wl fl + 1 ->
  Z.of_nat (length before) = calls bl fl ->
  1 + calls dl fl <= Z.of_nat (length speech) ->
  fl * Z.of_nat (length speech) <= CInt.INT32_MAX ->
  Z.of_nat (length tail) = 1 + calls ol fl ->
  Forall (hears config true) speech -> Forall (hears config false) tail ->
  run classifier (fields o') (warm ++ before ++ speech ++ tail)
  = Some (mkVadEngine (rev tail ++ rev speech) config VadState.Detected 0
            (calls bl fl + Z.of_nat (length speech) + Z.of_nat (length tail)) true).
Proof.
  intros Hinit Hfl Hwl Hbl Hdl Hol Hwarm Hbefore Hspeech Hlong Htail Hloud Hquiet.
  destruct (init_true _ _ _ _ Hinit) as (_ & Hrate & _ & Hdec & Hover & _ & ->).
  cbn [fields].
  destruct (frame_length_rate config Hrate) as (fl' & Hfl' & Hpos).
  assert (fl' = fl) as -> by congruence.
  assert (Hr : 0 <= sample_rate config) by (destruct Hrate as [-> | ->]; lia).
  pose proof (ms_length_bound _ _ _ Hfl) as Bfl.
  pose proof (ms_length_bound _ _ _ Hbl) as Bbl.
  pose proof (ms_length_bound _ _ _ Hdl) as Bdl.
  pose proof (ms_length_bound _ _ _ Hol) as Bol.
  pose proof (ms_length_nonneg _ _ _ Hdl Hdec Hr) as Ndl.
  pose proof (ms_length_nonneg _ _ _ Hol Hover Hr) as Nol.
  destruct (DivCeil_calls dl fl ltac:(lia) ltac:(lia)) as (pc & Hpc & Ep).
  destruct (DivCeil_calls ol fl ltac:(lia) ltac:(lia)) as (oc & Hoc & Eo).
  destruct (calls_spec bl fl Hpos) as (Hb1 & _ & Hbup & _).
  destruct (calls_spec dl fl Hpos) as (Hp1 & _ & Hpup & _).
  destruct (calls_spec ol fl Hpos) as (Ho1 & _ & Houp & _).
  set (b := calls bl fl) in *. set (P := calls dl fl) in *. set (O := calls ol fl) in *.
  assert (Hsp0 : 0 <= fl * Z.of_nat (length speech))
    by (apply Z.mul_nonneg_nonneg; lia).
  assert (Hsmall : Z.of_nat (length speech) <= CInt.INT32_MAX).
  { assert (1 * Z.of_nat (length speech) <= fl * Z.of_nat (length speech))
      by (apply Z.mul_le_mono_nonneg_r; lia). lia. }
  (* warm-up and look-back *)
  rewrite run_app.
  rewrite (run_to_silence classifier _ _ fl wl) by done.
  cbn [mbind option_bind]. rewrite run_app.
  rewrite (run_hangbefore classifier _ _ fl bl) by done.
  cbn [mbind option_bind]. fold b.
  clearbody b P O.
  (* the first frame of speech *)
  destruct speech as [|s0 rest1]; [cbn [length] in Hspeech; lia|].
  apply Forall_cons in Hloud as [Hs0 Hloud].
  cbn [length] in Hspeech, Hlong, Hsp0, Hsmall.
  destruct (split_at rest1 (P - 1) ltac:(lia)) as (pre & sl & more & -> & Hpre).
  apply Forall_app in Hloud as [Hlpre Hloud].
  apply Forall_cons in Hloud as [Hsl Hmore].
  rewrite length_app in Hspeech, Hlong, Hsp0, Hsmall.
  cbn [length] in Hspeech, Hlong, Hsp0, Hsmall.
  destruct tail as [|t0 rest2]; [cbn [length] in Htail; lia|].
  apply Forall_cons in Hquiet as [Ht0 Hquiet].
  cbn [length] in Htail.
  destruct (split_last rest2 (O - 1) ltac:(lia) ltac:(lia)) as (post & tl & -> & Hpost).
  apply Forall_app in Hquiet as [Hqpost Hquiet].
  apply Forall_cons in Hquiet as [Htl _].
  assert (Hb0 : 0 <= fl * b) by (apply Z.mul_nonneg_nonneg; lia).
  assert (HP0 : 0 <= fl * P) by (apply Z.mul_nonneg_nonneg; lia).
  assert (HO0 : 0 <= fl * O) by (apply Z.mul_nonneg_nonneg; lia).
  assert (Hm0 : 0 <= fl * Z.of_nat (length more)) by (apply Z.mul_nonneg_nonneg; lia).
  assert (Hm1 : fl * Z.of_nat (length more)
                <= fl * Z.of_nat (S (length pre + S (length more))))
    by (apply Z.mul_le_mono_nonneg_l; lia).
  assert (Hfl80 : 80 <= fl) by (destruct (frame_length_values _ _ Hrate Hfl'); lia).
  assert (Hsp80 : 80 * Z.of_nat (S (length pre + S (length more)))
                  <= fl * Z.of_nat (S (length pre + S (length more))))
    by (apply Z.mul_le_mono_nonneg_r; lia).
  assert (Hbs : 1 * b <= fl * b) by (apply Z.mul_le_mono_nonneg_r; lia).
  assert (HPs : 1 * P <= fl * P) by (apply Z.mul_le_mono_nonneg_r; lia).
  assert (HOs : 1 * O <= fl * O) by (apply Z.mul_le_mono_nonneg_r; lia).
  unfold CInt.INT32_MAX in *.
  cbn [app run].
  rewrite (process_onset _ _ _ _ _ fl) by (try done; unfold CInt.INT32_MAX; lia).
  cbn [mbind option_bind snd].
  (* the decision time *)
  rewrite <- !app_assoc. cbn [app]. rewrite run_app.
  assert (Hpre_lt : forall k, 0 < k <= 0 + Z.of_nat (length pre) -> k < pc)
    by (intros k Hk; lia).
  assert (Hpre_room : fl * (0 + Z.of_nat (length pre)) <= 2147483647)
    by (rewrite Hpre, Z.add_0_l; lia).
  rewrite (run_pre pre _ _ _ _ fl dl pc) by (try done; unfold CInt.INT32_MAX; lia).
  cbn [mbind option_bind run]. rewrite Hpre, Z.add_0_l.
  rewrite (process_pre _ _ _ _ _ fl dl pc)
    by (try done; unfold CInt.INT32_MAX; replace (P - 1 + 1) with P by lia; lia).
  replace (pc <=? P - 1 + 1) with true by (symmetry; apply Z.leb_le; lia).
  cbn [mbind option_bind snd].
  (* the rest of the speech *)
  rewrite run_app.
  assert (Hmore_room : fl * (0 + Z.of_nat (length more)) <= 2147483647)
    by (rewrite Z.add_0_l; lia).
  rewrite (run_speech more _ _ _ _ fl) by (try done; unfold CInt.INT32_MAX; lia).
  cbn [mbind option_bind run]. rewrite Z.add_0_l.
  (* the hang-over time *)
  assert (Hm2 : 0 <= fl * (Z.of_nat (length more) + 1))
    by (apply Z.mul_nonneg_nonneg; lia).
  assert (Hm3 : fl * (Z.of_nat (length more) + 1)
                <= fl * Z.of_nat (S (length pre + S (length more))))
    by (apply Z.mul_le_mono_nonneg_l; lia).
  rewrite (process_speech _ _ _ _ _ fl false) by (try done; unfold CInt.INT32_MAX; lia).
  cbn [mbind option_bind snd]. rewrite run_app.
  assert (Hpost_lt : forall k, 0 < k <= 0 + Z.of_nat (length post) -> k < oc)
    by (intros k Hk; lia).
  assert (Hpost_room : fl * (0 + Z.of_nat (length post)) <= 2147483647)
    by (rewrite Hpost, Z.add_0_l; lia).
  rewrite (run_post post _ _ _ _ fl ol oc) by (try done; unfold CInt.INT32_MAX; lia).
  cbn [mbind option_bind run]. rewrite Hpost, Z.add_0_l.
  rewrite (process_post _ _ _ _ _ fl ol oc)
    by (try done; unfold CInt.INT32_MAX; replace (O - 1 + 1) with O by lia; lia).
  replace (oc <=? O - 1 + 1) with true by (symmetry; apply Z.leb_le; lia).
  cbn [mbind option_bind snd]. f_equal. f_equal.
  - cbn [rev]. rewrite !rev_app_distr. cbn [rev app]. rewrite <- !app_assoc.
    cbn [app]. reflexivity.
  - cbn [length]. rewrite !length_app. cbn [length]. lia.
Qed.

End SpeechBurst.

Lemma speech_burst_detected_witness :
  Vad.run Vad.loud
    (VadLife.fields
       (VadLife.mkVadObject false
          (Vad.mkVadEngine [] Vad.default_config Vad.VadState.Warmup 0 0 false)))
    (replicate 2 [] ++ replicate 10 [] ++ replicate 21 [1] ++ replicate 21 [])
  = Some (Vad.mkVadEngine (rev (replicate 21 []) ++ rev (replicate 21 [1]))
            Vad.default_config Vad.VadState.Detected 0
            (VadLife.calls 1600 160 + Z.of_nat (length (replicate 21 [1]))
             + Z.of_nat (length (replicate 21 ([] : list Z))))
            true).
Proof.
  apply (speech_burst_detected Vad.loud (fun _ => true) Vad.default_config
           VadLife.blank
           (VadLife.mkVadObject false
              (Vad.mkVadEngine [] Vad.default_config Vad.VadState.Warmup 0 0 false))
           160 0 1600 3200 3200
           (replicate 2 []) (replicate 10 []) (replicate 21 [1]) (replicate 21 [])).
  - reflexivity.
  - reflexivity.
  - reflexivity.
  - reflexivity.
  - reflexivity.
  - reflexivity.
  - reflexivity.
  - reflexivity.
  - vm_compute. congruence.
  - vm_compute. congruence.
  - reflexivity.
  - apply Forall_replicate. intros h. reflexivity.
  - apply Forall_replicate. intros h. reflexivity.
Defined.

(** ** The coefficients of one frame *)

Lemma get_lt {A : Type} (a : list A) i :
  0 <= i < Z.of_nat (length a) -> exists x, Loop.get a i = Some x.
Proof.
  intros Hi. destruct (lookup_lt_is_Some_2 a (Z.to_nat i)) as [x Hx]; [lia|].
  exists x. apply get_Some. split; [lia|done].
Qed.

Lemma set_lt {A : Type} (a : list A) i x :
  0 <= i < Z.of_nat (length a) ->
  exists a', Loop.set a i x = Some a' /\ length a' = length a /\
             a' = <[Z.to_nat i := x]> a.
Proof.
  intros Hi. eexists. split; [apply set_Some; split; [lia|reflexivity]|].
  split; [apply length_insert|done].
Qed.

Lemma emphasis_fits pre prev :
  0 <= pre <= 65535 -> CInt.INT16_MIN <= prev <= CInt.INT16_MAX ->
  CInt.INT32_MIN <= pre * prev <= CInt.INT32_MAX.
Proof.
  unfold CInt.INT16_MIN, CInt.INT16_MAX, CInt.INT32_MIN, CInt.INT32_MAX.
  intros Hp Hv. nia.
Qed.

Section CalculateBounds.

Import Mfcc Create.

Variables dsps_fft4r_fc32 dsps_bit_rev4r_fc32 dsps_cplx2real_fc32
  : list F32.float -> Z -> list F32.float.
Variable log10f : F32.float -> F32.float.

(** The three passes of the FFT work in place, on the buffer they get. *)
Hypothesis fft_in_place : forall d n, length (dsps_fft4r_fc32 d n) = length d.
Hypothesis bit_rev_in_place : forall d n, length (dsps_bit_rev4r_fc32 d n) = length d.
Hypothesis cplx2real_in_place :
  forall d n, length (dsps_cplx2real_fc32 d n) = length d.

Lemma emphasise_defined t frame fl (fft : list F32.float) :
  0 <= fl <= fft_num (config t) -> 0 <= pre_emphasis (config t) <= 65535 ->
  Z.of_nat (length (window t)) = fl ->
  Z.of_nat (length fft) = fft_num (config t) ->
  readable frame fl ->
  exists fft', emphasise t frame fl fft = Some fft' /\ length fft' = length fft.
Proof.
  intros Hfl Hpre Hwin Hfft Hread. unfold emphasise.
  match goal with |- context [Loop.for_range 0 fl ?body ?s] =>
    destruct (for_range_total
                (fun (_ : Z) (st : Z * list F32.float) =>
                   CInt.INT16_MIN <= st.1 <= CInt.INT16_MAX /\ length st.2 = length fft)
                0 fl body s) as ([prev d] & Hrun & _ & Hlen)
  end; [lia| | |].
  - cbn. unfold CInt.INT16_MIN, CInt.INT16_MAX. split; [lia|done].
  - intros i [prev d] Hi [Hprev Hlen]. cbn [fst snd] in *.
    destruct (Hread i Hi) as (v & Hv & Hvr). rewrite Hv. cbn [mbind option_bind].
    pose proof (emphasis_fits _ _ Hpre Hprev) as Hp.
    unfold CInt.mul. rewrite int_of_in by exact Hp. cbn [mbind option_bind].
    unfold CInt.div, kPreEmphaCoef. change (100 =? 0) with false. cbv iota.
    rewrite int_of_in
      by (unfold CInt.INT32_MIN, CInt.INT32_MAX in *;
          Z.to_euclidean_division_equations; lia).
    cbn [mbind option_bind]. unfold CInt.sub.
    rewrite int_of_in
      by (unfold CInt.INT16_MIN, CInt.INT16_MAX, CInt.INT32_MIN, CInt.INT32_MAX in *;
          Z.to_euclidean_division_equations; lia).
    cbn [mbind option_bind].
    destruct (get_lt (window t) i ltac:(lia)) as [w Hw]. rewrite Hw.
    cbn [mbind option_bind].
    match goal with |- context [Loop.set d i ?x] =>
      destruct (set_lt d i x) as (d' & Hset & Hlen' & _); [lia|]
    end.
    rewrite Hset. cbn [mbind option_bind]. eexists. split; [reflexivity|].
    cbn [fst snd]. split; [done|congruence].
  - rewrite Hrun. cbn [mbind option_bind snd].
    match goal with |- context [Loop.for_range fl ?hi ?body ?s] =>
      destruct (for_range_total
                  (fun (_ : Z) (d : list F32.float) => length d = length fft)
                  fl hi body s) as (d' & Hrun' & Hlen')
    end; [lia|done| |eauto].
    intros i d0 Hi Hd0.
    match goal with |- context [Loop.set d0 i ?x] =>
      destruct (set_lt d0 i x) as (d' & Hset & Hlen' & _); [lia|]
    end.
    exists d'. split; [done|congruence].
Qed.

Lemma power_defined half (fft : list F32.float) :
  0 <= half -> 2 * half <= Z.of_nat (length fft) ->
  Z.of_nat (length fft) <= CInt.INT32_MAX ->
  exists p, power half fft = Some p /\ length p = length fft.
Proof.
  intros Hh Hlen Hmax. unfold power.
  match goal with |- context [Loop.for_range 0 half ?body ?s] =>
    destruct (for_range_total
                (fun (_ : Z) (d : list F32.float) => length d = length fft)
                0 half body s) as (d' & Hrun' & Hlen')
  end; [lia|done| |eauto].
  intros i d Hi Hd. unfold CInt.mul, CInt.add.
  rewrite int_of_in by (unfold CInt.INT32_MIN, CInt.INT32_MAX in *; lia).
  cbn [mbind option_bind].
  destruct (get_lt d (2 * i) ltac:(lia)) as [re Hre]. rewrite Hre.
  cbn [mbind option_bind].
  rewrite int_of_in by (unfold CInt.INT32_MIN, CInt.INT32_MAX in *; lia).
  cbn [mbind option_bind].
  destruct (get_lt d (2 * i + 1) ltac:(lia)) as [im Him]. rewrite Him.
  cbn [mbind option_bind].
  match goal with |- context [Loop.set d i ?x] =>
    destruct (set_lt d i x) as (d' & Hset & Hlen' & _); [lia|]
  end.
  exists d'. split; [done|congruence].
Qed.

Lemma slope_defined (src : list F32.float) lo hi step k coef dest :
  0 <= lo -> hi <= Z.of_nat (length src) -> 0 <= k < Z.of_nat (length dest) ->
  exists coef' dest',
    slope src lo hi step k (coef, dest) = Some (coef', dest') /\
    length dest' = length dest.
Proof.
  intros Hlo Hhi Hk. unfold slope.
  destruct (Z.le_gt_cases lo hi) as [Hle|Hgt].
  - match goal with |- context [Loop.for_range lo hi ?body ?s] =>
      destruct (for_range_total
                  (fun (_ : Z) (st : F32.float * list F32.float) =>
                     length st.2 = length dest)
                  lo hi body s) as ([c d] & Hrun & Hlen)
    end; [lia|done| |eauto].
    intros j [c d] Hj Hd. cbn [snd] in Hd.
    destruct (get_lt src j ltac:(lia)) as [x Hx]. rewrite Hx.
    cbn [mbind option_bind]. unfold add_at.
    destruct (get_lt d k ltac:(lia)) as [old Hold]. rewrite Hold.
    cbn [mbind option_bind].
    match goal with |- context [Loop.set d k ?x] =>
      destruct (set_lt d k x) as (d' & Hset & Hlen' & _); [lia|]
    end.
    rewrite Hset. cbn [mbind option_bind]. eexists. split; [reflexivity|].
    cbn [snd]. congruence.
  - rewrite for_range_empty by lia. eauto.
Qed.

Lemma ApplyMelFilter_defined (src : list F32.float) (positions : list Z)
    channel_num (dest : list F32.float) :
  0 <= channel_num ->
  Z.of_nat (length positions) = channel_num + 2 ->
  Forall (fun p => 0 <= p <= Z.of_nat (length src)) positions ->
  Z.of_nat (length src) <= CInt.INT32_MAX ->
  Z.of_nat (length dest) = channel_num ->
  exists mel, ApplyMelFilter src positions channel_num dest = Some mel /\
              length mel = length dest.
Proof.
  intros Hch Hpos Hin Hmax Hdest. unfold ApplyMelFilter.
  assert (Hat : forall i, 0 <= i < channel_num + 2 ->
            exists p, Loop.get positions i = Some p /\
                      0 <= p <= Z.of_nat (length src)).
  { intros i Hi. destruct (get_lt positions i ltac:(lia)) as [p Hp].
    exists p. split; [done|]. apply get_Some in Hp as [_ Hp].
    exact (proj1 (Forall_lookup _ _) Hin _ _ Hp). }
  match goal with |- context [Loop.for_range 1 ?hi ?body ?s] =>
    destruct (for_range_total
                (fun (_ : Z) (d : list F32.float) => length d = length dest)
                1 hi body s) as (d' & Hrun' & Hlen')
  end; [lia|done| |eauto].
  intros i d Hi Hd.
  destruct (Hat i ltac:(lia)) as (p_i & Hpi & Hri). rewrite Hpi.
  cbn [mbind option_bind].
  destruct (Hat (i - 1) ltac:(lia)) as (p_prev & Hpp & Hrp). rewrite Hpp.
  cbn [mbind option_bind]. unfold CInt.sub.
  rewrite int_of_in by (unfold CInt.INT32_MIN, CInt.INT32_MAX in *; lia).
  cbn [mbind option_bind].
  match goal with |- context [Loop.set d (i - 1) ?x] =>
    destruct (set_lt d (i - 1) x) as (d1 & Hset & Hlen1 & _); [lia|]
  end.
  rewrite Hset. cbn [mbind option_bind].
  match goal with |- context [slope src p_prev p_i ?step (i - 1) (?c, d1)] =>
    destruct (slope_defined src p_prev p_i step (i - 1) c d1)
      as (c2 & d2 & Hs2 & Hlen2); [lia|lia|lia|]
  end.
  rewrite Hs2. cbn [mbind option_bind].
  destruct (Hat (i + 1) ltac:(lia)) as (p_next & Hpn & Hrn). rewrite Hpn.
  cbn [mbind option_bind].
  rewrite int_of_in by (unfold CInt.INT32_MIN, CInt.INT32_MAX in *; lia).
  cbn [mbind option_bind].
  match goal with |- context [slope src p_i p_next ?step (i - 1) (c2, d2)] =>
    destruct (slope_defined src p_i p_next step (i - 1) c2 d2)
      as (c3 & d3 & Hs3 & Hlen3); [lia|lia|lia|]
  end.
  rewrite Hs3. cbn [mbind option_bind]. exists d3. split; [done|congruence].
Qed.

Lemma logmel_defined mel_channel (mel : list F32.float) :
  0 <= mel_channel <= Z.of_nat (length mel) ->
  exists l, logmel log10f mel_channel mel = Some l /\ length l = length mel.
Proof.
  intros Hm. unfold logmel.
  match goal with |- context [Loop.for_range 0 ?hi ?body ?s] =>
    destruct (for_range_total
                (fun (_ : Z) (d : list F32.float) => length d = length mel)
                0 hi body s) as (d' & Hrun' & Hlen')
  end; [lia|done| |eauto].
  intros i d Hi Hd.
  destruct (get_lt d i ltac:(lia)) as [x Hx]. rewrite Hx. cbn [mbind option_bind].
  match goal with |- context [Loop.set d i ?x] =>
    destruct (set_lt d i x) as (d' & Hset & Hlen' & _); [lia|]
  end.
  exists d'. split; [done|congruence].
Qed.

(** The coefficients [dct] writes do not depend on the array they are
    written to. *)
Lemma dct_defined t (logmel_spectrum : list F32.float) :
  0 <= mel_channel (config t) -> 0 <= coef_num (config t) ->
  coef_num (config t) * mel_channel (config t) <= CInt.INT32_MAX ->
  Z.of_nat (length logmel_spectrum) = mel_channel (config t) ->
  Z.of_nat (length (dctII_table t)) = coef_num (config t) * mel_channel (config t) ->
  exists vals,
    Z.of_nat (length vals) = coef_num (config t) /\
    forall (mfcc : list F32.float) off,
      0 <= off -> off + coef_num (config t) <= Z.of_nat (length mfcc) ->
      dct t logmel_spectrum mfcc off
      = Some (take (Z.to_nat off) mfcc ++ vals
              ++ drop (Z.to_nat (off + coef_num (config t))) mfcc).
Proof.
  intros Hmc Hcn Hprod Hlog Htab.
  set (mc := mel_channel (config t)) in *. set (cn := coef_num (config t)) in *.
  pose (f := fun i : Z =>
    default (F32.of_int 0)
      (Loop.for_range 0 mc
         (fun j mfcc_val =>
            x ← Loop.get logmel_spectrum j;
            c ← Loop.get (dctII_table t) (i * mc + j);
            Some (F32.add mfcc_val
                    (F32.div (F32.mul x (F32.of_int c)) (F32.of_int kDctCoef))))
         (F32.of_int 0))).
  exists (f <$> seqZ 0 cn). split; [rewrite length_fmap, length_seqZ; lia|].
  intros mfcc off Hoff Hroom. unfold dct. fold mc cn.
  match goal with |- context [Loop.for_range 0 cn ?body ?s] =>
    destruct (for_range_total
                (fun (i : Z) (d : list F32.float) =>
                   d = take (Z.to_nat off) mfcc ++ (f <$> seqZ 0 i)
                       ++ drop (Z.to_nat (off + i)) mfcc)
                0 cn body s) as (d' & Hrun' & ->)
  end; [lia| | |done].
  - change (seqZ 0 0) with (@nil Z). cbn [fmap list_fmap app].
    rewrite Z.add_0_r. now rewrite take_drop.
  - intros i d Hi ->.
    set (vals := f <$> seqZ 0 i).
    assert (Hvals : Z.of_nat (length vals) = i)
      by (unfold vals; rewrite length_fmap, length_seqZ; lia).
    assert (Hrow : 0 <= i * mc) by (apply Z.mul_nonneg_nonneg; lia).
    assert (Hrow' : (i + 1) * mc <= cn * mc)
      by (apply Z.mul_le_mono_nonneg_r; lia).
    unfold CInt.mul.
    rewrite int_of_in by (unfold CInt.INT32_MIN, CInt.INT32_MAX in *; lia).
    cbn [mbind option_bind].
    match goal with |- context [Loop.for_range 0 mc ?body ?s] =>
      destruct (for_range_total (fun (_ : Z) (_ : F32.float) => True)
                  0 mc body s) as (v & Hv & _)
    end; [lia|done| |].
    + intros j acc Hj _.
      destruct (get_lt logmel_spectrum j ltac:(lia)) as [x Hx]. rewrite Hx.
      cbn [mbind option_bind].
      destruct (get_lt (dctII_table t) (i * mc + j) ltac:(lia)) as [c Hc]. rewrite Hc.
      cbn [mbind option_bind]. eauto.
    + assert (Hfi : f i = v) by (unfold f; now rewrite Hv).
      rewrite Hv. cbn [mbind option_bind].
      assert (Hlen : length (take (Z.to_nat off) mfcc ++ vals) = Z.to_nat (off + i))
        by (rewrite length_app, length_take; lia).
      eexists. split.
      * apply set_Some. split; [|reflexivity].
        rewrite !length_app, length_take, length_drop. lia.
      * replace (seqZ 0 (i + 1)) with (seqZ 0 i ++ [i])
          by (rewrite (seqZ_app 0 i 1) by lia; done).
        rewrite fmap_app. cbn [fmap list_fmap]. fold vals. rewrite Hfi.
        destruct (drop (Z.to_nat (off + i)) mfcc) as [|y rest] eqn:Ed.
        { apply (f_equal length) in Ed. rewrite length_drop in Ed. cbn in Ed. lia. }
        rewrite app_assoc.
        replace (Z.to_nat (off + i))
          with (length (take (Z.to_nat off) mfcc ++ vals) + 0)%nat by lia.
        rewrite insert_app_r.
        cbn [insert list_insert]. rewrite <- !app_assoc. do 2 f_equal. cbn [app].
        f_equal.
        replace (Z.to_nat (off + (i + 1))) with (S (Z.to_nat (off + i))) by lia.
        change (S (Z.to_nat (off + i))) with (1 + Z.to_nat (off + i))%nat.
        rewrite Nat.add_comm, <- drop_drop, Ed. done.
Qed.

(** [calculate] returns, and the state it leaves and the coefficients it
    writes do not depend on the array they are written to. *)
Lemma calculate_defined t s frame fl :
  fits t s fl -> 0 <= pre_emphasis (config t) <= 65535 ->
  readable frame fl ->
  0 <= frame_count s < CInt.INT32_MAX ->
  exists s' vals,
    Z.of_nat (length vals) = coef_num (config t) /\
    fits t s' fl /\ frame_count s' = frame_count s + 1 /\
    forall (mfcc : list F32.float) off,
      0 <= off -> off + coef_num (config t) <= Z.of_nat (length mfcc) ->
      calculate dsps_fft4r_fc32 dsps_bit_rev4r_fc32 dsps_cplx2real_fc32 log10f
        t s frame mfcc off
      = Some (s', take (Z.to_nat off) mfcc ++ vals
                  ++ drop (Z.to_nat (off + coef_num (config t))) mfcc).
Proof.
  intros Hfits Hpre Hread Hcount.
  pose proof Hfits as (Hfl & Hflr & Hmax & Hmc & Hcn & Hprod & Hwin & Hpos & Hin
                       & Htab & Hmel & Hfft).
  cbv zeta in *.
  destruct (emphasise_defined t frame fl (fft_data s) Hflr Hpre Hwin Hfft Hread)
    as (fft1 & He & Hlen1).
  set (half := Z.quot (fft_num (config t)) 2).
  set (fft2 := dsps_cplx2real_fc32
                 (dsps_bit_rev4r_fc32 (dsps_fft4r_fc32 fft1 half) half) half).
  assert (Hlen2 : length fft2 = length (fft_data s)).
  { unfold fft2. now rewrite cplx2real_in_place, bit_rev_in_place, fft_in_place. }
  assert (Hhalf : 0 <= half /\ 2 * half <= fft_num (config t))
    by (unfold half; Z.to_euclidean_division_equations; lia).
  destruct (power_defined half fft2) as (pw & Hpw & Hlenp); [lia|lia|lia|].
  destruct (ApplyMelFilter_defined pw (mel_position t) (mel_channel (config t))
              (mel_data s)) as (mel & Hmelf & Hlenm); [done|done| |lia|done|].
  { eapply Forall_impl; [exact Hin|]. intros p Hp. cbv beta in Hp. lia. }
  destruct (logmel_defined (mel_channel (config t)) mel) as (lm & Hlm & Hlenl); [lia|].
  destruct (dct_defined t lm) as (vals & Hvals & Hdct); [done|done|done|lia|done|].
  exists (mkScratch lm pw (frame_count s + 1)), vals.
  split; [done|]. split.
  { unfold fits. cbv zeta. cbn [mel_data fft_data].
    repeat split; try done; lia. }
  split; [done|].
  intros mfcc off Hoff Hroom.
  unfold calculate. rewrite Hfl. cbn [mbind option_bind].
  rewrite He. cbn [mbind option_bind].
  unfold CInt.div. change (2 =? 0) with false. cbv iota.
  rewrite int_of_in
    by (unfold CInt.INT32_MIN, CInt.INT32_MAX in *;
        Z.to_euclidean_division_equations; lia).
  cbn [mbind option_bind]. fold half. fold fft2.
  rewrite Hpw. cbn [mbind option_bind].
  rewrite Hmelf. cbn [mbind option_bind].
  rewrite Hlm. cbn [mbind option_bind].
  unfold CInt.add.
  rewrite int_of_in by (unfold CInt.INT32_MIN, CInt.INT32_MAX in *; lia).
  cbn [mbind option_bind].
  rewrite Hdct by done. done.
Qed.


Lemma readable_at (raw_audio : list Z) first fl :
  Forall (fun v => CInt.INT16_MIN <= v <= CInt.INT16_MAX) raw_audio ->
  0 <= first -> first + fl <= Z.of_nat (length raw_audio) ->
  readable (raw_audio, first) fl.
Proof.
  intros Hall Hfirst Hroom i Hi. unfold Feature.deref. cbn [fst snd].
  destruct (get_lt raw_audio (first + i) ltac:(lia)) as [v Hv].
  exists v. split; [done|]. apply get_Some in Hv as [_ Hv].
  exact (proj1 (Forall_lookup _ _) Hall _ _ Hv).
Qed.

(** X21.  [calculate] stays inside its buffers.  With the tables and
    scratch buffers sized as [init] sizes them, filter positions inside the
    spectrum, a pre-emphasis of at most 65535 and a frame of
    [frame_length] samples inside an array of [int16_t] values, the call
    returns; it writes the [coef_num] cells [mfcc[off .. off + coef_num)]
    and no other cell of [mfcc], leaves the scratch buffers their sizes,
    and counts the frame. *)
Theorem calculate_in_bounds t s (raw_audio : list Z) first
    (mfcc : list F32.float) off fl :
  fits t s fl -> 0 <= pre_emphasis (config t) <= 65535 ->
  Forall (fun v => CInt.INT16_MIN <= v <= CInt.INT16_MAX) raw_audio ->
  0 <= first -> first + fl <= Z.of_nat (length raw_audio) ->
  0 <= frame_count s < CInt.INT32_MAX ->
  0 <= off -> off + coef_num (config t) <= Z.of_nat (length mfcc) ->
  exists s' vals,
    calculate dsps_fft4r_fc32 dsps_bit_rev4r_fc32 dsps_cplx2real_fc32 log10f
      t s (raw_audio, first) mfcc off
    = Some (s', take (Z.to_nat off) mfcc ++ vals
                ++ drop (Z.to_nat (off + coef_num (config t))) mfcc) /\
    Z.of_nat (length vals) = coef_num (config t) /\
    fits t s' fl /\ frame_count s' = frame_count s + 1.
Proof.
  intros Hfits Hpre Hall Hfirst Hlast Hcount Hoff Hroom.
  destruct (calculate_defined t s (raw_audio, first) fl)
    as (s' & vals & Hvals & Hf & Hc & Hcalc); try done.
  { now apply readable_at. }
  exists s', vals. rewrite Hcalc by done. done.
Qed.

Lemma hop_of_frame c fl hop :
  frame_length c = Some fl -> 2 <= fl -> hop_length c = Some hop ->
  hop = Z.quot fl 2 /\ 1 <= hop <= fl - 1.
Proof.
  intros Hfl Hfl2 Hhop.
  unfold hop_length in Hhop. rewrite Hfl in Hhop. cbn [mbind option_bind] in Hhop.
  unfold CInt.div in Hhop. change (2 =? 0) with false in Hhop. cbv iota in Hhop.
  apply int_of_Some in Hhop as [-> _]. split; [done|].
  Z.to_euclidean_division_equations; lia.
Qed.

Lemma frame_length_fits c fl :
  frame_length c = Some fl -> CInt.INT32_MIN <= fl <= CInt.INT32_MAX.
Proof.
  unfold frame_length. intros H.
  apply bind_Some in H as (p & _ & H). unfold CInt.div in H.
  change (1000 =? 0) with false in H. cbv iota in H.
  now apply int_of_Some in H as [-> H].
Qed.

Lemma quot_small a b : 0 < b -> Z.abs (Z.quot a b) <= Z.abs a.
Proof.
  intros Hb. Z.to_euclidean_division_equations. nia.
Qed.

(** X22.  A recording shorter than one frame.  With a frame of at least
    two samples, [create(raw_audio, length)] for [0 <= length <
    frame_length] returns the null pointer, whatever the heap and the
    array hold: no sample is read and [calculate] is not called. *)
Theorem create_raw_audio_too_short h junk junkf t s (raw_audio : list Z) length fl hop :
  frame_length (config t) = Some fl -> 2 <= fl ->
  hop_length (config t) = Some hop ->
  0 <= length < fl ->
  create_raw_audio dsps_fft4r_fc32 dsps_bit_rev4r_fc32 dsps_cplx2real_fc32 log10f
    h junk junkf t s raw_audio length = Some (Null, s).
Proof.
  intros Hfl Hfl2 Hhop Hlen.
  destruct (hop_of_frame _ _ _ Hfl Hfl2 Hhop) as [_ Hhp].
  pose proof (frame_length_fits _ _ Hfl) as Hfmax.
  pose proof (quot_small (length - (fl - hop)) hop ltac:(lia)) as Hqs.
  unfold create_raw_audio. rewrite Hfl, Hhop.
  cbn [mbind option_bind]. unfold CInt.sub.
  rewrite (int_of_in (fl - hop)) by (unfold CInt.INT32_MIN, CInt.INT32_MAX in *; lia).
  cbn [mbind option_bind].
  rewrite (int_of_in (length - (fl - hop)))
    by (unfold CInt.INT32_MIN, CInt.INT32_MAX in *; lia).
  cbn [mbind option_bind].
  unfold CInt.div. replace (hop =? 0) with false by (symmetry; apply Z.eqb_neq; lia).
  rewrite int_of_in by (unfold CInt.INT32_MIN, CInt.INT32_MAX in *; lia).
  cbn [mbind option_bind].
  replace (_ <=? 0) with true; [done|].
  symmetry. apply Z.leb_le.
  destruct (Z.le_gt_cases 0 (length - (fl - hop))) as [Hpos|Hneg].
  - rewrite Z.quot_small by lia. done.
  - apply Z.quot_le_upper_bound; lia.
Qed.

(** X23.  [create(raw_audio, length)] cuts the recording into frames that
    overlap by half.  For an engine set up as [init] leaves it, with a
    frame of at least two samples and a recording of at least one frame:
    when both allocations succeed, [calculate] runs on the
    [(length - frame_length) / hop_length + 1] frames that start at the
    samples [0], [hop_length], [2 * hop_length], ..., the last of which
    ends within [raw_audio[0 .. length)], each run starting from the
    scratch state [states k] the run before has left.  Row [k] of the
    coefficient matrix [temp] is what the [k]-th of these runs writes,
    whatever array it is given to write to, and the result is what
    [create(mfccs, frame_num, coef_num)] makes of [temp]. *)
Theorem create_raw_audio_frames h junk junkf t s (raw_audio : list Z) length fl hop :
  fits t s fl -> 0 <= pre_emphasis (config t) <= 65535 ->
  2 <= fl -> hop_length (config t) = Some hop ->
  Forall (fun v => CInt.INT16_MIN <= v <= CInt.INT16_MAX) raw_audio ->
  fl <= length -> length <= Z.of_nat (List.length raw_audio) ->
  length <= CInt.INT32_MAX ->
  ((length - fl) / hop + 1) * coef_num (config t) <= CInt.INT32_MAX ->
  0 <= frame_count s -> frame_count s + ((length - fl) / hop + 1) <= CInt.INT32_MAX ->
  Heap.malloc h (CInt.u32 (2 * ((length - fl) / hop + 1) * coef_num (config t))) = true ->
  is_Some (Heap.new_array
             (Heap.mk (Heap.free h
                       - CInt.u32 (2 * ((length - fl) / hop + 1) * coef_num (config t)))
                (Heap.malloc_zero h))
             4 (((length - fl) / hop + 1) * coef_num (config t))) ->
  ((length - fl) / hop) * hop + fl <= length /\
  exists (states : Z -> Scratch) (temp : list F32.float),
    states 0 = s /\
    Z.of_nat (List.length temp) = ((length - fl) / hop + 1) * coef_num (config t) /\
    (forall k, 0 <= k < (length - fl) / hop + 1 ->
       forall (out : list F32.float) off,
         0 <= off -> off + coef_num (config t) <= Z.of_nat (List.length out) ->
         calculate dsps_fft4r_fc32 dsps_bit_rev4r_fc32 dsps_cplx2real_fc32 log10f
           t (states k) (raw_audio, k * hop) out off
         = Some (states (k + 1),
                 take (Z.to_nat off) out
                 ++ take (Z.to_nat (coef_num (config t)))
                      (drop (Z.to_nat (k * coef_num (config t))) temp)
                 ++ drop (Z.to_nat (off + coef_num (config t))) out)) /\
    fits t (states ((length - fl) / hop + 1)) fl /\
    frame_count (states ((length - fl) / hop + 1))
    = frame_count s + ((length - fl) / hop + 1) /\
    create_raw_audio dsps_fft4r_fc32 dsps_bit_rev4r_fc32 dsps_cplx2real_fc32 log10f
      h junk junkf t s raw_audio length
    = r ← create_mfccs h junk temp ((length - fl) / hop + 1) (coef_num (config t));
      Some (from_option Built Null r, states ((length - fl) / hop + 1)).
Proof.
  intros Hfits Hpre Hfl2 Hhop Hall Hlong Hlen Hmax Hprod Hfc0 Hfc Hmalloc [h2 Hnew].
  pose proof Hfits as (Hfl & Hflr & Hfmax & Hmc & Hcn & _).
  cbv zeta in Hfl, Hflr, Hfmax, Hmc, Hcn.
  destruct (hop_of_frame _ _ _ Hfl Hfl2 Hhop) as [_ Hhp].
  remember ((length - fl) / hop + 1) as frame_num eqn:Efn.
  set (cn := coef_num (config t)) in *.
  assert (Hspan : CInt.INT32_MIN <= length - (fl - hop) <= CInt.INT32_MAX)
    by (unfold CInt.INT32_MIN, CInt.INT32_MAX in *; lia).
  assert (Hov : CInt.INT32_MIN <= fl - hop <= CInt.INT32_MAX)
    by (unfold CInt.INT32_MIN, CInt.INT32_MAX in *; lia).
  pose proof (quot_small (length - (fl - hop)) hop ltac:(lia)) as Hqs.
  assert (Hq : CInt.INT32_MIN <= Z.quot (length - (fl - hop)) hop <= CInt.INT32_MAX)
    by (unfold CInt.INT32_MIN, CInt.INT32_MAX in *; lia).
  assert (Hnz : (hop =? 0) = false) by (apply Z.eqb_neq; lia).
  assert (Hdiv : 0 <= (length - fl) / hop /\ hop * ((length - fl) / hop) <= length - fl).
  { split; [apply Z.div_pos; lia|apply Z.mul_div_le; lia]. }
  assert (Hfn : Z.quot (length - (fl - hop)) hop = frame_num).
  { rewrite Z.quot_div_nonneg by lia. rewrite Efn.
    replace (length - (fl - hop)) with (length - fl + 1 * hop) by lia.
    rewrite Z.div_add by lia. done. }
  assert (Hfn1 : 1 <= frame_num) by lia.
  split; [lia|].
  assert (Hcells0 : 0 <= frame_num * cn) by (apply Z.mul_nonneg_nonneg; lia).
  pose (row := fun (k : Z) (temp : list F32.float) =>
                 take (Z.to_nat cn) (drop (Z.to_nat (k * cn)) temp)).
  match goal with |- context [create_raw_audio ?a ?b ?c ?d ?e ?f ?g ?t0 ?s0 ?r ?l] =>
    assert (Hloop : exists (states : Z -> Scratch) temp,
      Loop.for_range 0 frame_num
        (fun fnum '(s, temp_feature) =>
           first ← CInt.mul fnum hop;
           out ← CInt.mul fnum cn;
           calculate a b c d t s (raw_audio, first) temp_feature out)
        (s, fresh junkf (frame_num * cn)) = Some (states frame_num, temp) /\
      states 0 = s /\
      Z.of_nat (List.length temp) = frame_num * cn /\
      (forall k, 0 <= k < frame_num ->
         forall (out : list F32.float) off,
           0 <= off -> off + cn <= Z.of_nat (List.length out) ->
           calculate a b c d t (states k) (raw_audio, k * hop) out off
           = Some (states (k + 1),
                   take (Z.to_nat off) out ++ row k temp
                   ++ drop (Z.to_nat (off + cn)) out)) /\
      fits t (states frame_num) fl /\
      frame_count (states frame_num) = frame_count s + frame_num)
  end.
  { match goal with |- context [Loop.for_range 0 frame_num ?body ?init] =>
      destruct (for_range_total
                  (fun (k : Z) (st : Scratch * list F32.float) =>
                     Z.of_nat (List.length st.2) = frame_num * cn /\
                     fits t st.1 fl /\ frame_count st.1 = frame_count s + k /\
                     exists states : Z -> Scratch,
                       states 0 = s /\ states k = st.1 /\
                       forall j, 0 <= j < k ->
                         forall (out : list F32.float) off,
                           0 <= off -> off + cn <= Z.of_nat (List.length out) ->
                           calculate dsps_fft4r_fc32 dsps_bit_rev4r_fc32
                             dsps_cplx2real_fc32 log10f
                             t (states j) (raw_audio, j * hop) out off
                           = Some (states (j + 1),
                                   take (Z.to_nat off) out ++ row j st.2
                                   ++ drop (Z.to_nat (off + cn)) out))
                  0 frame_num body init)
        as ([s' temp] & Hrun & Hlt & Hfs & Hcs & states & S0 & Sn & Srows)
    end; [lia| | |].
    - cbn [fst snd]. split; [|split; [done|split; [lia|]]].
      + unfold fresh. rewrite length_fmap, length_seqZ. lia.
      + exists (fun _ => s). split; [done|]. split; [done|]. intros j Hj. lia.
    - intros k [sk tk] Hk (Hlk & Hfk & Hck & states & S0 & Sk & Srows).
      cbn [fst snd] in *.
      assert (Hk1 : k * hop <= (frame_num - 1) * hop)
        by (apply Z.mul_le_mono_nonneg_r; lia).
      assert (Hk0 : 0 <= k * hop) by (apply Z.mul_nonneg_nonneg; lia).
      assert (Hk2 : (k + 1) * cn <= frame_num * cn)
        by (apply Z.mul_le_mono_nonneg_r; lia).
      assert (Hk3 : 0 <= k * cn) by (apply Z.mul_nonneg_nonneg; lia).
      assert (Hlast : (frame_num - 1) * hop + fl <= length) by lia.
      unfold CInt.mul.
      rewrite (int_of_in (k * hop))
        by (unfold CInt.INT32_MIN, CInt.INT32_MAX in *; lia).
      cbn [mbind option_bind].
      rewrite (int_of_in (k * cn))
        by (unfold CInt.INT32_MIN, CInt.INT32_MAX in *; lia).
      cbn [mbind option_bind].
      destruct (calculate_defined t sk (raw_audio, k * hop) fl)
        as (s1 & vals & Hvals & Hf1 & Hc1 & Hcalc); try done; try lia.
      { apply readable_at; [done|lia|lia]. }
      rewrite Hcalc by lia. eexists. split; [reflexivity|]. cbn [fst snd].
      set (tk' := take (Z.to_nat (k * cn)) tk ++ vals
                  ++ drop (Z.to_nat (k * cn + cn)) tk).
      split; [unfold tk'; rewrite !length_app, length_take, length_drop; lia|].
      split; [done|]. split; [lia|].
      exists (fun j => if j =? k + 1 then s1 else states j).
      replace (0 =? k + 1) with false by (symmetry; apply Z.eqb_neq; lia).
      rewrite Z.eqb_refl. split; [done|]. split; [done|].
      intros j Hj out off Hoff Hroom.
      replace (j =? k + 1) with false by (symmetry; apply Z.eqb_neq; lia).
      destruct (Z.eq_dec j k) as [->|Hne].
      + rewrite Z.eqb_refl, Sk, Hcalc by done. do 3 f_equal.
        unfold row, tk'.
        rewrite drop_app_length' by (rewrite length_take; lia).
        rewrite take_app_length' by lia. done.
      + replace (j + 1 =? k + 1) with false by (symmetry; apply Z.eqb_neq; lia).
        rewrite Srows by lia. do 3 f_equal.
        assert (Hj1 : (j + 1) * cn <= k * cn)
          by (apply Z.mul_le_mono_nonneg_r; lia).
        assert (Hj0 : 0 <= j * cn) by (apply Z.mul_nonneg_nonneg; lia).
        unfold row, tk'.
        rewrite !take_drop_commute.
        rewrite take_app_le by (rewrite length_take; lia).
        rewrite take_take.
        replace (Nat.min (Z.to_nat (j * cn) + Z.to_nat cn) (Z.to_nat (k * cn)))
          with (Z.to_nat (j * cn) + Z.to_nat cn)%nat by lia.
        done.
    - cbn [fst snd] in *. subst s'.
      exists states, temp. split; [done|]. split; [done|]. split; [done|].
      split; [exact Srows|]. split; done. }
  destruct Hloop as (states & temp & Hrun & S0 & Hlt & Srows & Hfs & Hcs).
  exists states, temp. split; [done|]. split; [done|]. split; [exact Srows|].
  split; [done|]. split; [done|].
  subst cn.
  unfold create_raw_audio. rewrite Hfl, Hhop.
  cbn [mbind option_bind]. unfold CInt.sub.
  rewrite (int_of_in _ Hov). cbn [mbind option_bind].
  rewrite (int_of_in _ Hspan). cbn [mbind option_bind].
  unfold CInt.div. rewrite Hnz, (int_of_in _ Hq). cbn [mbind option_bind].
  rewrite Hfn.
  replace (frame_num <=? 0) with false by (symmetry; apply Z.leb_gt; lia).
  rewrite Hmalloc. unfold CInt.mul.
  rewrite (int_of_in (frame_num * coef_num (config t)))
    by (unfold CInt.INT32_MIN, CInt.INT32_MAX in *; lia).
  cbn [mbind option_bind]. rewrite Hnew. cbn [negb].
  unfold CInt.mul in Hrun. rewrite Hrun. cbn [mbind option_bind].
  unfold create_mfccs. rewrite Hmalloc. cbn [negb].
  destruct (normalize _ _ _ _); done.
Qed.

(** X24.  A frame time of zero.  A configuration whose [frame_time_ms] is 0
    and whose other fields are valid passes [VerifyMfccConfig]; its frame
    and hop lengths are 0, and [create(raw_audio, length)] then divides by
    zero, whatever the recording. *)
Theorem create_raw_audio_zero_frame_time h junk junkf t s (raw_audio : list Z) length :
  frame_time_ms (config t) = 0 ->
  0 <= fft_num (config t) -> dsp_is_power_of_two (fft_num (config t)) = true ->
  0 <= mel_channel (config t) -> 0 <= coef_num (config t) ->
  0 <= pre_emphasis (config t) ->
  sample_rate (config t) = 8000 \/ sample_rate (config t) = 16000 ->
  VerifyMfccConfig (config t) = Some true /\
  hop_length (config t) = Some 0 /\
  create_raw_audio dsps_fft4r_fc32 dsps_bit_rev4r_fc32 dsps_cplx2real_fc32 log10f
    h junk junkf t s raw_audio length = None.
Proof.
  intros Hms Hfft Hpow Hmc Hcn Hpre Hrate.
  assert (Hfl : frame_length (config t) = Some 0).
  { unfold frame_length. rewrite Hms. unfold CInt.mul. rewrite Z.mul_0_l. done. }
  assert (Hhop : hop_length (config t) = Some 0).
  { unfold hop_length. rewrite Hfl. done. }
  split; [|split; [done|]].
  - unfold VerifyMfccConfig. rewrite Hpow, Hfl, Hms.
    replace (fft_num (config t) <? 0) with false by (symmetry; apply Z.ltb_ge; lia).
    replace (mel_channel (config t) <? 0) with false by (symmetry; apply Z.ltb_ge; lia).
    replace (coef_num (config t) <? 0) with false by (symmetry; apply Z.ltb_ge; lia).
    replace (pre_emphasis (config t) <? 0) with false by (symmetry; apply Z.ltb_ge; lia).
    cbn [negb orb mbind option_bind]. change (0 <? 0) with false. cbn [orb].
    replace (fft_num (config t) <? 0) with false by (symmetry; apply Z.ltb_ge; lia).
    destruct Hrate as [-> | ->]; done.
  - unfold create_raw_audio. rewrite Hfl, Hhop. cbn [mbind option_bind].
    change (CInt.sub 0 0) with (Some 0). cbn [mbind option_bind].
    destruct (CInt.sub length 0); done.
Qed.

End CalculateBounds.

Lemma tiny_fits : Create.fits Create.tiny_tables Create.tiny_scratch 8.
Proof.
  unfold Create.fits. cbv zeta.
  repeat split; try reflexivity; try (vm_compute; congruence).
  repeat constructor; cbn; lia.
Qed.

Lemma calculate_in_bounds_witness :
  exists s' vals,
    Create.calculate Create.idle_pass Create.idle_pass Create.idle_pass (fun x => x)
      Create.tiny_tables Create.tiny_scratch (replicate 8 0, 0) [F32.of_int 0] 0
    = Some (s', take (Z.to_nat 0) [F32.of_int 0] ++ vals
                ++ drop (Z.to_nat (0 + Mfcc.coef_num (Create.config Create.tiny_tables)))
                     [F32.of_int 0]) /\
    Z.of_nat (length vals) = Mfcc.coef_num (Create.config Create.tiny_tables) /\
    Create.fits Create.tiny_tables s' 8 /\
    Create.frame_count s' = Create.frame_count Create.tiny_scratch + 1.
Proof.
  apply (calculate_in_bounds Create.idle_pass Create.idle_pass Create.idle_pass
           (fun x => x) (fun _ _ => eq_refl) (fun _ _ => eq_refl) (fun _ _ => eq_refl)
           Create.tiny_tables Create.tiny_scratch (replicate 8 0) 0 [F32.of_int 0] 0 8).
  - exact tiny_fits.
  - cbn. lia.
  - apply Forall_replicate. unfold CInt.INT16_MIN, CInt.INT16_MAX. lia.
  - lia.
  - rewrite length_replicate. lia.
  - cbn. unfold CInt.INT32_MAX. lia.
  - lia.
  - cbn. lia.
Defined.

Lemma create_raw_audio_too_short_witness :
  Create.create_raw_audio Create.idle_pass Create.idle_pass Create.idle_pass
    (fun x => x) (Heap.mk 1000 false) (fun _ => 0) (fun _ => F32.of_int 0)
    Create.tiny_tables Create.tiny_scratch (replicate 7 0) 7
  = Some (Create.Null, Create.tiny_scratch).
Proof.
  apply (create_raw_audio_too_short Create.idle_pass Create.idle_pass Create.idle_pass
           (fun x => x) (Heap.mk 1000 false) (fun _ => 0) (fun _ => F32.of_int 0)
           Create.tiny_tables Create.tiny_scratch (replicate 7 0) 7 8 4).
  - reflexivity.
  - lia.
  - reflexivity.
  - lia.
Defined.

Lemma create_raw_audio_frames_witness :
  ((12 - 8) / 4) * 4 + 8 <= 12 /\
  exists (states : Z -> Create.Scratch) (temp : list F32.float),
    states 0 = Create.tiny_scratch /\
    Z.of_nat (length temp)
    = ((12 - 8) / 4 + 1) * Mfcc.coef_num (Create.config Create.tiny_tables) /\
    (forall k, 0 <= k < (12 - 8) / 4 + 1 ->
       forall (out : list F32.float) off,
         0 <= off ->
         off + Mfcc.coef_num (Create.config Create.tiny_tables)
         <= Z.of_nat (length out) ->
         Create.calculate Create.idle_pass Create.idle_pass Create.idle_pass
           (fun x => x) Create.tiny_tables (states k) (replicate 12 0, k * 4) out off
         = Some (states (k + 1),
                 take (Z.to_nat off) out
                 ++ take (Z.to_nat (Mfcc.coef_num (Create.config Create.tiny_tables)))
                      (drop (Z.to_nat
                               (k * Mfcc.coef_num (Create.config Create.tiny_tables)))
                         temp)
                 ++ drop (Z.to_nat
                            (off + Mfcc.coef_num (Create.config Create.tiny_tables)))
                      out)) /\
    Create.fits Create.tiny_tables (states ((12 - 8) / 4 + 1)) 8 /\
    Create.frame_count (states ((12 - 8) / 4 + 1))
    = Create.frame_count Create.tiny_scratch + ((12 - 8) / 4 + 1) /\
    Create.create_raw_audio Create.idle_pass Create.idle_pass Create.idle_pass
      (fun x => x) (Heap.mk 1000 false) (fun _ => 0) (fun _ => F32.of_int 0)
      Create.tiny_tables Create.tiny_scratch (replicate 12 0) 12
    = r ← Create.create_mfccs (Heap.mk 1000 false) (fun _ => 0) temp
            ((12 - 8) / 4 + 1) (Mfcc.coef_num (Create.config Create.tiny_tables));
      Some (from_option Create.Built Create.Null r, states ((12 - 8) / 4 + 1)).
Proof.
  apply (create_raw_audio_frames Create.idle_pass Create.idle_pass Create.idle_pass
           (fun x => x) (fun _ _ => eq_refl) (fun _ _ => eq_refl) (fun _ _ => eq_refl)
           (Heap.mk 1000 false) (fun _ => 0) (fun _ => F32.of_int 0)
           Create.tiny_tables Create.tiny_scratch (replicate 12 0) 12 8 4).
  - exact tiny_fits.
  - cbn. lia.
  - lia.
  - reflexivity.
  - apply Forall_replicate. unfold CInt.INT16_MIN, CInt.INT16_MAX. lia.
  - lia.
  - rewrite length_replicate. lia.
  - unfold CInt.INT32_MAX. lia.
  - vm_compute. congruence.
  - cbn. lia.
  - vm_compute. congruence.
  - reflexivity.
  - vm_compute. eauto.
Defined.

Lemma create_raw_audio_zero_frame_time_witness :
  Mfcc.VerifyMfccConfig
    (Create.config (Create.mkTables (Mfcc.mkMfccConfig 8 1 1 97 8000 0) [] [0; 2; 4] [10000]))
  = Some true /\
  Mfcc.hop_length
    (Create.config (Create.mkTables (Mfcc.mkMfccConfig 8 1 1 97 8000 0) [] [0; 2; 4] [10000]))
  = Some 0 /\
  Create.create_raw_audio Create.idle_pass Create.idle_pass Create.idle_pass
    (fun x => x) (Heap.mk 1000 false) (fun _ => 0) (fun _ => F32.of_int 0)
    (Create.mkTables (Mfcc.mkMfccConfig 8 1 1 97 8000 0) [] [0; 2; 4] [10000])
    Create.tiny_scratch (replicate 12 0) 12
  = None.
Proof.
  apply (create_raw_audio_zero_frame_time Create.idle_pass Create.idle_pass
           Create.idle_pass (fun x => x) (Heap.mk 1000 false) (fun _ => 0)
           (fun _ => F32.of_int 0)
           (Create.mkTables (Mfcc.mkMfccConfig 8 1 1 97 8000 0) [] [0; 2; 4] [10000])
           Create.tiny_scratch (replicate 12 0) 12).
  - reflexivity.
  - cbn. lia.
  - reflexivity.
  - cbn. lia.
  - cbn. lia.
  - cbn. lia.
  - left. reflexivity.
Defined.
